(* ===== verification/_CoqProject ===== *)
-Q . S2P
Prelude.v
Text.v
Doubles.v
FlowMarker.v
NthElement.v
MaxMin.v
HashRing.v
ParMap.v
Clock.v
Views.v
RateLimits.v
FlowState.v
FlowTracker.v
SsLines.v
Aggregator.v
Selectors.v
Allocators.v
ClusterAllocator.v
FullController.v
FastAggregator.v
FastController.v
Server.v
AgentChannel.v
Threads.v
Iptables.v
IptablesTable.v
Wan.v
Enforcer.v
EnforcerSpec.v
EnforcerRates.v
EnforcerRuns.v
Daemon.v
HostAgent.v
SubProcess.v
Communicate.v
CommandTimer.v
Commands.v
CommandsSpec.v
Binary.v
Rpc.v
LoadGen.v
Files.v
Histogram.v
Recorder.v
MergeLogs.v
MaxMinDist.v
StepWorker.v
WantVsHave.v
OsTest.v
ExpectedLoad.v
