(* ===== verification/Prelude.v ===== *)
(** * HEYP agents: a verification library of the C++ control plane

    HEYP divides the capacity between data centers among aggregates of flows
    ("flow groups", FGs).  A host agent measures the connections of its host
    and sends their usage to a cluster agent; the cluster agent predicts the
    demand of every FG, decides how much of it goes at low priority, divides
    the limits among the hosts, and answers with the allocations of each
    host; the host agent enforces them with the traffic control and the
    packet filter of Linux.  The library models the C++ sources under
    src/heyp/ function by function and proves what each part promises to the
    next one.

    ** Conventions

    Integers are [Z] with the wrap-around of their width written out where
    the code can reach it ([i64], [u64], [u128], [i32]); [double] is IEEE 754
    binary64 in the Standard Library's executable [SpecFloat] (file
    [Doubles]).  A failed [H_SPDLOG_CHECK], [H_ASSERT] or [exit] is [None]; a
    status is a boolean or a sum.  Hash maps are stdpp's [gmap] and their
    iteration order is that of [map_to_list]; the theorems on code whose
    result depends on such an order hold for every order or say which.
    Vectors and spans are lists; where the source updates or reads past the
    end the definition says what happens there.  Hash functions, the knapsack
    solver, JSON, the histogram library, gRPC, libuv, the answers of system
    calls, [ss], [tc] and [iptables] are parameters; what is assumed of them
    are the laws of a class or named hypotheses, and every such theorem has a
    witness in which they are instantiated by concrete functions.  Time is
    the interface [Clock].

    A loop that is not structural has fuel, and a theorem or a lemma next to
    it shows how much is enough: the number of demands for the partial sort
    of [MaxMin] and [MaxMinDist], one round per character for the merging of
    logs, the bytes left and the answers of the kernel for the reading and
    writing loops.  Where a loop of the code need not end, that is a lemma
    too.  Flaws of the code are stated as lemmas of closed examples or of the
    general case, beside the definitions that have them.

    Code that holds one mutex from its beginning to its end is one function
    on the state.  Code that several threads run without a lock, or with
    several critical sections, is a step relation over the program points of
    the threads: the double buffer of [FastAggregator], the executor of
    [Threads], the channel of [AgentChannel], the callbacks of [Server], the
    timer of [CommandTimer], the ends of the flows in [StepWorker].

    ** Cluster agent

    - [FlowMarker]: the messages of proto/heyp.proto and the comparisons of
      flows of proto/alg.cc and flows/agg-marker.h.
    - [NthElement], [MaxMin]: alg/fairness.  The selection and the
      water-filling solvers, full sort and partial sort.  On inputs whose sum
      fits in 64 bits the level is the max-min fair one; the two solvers agree
      up to 512 demands.  The fuel of the partial sort is the number of
      demands, which the proof shows is enough.
    - [HashRing], [Views], [RateLimits], [Selectors]: alg/downgrade,
      alg/qos-downgrade, alg/rate-limits, alg/sampler.  For
      changes by whole chunks (see [HashRing.whole_chunks] and, for others,
      [UpdateFrac_stray_chunk]) the difference computed by [UpdateFrac] is
      exactly the set of ids that change side, and the hashing selector's mask
      is membership of the ring; the greedy selectors do not move away from
      the goal.
    - [FlowState], [ParMap], [Aggregator]: flows/ and threads/par-indexed-map.
      Every reported flow is kept once, and [ForEachAgg] reports the sums over
      live and dead flows; counters never go back.
    - [Allocators], [ClusterAllocator]: cluster-agent/per-agg-allocators and
      allocator.cc.  The five allocators; any schedule of the tasks gives the
      allocations of the sequential run.
    - [FullController], [FastAggregator], [FastController]: the two cluster
      controllers.  A round notifies every listener with the allocations
      computed from the aggregates; the sharded queue has no data race and
      delivers every report once; the flags and the usage of the hosts known
      before a change of the ring follow it, and every host is told once of
      each of its states.
    - [Server]: cluster-agent/server.cc, the reactor of a connection refines
      a mailbox that keeps the newest bundle.
    - [Threads]: threads/executor, waitgroup, lossy-queue.  Every task that
      was added is in one place until it has run, it runs once, a group waits
      for all its tasks, and no state is stuck.

    ** Host agent

    - [FlowTracker]: host-agent/flow-tracker.cc and [FlowState]'s leaf states:
      the active and the finished connections, their numbers and counters.
      The fuel of the loop of [UpdateFlows] is enough for counters that are
      not negative.
    - [Iptables], [IptablesTable]: the iptables controller.  A commit installs
      exactly the staged settings on a table with iptables' documented
      semantics, and the mark found by [SettingsFindDscp] is the table's.
    - [Wan]: flows/dc-mapper.cc and simulated-wan-db.cc.  The tables of the
      mapper are functions of its entries; every pair of data centers has a
      network configuration.
    - [Enforcer], [EnforcerSpec], [EnforcerRates], [EnforcerRuns]: the Linux
      enforcer.  Classes never clash, no check fails, the rates on the device
      are the limits, rates rise before and fall after the packet filter
      changes, and a flow counts as low priority exactly when its packets are
      marked so.
    - [Daemon], [HostAgent]: daemon.cc and host-agent.cc.  The loops over
      the interfaces of tracker, aggregator and enforcer, in any
      interleaving, and the instances of these interfaces.
    - [AgentChannel]: cluster-agent-channel.cc, the stream shared by the
      writing and the reading loop refines one stream at a time, used as gRPC
      asks.

    ** Commands and files

    - [Text], [SsLines]: words, lines and numbers; host-agent/urls.cc,
      parse-ss.cc and the parser that gen-parse-ss.py generates.  A line that
      [ss] prints for a connection is read back with its counters.
    - [SubProcess], [Communicate], [CommandTimer]: io/subprocess.cc.  Starting
      a command leaks no descriptor and keeps the parent's ends of its pipes; its input is written and its output read
      completely; the timer kills no other process while the command is not
      reaped, and the object can be destroyed except in the states that
      [CommandTimer.doomed] names.
    - [Commands], [CommandsSpec]: linux-enforcer/iptables.cc, tc-caller.cc and
      data.cc on top of these; the documented behaviour of the programs gives
      the interfaces that [IptablesTable] and [Enforcer] are proved against.
    - [Files]: proto/fileio.cc, proto/ndjson-logger.cc, posix/pidfile.cc,
      io/look-path.cc and io/debug-output-logger.cc.

    ** Statistics

    - [Histogram]: stats/hdrhistogram.cc and hdrhist2csv.cc; a histogram
      written to a message and read back is equivalent to itself.
    - [Recorder]: stats/recorder.cc; the log has the records of the steps in
      order, however late the worker writes them.
    - [MergeLogs]: app/testlopri/merge-logs.cc; the merged log has one record
      for each round of records, whose numbers are their sums.
    - [MaxMinDist]: alg/fairness/max-min-fairness-dist.cc, over doubles and
      over rationals.

    ** Test programs

    - [Binary], [Rpc], [LoadGen]: encoding/binary.h and app/testlopri.  Every
      request with a body is answered with its header whatever pieces the
      stream comes in; the open generator follows the schedule of the workload
      whenever its callbacks run, and they return; the semi-open generator
      keeps its bounds.
    - [ExpectedLoad]: mk-expected-tput.cc and mk-expected-interarrival-dist.cc.
    - [StepWorker], [OsTest], [WantVsHave]: integration.  The metrics of the
      workers are the rates of their flows, a worker that is shut down when
      its flows are past their start comes to its end though its threads are
      blocked in the kernel, the wanted rates are
      the limits that are enforced, and the table has one row for each flow
      and step.

    ** Not modelled

    Third-party code (third_party, Abseil, protobuf, gRPC, libuv,
    hdrhistogram_c, OR-tools) and the Go, Python and shell programs of the
    experiments.  Logging, debug output and the texts of errors, except where
    a state depends on them; spdlog.h, init.cc, strerror.cc, set-name.cc and
    mutex-helpers.h, whose lock that warns is a lock.  The helpers of tests in
    proto/ and the formatting of ids and allocations for messages.  The main
    functions, but for what host-agent.cc, merge-logs.cc and hdrhist2csv.cc
    decide themselves; alg/export.cc.  The members of [HdrHistogram] that
    only call the library.  Creating and connecting the sockets of the test
    programs.  The variant of [SubProcess::Start] that forks, which is
    compiled on other systems.  Tests and benchmarks.
*)

From stdpp Require Export base tactics list numbers strings gmap sorting fin_maps.
From Stdlib Require Export ZArith Lia Permutation.

#[global] Open Scope Z_scope.

(** ** Notation and automation *)

Declare Scope heyp_scope.
Delimit Scope heyp_scope with heyp.
Create HintDb heyp.

(** Boolean tests become propositions, in the goal and in the context. *)
Ltac bool_to_prop :=
  repeat match goal with
  | H : (_ && _)%bool = true |- _ => apply andb_true_iff in H; destruct H
  | H : (_ && _)%bool = false |- _ => apply andb_false_iff in H
  | H : (_ || _)%bool = true |- _ => apply orb_true_iff in H
  | H : (_ || _)%bool = false |- _ => apply orb_false_iff in H; destruct H
  | H : negb _ = true |- _ => apply negb_true_iff in H
  | H : negb _ = false |- _ => apply negb_false_iff in H
  | H : (_ <? _) = true |- _ => apply Z.ltb_lt in H
  | H : (_ <? _) = false |- _ => apply Z.ltb_ge in H
  | H : (_ <=? _) = true |- _ => apply Z.leb_le in H
  | H : (_ <=? _) = false |- _ => apply Z.leb_gt in H
  | H : (_ =? _) = true |- _ => apply Z.eqb_eq in H
  | H : (_ =? _) = false |- _ => apply Z.eqb_neq in H
  | H : (_ <? _)%nat = true |- _ => apply Nat.ltb_lt in H
  | H : (_ <? _)%nat = false |- _ => apply Nat.ltb_ge in H
  | H : (_ <=? _)%nat = true |- _ => apply Nat.leb_le in H
  | H : (_ <=? _)%nat = false |- _ => apply Nat.leb_gt in H
  | H : (_ =? _)%nat = true |- _ => apply Nat.eqb_eq in H
  | H : (_ =? _)%nat = false |- _ => apply Nat.eqb_neq in H
  | H : bool_decide _ = true |- _ => apply bool_decide_eq_true in H
  | H : bool_decide _ = false |- _ => apply bool_decide_eq_false in H
  end.

(** Split on the first conditional of the goal, keeping the test as a
    proposition. *)
Ltac case_if :=
  match goal with
  | |- context [if ?b then _ else _] =>
      lazymatch type of b with
      | bool => let E := fresh "Hif" in destruct b eqn:E; bool_to_prop
      end
  end.

Ltac case_if_in H :=
  match type of H with
  | context [if ?b then _ else _] =>
      lazymatch type of b with
      | bool => let E := fresh "Hif" in destruct b eqn:E; bool_to_prop
      end
  end.

(** ** Machine integers

    A C++ integer is a [Z] kept in the range of its width; an operation
    that leaves the range is reduced to the two's complement value. *)

Definition u16 (z : Z) : Z := z mod 2 ^ 16.
Definition u32 (z : Z) : Z := z mod 2 ^ 32.
Definition u64 (z : Z) : Z := z mod 2 ^ 64.
Definition u128 (z : Z) : Z := z mod 2 ^ 128.
Definition i32 (z : Z) : Z := (z + 2 ^ 31) mod 2 ^ 32 - 2 ^ 31.
Definition i64 (z : Z) : Z := (z + 2 ^ 63) mod 2 ^ 64 - 2 ^ 63.

Definition int64_max : Z := 2 ^ 63 - 1.
Definition int64_min : Z := - 2 ^ 63.

Definition in_i64 (z : Z) : Prop := - 2 ^ 63 <= z < 2 ^ 63.
Definition in_u64 (z : Z) : Prop := 0 <= z < 2 ^ 64.

Lemma i64_id z : in_i64 z -> i64 z = z.
Proof. unfold in_i64, i64. intros H. rewrite Z.mod_small; lia. Qed.

Lemma i64_in_range z : in_i64 (i64 z).
Proof.
  unfold in_i64, i64.
  pose proof (Z.mod_pos_bound (z + 2 ^ 63) (2 ^ 64)). lia.
Qed.

Lemma u64_id z : in_u64 z -> u64 z = z.
Proof. unfold in_u64, u64. intros H. by apply Z.mod_small. Qed.

Lemma u64_in_range z : in_u64 (u64 z).
Proof. unfold in_u64, u64. apply Z.mod_pos_bound. lia. Qed.

Lemma i64_congr a b : a mod 2 ^ 64 = b mod 2 ^ 64 -> i64 a = i64 b.
Proof.
  intros H. unfold i64. f_equal.
  rewrite <- (Z.add_mod_idemp_l a), <- (Z.add_mod_idemp_l b) by lia.
  by rewrite H.
Qed.

(** Conversions through unsigned arithmetic do not change the signed
    result. *)
Lemma i64_u64 z : i64 (u64 z) = i64 z.
Proof. apply i64_congr. unfold u64. apply Z.mod_mod. lia. Qed.

Lemma i64_add_u64 a b : i64 (u64 a + u64 b) = i64 (a + b).
Proof. apply i64_congr. unfold u64. by rewrite <- Z.add_mod by lia. Qed.

Lemma i64_add_u64_mul a b c : i64 (u64 a + u64 (u64 b * c)) = i64 (a + b * c).
Proof.
  apply i64_congr. unfold u64.
  rewrite Z.mul_mod_idemp_l by lia. by rewrite <- Z.add_mod by lia.
Qed.

Lemma i64_sub_u64_mul a b c : i64 (u64 a - u64 (u64 b * c)) = i64 (a - b * c).
Proof.
  apply i64_congr. unfold u64.
  rewrite Z.mul_mod_idemp_l by lia. by rewrite <- Zminus_mod by lia.
Qed.

Lemma i64_mod z : i64 z mod 2 ^ 64 = z mod 2 ^ 64.
Proof.
  unfold i64. rewrite Zminus_mod_idemp_l. f_equal. lia.
Qed.

Lemma i64_i64 z : i64 (i64 z) = i64 z.
Proof. apply i64_congr, i64_mod. Qed.

(** Wrapping early does not change a sum. *)
Lemma i64_add_l a b : i64 (i64 a + b) = i64 (a + b).
Proof.
  apply i64_congr. rewrite <- Z.add_mod_idemp_l, i64_mod by lia.
  by rewrite Z.add_mod_idemp_l by lia.
Qed.

#[export] Hint Rewrite i64_i64 i64_add_l : heyp.
#[export] Hint Rewrite i64_u64 i64_add_u64 i64_add_u64_mul i64_sub_u64_mul : heyp.
#[export] Hint Resolve i64_in_range u64_in_range : heyp.

(** ** Sums of integer lists *)

Definition zsum (l : list Z) : Z := foldr Z.add 0 l.

Lemma zsum_nil : zsum [] = 0.
Proof. done. Qed.

Lemma zsum_cons x l : zsum (x :: l) = x + zsum l.
Proof. done. Qed.

Lemma zsum_app l k : zsum (l ++ k) = zsum l + zsum k.
Proof. induction l as [|x l IH]; simpl; [done|]. rewrite IH. lia. Qed.

#[export] Instance zsum_perm : Proper ((≡ₚ) ==> (=)) zsum.
Proof. induction 1; simpl; lia. Qed.

Lemma zsum_replicate n x : zsum (replicate n x) = Z.of_nat n * x.
Proof. induction n as [|n IH]; simpl; [done|]. rewrite IH. lia. Qed.

Lemma zsum_map_le {A} (f g : A -> Z) l :
  (forall x, x ∈ l -> f x <= g x) -> zsum (map f l) <= zsum (map g l).
Proof.
  induction l as [|x l IH]; intros H; simpl; [lia|].
  assert (f x <= g x) by (apply H; set_solver).
  assert (zsum (map f l) <= zsum (map g l)) by (apply IH; set_solver). lia.
Qed.

Lemma zsum_map_lt {A} (f g : A -> Z) l y :
  (forall x, x ∈ l -> f x <= g x) -> y ∈ l -> f y < g y ->
  zsum (map f l) < zsum (map g l).
Proof.
  induction l as [|x l IH]; intros H Hy Hlt; simpl; [set_solver|].
  assert (f x <= g x) by (apply H; set_solver).
  assert (zsum (map f l) <= zsum (map g l)) by (apply zsum_map_le; set_solver).
  apply elem_of_cons in Hy as [->|Hy]; [lia|].
  assert (zsum (map f l) < zsum (map g l)) by (apply IH; set_solver). lia.
Qed.

Lemma zsum_map_ext {A} (f g : A -> Z) l :
  (forall x, x ∈ l -> f x = g x) -> zsum (map f l) = zsum (map g l).
Proof.
  induction l as [|x l IH]; intros H; simpl; [done|].
  rewrite (H x) by set_solver. rewrite IH; [done|set_solver].
Qed.

Lemma zsum_nonneg l : (forall x, x ∈ l -> 0 <= x) -> 0 <= zsum l.
Proof.
  induction l as [|x l IH]; intros H; simpl; [lia|].
  assert (0 <= x) by (apply H; set_solver).
  assert (0 <= zsum l) by (apply IH; set_solver). lia.
Qed.

Lemma zsum_range l a b :
  (forall x, x ∈ l -> a <= x <= b) ->
  Z.of_nat (length l) * a <= zsum l <= Z.of_nat (length l) * b.
Proof.
  induction l as [|x l IH]; intros H; cbn [length]; [cbn; lia|]. rewrite zsum_cons.
  assert (a <= x <= b) by (apply H; set_solver).
  assert (Z.of_nat (length l) * a <= zsum l <= Z.of_nat (length l) * b)
    by (apply IH; set_solver). lia.
Qed.

Lemma zsum_bounded l b :
  (forall x, x ∈ l -> 0 <= x <= b) -> 0 <= zsum l <= Z.of_nat (length l) * b.
Proof. intros H. pose proof (zsum_range l 0 b H). lia. Qed.

#[export] Hint Rewrite zsum_nil zsum_cons zsum_app zsum_replicate : heyp.

(** ** Lists *)

Lemma insert_head_perm {A} (l : list A) b x y :
  l !! b = Some y -> y :: <[b := x]> l ≡ₚ x :: l.
Proof.
  revert b. induction l as [|z l IH]; intros [|b] H; simplify_eq/=.
  - constructor.
  - rewrite Permutation_swap, (IH b) by done. constructor.
Qed.

(** Exchanging two cells permutes a list. *)
Lemma insert_swap_perm {A} (l : list A) a b x y :
  l !! a = Some x -> l !! b = Some y -> <[b := x]> (<[a := y]> l) ≡ₚ l.
Proof.
  revert a b. induction l as [|z l IH]; intros [|a] [|b] Ha Hb; simplify_eq/=;
    try done.
  - by apply insert_head_perm.
  - by apply insert_head_perm.
  - constructor. by apply IH.
Qed.

Lemma Forall_perm {A} (P : A -> Prop) (l k : list A) :
  l ≡ₚ k -> Forall P k -> Forall P l.
Proof. intros H. by rewrite H. Qed.

Lemma take_app_length' {A} (l k : list A) n : n = length l -> take n (l ++ k) = l.
Proof. intros ->. by rewrite take_app_length. Qed.

Lemma drop_app_length' {A} (l k : list A) n : n = length l -> drop n (l ++ k) = k.
Proof. intros ->. by rewrite drop_app_length. Qed.

Lemma last_split {A} `{Inhabited A} (l : list A) :
  l <> [] -> l = take (length l - 1) l ++ [l !!! (length l - 1)%nat].
Proof.
  intros Hl. destruct l as [|x l _] using rev_ind; [done|].
  rewrite length_app. cbn [length]. replace (length l + 1 - 1)%nat with (length l) by lia.
  rewrite take_app_length. f_equal. by rewrite list_lookup_total_middle.
Qed.

Lemma NoDup_map_inj {A B} (f : A -> B) (l : list A) x y :
  NoDup (map f l) -> x ∈ l -> y ∈ l -> f x = f y -> x = y.
Proof.
  intros Hn (i & Hi)%list_elem_of_lookup (j & Hj)%list_elem_of_lookup Hk.
  assert (i = j) as ->; [|congruence].
  apply (NoDup_lookup (map f l) i j (f x) Hn); rewrite list_lookup_fmap; [by rewrite Hi|by rewrite Hj, Hk].
Qed.

Lemma NoDup_map_filter {A B} (f : A -> B) (P : A -> Prop) `{!forall x, Decision (P x)} (l : list A) :
  NoDup (map f l) -> NoDup (map f (filter P l)).
Proof.
  induction l as [|x l IH]; [done|]. cbn [map]. intros [Hx Hl]%NoDup_cons. rewrite filter_cons.
  case_decide; [|by apply IH]. cbn [map]. apply NoDup_cons. split; [|by apply IH].
  intros (y & E & [_ Hy]%list_elem_of_filter)%list_elem_of_fmap. apply Hx. rewrite E. by apply list_elem_of_fmap_2.
Qed.

Lemma foldl_none {A B} (f : B -> A -> option B) (l : list A) :
  foldl (fun o x => b ← o; f b x) None l = None.
Proof. by induction l. Qed.

Lemma filter_none {A} (P : A -> Prop) `{!forall x, Decision (P x)} (l : list A) :
  (forall x, x ∈ l -> ~ P x) -> filter P l = [].
Proof.
  induction l as [|x l IH]; intros Hl; [done|].
  rewrite filter_cons_False by (apply Hl; set_solver). apply IH. set_solver.
Qed.

Lemma filter_every {A} (P : A -> Prop) `{!forall x, Decision (P x)} (l : list A) :
  (forall x, x ∈ l -> P x) -> filter P l = l.
Proof.
  induction l as [|x l IH]; intros Hl; [done|].
  rewrite filter_cons_True by (apply Hl; set_solver). f_equal. apply IH. set_solver.
Qed.

(** ** Sums over finite maps *)

Definition map_sum {K A} `{Countable K} (g : K -> A -> Z) (m : gmap K A) : Z :=
  zsum (map (fun p => g (fst p) (snd p)) (map_to_list m)).

Lemma map_sum_insert {K A} `{Countable K} (g : K -> A -> Z) (m : gmap K A) k v :
  m !! k = None -> map_sum g (<[k := v]> m) = g k v + map_sum g m.
Proof. intros Hk. unfold map_sum. rewrite map_to_list_insert by done. done. Qed.

Lemma map_sum_delete {K A} `{Countable K} (g : K -> A -> Z) (m : gmap K A) k v :
  m !! k = Some v -> map_sum g m = g k v + map_sum g (delete k m).
Proof.
  intros Hk. rewrite <- (insert_delete_id m k v Hk) at 1.
  by rewrite map_sum_insert by apply lookup_delete_eq.
Qed.

Lemma map_sum_nonneg {K A} `{Countable K} (g : K -> A -> Z) (m : gmap K A) :
  (forall k v, m !! k = Some v -> 0 <= g k v) -> 0 <= map_sum g m.
Proof.
  intros Hg. apply zsum_nonneg. intros x ([k v] & -> & Hin)%list_elem_of_fmap.
  by apply Hg, elem_of_map_to_list.
Qed.

(** A map that keeps the keys of another and does not lower a value. *)
Lemma map_sum_mono {K A} `{Countable K} (g : K -> A -> Z) (m : gmap K A) : forall m' : gmap K A,
  (forall k v, m !! k = Some v -> exists v', m' !! k = Some v' /\ g k v <= g k v') ->
  (forall k v, m' !! k = Some v -> 0 <= g k v) ->
  map_sum g m <= map_sum g m'.
Proof.
  induction m as [|k v m Hk IH] using map_ind; intros m' Hle Hpos.
  - by apply map_sum_nonneg.
  - destruct (Hle k v) as (v' & Hk' & Hv); [by rewrite lookup_insert_eq|].
    rewrite map_sum_insert, (map_sum_delete g m' k v') by done.
    assert (map_sum g m <= map_sum g (delete k m')); [|lia]. apply IH.
    + intros k0 v0 Hk0. assert (k <> k0) by congruence. rewrite lookup_delete_ne by done.
      apply Hle. by rewrite lookup_insert_ne.
    + intros k0 v0 Hk0. apply Hpos. apply lookup_delete_Some in Hk0. tauto.
Qed.

Lemma map_sum_union {K A} `{Countable K} (g : K -> A -> Z) (m m' : gmap K A) :
  m ##ₘ m' -> map_sum g (m ∪ m') = map_sum g m + map_sum g m'.
Proof.
  induction m as [|k v m Hk IH] using map_ind; intros Hd.
  - by rewrite (left_id_L ∅ (∪)).
  - apply map_disjoint_insert_l in Hd as [Hk' Hd]. rewrite <- insert_union_l.
    rewrite !map_sum_insert; [rewrite IH by done; lia|done|]. by apply lookup_union_None.
Qed.

Lemma map_sum_fmap {K A B} `{Countable K} (g : K -> B -> Z) (f : A -> B) (m : gmap K A) :
  map_sum g (f <$> m) = map_sum (fun k v => g k (f v)) m.
Proof. unfold map_sum. rewrite map_to_list_fmap, map_map. by f_equal. Qed.

(** ** Grouping a list by key *)

Lemma group_fold {A B K} `{Countable K} (key : A -> K) (add : B -> A -> B) (b0 : B) (l : list A) k :
  forall m : gmap K B,
  foldl (fun m a => <[key a := add (default b0 (m !! key a)) a]> m) m l !! k =
  match filter (fun a => key a = k) l with
  | [] => m !! k
  | l' => Some (foldl add (default b0 (m !! k)) l')
  end.
Proof.
  induction l as [|a l IH]; intros m; [done|]. cbn [foldl]. rewrite IH.
  destruct (decide (key a = k)) as [<-|Hne].
  - rewrite filter_cons_True by done. rewrite lookup_insert_eq. cbn [default].
    by destruct (filter _ l).
  - rewrite filter_cons_False by done. by rewrite lookup_insert_ne.
Qed.

(** Whether an optional result is there; used to evaluate runs without
    reading the result back. *)
Definition returned {A} (o : option A) : bool := match o with Some _ => true | None => false end.

Lemma returned_default {A} (d : A) o : returned o = true -> o = Some (default d o).
Proof. by destruct o. Qed.
