(* ===== verification/Text.v ===== *)
(** * Text: words, lines and numbers

    The strings that the agent's commands and their output consist of: words
    without white space, their concatenation and splitting, and decimal
    numbers read back. *)

From stdpp Require Import pretty.
From S2P Require Import Prelude.

#[local] Open Scope string_scope.
#[local] Open Scope list_scope.
#[local] Open Scope Z_scope.

Definition newline : string := String (Ascii.ascii_of_nat 10) "".

(** The pieces of a string between the characters that [sep] accepts. *)
Fixpoint split_at (sep : Ascii.ascii -> bool) (s : string) : list string :=
  match s with
  | EmptyString => [""]
  | String c s =>
      if sep c then "" :: split_at sep s
      else match split_at sep s with
           | w :: ws => String c w :: ws
           | [] => [String c ""]
           end
  end.

Definition is_char (n : nat) (c : Ascii.ascii) : bool := bool_decide (c = Ascii.ascii_of_nat n).
Definition is_newline : Ascii.ascii -> bool := is_char 10.
Definition is_blank (c : Ascii.ascii) : bool := is_char 32 c || is_char 9 c.

Fixpoint no_space (s : string) : bool :=
  match s with
  | EmptyString => true
  | String a s => negb (Ascii.is_space a) && no_space s
  end.

Fixpoint all_space (s : string) : bool :=
  match s with EmptyString => true | String c s => Ascii.is_space c && all_space s end.

(** A word that the lines can carry. *)
Definition clean (w : string) : bool := negb (bool_decide (w = "")) && no_space w.

Lemma no_space_app a b : no_space (a +:+ b) = no_space a && no_space b.
Proof. induction a as [|x a IH]; [done|]. change (String x a +:+ b) with (String x (a +:+ b)). cbn. by rewrite IH, andb_assoc. Qed.

Lemma append_assoc a b c : (a +:+ b) +:+ c = a +:+ (b +:+ c).
Proof. induction a as [|x a IH]; [done|]. exact (f_equal (String x) IH). Qed.

Lemma rev_app_rev_app w : forall a b, String.rev_app (String.rev_app w a) b = String.rev_app a (w +:+ b).
Proof. induction w as [|x w IH]; intros a b; [done|]. cbn [String.rev_app]. by rewrite IH. Qed.

Lemma words_go_some w : forall a c rest, no_space w = true -> Ascii.is_space c = true ->
  String.words_go (Some a) (w +:+ String c rest) =
  String.rev (String.rev_app w a) :: String.words_go None rest.
Proof.
  induction w as [|x w IH]; intros a c rest Hw Hc.
  - change ("" +:+ ?s) with s. cbn [String.words_go]. by rewrite Hc.
  - cbn [no_space] in Hw. apply andb_true_iff in Hw as [Hx Hw]. apply negb_true_iff in Hx.
    change (String x w +:+ ?s) with (String x (w +:+ s)). cbn [String.words_go]. rewrite Hx.
    cbn [from_option]. by rewrite IH.
Qed.

Lemma words_go_clean w c rest : clean w = true -> Ascii.is_space c = true ->
  String.words_go None (w +:+ String c rest) = w :: String.words_go None rest.
Proof.
  unfold clean. rewrite andb_true_iff, negb_true_iff, bool_decide_eq_false. intros [Hne Hw] Hc.
  destruct w as [|x w]; [done|]. cbn [no_space] in Hw. apply andb_true_iff in Hw as [Hx Hw].
  apply negb_true_iff in Hx. change (String x w +:+ ?s) with (String x (w +:+ s)).
  cbn [String.words_go]. rewrite Hx. cbn [from_option]. rewrite words_go_some by done.
  f_equal. unfold String.rev. rewrite rev_app_rev_app. cbn [String.rev_app]. f_equal.
  clear. induction w as [|y w IH]; [done|]. exact (f_equal (String y) IH).
Qed.

(** Words separated by single spaces. *)
Fixpoint unwords (ws : list string) : string :=
  match ws with
  | [] => ""
  | [w] => w
  | w :: ws => w +:+ " " +:+ unwords ws
  end.

Lemma words_unwords ws rest :
  ws <> [] -> Forall (fun w => clean w = true) ws ->
  String.words_go None (unwords ws +:+ newline +:+ rest) = ws ++ String.words_go None rest.
Proof.
  induction ws as [|w ws IH]; [done|]. intros _ [Hw Hws]%Forall_cons.
  destruct ws as [|w' ws].
  - by apply (words_go_clean w).
  - change (unwords (w :: w' :: ws)) with (w +:+ " " +:+ unwords (w' :: ws)).
    rewrite !append_assoc. change (" " +:+ ?s) with (String (Ascii.ascii_of_nat 32) s).
    rewrite words_go_clean by done. by rewrite IH.
Qed.

Lemma clean_app_l a b : clean a = true -> no_space b = true -> clean (a +:+ b) = true.
Proof.
  unfold clean. rewrite !andb_true_iff, !negb_true_iff, !bool_decide_eq_false, no_space_app. intros [Hne ->] ->.
  split; [|done]. destruct a; [done|]. by intros [=].
Qed.

Lemma clean_app_r a b : no_space a = true -> clean b = true -> clean (a +:+ b) = true.
Proof.
  unfold clean. rewrite !andb_true_iff, !negb_true_iff, !bool_decide_eq_false, no_space_app. intros -> [Hne ->].
  split; [|done]. destruct a; [done|]. by intros [=].
Qed.

Lemma clean_no_space w : clean w = true -> no_space w = true.
Proof. unfold clean. by intros [_ ?]%andb_true_iff. Qed.

Lemma no_space_substring s : forall n m, no_space s = true -> no_space (String.substring n m s) = true.
Proof.
  induction s as [|c s IH]; intros n m; [by destruct n, m|]. cbn [no_space]. intros [Hc Hs]%andb_true_iff.
  destruct n as [|n]; cbn; [|by apply IH]. destruct m as [|m]; [done|]. cbn. rewrite Hc. by apply IH.
Qed.

Lemma words_go_end w : forall a, no_space w = true ->
  String.words_go (Some a) w = [String.rev (String.rev_app w a)].
Proof.
  induction w as [|x w IH]; intros a; [done|]. cbn [no_space]. intros [Hx%negb_true_iff Hw]%andb_true_iff.
  cbn [String.words_go]. rewrite Hx. cbn [from_option]. by rewrite IH.
Qed.

Lemma words_unwords_end ws : ws <> [] -> Forall (fun w => clean w = true) ws -> String.words (unwords ws) = ws.
Proof.
  unfold String.words. induction ws as [|w ws IH]; [done|]. intros _ [Hw Hws]%Forall_cons.
  destruct ws as [|w' ws].
  - cbn [unwords]. unfold clean in Hw. rewrite andb_true_iff, negb_true_iff, bool_decide_eq_false in Hw.
    destruct Hw as [Hne Hw]. destruct w as [|x w]; [done|]. cbn [no_space] in Hw. apply andb_true_iff in Hw as [Hx%negb_true_iff Hw].
    cbn [String.words_go]. rewrite Hx. cbn [from_option]. rewrite words_go_end by done. f_equal.
    unfold String.rev. rewrite rev_app_rev_app. cbn [String.rev_app]. f_equal.
    clear. induction w as [|y w IH]; [done|]. exact (f_equal (String y) IH).
  - change (unwords (w :: w' :: ws)) with (w +:+ " " +:+ unwords (w' :: ws)).
    change (" " +:+ ?s) with (String (Ascii.ascii_of_nat 32) s). rewrite words_go_clean by done. by rewrite IH.
Qed.

Fixpoint no_newline (s : string) : bool :=
  match s with EmptyString => true | String c s => negb (is_newline c) && no_newline s end.

Lemma no_newline_app a b : no_newline (a +:+ b) = no_newline a && no_newline b.
Proof.
  induction a as [|x a IH]; [done|]. change (String x a +:+ b) with (String x (a +:+ b)). cbn. by rewrite IH, andb_assoc.
Qed.

Lemma no_space_no_newline s : no_space s = true -> no_newline s = true.
Proof.
  induction s as [|c s IH]; [done|]. cbn. intros [Hc Hs]%andb_true_iff. rewrite IH by done. rewrite andb_true_r.
  unfold is_newline, is_char. case_bool_decide as E; [by rewrite E in Hc|done].
Qed.

Lemma unwords_no_newline ws : Forall (fun w => clean w = true) ws -> no_newline (unwords ws) = true.
Proof.
  induction 1 as [|w ws Hw _ IH]; [done|]. apply clean_no_space, no_space_no_newline in Hw.
  destruct ws as [|w' ws]; [done|]. change (unwords (w :: w' :: ws)) with (w +:+ " " +:+ unwords (w' :: ws)).
  by rewrite !no_newline_app, Hw, IH.
Qed.

Lemma split_line b rest : no_newline b = true ->
  split_at is_newline (b +:+ newline +:+ rest) = b :: split_at is_newline rest.
Proof.
  induction b as [|c b IH]; [done|]. cbn [no_newline]. intros [Hc%negb_true_iff Hb]%andb_true_iff.
  change (String c b +:+ ?s) with (String c (b +:+ s)). cbn [split_at]. by rewrite Hc, IH.
Qed.

(** ** Numbers *)

Fixpoint read_digits_from (acc : Z) (s : string) : option Z :=
  match s with
  | EmptyString => Some acc
  | String a s => match Ascii.is_nat a with
                  | Some d => read_digits_from (10 * acc + Z.of_nat d) s
                  | None => None
                  end
  end.

Definition read_digits (s : string) : option Z := read_digits_from 0 s.

Lemma pretty_char x : (x < 10)%N ->
  Ascii.is_nat (pretty_N_char x) = Some (N.to_nat x) /\ Ascii.is_space (pretty_N_char x) = false.
Proof.
  intros Hx. assert (Hall : forallb (fun x => bool_decide (Ascii.is_nat (pretty_N_char x) = Some (N.to_nat x)) &&
    negb (Ascii.is_space (pretty_N_char x))) (map N.of_nat (seq 0 10)) = true) by by vm_compute.
  rewrite forallb_forall in Hall. specialize (Hall x).
  rewrite andb_true_iff, bool_decide_eq_true, negb_true_iff in Hall. apply Hall.
  apply in_map_iff. exists (N.to_nat x). rewrite in_seq. lia.
Qed.

Lemma read_pretty_go x : forall s, exists k, forall acc,
  read_digits_from acc (pretty_N_go x s) = read_digits_from (acc * 10 ^ Z.of_nat k + Z.of_N x) s /\
  no_space (pretty_N_go x s) = no_space s.
Proof.
  induction (N.lt_wf_0 x) as [x _ IH]. intros s. destruct (decide (x = 0)%N) as [->|Hx].
  - exists 0%nat. intros acc. rewrite pretty_N_go_0. split; [f_equal; lia|done].
  - rewrite pretty_N_go_step by lia.
    destruct (IH (x / 10)%N) with (s := String (pretty_N_char (x mod 10)) s) as [k Hk];
      [apply N.div_lt; lia|]. exists (S k). intros acc. destruct (Hk acc) as [-> ->].
    destruct (pretty_char (x mod 10)) as [Hd Hs]; [by apply N.mod_lt|].
    cbn [read_digits_from no_space]. rewrite Hd, Hs. split; [|done]. f_equal.
    rewrite N_nat_Z, N2Z.inj_mod, N2Z.inj_div, Nat2Z.inj_succ, Z.pow_succ_r by lia.
    pose proof (Z.div_mod (Z.of_N x) 10 ltac:(lia)). lia.
Qed.

Lemma no_space_pretty (z : Z) : no_space (pretty z) = true.
Proof.
  destruct z as [|x|x]; [done| |].
  - change (pretty (Z.pos x)) with (pretty_N_go (N.pos x) ""). destruct (read_pretty_go (N.pos x) "") as [k Hk].
    by destruct (Hk 0) as [_ ->].
  - change (pretty (Z.neg x)) with (String (Ascii.ascii_of_nat 45) (pretty_N_go (N.pos x) "")).
    destruct (read_pretty_go (N.pos x) "") as [k Hk]. cbn [no_space]. by destruct (Hk 0) as [_ ->].
Qed.

Lemma pretty_reads (n : Z) : 0 <= n -> clean (pretty n) = true /\ read_digits (pretty n) = Some n.
Proof.
  intros Hn. destruct n as [|x|]; [done| |lia]. change (pretty (Z.pos x)) with (pretty_N_go (N.pos x) "").
  destruct (read_pretty_go (N.pos x) "") as [k Hk]. destruct (Hk 0) as [Hr Hs].
  assert (E : read_digits (pretty_N_go (N.pos x) "") = Some (Z.pos x)) by (unfold read_digits; by rewrite Hr).
  split; [|done]. unfold clean. rewrite Hs, andb_true_r, negb_true_iff, bool_decide_eq_false.
  intros E0. rewrite E0 in E. done.
Qed.

(** ** Parts of a string *)

Lemma append_nil_r s : s +:+ "" = s.
Proof. induction s as [|c s IH]; [done|]. exact (f_equal (String c) IH). Qed.

Lemma append_cons c s t : String c s +:+ t = String c (s +:+ t).
Proof. done. Qed.

Lemma length_append s t : String.length (s +:+ t) = (String.length s + String.length t)%nat.
Proof. induction s as [|c s IH]; [done|]. rewrite append_cons. cbn. by rewrite IH. Qed.

Lemma substring_whole s : String.substring 0 (String.length s) s = s.
Proof. induction s as [|c s IH]; [done|]. cbn. by rewrite IH. Qed.

Lemma substring_app_l s t n : n = String.length s -> String.substring 0 n (s +:+ t) = s.
Proof.
  intros ->. induction s as [|c s IH]; [by destruct t|]. rewrite append_cons. cbn. by rewrite IH.
Qed.

Lemma substring_app_r s t n m : n = String.length s -> String.substring n m (s +:+ t) = String.substring 0 m t.
Proof.
  intros ->. induction s as [|c s IH]; [done|]. rewrite append_cons. cbn [String.length String.substring]. exact IH.
Qed.

(** [substr] with one argument. *)
Definition substr (n : nat) (s : string) : string := String.substring n (String.length s - n) s.

Lemma substr_app n s t : n = String.length s -> substr n (s +:+ t) = t.
Proof.
  intros ->. unfold substr. rewrite substring_app_r, length_append by done.
  rewrite Nat.add_comm, Nat.add_sub. apply substring_whole.
Qed.

Lemma append_inj_l s t u : s +:+ t = s +:+ u -> t = u.
Proof. induction s as [|c s IH]; [done|]. rewrite !append_cons. by intros [= ?%IH]. Qed.

Lemma append_inj_len s : forall s' t t', String.length s = String.length s' -> s +:+ t = s' +:+ t' -> s = s' /\ t = t'.
Proof.
  induction s as [|c s IH]; intros [|c' s'] t t' Hl; [done|done|done|]. rewrite !append_cons.
  cbn in Hl. intros [= -> E]. destruct (IH s' t t' ltac:(lia) E) as [-> ->]. done.
Qed.

Lemma prefix_split s : forall p, String.prefix p s = true <-> exists r, s = p +:+ r.
Proof.
  induction s as [|c s IH]; intros [|d p]; cbn [String.prefix].
  - split; [by exists ""|done].
  - split; [done|]. intros [r E]. by rewrite append_cons in E.
  - split; [intros _; by eexists|done].
  - destruct (Ascii.ascii_dec d c) as [->|Hne].
    + rewrite IH. split; intros [r E]; exists r; [by rewrite E|]. rewrite append_cons in E. by injection E.
    + split; [done|]. intros [r E]. rewrite append_cons in E. by injection E.
Qed.

(** Suffixes, by the length that is left. *)
Definition has_suffix (p s : string) : bool :=
  (String.length p <=? String.length s)%nat &&
  bool_decide (String.substring (String.length s - String.length p) (String.length p) s = p).

Definition strip_suffix (p s : string) : string :=
  if has_suffix p s then String.substring 0 (String.length s - String.length p) s else s.

Lemma split_length s : forall n, (n <= String.length s)%nat ->
  s = String.substring 0 n s +:+ String.substring n (String.length s - n) s.
Proof.
  induction s as [|c s IH]; intros [|n] Hn; cbn in Hn; try done; try lia.
  - change (String.substring 0 0 (String c s)) with "". change ("" +:+ ?s) with s. by rewrite Nat.sub_0_r, substring_whole.
  - cbn [String.substring String.length Nat.sub]. rewrite append_cons. f_equal. apply IH. lia.
Qed.

Lemma has_suffix_split p s : has_suffix p s = true <-> exists r, s = r +:+ p.
Proof.
  unfold has_suffix. rewrite andb_true_iff, Nat.leb_le, bool_decide_eq_true. split.
  - intros [Hle E]. exists (String.substring 0 (String.length s - String.length p) s).
    rewrite (split_length s (String.length s - String.length p)) at 1 by lia. f_equal.
    rewrite <- E at 3. f_equal. lia.
  - intros [r ->]. rewrite length_append. split; [lia|]. rewrite substring_app_r by lia. apply substring_whole.
Qed.

Lemma strip_suffix_app p r : strip_suffix p (r +:+ p) = r.
Proof.
  unfold strip_suffix. rewrite (proj2 (has_suffix_split p _)) by by exists r.
  apply substring_app_l. rewrite length_append. lia.
Qed.

Definition strip_prefix (p s : string) : string :=
  if String.prefix p s then String.substring (String.length p) (String.length s - String.length p) s else s.

Lemma strip_prefix_app p r : strip_prefix p (p +:+ r) = r.
Proof.
  unfold strip_prefix. rewrite (proj2 (prefix_split _ p)) by by exists r.
  rewrite substring_app_r, length_append by done. rewrite Nat.add_comm, Nat.add_sub. apply substring_whole.
Qed.

(** ** Characters of a string *)

Fixpoint has_char (c : Ascii.ascii) (s : string) : bool :=
  match s with EmptyString => false | String a s => bool_decide (a = c) || has_char c s end.

Lemma has_char_app c s t : has_char c (s +:+ t) = has_char c s || has_char c t.
Proof. induction s as [|a s IH]; [done|]. rewrite append_cons. cbn. by rewrite IH, orb_assoc. Qed.

Lemma has_char_elem c s : has_char c s = true <-> c ∈ String.list_ascii_of_string s.
Proof.
  induction s as [|a s IH]; cbn; [split; [done|by intros ?%elem_of_nil]|].
  rewrite orb_true_iff, bool_decide_eq_true, IH, elem_of_cons. naive_solver.
Qed.

(** A number is written with digits and a minus sign. *)
Definition is_number_char (c : Ascii.ascii) : bool := bool_decide (is_Some (Ascii.is_nat c)) || is_char 45 c.

Lemma has_char_pretty c (z : Z) : is_number_char c = false -> has_char c (pretty z) = false.
Proof.
  unfold is_number_char. rewrite orb_false_iff, bool_decide_eq_false. intros [Hd Hm].
  assert (Hgo : forall x s, has_char c (pretty_N_go x s) = has_char c s).
  { intros x. induction (N.lt_wf_0 x) as [x _ IH]. intros s. destruct (decide (x = 0)%N) as [->|Hx].
    - by rewrite pretty_N_go_0.
    - rewrite pretty_N_go_step by lia. rewrite IH by (apply N.div_lt; lia). cbn.
      destruct (pretty_char (x mod 10)) as [E _]; [by apply N.mod_lt|].
      case_bool_decide as Ec; [|done]. destruct Hd. rewrite <- Ec, E. by eexists. }
  destruct z as [|x|x].
  - cbn. case_bool_decide as Ec; [|done]. destruct Hd. rewrite <- Ec. by eexists.
  - change (pretty (Z.pos x)) with (pretty_N_go (N.pos x) ""). by rewrite Hgo.
  - change (pretty (Z.neg x)) with (String (Ascii.ascii_of_nat 45) (pretty_N_go (N.pos x) "")).
    cbn [has_char]. rewrite Hgo. unfold is_char in Hm. cbn [has_char]. rewrite orb_false_r.
    apply bool_decide_eq_false in Hm. apply bool_decide_eq_false. congruence.
Qed.

Lemma split_at_none c s : has_char c s = false -> split_at (fun a => bool_decide (a = c)) s = [s].
Proof.
  induction s as [|a s IH]; [done|]. cbn. intros [Ha Hs]%orb_false_iff. by rewrite Ha, (IH Hs).
Qed.

Lemma split_at_blank_app w s : no_space w = true ->
  split_at is_blank (w +:+ String (Ascii.ascii_of_nat 32) s) = w :: split_at is_blank s.
Proof.
  assert (Hb : forall c, Ascii.is_space c = false -> is_blank c = false).
  { intros c Hc. unfold is_blank, is_char. apply orb_false_iff.
    split; apply bool_decide_eq_false; intros ->; by vm_compute in Hc. }
  induction w as [|c w IH]; [done|]. cbn [no_space]. intros [Hc%negb_true_iff Hw]%andb_true_iff.
  rewrite append_cons. cbn [split_at]. by rewrite (Hb _ Hc), (IH Hw).
Qed.

Lemma split_at_unwords ws : ws <> [] -> Forall (fun w => clean w = true) ws -> split_at is_blank (unwords ws) = ws.
Proof.
  induction ws as [|w ws IH]; [done|]. intros _ [Hw Hws]%Forall_cons. destruct ws as [|w' ws].
  - clear IH Hws. cbn [unwords]. apply andb_true_iff in Hw as [_ Hw]. induction w as [|c w IH]; [done|].
    cbn [no_space] in Hw. apply andb_true_iff in Hw as [Hc%negb_true_iff Hw]. cbn [split_at].
    rewrite (IH Hw). unfold is_blank, is_char. rewrite !bool_decide_eq_false_2; [done| |];
      intros ->; by vm_compute in Hc.
  - change (unwords (w :: w' :: ws)) with (w +:+ String (Ascii.ascii_of_nat 32) (unwords (w' :: ws))).
    apply andb_true_iff in Hw as [_ Hw]. by rewrite split_at_blank_app, IH.
Qed.

Definition read_number (s : string) : option Z := if bool_decide (s = "") then None else read_digits s.

(** An integer with an optional minus sign. *)
Definition read_integer (s : string) : option Z :=
  match s with
  | String c r => if is_char 45 c then Z.opp <$> read_number r else read_number s
  | EmptyString => None
  end.

Lemma pretty_reads_integer (n : Z) : read_integer (pretty n) = Some n.
Proof.
  assert (Hpos : forall p, read_number (pretty (Z.pos p)) = Some (Z.pos p)).
  { intros p. destruct (pretty_reads (Z.pos p) ltac:(lia)) as [[Hne%negb_true_iff _]%andb_true_iff Hr].
    unfold read_number. by rewrite Hne. }
  destruct n as [|p|p]; [done| |].
  - assert (Hm : forall c r, pretty (Z.pos p) = String c r -> is_char 45 c = false).
    { intros c r E. specialize (Hpos p). rewrite E in Hpos. unfold is_char. apply bool_decide_eq_false. by intros ->. }
    unfold read_integer. destruct (pretty (Z.pos p)) as [|c r] eqn:E; [by specialize (Hpos p); rewrite E in Hpos|].
    rewrite (Hm c r eq_refl), <- E. apply Hpos.
  - change (pretty (Z.neg p)) with (String (Ascii.ascii_of_nat 45) (pretty (Z.pos p))).
    cbn [read_integer]. change (is_char 45 (Ascii.ascii_of_nat 45)) with true. cbn iota. by rewrite Hpos.
Qed.
