(* ===== verification/Doubles.v ===== *)
(** * Doubles: the C++ [double] as IEEE 754 binary64

    The operations are those of the Standard Library's [SpecFloat]
    (round to nearest, ties to even) at precision 53 and maximal exponent
    1024, so every definition that uses them computes.  Conversions to
    integers follow the C++ rules; where C++ leaves an out of range
    conversion undefined the value is the "integer indefinite" of the
    x86-64 instruction the compilers emit. *)

From Stdlib Require Import Floats.SpecFloat Floats.FloatClass.
From S2P Require Import Prelude.

Definition double : Type := spec_float.

#[export] Instance double_eq_dec : EqDecision double.
Proof. solve_decision. Defined.

Definition prec : Z := 53.
Definition emax : Z := 1024.

(** ** Arithmetic *)

Definition dadd : double -> double -> double := SFadd prec emax.
Definition dsub : double -> double -> double := SFsub prec emax.
Definition dmul : double -> double -> double := SFmul prec emax.
Definition ddiv : double -> double -> double := SFdiv prec emax.
Definition dneg : double -> double := SFopp.
Definition dabs : double -> double := SFabs.

(** An integer converted to [double] (correctly rounded). *)
Definition dofZ (z : Z) : double := binary_normalize prec emax z 0 false.

(** The literal [n / d]; the quotient of two exactly represented integers
    is the double nearest to the decimal the source writes. *)
Definition dlit (n d : Z) : double := ddiv (dofZ n) (dofZ d).

Definition d0 : double := S754_zero false.
Definition d1 : double := dofZ 1.

(** ** Comparisons: all false on NaN, as [<], [<=], [==] are in C++ *)

Definition dlt : double -> double -> bool := SFltb.
Definition dle : double -> double -> bool := SFleb.
Definition deq : double -> double -> bool := SFeqb.
Definition dgt (x y : double) : bool := dlt y x.
Definition dge (x y : double) : bool := dle y x.

Definition dis_nan (x : double) : bool :=
  match x with S754_nan => true | _ => false end.

(** [std::max<double>] and [std::min<double>]: the first argument unless
    the second compares greater (less). *)
Definition dmax (a b : double) : double := if dlt a b then b else a.
Definition dmin (a b : double) : double := if dlt b a then b else a.

(** [fmin]: the other argument when one is NaN. *)
Definition dfmin (a b : double) : double :=
  if dis_nan a then b else if dis_nan b then a else if dlt b a then b else a.

Definition dsign (x : double) : bool :=
  match x with
  | S754_zero s | S754_infinity s | S754_finite s _ _ => s
  | S754_nan => false
  end.

Definition dcopysign (x y : double) : double :=
  if Bool.eqb (dsign x) (dsign y) then x else dneg x.

(** ** Conversions to integers *)

Definition cond_opp (s : bool) (z : Z) : Z := if s then - z else z.

(** Truncation toward zero of a finite double. *)
Definition dtrunc (x : double) : option Z :=
  match x with
  | S754_zero _ => Some 0
  | S754_finite s m e => Some (cond_opp s (Z.shiftl (Zpos m) e))
  | _ => None
  end.

(** [round]: to the nearest integer, halves away from zero. *)
Definition dround (x : double) : option Z :=
  match x with
  | S754_zero _ => Some 0
  | S754_finite s m e =>
      Some (cond_opp s
        (if 0 <=? e then Z.shiftl (Zpos m) e
         else Z.shiftr (Zpos m + Z.shiftl 1 (- e - 1)) (- e)))
  | _ => None
  end.

(** [static_cast<int64_t>] of a double. *)
Definition double_to_i64 (x : double) : Z :=
  match dtrunc x with
  | Some z => if (int64_min <=? z) && (z <=? int64_max) then z else int64_min
  | None => int64_min
  end.

(** [static_cast<uint64_t>(round(x))]. *)
Definition double_round_to_u64 (x : double) : Z :=
  match dround x with
  | Some z => if (0 <=? z) && (z <? 2 ^ 64) then z else 2 ^ 63
  | None => 2 ^ 63
  end.

(** ** Facts about comparisons *)

Lemma dcompare_swap x y :
  SFcompare y x = option_map CompOpp (SFcompare x y).
Proof.
  destruct x as [[]|[]| |[] m e], y as [[]|[]| |[] m' e']; simpl; try done;
    rewrite (Z.compare_antisym e e'); destruct (e ?= e') eqn:E; simpl; try done;
    fold (Pos.compare m m') (Pos.compare m' m);
    rewrite (Pos.compare_antisym m m'); by destruct (m ?= m')%positive.
Qed.

Lemma dcompare_refl x : dis_nan x = false -> SFcompare x x = Some Eq.
Proof.
  destruct x as [[]|[]| |[] m e]; simpl; try done; intros _;
    rewrite Z.compare_refl; fold (Pos.compare m m); by rewrite Pos.compare_refl.
Qed.

(** For two numbers, [<] and [>=] are complementary. *)
Lemma dlt_false_dle x y :
  dis_nan x = false -> dis_nan y = false -> dlt x y = false -> dle y x = true.
Proof.
  unfold dlt, dle, SFltb, SFleb. rewrite (dcompare_swap x y).
  destruct x as [[]|[]| |[] m e], y as [[]|[]| |[] m' e']; simpl; try done;
    intros _ _; repeat case_match; simpl; done.
Qed.

Lemma dle_not_nan_l x y : dle x y = true -> dis_nan x = false.
Proof. by destruct x. Qed.

Lemma dle_not_nan_r x y : dle x y = true -> dis_nan y = false.
Proof. destruct x as [[]|[]| |[] ? ?], y; done. Qed.

Lemma dle_refl x : dis_nan x = false -> dle x x = true.
Proof. intros H. unfold dle, SFleb. by rewrite dcompare_refl. Qed.

Lemma dlt_irrefl x : dlt x x = false.
Proof.
  unfold dlt, SFltb. destruct (dis_nan x) eqn:E.
  - by destruct x.
  - by rewrite dcompare_refl.
Qed.

Lemma dlt_dle x y : dlt x y = true -> dle x y = true.
Proof. unfold dlt, dle, SFltb, SFleb. by destruct (SFcompare x y) as [[]|]. Qed.

#[export] Hint Resolve dle_refl dlt_irrefl dlt_dle : heyp.
