(* ===== verification/FlowMarker.v ===== *)
(** * FlowMarker: the protocol messages and the flow comparisons

    The message records of src/heyp/proto/heyp.proto, the comparison and
    validation functions of src/heyp/proto/alg.cc, and the aggregation keys
    of src/heyp/flows/agg-marker.h.  The hash functors hash a tuple of
    fields with [absl::Hash], which is a parameter. *)

From S2P Require Import Prelude Doubles.

(** ** Messages *)

Inductive Protocol := UNSET | TCP | UDP.

Record FlowMarker := mkFlowMarker {
  src_dc : string;
  dst_dc : string;
  job : string;
  host_id : Z;
  src_addr : string;
  dst_addr : string;
  protocol : Protocol;
  src_port : Z;
  dst_port : Z;
  seqnum : Z }.

(** [FlowInfo.AuxInfo] is only ever copied: its fields by name. *)
Inductive AuxValue := AuxBool (b : bool) | AuxInt (z : Z) | AuxDouble (d : double).
Definition AuxInfo : Type := list (string * AuxValue).

Record FlowInfo := mkFlowInfo {
  flow : FlowMarker;
  predicted_demand_bps : Z;
  ewma_usage_bps : Z;
  ewma_hipri_usage_bps : Z;
  ewma_lopri_usage_bps : Z;
  cum_usage_bytes : Z;
  cum_hipri_usage_bytes : Z;
  cum_lopri_usage_bytes : Z;
  currently_lopri : bool;
  aux : option AuxInfo }.

Record AggInfo := mkAggInfo { parent : FlowInfo; children : list FlowInfo }.

Record FlowAlloc := mkFlowAlloc {
  alloc_flow : FlowMarker;
  hipri_rate_limit_bps : Z;
  lopri_rate_limit_bps : Z }.

Record AllocBundle := mkAllocBundle { flow_allocs : list FlowAlloc; alloc_gen : Z }.

#[export] Instance Protocol_eq_dec : EqDecision Protocol.
Proof. solve_decision. Defined.
#[export] Instance FlowMarker_eq_dec : EqDecision FlowMarker.
Proof. solve_decision. Defined.
#[export] Instance AuxValue_eq_dec : EqDecision AuxValue.
Proof. solve_decision. Defined.
#[export] Instance FlowInfo_eq_dec : EqDecision FlowInfo.
Proof. solve_decision. Defined.
#[export] Instance FlowAlloc_eq_dec : EqDecision FlowAlloc.
Proof. solve_decision. Defined.

Definition protocol_code (p : Protocol) : Z :=
  match p with UNSET => 0 | TCP => 1 | UDP => 2 end.

#[export] Instance Protocol_countable : Countable Protocol.
Proof.
  refine (inj_countable' protocol_code
    (fun z => if z =? 0 then UNSET else if z =? 1 then TCP else UDP) _).
  by intros [].
Defined.

Definition marker_tuple (m : FlowMarker) :=
  (src_dc m, dst_dc m, job m, host_id m, src_addr m, dst_addr m, protocol m,
   src_port m, dst_port m, seqnum m).

#[export] Instance FlowMarker_countable : Countable FlowMarker.
Proof.
  refine (inj_countable' marker_tuple
    (fun '(a, b, c, d, e, f, g, h, i, j) => mkFlowMarker a b c d e f g h i j) _).
  by intros [].
Defined.

(** A message with every field at its proto3 default. *)
Definition empty_marker : FlowMarker := mkFlowMarker "" "" "" 0 "" "" UNSET 0 0 0.
Definition empty_info : FlowInfo := mkFlowInfo empty_marker 0 0 0 0 0 0 0 false None.
Definition empty_alloc : FlowAlloc := mkFlowAlloc empty_marker 0 0.

#[export] Instance FlowMarker_inhabited : Inhabited FlowMarker := populate empty_marker.
#[export] Instance FlowInfo_inhabited : Inhabited FlowInfo := populate empty_info.

(** ** Comparisons (src/heyp/proto/alg.cc) *)

Record CompareFlowOptions := mkCompareFlowOptions {
  cmp_fg : bool;
  cmp_job : bool;
  cmp_src_host : bool;
  cmp_host_flow : bool;
  cmp_seqnum : bool }.

(** The default member initializers: compare everything. *)
Definition default_options : CompareFlowOptions :=
  mkCompareFlowOptions true true true true true.

Definition NONZERO (z : Z) : bool := negb (z =? 0).
Definition NONEMPTY (s : string) : bool := negb (bool_decide (s = "")).
Definition NONUNSET (p : Protocol) : bool := negb (bool_decide (p = UNSET)).

Definition ExpectedFieldsAreSet (m : FlowMarker) (o : CompareFlowOptions) : bool :=
  (if cmp_fg o then NONEMPTY (src_dc m) && NONEMPTY (dst_dc m) else true) &&
  (if cmp_job o then NONEMPTY (job m) else true) &&
  (if cmp_src_host o then NONZERO (host_id m) else true) &&
  (if cmp_host_flow o then
     NONEMPTY (src_addr m) && NONEMPTY (dst_addr m) && NONUNSET (protocol m) &&
     NONZERO (src_port m) && NONZERO (dst_port m) else true) &&
  (if cmp_seqnum o then NONZERO (seqnum m) else true).

(** The source tests [options.cmp_job] where the other groups test the
    negation. *)
Definition UnexpectedFieldsAreUnset (m : FlowMarker) (o : CompareFlowOptions) : bool :=
  (if negb (cmp_fg o) then negb (NONEMPTY (src_dc m)) && negb (NONEMPTY (dst_dc m))
   else true) &&
  (if cmp_job o then negb (NONEMPTY (job m)) else true) &&
  (if negb (cmp_src_host o) then negb (NONZERO (host_id m)) else true) &&
  (if negb (cmp_host_flow o) then
     negb (NONEMPTY (src_addr m)) && negb (NONEMPTY (dst_addr m)) &&
     negb (NONUNSET (protocol m)) && negb (NONZERO (src_port m)) &&
     negb (NONZERO (dst_port m)) else true) &&
  (if negb (cmp_seqnum o) then negb (NONZERO (seqnum m)) else true).

Definition IsSameFlow (l r : FlowMarker) (o : CompareFlowOptions) : bool :=
  (if cmp_fg o then bool_decide (src_dc l = src_dc r) && bool_decide (dst_dc l = dst_dc r)
   else true) &&
  (if cmp_job o then bool_decide (job l = job r) else true) &&
  (if cmp_src_host o then host_id l =? host_id r else true) &&
  (if cmp_host_flow o then
     bool_decide (src_addr l = src_addr r) && bool_decide (dst_addr l = dst_addr r) &&
     bool_decide (protocol l = protocol r) && (src_port l =? src_port r) &&
     (dst_port l =? dst_port r) else true) &&
  (if cmp_seqnum o then seqnum l =? seqnum r else true).

Definition EqFlow_options := default_options.
Definition EqHostFlowNoId_options := mkCompareFlowOptions false false true true false.
Definition EqFlowNoJob_options := mkCompareFlowOptions true false true true true.
Definition EqClusterFlow_options := mkCompareFlowOptions true false false false false.

Definition EqFlow (l r : FlowMarker) : bool := IsSameFlow l r EqFlow_options.
Definition EqHostFlowNoId (l r : FlowMarker) : bool := IsSameFlow l r EqHostFlowNoId_options.
Definition EqFlowNoJob (l r : FlowMarker) : bool := IsSameFlow l r EqFlowNoJob_options.
Definition EqClusterFlow (l r : FlowMarker) : bool := IsSameFlow l r EqClusterFlow_options.

(** The hash functors.  [absl::Hash] at each tuple type is a parameter. *)
Section Hashing.
Context (hash_full : string * string * string * Z * string * string * Protocol * Z * Z * Z -> Z)
        (hash_host_flow : string * string * Protocol * Z * Z -> Z)
        (hash_no_job : string * string * Z * string * string * Protocol * Z * Z * Z -> Z)
        (hash_cluster : string * string -> Z).

Definition HashFlow (m : FlowMarker) : Z :=
  hash_full (src_dc m, dst_dc m, job m, host_id m, src_addr m, dst_addr m,
             protocol m, src_port m, dst_port m, seqnum m).
Definition HashHostFlowNoId (m : FlowMarker) : Z :=
  hash_host_flow (src_addr m, dst_addr m, protocol m, src_port m, dst_port m).
Definition HashFlowNoJob (m : FlowMarker) : Z :=
  hash_no_job (src_dc m, dst_dc m, host_id m, src_addr m, dst_addr m,
               protocol m, src_port m, dst_port m, seqnum m).
Definition HashClusterFlow (m : FlowMarker) : Z := hash_cluster (src_dc m, dst_dc m).
End Hashing.

(** ** Aggregation keys (src/heyp/flows/agg-marker.h) *)

Definition ToClusterFlow (m : FlowMarker) : FlowMarker :=
  mkFlowMarker (src_dc m) (dst_dc m) "" 0 "" "" UNSET 0 0 0.

Definition ToHostFlow (m : FlowMarker) : FlowMarker :=
  mkFlowMarker (src_dc m) (dst_dc m) (job m) (host_id m) "" "" UNSET 0 0 0.

Definition HostFlowOptions := mkCompareFlowOptions true true true false false.
Definition ClusterFlowOptions := mkCompareFlowOptions true false false false false.

(** Setters used by the agents. *)
Definition set_seqnum (m : FlowMarker) (n : Z) : FlowMarker :=
  mkFlowMarker (src_dc m) (dst_dc m) (job m) (host_id m) (src_addr m) (dst_addr m)
    (protocol m) (src_port m) (dst_port m) n.
Definition set_dst_addr (m : FlowMarker) (a : string) : FlowMarker :=
  mkFlowMarker (src_dc m) (dst_dc m) (job m) (host_id m) (src_addr m) a
    (protocol m) (src_port m) (dst_port m) (seqnum m).
Definition clear_job (m : FlowMarker) : FlowMarker :=
  mkFlowMarker (src_dc m) (dst_dc m) "" (host_id m) (src_addr m) (dst_addr m)
    (protocol m) (src_port m) (dst_port m) (seqnum m).

(** ** The key of a comparison: the marker with the ignored groups cleared *)

Definition flow_key (o : CompareFlowOptions) (m : FlowMarker) : FlowMarker :=
  mkFlowMarker
    (if cmp_fg o then src_dc m else "") (if cmp_fg o then dst_dc m else "")
    (if cmp_job o then job m else "")
    (if cmp_src_host o then host_id m else 0)
    (if cmp_host_flow o then src_addr m else "")
    (if cmp_host_flow o then dst_addr m else "")
    (if cmp_host_flow o then protocol m else UNSET)
    (if cmp_host_flow o then src_port m else 0)
    (if cmp_host_flow o then dst_port m else 0)
    (if cmp_seqnum o then seqnum m else 0).

Definition cluster_key := flow_key EqClusterFlow_options.
Definition host_flow_key := flow_key EqHostFlowNoId_options.
Definition no_job_key := flow_key EqFlowNoJob_options.

Lemma IsSameFlow_flow_key o l r :
  IsSameFlow l r o = true <-> flow_key o l = flow_key o r.
Proof.
  destruct o as [[] [] [] [] []], l, r; unfold IsSameFlow, flow_key; simpl;
    rewrite ?andb_true_iff, ?bool_decide_eq_true, ?Z.eqb_eq;
    (split; [intros; destruct_and?; subst; done | intros [=]; subst; tauto]).
Qed.

Lemma flow_key_idemp o m : flow_key o (flow_key o m) = flow_key o m.
Proof. destruct o as [[] [] [] [] []]; done. Qed.

(** "Finer" options include every group of the coarser ones. *)
Definition options_le (o o' : CompareFlowOptions) : Prop :=
  (cmp_fg o = true -> cmp_fg o' = true) /\ (cmp_job o = true -> cmp_job o' = true) /\
  (cmp_src_host o = true -> cmp_src_host o' = true) /\
  (cmp_host_flow o = true -> cmp_host_flow o' = true) /\
  (cmp_seqnum o = true -> cmp_seqnum o' = true).

Lemma flow_key_coarser o o' m :
  options_le o o' -> flow_key o (flow_key o' m) = flow_key o m.
Proof.
  intros (H1 & H2 & H3 & H4 & H5). unfold flow_key; simpl.
  destruct (cmp_fg o), (cmp_job o), (cmp_src_host o), (cmp_host_flow o), (cmp_seqnum o);
    rewrite ?H1, ?H2, ?H3, ?H4, ?H5 by done; done.
Qed.

(** Flow comparison is an equivalence, and it is exactly equality of the
    key that keeps the compared field groups; a finer comparison implies a
    coarser one. *)
Theorem IsSameFlow_equivalence :
  (forall o l r, IsSameFlow l r o = true <-> flow_key o l = flow_key o r) /\
  (forall o m, IsSameFlow m m o = true) /\
  (forall o l r, IsSameFlow l r o = IsSameFlow r l o) /\
  (forall o l m r, IsSameFlow l m o = true -> IsSameFlow m r o = true ->
     IsSameFlow l r o = true) /\
  (forall o o' l r, options_le o o' -> IsSameFlow l r o' = true -> IsSameFlow l r o = true).
Proof.
  split_and!.
  - apply IsSameFlow_flow_key.
  - intros. by apply IsSameFlow_flow_key.
  - intros. apply eq_true_iff_eq. rewrite !IsSameFlow_flow_key. done.
  - intros. rewrite IsSameFlow_flow_key in *. congruence.
  - intros o o' l r Hle H. rewrite IsSameFlow_flow_key in *.
    rewrite <- (flow_key_coarser o o' l), <- (flow_key_coarser o o' r) by done.
    by rewrite H.
Qed.

(** The contract of the hash maps keyed by flow markers: markers that a
    functor pair considers equal hash to the same value. *)
Theorem hash_respects_eq hf hh hn hc l r :
  (EqFlow l r = true -> HashFlow hf l = HashFlow hf r) /\
  (EqHostFlowNoId l r = true -> HashHostFlowNoId hh l = HashHostFlowNoId hh r) /\
  (EqFlowNoJob l r = true -> HashFlowNoJob hn l = HashFlowNoJob hn r) /\
  (EqClusterFlow l r = true -> HashClusterFlow hc l = HashClusterFlow hc r).
Proof.
  unfold EqFlow, EqHostFlowNoId, EqFlowNoJob, EqClusterFlow.
  rewrite !IsSameFlow_flow_key.
  unfold HashFlow, HashHostFlowNoId, HashFlowNoJob, HashClusterFlow, flow_key.
  destruct l, r; cbn. split_and!; intros [=]; by subst.
Qed.

(** [UnexpectedFieldsAreUnset] rejects every marker whose job is set when
    the job is an expected field, so the host-level parent check of the
    connection aggregator accepts no marker at all: neither the key
    [ToHostFlow] builds nor any other. *)
Theorem host_parent_check_rejects_all m :
  ExpectedFieldsAreSet m HostFlowOptions && UnexpectedFieldsAreUnset m HostFlowOptions = false.
Proof.
  unfold ExpectedFieldsAreSet, UnexpectedFieldsAreUnset, HostFlowOptions; simpl.
  destruct (NONEMPTY (src_dc m)), (NONEMPTY (dst_dc m)), (NONEMPTY (job m)),
    (NONZERO (host_id m)); done.
Qed.

(** The cluster-level check accepts exactly the keys of [ToClusterFlow] with
    both DCs set. *)
Lemma cluster_parent_check m :
  ExpectedFieldsAreSet (ToClusterFlow m) ClusterFlowOptions &&
  UnexpectedFieldsAreUnset (ToClusterFlow m) ClusterFlowOptions =
  NONEMPTY (src_dc m) && NONEMPTY (dst_dc m).
Proof.
  unfold ExpectedFieldsAreSet, UnexpectedFieldsAreUnset, ClusterFlowOptions; simpl.
  by destruct (NONEMPTY (src_dc m)), (NONEMPTY (dst_dc m)).
Qed.

Lemma ToClusterFlow_key m : ToClusterFlow m = cluster_key m.
Proof. done. Qed.

Lemma ToHostFlow_key m : ToHostFlow m = flow_key HostFlowOptions m.
Proof. done. Qed.
