(* ===== verification/NthElement.v ===== *)
(** * NthElement: partial sorting

    src/heyp/alg/fairness/nth-element.h and the pieces of
    third_party/fastalg/hybrid_qsort.h it calls.

    Ranges of at most [kScratchSize] elements are sorted through a scratch
    buffer of the same length; the model of that path is on the values of
    the range (the scratch is dead once a call returns).  Longer ranges go
    through a block partition that uses part of the array as its own
    scratch space; its model is on a flat memory with indices, so the
    aliasing is the source's. *)

From S2P Require Import Prelude.

(** ** Strict weak orders, the contract of a C++ comparator *)

Class StrictWeakOrder {A} (comp : A -> A -> bool) : Prop := {
  swo_asym x y : comp x y = true -> comp y x = false;
  swo_le_trans x y z : comp y x = false -> comp z y = false -> comp z x = false }.

#[export] Instance Zltb_strict_weak_order : StrictWeakOrder Z.ltb.
Proof. split; intros; bool_to_prop; apply Z.ltb_ge; lia. Qed.

Definition kSmallSortThreshold : Z := 16.
Definition kScratchSize : Z := 512.

Section NthElement.
Context {A : Type} `{Inhabited A} (comp : A -> A -> bool).

(** *** Small sort: BubbleSort2 *)

(** The inner loop, from [j = 2]: the values written behind the loop index
    and the final two registers. *)
Fixpoint BubbleSort2_inner (x y : A) (zs : list A) : list A * A * A :=
  match zs with
  | [] => ([], x, y)
  | z :: zs =>
      let is_smaller := comp z y in
      let w := if is_smaller then z else y in
      let y' := if is_smaller then y else z in
      let is_smaller := comp z x in
      let out := if is_smaller then z else x in
      let x' := if is_smaller then x else w in
      let '(outs, x'', y'') := BubbleSort2_inner x' y' zs in
      (out :: outs, x'', y'')
  end.

(** The outer loop; [i] counts down by two over the unsorted prefix. *)
Fixpoint BubbleSort2_loop (i : nat) (l : list A) : list A :=
  match i, l with
  | S (S i'), x :: y :: zs =>
      let '(x, y) := if comp y x then (y, x) else (x, y) in
      let '(outs, x', y') := BubbleSort2_inner x y zs in
      BubbleSort2_loop i' outs ++ [x'; y']
  | _, _ => l
  end.

Definition BubbleSort2 (l : list A) : list A := BubbleSort2_loop (length l) l.
Definition SmallSort (l : list A) : list A := BubbleSort2 l.

(** *** Pivot selection *)

Definition MedianOfThree (l : list A) : A :=
  let n := length l in
  let f := l !!! 0%nat in
  let m := l !!! (n / 2)%nat in
  let e := l !!! (n - 1)%nat in
  let '(f, m) := if comp m f then (m, f) else (f, m) in
  let '(f, e) := if comp e f then (e, f) else (f, e) in
  let '(e, m) := if comp e m then (m, e) else (e, m) in
  m.

(** When [comp y x] the iterators (not the values) are swapped, so [x] is
    stored at [b] and [y] at [a]. *)
Definition BranchlessSwap (a b : nat) (l : list A) : list A :=
  let x := l !!! a in
  let y := l !!! b in
  let '(a, b) := if comp y x then (b, a) else (a, b) in
  <[b := y]> (<[a := x]> l).

Definition MoveMedianOfThreeToEnd (l : list A) : list A :=
  let mid := (length l / 2)%nat in
  let back := (length l - 1)%nat in
  BranchlessSwap back mid (BranchlessSwap 0 back (BranchlessSwap 0 mid l)).

(** *** Out of place partition

    The output buffer is filled from both ends: [front] holds the elements
    below the pivot in order, [back] the others, the latest first. *)
Fixpoint PartitionInto_loop (pivot : A) (xs front back : list A) : list A * list A :=
  match xs with
  | [] => (front, back)
  | x :: xs =>
      let is_larger := negb (comp x pivot) in
      if is_larger then PartitionInto_loop pivot xs front (x :: back)
      else PartitionInto_loop pivot xs (front ++ [x]) back
  end.

(** The filled buffer and the index of the pivot in it. *)
Definition PartitionInto (l : list A) : list A * nat :=
  let pivot := l !!! (length l - 1)%nat in
  let '(front, back) := PartitionInto_loop pivot (take (length l - 1) l) [] [] in
  (front ++ pivot :: back, length front).

(** *** Selection through the scratch buffer

    [NthElementInto] leaves its result in the other buffer,
    [NthElementScratch] in the range itself; [nth] is relative to the
    start of the range. *)
Fixpoint NthElementScratch (fuel : nat) (l : list A) (nth : nat) : list A :=
  match fuel with
  | O => l
  | S fuel =>
      if kSmallSortThreshold <? Z.of_nat (length l) then
        let '(scratch, p) := PartitionInto (MoveMedianOfThreeToEnd l) in
        if (p <? nth)%nat then
          take (S p) scratch ++ NthElementInto fuel (drop (S p) scratch) (nth - S p)
        else if (nth <? p)%nat then
          NthElementInto fuel (take p scratch) nth ++ drop p scratch
        else scratch
      else SmallSort l
  end
with NthElementInto (fuel : nat) (l : list A) (nth : nat) : list A :=
  match fuel with
  | O => l
  | S fuel =>
      if kSmallSortThreshold <? Z.of_nat (length l) then
        let '(out, p) := PartitionInto (MoveMedianOfThreeToEnd l) in
        if (p <? nth)%nat then
          take (S p) out ++ NthElementScratch fuel (drop (S p) out) (nth - S p)
        else if (nth <? p)%nat then
          NthElementScratch fuel (take p out) nth ++ drop p out
        else out
      else SmallSort l
  end.

(** *** Block partition of long ranges

    [mem] holds the range followed by the scratch buffer; [first], [last]
    and [scratch] are indices into it. *)

(** [larger] is the negated source variable.  The result is the memory and
    the returned iterator [first + larger]. *)
Fixpoint DistributeForward (fuel : nat) (pivot : A) (mem : list A)
    (first last scratch larger : nat) (scratch_size : nat) : list A * nat :=
  match fuel with
  | O => (mem, (first - larger)%nat)
  | S fuel =>
      if (first <? last)%nat then
        let x := mem !!! first in
        let is_larger := negb (comp x pivot) in
        let dest := if is_larger then (scratch + scratch_size - 1 - larger)%nat
                    else (first - larger)%nat in
        let mem := <[dest := x]> mem in
        let larger := if is_larger then S larger else larger in
        if (larger =? scratch_size)%nat then (mem, (S first - larger)%nat)
        else DistributeForward fuel pivot mem (S first) last scratch larger scratch_size
      else (mem, (first - larger)%nat)
  end.

Fixpoint DistributeBackward (fuel : nat) (pivot : A) (mem : list A)
    (first last scratch smaller : nat) (scratch_size : nat) : list A * nat :=
  match fuel with
  | O => (mem, (last + smaller)%nat)
  | S fuel =>
      if (first <? last)%nat then
        let last := (last - 1)%nat in
        let x := mem !!! last in
        let is_smaller := comp x pivot in
        let dest := if is_smaller then (scratch + smaller)%nat
                    else (last + smaller)%nat in
        let mem := <[dest := x]> mem in
        let smaller := if is_smaller then S smaller else smaller in
        if (smaller =? scratch_size)%nat then (mem, (last + smaller)%nat)
        else DistributeBackward fuel pivot mem first last scratch smaller scratch_size
      else (mem, (last + smaller)%nat)
  end.

(** [std::move(mem + from, mem + from + n, mem + to)]. *)
Definition move_range (mem : list A) (from n to : nat) : list A :=
  list_inserts to (take n (drop from mem)) mem.

(** The alternating loop; [res] of the source, with the memory. *)
Fixpoint HoareLomuto_loop (fuel : nat) (pivot : A) (mem : list A)
    (first last k : nat) : list A * nat :=
  match fuel with
  | O => (mem, last)
  | S fuel =>
      let '(mem, l) := DistributeBackward (length mem) pivot mem first last (first - k) 0 k in
      let last := (l - k)%nat in
      if (last <=? first)%nat then (mem, last)
      else
        let '(mem, f) := DistributeForward (length mem) pivot mem first last last 0 k in
        let first := (f + k)%nat in
        if (last <=? first)%nat then (mem, (first - k)%nat)
        else HoareLomuto_loop fuel pivot mem first last k
  end.

(** Partitions [l] with a scratch of [k] cells; the new range and the
    partition point. *)
Definition HoareLomutoHybridPartition (k : nat) (pivot : A) (l : list A) : list A * nat :=
  let n := length l in
  let scratch := n in
  let mem := l ++ replicate k inhabitant in
  let '(mem, pfirst) := DistributeForward (length mem) pivot mem 0 n scratch 0 k in
  let size := (n - pfirst)%nat in
  if (size <=? k)%nat then
    (take n (move_range mem (scratch + k - size) size pfirst), pfirst)
  else
    let '(mem, res) := HoareLomuto_loop (length mem) pivot mem (pfirst + k) n k in
    (take n (move_range mem scratch k res), res).

(** [std::partition] on a range: those that satisfy the predicate come
    first (their order is not specified; the stable one is taken). *)
Definition std_partition (p : A -> bool) (l : list A) : list A * nat :=
  let yes := List.filter p l in
  (yes ++ List.filter (fun x => negb (p x)) l, length yes).

Definition ChoosePivotAndPartition (k : nat) (l : list A) : list A * nat * nat :=
  let pivot := MedianOfThree l in
  let '(l, res) := HoareLomutoHybridPartition k pivot l in
  if (res <? length l / 8)%nat then
    let '(rest, m) := std_partition (fun p => negb (comp pivot p)) (drop res l) in
    (take res l ++ rest, res, (res + m)%nat)
  else (l, res, res).

(** The driver.  [first <= nth] is the invariant of the loop that a
    relative index states by itself. *)
Fixpoint NthElement_loop (fuel : nat) (l : list A) (nth : nat) : list A :=
  match fuel with
  | O => l
  | S fuel =>
      if (nth <=? length l)%nat then
        if kScratchSize <? Z.of_nat (length l) then
          let '(l, plo, phi) := ChoosePivotAndPartition (Z.to_nat kScratchSize) l in
          if (plo <? nth)%nat then
            if (phi <=? nth)%nat then
              take phi l ++ NthElement_loop fuel (drop phi l) (nth - phi)
            else l
          else NthElement_loop fuel (take plo l) nth ++ drop plo l
        else NthElementScratch (length l) l nth
      else l
  end.

Definition NthElement (l : list A) (nth : nat) : list A :=
  NthElement_loop (S (length l)) l nth.

(** *** Specification *)

Definition leq (x y : A) : Prop := comp y x = false.

(** Position [k] holds what it would hold in sorted order, everything
    before it is at most that, everything after it at least. *)
Definition nth_placed (k : nat) (l : list A) : Prop :=
  forall i j x y, (i <= k <= j)%nat -> l !! i = Some x -> l !! j = Some y -> leq x y.

Definition nth_spec (l : list A) (k : nat) (l' : list A) : Prop :=
  l' ≡ₚ l /\ nth_placed k l'.

(** *** Small sort sorts *)

Context `{!StrictWeakOrder comp}.

Lemma leq_refl x : leq x x.
Proof.
  unfold leq. destruct (comp x x) eqn:E; [|done].
  pose proof (swo_asym x x E). congruence.
Qed.

Lemma leq_trans x y z : leq x y -> leq y z -> leq x z.
Proof. apply swo_le_trans. Qed.

Lemma comp_leq x y : comp x y = true -> leq x y.
Proof. apply swo_asym. Qed.

(** What one step of the inner loop keeps: the registers are ordered, the
    value written out is at most the new smaller register, which grew. *)
Lemma BubbleSort2_inner_spec zs : forall x y,
  leq x y ->
  let '(outs, x', y') := BubbleSort2_inner x y zs in
  outs ++ [x'; y'] ≡ₚ x :: y :: zs /\ leq x' y' /\ leq x x' /\
  Forall (fun o => leq o x') outs /\ length outs = length zs.
Proof.
  induction zs as [|z zs IH]; intros x y Hxy; cbn [BubbleSort2_inner].
  - split_and!; eauto using leq_refl.
  - set (o := if comp z x then z else x).
    set (x1 := if comp z x then x else if comp z y then z else y).
    set (y1 := if comp z y then y else z).
    assert (Hstep : leq x1 y1 /\ leq x x1 /\ leq o x1 /\ [o; x1; y1] ≡ₚ [x; y; z]).
    { unfold o, x1, y1. destruct (comp z x) eqn:Ezx, (comp z y) eqn:Ezy.
      - split_and!; eauto using leq_refl, comp_leq.
        by rewrite (Permutation_cons_append [x; y] z).
      - exfalso. assert (leq x z) by (eapply leq_trans; eauto). unfold leq in *. congruence.
      - split_and!; eauto using leq_refl, comp_leq. constructor. constructor.
      - split_and!; eauto using leq_refl. }
    destruct Hstep as (H1 & H2 & H3 & Hp).
    specialize (IH x1 y1 H1).
    destruct (BubbleSort2_inner x1 y1 zs) as [[outs x'] y'].
    destruct IH as (IHp & IHxy & IHx & IHo & IHl).
    split_and!; eauto using leq_trans.
    + cbn [app]. rewrite IHp.
      change (o :: x1 :: y1 :: zs) with ([o; x1; y1] ++ zs). by rewrite Hp.
    + cbn. lia.
Qed.

Definition Sorted_leq : list A -> Prop := StronglySorted leq.

Lemma Sorted_leq_snoc2 l x y :
  Sorted_leq l -> leq x y -> Forall (fun o => leq o x) l -> Sorted_leq (l ++ [x; y]).
Proof.
  intros Hs Hxy. induction Hs as [|z l Hs IH Hz]; intros Hl; cbn.
  - repeat constructor; done.
  - apply Forall_cons in Hl as [Hzx Hl]. constructor; [by apply IH|].
    apply Forall_app. split; [done|].
    repeat constructor; eauto using leq_trans.
Qed.

Lemma BubbleSort2_loop_spec i : forall l,
  length l = i -> BubbleSort2_loop i l ≡ₚ l /\ Sorted_leq (BubbleSort2_loop i l).
Proof.
  induction i as [i IH] using lt_wf_ind. intros l Hl.
  destruct i as [|[|i]], l as [|x [|y zs]]; simplify_eq/=;
    try solve [split; [done | repeat constructor]].
  set (xy := if comp y x then (y, x) else (x, y)).
  assert (Hxy : leq xy.1 xy.2 /\ [xy.1; xy.2] ≡ₚ [x; y]).
  { unfold xy. destruct (comp y x) eqn:E; cbn; split; eauto using comp_leq; constructor. }
  destruct xy as [x0 y0]; cbn in Hxy; destruct Hxy as [Hle Hp].
  pose proof (BubbleSort2_inner_spec zs x0 y0 Hle) as Hin.
  destruct (BubbleSort2_inner x0 y0 zs) as [[outs x'] y'].
  destruct Hin as (Hip & Hixy & _ & Hio & Hil).
  edestruct (IH (length zs)) as [IHp IHs]; [lia|exact Hil|].
  split.
  - rewrite IHp, Hip. change (x0 :: y0 :: zs) with ([x0; y0] ++ zs). by rewrite Hp.
  - apply Sorted_leq_snoc2; eauto using Forall_perm.
Qed.

Lemma SmallSort_spec l : SmallSort l ≡ₚ l /\ Sorted_leq (SmallSort l).
Proof. by apply BubbleSort2_loop_spec. Qed.

Lemma Sorted_leq_lookup l i j x y :
  Sorted_leq l -> (i <= j)%nat -> l !! i = Some x -> l !! j = Some y -> leq x y.
Proof.
  intros Hs. revert i j. induction Hs as [|z l Hs IH Hz]; intros [|i] [|j] Hij Hx Hy;
    simplify_eq/=; eauto using leq_refl; try lia.
  - rewrite Forall_lookup in Hz. eauto.
  - eapply (IH i j); eauto. lia.
Qed.

Lemma Sorted_nth_placed l k : Sorted_leq l -> nth_placed k l.
Proof. intros Hs i j x y ? Hx Hy. apply (Sorted_leq_lookup l i j); [done|lia|done|done]. Qed.

(** *** Partition *)

Lemma PartitionInto_loop_spec pivot xs : forall front back,
  Forall (fun x => leq x pivot) front -> Forall (fun x => leq pivot x) back ->
  let '(f, b) := PartitionInto_loop pivot xs front back in
  f ++ b ≡ₚ front ++ xs ++ back /\
  Forall (fun x => leq x pivot) f /\ Forall (fun x => leq pivot x) b.
Proof.
  induction xs as [|x xs IH]; intros front back Hf Hb; cbn [PartitionInto_loop].
  - split_and!; done.
  - destruct (comp x pivot) eqn:E; cbn [negb].
    + specialize (IH (front ++ [x]) back).
      destruct (PartitionInto_loop pivot xs (front ++ [x]) back) as [f b].
      destruct IH as (IHp & IHf & IHb); [|done|].
      { apply Forall_app. split; [done|]. repeat constructor. by apply comp_leq. }
      split_and!; [|done|done]. rewrite IHp. by rewrite <- !app_assoc.
    + specialize (IH front (x :: back)).
      destruct (PartitionInto_loop pivot xs front (x :: back)) as [f b].
      destruct IH as (IHp & IHf & IHb); [done|by constructor|].
      split_and!; [|done|done]. rewrite IHp.
      apply Permutation_app_head. cbn. by rewrite <- Permutation_middle.
Qed.

(** The buffer is [front ++ pivot :: back]. *)
Lemma PartitionInto_spec l :
  l <> [] ->
  exists front pivot back,
    PartitionInto l = (front ++ pivot :: back, length front) /\
    front ++ pivot :: back ≡ₚ l /\
    Forall (fun x => leq x pivot) front /\ Forall (fun x => leq pivot x) back.
Proof.
  intros Hl. unfold PartitionInto. set (pivot := l !!! (length l - 1)%nat).
  pose proof (PartitionInto_loop_spec pivot (take (length l - 1) l) [] []
                (Forall_nil_2 _) (Forall_nil_2 _)) as Hp.
  destruct (PartitionInto_loop pivot (take (length l - 1) l) [] []) as [f b].
  destruct Hp as (Hp & Hf & Hb). exists f, pivot, b. split_and!; try done.
  pose proof (last_split l Hl) as Hsplit. fold pivot in Hsplit. rewrite Hsplit.
  rewrite <- Permutation_middle, Hp. cbn. rewrite app_nil_r.
  by rewrite Permutation_cons_append.
Qed.

Lemma BranchlessSwap_perm a b l :
  (a < length l)%nat -> (b < length l)%nat -> BranchlessSwap a b l ≡ₚ l.
Proof.
  intros Ha Hb. unfold BranchlessSwap.
  apply lookup_lt_is_Some in Ha as [x Hx]. apply lookup_lt_is_Some in Hb as [y Hy].
  rewrite (list_lookup_total_correct _ _ _ Hx), (list_lookup_total_correct _ _ _ Hy).
  destruct (comp y x).
  - by apply insert_swap_perm.
  - rewrite (list_insert_id l a x Hx). by rewrite (list_insert_id l b y Hy).
Qed.

Lemma MoveMedianOfThreeToEnd_perm l : l <> [] -> MoveMedianOfThreeToEnd l ≡ₚ l.
Proof.
  intros Hl. unfold MoveMedianOfThreeToEnd.
  assert (0 < length l)%nat by (destruct l; cbn; [done|lia]).
  assert (length l / 2 < length l)%nat by (apply Nat.div_lt; lia).
  assert (P1 : BranchlessSwap 0 (length l / 2) l ≡ₚ l) by (apply BranchlessSwap_perm; lia).
  pose proof (Permutation_length P1) as L1.
  assert (P2 : BranchlessSwap 0 (length l - 1) (BranchlessSwap 0 (length l / 2) l) ≡ₚ l).
  { rewrite BranchlessSwap_perm by lia. done. }
  pose proof (Permutation_length P2) as L2.
  rewrite BranchlessSwap_perm by lia. done.
Qed.

(** *** Selection *)

Definition separated (l1 l2 : list A) : Prop :=
  forall x y, x ∈ l1 -> y ∈ l2 -> leq x y.

Lemma separated_perm l1 l1' l2 l2' :
  l1' ≡ₚ l1 -> l2' ≡ₚ l2 -> separated l1 l2 -> separated l1' l2'.
Proof. intros H1 H2 Hs x y. rewrite H1, H2. apply Hs. Qed.

Lemma nth_placed_app_l k l1 l2 :
  separated l1 l2 -> (k < length l1)%nat -> nth_placed k l1 -> nth_placed k (l1 ++ l2).
Proof.
  intros Hs Hk Hl i j x y [Hi Hj] Hx Hy.
  rewrite lookup_app_l in Hx by lia.
  apply lookup_app_Some in Hy as [Hy|[_ Hy]].
  - by eapply (Hl i j).
  - apply Hs; by eapply list_elem_of_lookup_2.
Qed.

Lemma nth_placed_app_r k l1 l2 :
  separated l1 l2 -> (length l1 <= k)%nat -> nth_placed (k - length l1)%nat l2 ->
  nth_placed k (l1 ++ l2).
Proof.
  intros Hs Hk Hl i j x y [Hi Hj] Hx Hy.
  rewrite lookup_app_r in Hy by lia.
  apply lookup_app_Some in Hx as [Hx|[Hle Hx]].
  - apply Hs; by eapply list_elem_of_lookup_2.
  - eapply (Hl (i - length l1)%nat (j - length l1)%nat); eauto. lia.
Qed.

Lemma nth_placed_singleton k x : nth_placed k [x].
Proof.
  intros i j y z _ Hy Hz. apply list_lookup_singleton_Some in Hy as [_ ->].
  apply list_lookup_singleton_Some in Hz as [_ ->]. apply leq_refl.
Qed.

Lemma pivot_separates front pivot back :
  Forall (fun x => leq x pivot) front -> Forall (fun x => leq pivot x) back ->
  separated (front ++ [pivot]) back /\ separated front (pivot :: back).
Proof.
  intros Hf Hb. rewrite Forall_forall in Hf, Hb.
  split; intros x y; rewrite ?elem_of_app, ?elem_of_cons.
  - intros [Hx|[->|Hx]] Hy; [|by apply Hb|by apply elem_of_nil in Hx].
    eapply leq_trans; eauto.
  - intros Hx [->|Hy]; [by apply Hf|]. eapply leq_trans; eauto.
Qed.

(** One round: what a recursive call may do to the two sides. *)
Lemma select_round front pivot back k (rec : list A -> nat -> list A) :
  Forall (fun x => leq x pivot) front -> Forall (fun x => leq pivot x) back ->
  nth_spec back (k - S (length front))%nat (rec back (k - S (length front))%nat) ->
  nth_spec front k (rec front k) ->
  nth_spec (front ++ pivot :: back) k
    (let out := front ++ pivot :: back in
     let p := length front in
     if (p <? k)%nat then take (S p) out ++ rec (drop (S p) out) (k - S p)%nat
     else if (k <? p)%nat then rec (take p out) k ++ drop p out
     else out).
Proof.
  intros Hf Hb [Rp Rk] [Lp Lk]. cbv zeta.
  destruct (pivot_separates front pivot back Hf Hb) as [Hs1 Hs2].
  repeat case_if.
  - rewrite cons_middle, app_assoc.
    rewrite take_app_length', drop_app_length' by (rewrite length_app; cbn; lia).
    split; [by rewrite Rp|]. apply nth_placed_app_r.
    + by eapply separated_perm.
    + rewrite length_app; cbn; lia.
    + rewrite length_app. cbn. by rewrite Nat.add_1_r.
  - rewrite take_app_length', drop_app_length' by done.
    split; [by rewrite Lp|]. apply nth_placed_app_l; [by eapply separated_perm| |done].
    rewrite Lp. lia.
  - assert (k = length front) as -> by lia. split; [done|].
    apply nth_placed_app_r; [done|lia|].
    apply (nth_placed_app_l _ [pivot] back); [|cbn; lia|apply nth_placed_singleton].
    intros x y Hx Hy. apply Hs1; [|done]. set_solver.
Qed.

Lemma NthElementScratchInto_spec fuel : forall l k,
  (length l <= fuel)%nat ->
  nth_spec l k (NthElementScratch fuel l k) /\ nth_spec l k (NthElementInto fuel l k).
Proof.
  induction fuel as [|fuel IH]; intros l k Hl.
  - destruct l; [|cbn in Hl; lia]. split; (split; [done|]); intros i j x y _ Hx; done.
  - cbn [NthElementScratch NthElementInto]. case_if.
    + assert (Hnil : MoveMedianOfThreeToEnd l <> []).
      { intros E. pose proof (MoveMedianOfThreeToEnd_perm l) as Hp.
        destruct l; [unfold kSmallSortThreshold in *; cbn in *; lia|].
        rewrite E in Hp. specialize (Hp ltac:(done)).
        by apply Permutation_nil_cons in Hp. }
      destruct (PartitionInto_spec _ Hnil) as (front & pivot & back & -> & Hp & Hf & Hb).
      assert (Hlp : front ++ pivot :: back ≡ₚ l).
      { rewrite Hp. apply MoveMedianOfThreeToEnd_perm. intros ->. by apply Hnil. }
      assert (Hlen : (length front + S (length back) = length l)%nat).
      { rewrite <- (Permutation_length Hlp), length_app. done. }
      assert (Htr : forall r, nth_spec (front ++ pivot :: back) k r -> nth_spec l k r).
      { intros r [Hr ?]. split; [by rewrite Hr|done]. }
      split; apply Htr.
      * apply (select_round front pivot back k (NthElementInto fuel)); try done;
          apply IH; lia.
      * apply (select_round front pivot back k (NthElementScratch fuel)); try done;
          apply IH; lia.
    + destruct (SmallSort_spec l) as [Hp Hs].
      split; (split; [done | by apply Sorted_nth_placed]).
Qed.

Lemma NthElement_small_spec l k :
  Z.of_nat (length l) <= kScratchSize -> nth_spec l k (NthElement l k).
Proof.
  intros Hl. unfold NthElement. cbn [NthElement_loop].
  destruct (k <=? length l)%nat eqn:Ek; bool_to_prop.
  - rewrite (proj2 (Z.ltb_ge _ _)) by done. by apply NthElementScratchInto_spec.
  - split; [done|]. intros i j x y ? _ Hy. apply lookup_lt_Some in Hy. lia.
Qed.

(** On ranges of at most [kScratchSize] elements [NthElement] permutes
    the range so that position [k] holds what it would hold in sorted
    order, smaller elements are before it and larger ones after it. *)
Theorem NthElement_small_correct l k :
  Z.of_nat (length l) <= kScratchSize ->
  NthElement l k ≡ₚ l /\
  (forall i j x y, (i <= k <= j)%nat -> NthElement l k !! i = Some x ->
     NthElement l k !! j = Some y -> comp y x = false).
Proof. apply NthElement_small_spec. Qed.
End NthElement.

(** ** The interface of a selection routine

    What a client needs: correctness on ranges up to a bound. *)

Class SelectsUpTo {A} (comp : A -> A -> bool) (bound : Z)
    (sel : list A -> nat -> list A) : Prop :=
  selects l k : Z.of_nat (length l) <= bound -> nth_spec comp l k (sel l k).

#[export] Instance NthElement_selects {A} `{Inhabited A} (comp : A -> A -> bool)
    `{!StrictWeakOrder comp} : SelectsUpTo comp kScratchSize (NthElement comp).
Proof. intros l k Hl. by apply NthElement_small_spec. Qed.

Lemma NthElement_small_correct_witness :
  NthElement Z.ltb [5; 1; 4; 2; 3] 2 ≡ₚ [5; 1; 4; 2; 3] /\
  NthElement Z.ltb [5; 1; 4; 2; 3] 2 = [1; 2; 3; 4; 5].
Proof.
  split; [|vm_compute; reflexivity].
  apply (NthElement_small_correct Z.ltb [5; 1; 4; 2; 3] 2). vm_compute. discriminate.
Defined.


(** ** Long ranges

    The block partition leaves the range split at [plo].  When [plo] is the
    requested position itself the loop continues on the part before it, so
    nothing puts the smallest element of the other part at that position. *)

Definition ascending (n : nat) : list Z := map Z.of_nat (seq 1 n).

(** On the sorted range 1, 2, ..., 513 with the middle position requested
    [NthElement] returns a permutation whose middle is 513, not 257. *)
Theorem NthElement_long_range_misplaced :
  let r := NthElement Z.ltb (ascending 513) 256 in
  merge_sort Z.le r = ascending 513 /\ r !! 256%nat = Some 513 /\
  ascending 513 !! 256%nat = Some 257 /\ ~ nth_spec Z.ltb (ascending 513) 256 r.
Proof.
  assert (Hr : NthElement Z.ltb (ascending 513) 256 !! 256%nat = Some 513)
    by (vm_compute; reflexivity).
  assert (Hr' : NthElement Z.ltb (ascending 513) 256 !! 257%nat = Some 512)
    by (vm_compute; reflexivity).
  cbv zeta. split_and!; [vm_compute; reflexivity|done|vm_compute; reflexivity|].
  intros [_ Hp]. specialize (Hp 256%nat 257%nat 513 512 ltac:(lia) Hr Hr').
  discriminate Hp.
Qed.
