(* ===== verification/MaxMin.v ===== *)
(** * MaxMin: max-min fair allocation of one link

    src/heyp/alg/fairness/max-min-fairness.{h,cc}.  [int64_t] arithmetic is
    written out with its wrap-around, including the places where a
    [size_t] operand turns it unsigned; the theorems give the range of
    inputs on which no operation wraps. *)

From S2P Require Import Prelude NthElement.

(** ** Options and buffers *)

Inductive SolveMethod := kFullSort | kPartialSort.

Record Options := mkOptions { solve_method : SolveMethod; enable_tiny_flow_opt : bool }.

Definition default_problem_options : Options := mkOptions kPartialSort true.

(** ** The full sort solver *)

Definition sort_demands (l : list Z) : list Z := merge_sort Z.le l.

Fixpoint SolveFullSort_loop (capacity waterlevel : Z) (sorted : list Z) : Z :=
  match sorted with
  | [] => waterlevel
  | next_demand :: rest =>
      let delta := i64 (next_demand - waterlevel) in
      let num_unsatisfied := Z.of_nat (length sorted) in
      let ask := i64 (delta * num_unsatisfied) in
      if ask <=? capacity then
        SolveFullSort_loop (i64 (capacity - ask)) (i64 (waterlevel + delta)) rest
      else i64 (waterlevel + Z.quot capacity num_unsatisfied)
  end.

Definition SolveFullSort (capacity waterlevel : Z) (sorted_demands : list Z) : Z :=
  SolveFullSort_loop capacity waterlevel (sort_demands sorted_demands).

(** ** The partial sort solver *)

Record PartialSortAllocator := mkPSA {
  capacity_ : Z;
  sorted_demands_ : list Z;
  residual_capacity_ : Z;
  lower_limit_ : Z;
  upper_limit_ : Z;
  waterlevel_ : Z }.

Definition new_PSA (original_capacity capacity waterlevel : Z) (sorted_demands : list Z)
    : PartialSortAllocator :=
  mkPSA original_capacity sorted_demands capacity 0
    (Z.of_nat (length sorted_demands) - 1) waterlevel.

Definition elem (l : list Z) (i : Z) : Z := l !!! Z.to_nat i.

(** The debug check: true when a violation is found. *)
Definition PrintInvariantViolations (s : PartialSortAllocator) : bool :=
  let sd := sorted_demands_ s in
  let n := length sd in
  let lo := Z.to_nat (lower_limit_ s) in
  let above := existsb (fun d => d <? waterlevel_ s) (drop lo sd) in
  let below := existsb (fun d => waterlevel_ s <? d) (take lo sd) in
  let sum_lower_demands := foldl (fun acc d => i64 (acc + d)) 0 (take lo sd) in
  let expected_residual_capacity :=
    i64 (u64 (i64 (capacity_ s - sum_lower_demands)) -
         u64 (u64 (waterlevel_ s) * (Z.of_nat n - lower_limit_ s))) in
  above || below || negb (residual_capacity_ s =? expected_residual_capacity).

(** [ask] over [A = [lower, partition]]; [max_demand_A] is its last value. *)
Definition sum_ask (waterlevel : Z) (A : list Z) : Z * Z :=
  foldl (fun '(ask, _) d => (i64 (ask + i64 (d - waterlevel)), d)) (0, 0) A.

(** [NthElement(begin + lower, begin + partition, begin + upper + 1)]. *)
Definition NthElement_range (nth_elt : list Z -> nat -> list Z)
    (sd : list Z) (lower partition upper : Z) : list Z :=
  let lo := Z.to_nat lower in
  let hi := Z.to_nat (upper + 1) in
  take lo sd ++ nth_elt (drop lo (take hi sd)) (Z.to_nat (partition - lower)) ++ drop hi sd.

Section PartialSort.
(** The selection routine is a parameter of the solver so that what the
    solver needs of it can be stated as an interface. *)
Context (nth_elt : list Z -> nat -> list Z).

Definition partition_index (s : PartialSortAllocator) : Z :=
  lower_limit_ s + Z.quot (upper_limit_ s - lower_limit_ s) 2.

(** One iteration of the loop. *)
Definition PSA_step (s : PartialSortAllocator) : PartialSortAllocator :=
  let partition_idx := partition_index s in
  let sd := NthElement_range nth_elt (sorted_demands_ s) (lower_limit_ s) partition_idx
              (upper_limit_ s) in
  let A := take (Z.to_nat (partition_idx + 1 - lower_limit_ s))
             (drop (Z.to_nat (lower_limit_ s)) sd) in
  let '(ask, max_demand_A) := sum_ask (waterlevel_ s) A in
  let ask := i64 (u64 ask + u64 (u64 (i64 (max_demand_A - waterlevel_ s)) *
                                 (Z.of_nat (length sd) - partition_idx - 1))) in
  if ask <=? residual_capacity_ s then
    mkPSA (capacity_ s) sd (i64 (residual_capacity_ s - ask)) (partition_idx + 1)
      (upper_limit_ s) max_demand_A
  else if lower_limit_ s =? upper_limit_ s then
    mkPSA (capacity_ s) sd (residual_capacity_ s) (lower_limit_ s) (lower_limit_ s - 1)
      (waterlevel_ s)
  else
    mkPSA (capacity_ s) sd (residual_capacity_ s) (lower_limit_ s) partition_idx
      (waterlevel_ s).

Fixpoint PSA_loop (fuel : nat) (s : PartialSortAllocator) : PartialSortAllocator :=
  match fuel with
  | O => s
  | S fuel => if lower_limit_ s <=? upper_limit_ s then PSA_loop fuel (PSA_step s) else s
  end.

(** The code after the loop. *)
Definition PSA_finish (s : PartialSortAllocator) : Z :=
  let n := Z.of_nat (length (sorted_demands_ s)) in
  let next_unsatisfied := Z.max (lower_limit_ s) (upper_limit_ s) in
  if next_unsatisfied <? n then
    i64 (u64 (waterlevel_ s) + u64 (residual_capacity_ s) / (n - next_unsatisfied))
  else waterlevel_ s.

Definition PSA_ComputeWaterlevel (s : PartialSortAllocator) : Z :=
  if bool_decide (sorted_demands_ s = []) then waterlevel_ s
  else PSA_finish (PSA_loop (S (length (sorted_demands_ s))) s).

Definition SolvePartialSort (original_capacity capacity waterlevel : Z)
    (sorted_demands : list Z) : Z :=
  PSA_ComputeWaterlevel (new_PSA original_capacity capacity waterlevel sorted_demands).

(** ** The problem *)

(** The filtering pass: the kept demands in order, the capacity left after
    the tiny ones and the largest tiny one. *)
Fixpoint filter_tiny (thresh : Z) (demands : list Z) (buf : list Z)
    (capacity waterlevel : Z) : list Z * Z * Z :=
  match demands with
  | [] => (buf, capacity, waterlevel)
  | d :: demands =>
      if d <=? thresh then
        filter_tiny thresh demands buf (i64 (capacity - d)) (Z.max waterlevel d)
      else filter_tiny thresh demands (buf ++ [d]) capacity waterlevel
  end.

Definition ComputeWaterlevel_with (o : Options) (capacity : Z) (demands : list Z) : Z :=
  let num_demands := Z.of_nat (length demands) in
  let tiny_demand_thresh :=
    if enable_tiny_flow_opt o then Z.quot capacity (Z.max num_demands 1) else -1 in
  let '(buf, capacity_without_tiny, waterlevel) :=
    filter_tiny tiny_demand_thresh demands [] capacity 0 in
  let capacity := i64 (u64 capacity_without_tiny -
                       u64 (u64 waterlevel * Z.of_nat (length buf))) in
  match solve_method o with
  | kFullSort => SolveFullSort capacity waterlevel buf
  | kPartialSort => SolvePartialSort capacity_without_tiny capacity waterlevel buf
  end.
End PartialSort.

Definition ComputeWaterlevel (o : Options) (capacity : Z) (demands : list Z) : Z :=
  ComputeWaterlevel_with (NthElement Z.ltb) o capacity demands.

Definition SetAllocations (waterlevel : Z) (demands : list Z) : list Z :=
  map (fun d => Z.min waterlevel d) demands.

(** ** Specification: the fair water level *)

Definition min_sum (w : Z) (ds : list Z) : Z := zsum (map (Z.min w) ds).

Definition zmax_from (w : Z) (ds : list Z) : Z := foldr Z.max w ds.

(** [w] is the largest level (from [w0] up) whose total fits in [C], or the
    largest demand when every demand fits. *)
Definition fair_above (w0 C : Z) (ds : list Z) (w : Z) : Prop :=
  w0 <= w /\ min_sum w ds <= C /\ (w = zmax_from w0 ds \/ C < min_sum (w + 1) ds).

Definition is_fair_waterlevel (C : Z) (ds : list Z) (w : Z) : Prop := fair_above 0 C ds w.

#[export] Instance min_sum_perm : Proper ((=) ==> (≡ₚ) ==> (=)) min_sum.
Proof. intros w ? <- l k H. unfold min_sum. by rewrite H. Qed.

#[export] Instance zmax_from_perm : Proper ((=) ==> (≡ₚ) ==> (=)) zmax_from.
Proof. intros w ? <- l k H. unfold zmax_from. induction H; simpl; lia. Qed.

#[export] Instance fair_above_perm :
  Proper ((=) ==> (=) ==> (≡ₚ) ==> (=) ==> iff) fair_above.
Proof. intros ? ? <- ? ? <- l k H ? ? <-. unfold fair_above. by rewrite H. Qed.

Lemma min_sum_mono w w' ds : w <= w' -> min_sum w ds <= min_sum w' ds.
Proof. intros H. apply zsum_map_le. lia. Qed.

Lemma min_sum_app w l k : min_sum w (l ++ k) = min_sum w l + min_sum w k.
Proof. unfold min_sum. by rewrite map_app, zsum_app. Qed.

Lemma min_sum_cons w x l : min_sum w (x :: l) = Z.min w x + min_sum w l.
Proof. done. Qed.

(** Demands below the level are met, demands above it get the level. *)
Lemma min_sum_below w ds : (forall x, x ∈ ds -> x <= w) -> min_sum w ds = zsum ds.
Proof.
  induction ds as [|x ds IH]; intros H; [done|]. rewrite min_sum_cons, IH by set_solver.
  rewrite zsum_cons. specialize (H x ltac:(set_solver)). lia.
Qed.

Lemma min_sum_above w ds :
  (forall x, x ∈ ds -> w <= x) -> min_sum w ds = w * Z.of_nat (length ds).
Proof.
  induction ds as [|x ds IH]; intros H; [cbn; lia|].
  rewrite min_sum_cons, IH by set_solver. cbn [length].
  specialize (H x ltac:(set_solver)). lia.
Qed.

Lemma min_sum_le_zsum w ds : min_sum w ds <= zsum ds.
Proof.
  induction ds as [|x ds IH]; [done|]. rewrite min_sum_cons, zsum_cons. lia.
Qed.

Lemma zmax_from_cons w x l : zmax_from w (x :: l) = Z.max x (zmax_from w l).
Proof. done. Qed.

Lemma zmax_from_ge w ds : w <= zmax_from w ds.
Proof. induction ds; simpl; lia. Qed.

Lemma zmax_from_elem w ds x : x ∈ ds -> x <= zmax_from w ds.
Proof. induction 1; simpl; lia. Qed.

Lemma zmax_from_app w l k : zmax_from w (l ++ k) = Z.max (zmax_from w l) (zmax_from w k).
Proof.
  unfold zmax_from. induction l as [|x l IH]; simpl; [|lia].
  pose proof (zmax_from_ge w k). unfold zmax_from in *. lia.
Qed.

Lemma zmax_from_eq w l a :
  a ∈ l -> w <= a -> (forall x, x ∈ l -> x <= a) -> zmax_from w l = a.
Proof.
  intros Ha Hw Hall. apply Z.le_antisymm; [|by apply zmax_from_elem].
  clear Ha. induction l as [|x l IH]; [done|]. rewrite zmax_from_cons.
  assert (zmax_from w l <= a) by (apply IH; set_solver).
  assert (x <= a) by (apply Hall; set_solver). lia.
Qed.

Lemma fair_above_unique w0 C ds w w' :
  fair_above w0 C ds w -> fair_above w0 C ds w' -> w = w'.
Proof.
  assert (Hmax : forall v v', min_sum v ds <= C -> v = zmax_from w0 ds ->
            C < min_sum (v' + 1) ds -> False).
  { intros v v' Hv Ev Hv'. subst v. pose proof (min_sum_le_zsum (v' + 1) ds).
    rewrite min_sum_below in Hv by apply zmax_from_elem. lia. }
  assert (Hlt : forall v v', min_sum v' ds <= C -> C < min_sum (v + 1) ds -> v' <= v).
  { intros v v' H1 H2. destruct (Z.le_gt_cases v' v); [done|].
    pose proof (min_sum_mono (v + 1) v' ds ltac:(lia)). lia. }
  intros (? & H1 & [H2|H2]) (? & H1' & [H2'|H2']).
  - congruence.
  - exfalso. eauto.
  - exfalso. eauto.
  - apply Z.le_antisymm; eauto.
Qed.

(** ** Range of the inputs on which nothing wraps *)

Definition demands_bounded (B : Z) (ds : list Z) : Prop :=
  (forall d, d ∈ ds -> 0 <= d <= B) /\ 0 <= B /\
  (Z.of_nat (length ds) + 1) * B < 2 ^ 63.

Definition capacity_bounded (C : Z) : Prop := 0 <= C < 2 ^ 63.

Lemma zmax_from_step w d l : w <= d -> zmax_from w (d :: l) = zmax_from d l.
Proof.
  intros H. induction l as [|x l IH]; [cbn; lia|].
  rewrite !zmax_from_cons in *. lia.
Qed.

(** A demand at most the level can be paid first. *)
Lemma fair_above_pay w0 C d l w :
  w0 <= d -> fair_above d (C - d) l w -> fair_above w0 C (d :: l) w.
Proof.
  intros Hd (Hw & Hs & Hm). split_and!; [lia| |].
  - rewrite min_sum_cons, Z.min_r by lia. lia.
  - rewrite zmax_from_step by done. destruct Hm as [?|Hm]; [by left|right].
    rewrite min_sum_cons, Z.min_r by lia. lia.
Qed.

(** When no further demand can be met the rest of the capacity is split. *)
Lemma fair_above_split w0 cap l d :
  (forall x, x ∈ l -> d <= x) -> 0 < Z.of_nat (length l) -> 0 <= cap ->
  cap < (d - w0) * Z.of_nat (length l) ->
  fair_above w0 (cap + w0 * Z.of_nat (length l)) l (w0 + cap / Z.of_nat (length l)).
Proof.
  intros Hl Hn Hc Hlt. set (n := Z.of_nat (length l)) in *.
  pose proof (Z.div_mod cap n ltac:(lia)). pose proof (Z.mod_pos_bound cap n Hn).
  assert (cap / n < d - w0) by (apply Z.div_lt_upper_bound; lia).
  assert (0 <= cap / n) by (apply Z.div_pos; lia).
  split_and!; [lia| |right]; rewrite min_sum_above.
  - fold n. nia.
  - intros x Hx. specialize (Hl x Hx). lia.
  - fold n. nia.
  - intros x Hx. specialize (Hl x Hx). lia.
Qed.

(** ** The full sort solver is fair *)

Lemma SolveFullSort_loop_fair B l : forall cap wl,
  StronglySorted Z.le l -> (forall x, x ∈ l -> wl <= x <= B) -> 0 <= wl ->
  (Z.of_nat (length l) + 1) * B < 2 ^ 63 -> 0 <= cap < 2 ^ 63 ->
  fair_above wl (cap + wl * Z.of_nat (length l)) l (SolveFullSort_loop cap wl l).
Proof.
  induction l as [|d l IH]; intros cap wl Hs Hr Hwl HB Hcap.
  - cbn. unfold fair_above. cbn. lia.
  - apply StronglySorted_inv in Hs as [Hs Hd]. rewrite Forall_forall in Hd.
    pose proof (Hr d ltac:(set_solver)) as Hdr. cbn [SolveFullSort_loop].
    set (n := Z.of_nat (length (d :: l))) in *.
    assert (Hn : n = Z.of_nat (length l) + 1) by (unfold n; cbn [length]; lia).
    assert (Hask : 0 <= (d - wl) * n < 2 ^ 63) by nia.
    rewrite (i64_id (d - wl)) by (unfold in_i64; nia).
    rewrite (i64_id ((d - wl) * n)) by (unfold in_i64; lia). case_if.
    + rewrite (i64_id (cap - _)) by (unfold in_i64; lia).
      rewrite (i64_id (wl + _)) by (unfold in_i64; nia).
      apply fair_above_pay; [lia|]. replace (wl + (d - wl)) with d by lia.
      replace (cap + wl * n - d) with
        (cap - (d - wl) * n + d * Z.of_nat (length l)) by (rewrite Hn; lia).
      apply IH; [done| |lia| |lia].
      * intros x Hx. specialize (Hd x Hx). specialize (Hr x ltac:(set_solver)). lia.
      * nia.
    + rewrite Z.quot_div_nonneg by lia.
      assert (cap / n < d - wl) by (apply Z.div_lt_upper_bound; lia).
      assert (0 <= cap / n) by (apply Z.div_pos; lia).
      rewrite i64_id by (unfold in_i64; nia).
      apply (fair_above_split _ _ _ d); fold n; [|lia..].
      intros x Hx. apply elem_of_cons in Hx as [->|Hx]; [lia|by apply Hd].
Qed.

Lemma sort_demands_perm l : sort_demands l ≡ₚ l.
Proof. apply merge_sort_Permutation. Qed.

Lemma sort_demands_sorted l : StronglySorted Z.le (sort_demands l).
Proof. apply StronglySorted_merge_sort; [intros ???; lia|intros ??; lia]. Qed.

Lemma SolveFullSort_fair B cap wl l :
  (forall x, x ∈ l -> wl <= x <= B) -> 0 <= wl ->
  (Z.of_nat (length l) + 1) * B < 2 ^ 63 -> 0 <= cap < 2 ^ 63 ->
  fair_above wl (cap + wl * Z.of_nat (length l)) l (SolveFullSort cap wl l).
Proof.
  intros Hr Hwl HB Hcap. unfold SolveFullSort.
  pose proof (sort_demands_perm l) as Hp.
  assert (Hlen : length (sort_demands l) = length l) by by rewrite Hp.
  rewrite <- Hlen. rewrite <- Hp at 2.
  apply (SolveFullSort_loop_fair B); [apply sort_demands_sorted| |done|by rewrite Hlen|done].
  intros x. rewrite Hp. apply Hr.
Qed.

(** ** The tiny-flow filter *)

Lemma filter_tiny_spec thresh ds : forall buf cap wl buf' cap' wl',
  (forall x, x ∈ ds -> 0 <= x) -> 0 <= zsum ds < 2 ^ 63 ->
  - 2 ^ 63 <= cap - zsum ds -> cap < 2 ^ 63 ->
  filter_tiny thresh ds buf cap wl = (buf', cap', wl') ->
  exists tiny big, ds ≡ₚ tiny ++ big /\ buf' = buf ++ big /\
    (forall x, x ∈ tiny -> x <= thresh) /\ (forall x, x ∈ big -> thresh < x) /\
    cap' = cap - zsum tiny /\ wl' = zmax_from wl tiny.
Proof.
  induction ds as [|d ds IH]; intros buf cap wl buf' cap' wl' Hpos Hsum Hlo Hcap E; cbn in E.
  - simplify_eq. exists [], []. rewrite (app_nil_r buf').
    split_and!; try done; cbn; try lia; set_solver.
  - pose proof (Hpos d ltac:(set_solver)).
    assert (Hds : forall x, x ∈ ds -> 0 <= x) by set_solver.
    pose proof (zsum_nonneg ds Hds). rewrite zsum_cons in *. case_if_in E.
    + rewrite i64_id in E by (unfold in_i64; lia).
      apply IH in E as (tiny & big & Hp & -> & Ht & Hb & -> & ->); [|done|lia|lia|lia].
      exists (d :: tiny), big. rewrite zsum_cons. split_and!; try done; try lia.
      * by rewrite Hp.
      * set_solver.
      * clear. rewrite zmax_from_cons. induction tiny as [|x l IH]; [cbn; lia|].
        rewrite !zmax_from_cons. lia.
    + apply IH in E as (tiny & big & Hp & -> & Ht & Hb & -> & ->); [|done|lia|lia|lia].
      exists tiny, (d :: big). rewrite <- app_assoc. split_and!; try done; try lia.
      * rewrite Hp. by rewrite Permutation_middle.
      * set_solver.
Qed.

(** Paying the demands below the starting level first changes nothing. *)
Lemma fair_above_low w0 C low high w :
  fair_above (zmax_from w0 low) (C - zsum low) high w ->
  fair_above w0 C (low ++ high) w.
Proof.
  intros (Hw & Hs & Hm). pose proof (zmax_from_ge w0 low).
  assert (Ht : forall v, w <= v -> min_sum v low = zsum low).
  { intros v Hv. apply min_sum_below. intros x Hx.
    pose proof (zmax_from_elem w0 low x Hx). lia. }
  split_and!; [lia|rewrite min_sum_app, Ht by lia; lia|].
  destruct Hm as [->|Hm]; [left|right; rewrite min_sum_app, Ht by lia; lia].
  rewrite zmax_from_app. clear -H.
  induction high as [|x l IH]; [cbn; lia|]. rewrite !zmax_from_cons. lia.
Qed.

(** What the filter hands to either solver. *)
Lemma filter_tiny_setup o B C ds buf cwt wl :
  demands_bounded B ds -> capacity_bounded C ->
  filter_tiny (if enable_tiny_flow_opt o
               then Z.quot C (Z.max (Z.of_nat (length ds)) 1) else -1) ds [] C 0
    = (buf, cwt, wl) ->
  let cap := i64 (u64 cwt - u64 (u64 wl * Z.of_nat (length buf))) in
  cap = cwt - wl * Z.of_nat (length buf) /\ 0 <= cap < 2 ^ 63 /\ cwt < 2 ^ 63 /\
  (length buf <= length ds)%nat /\ (forall x, x ∈ buf -> wl <= x <= B) /\ 0 <= wl /\
  (Z.of_nat (length buf) + 1) * B < 2 ^ 63 /\
  (forall w, fair_above wl cwt buf w -> is_fair_waterlevel C ds w).
Proof.
  intros (Hd & HB & Hlen) [HC0 HC] E. 
  set (thresh := if enable_tiny_flow_opt o then _ else -1) in E.
  pose proof (zsum_bounded ds B Hd) as Hsum.
  apply filter_tiny_spec in E as (tiny & big & Hp & -> & Ht & Hb & -> & ->);
    [|set_solver|lia|lia|lia]. cbn zeta. change ([] ++ big) with big.
  assert (Hpos : forall x, x ∈ tiny ++ big -> 0 <= x <= B).
  { intros x. rewrite <- Hp. apply Hd. }
  assert (Hn : (length ds = length tiny + length big)%nat)
    by by rewrite Hp, length_app.
  pose proof (zmax_from_ge 0 tiny) as Hwl.
  assert (0 <= zsum tiny) by (apply zsum_nonneg; intros x Hx; apply Hpos; set_solver).
  assert (Hmx : zmax_from 0 tiny <= Z.max 0 thresh).
  { clear -Ht. induction tiny as [|x l IH]; [cbn; lia|]. rewrite zmax_from_cons.
    assert (x <= thresh) by set_solver.
    assert (zmax_from 0 l <= Z.max 0 thresh) by (apply IH; set_solver). lia. }
  assert (Hcap : 0 <= C - zsum tiny - zmax_from 0 tiny * Z.of_nat (length big) <= C).
  { assert (Htb : 0 <= zsum tiny <= Z.of_nat (length tiny) * Z.max 0 thresh).
    { apply zsum_bounded. intros x Hx. specialize (Ht x Hx).
      specialize (Hpos x ltac:(set_solver)). lia. }
    split; [|nia]. subst thresh. destruct (enable_tiny_flow_opt o).
    - rewrite Z.quot_div_nonneg in * by lia.
      pose proof (Z.mul_div_le C (Z.max (Z.of_nat (length ds)) 1) ltac:(lia)).
      assert (0 <= C / Z.max (Z.of_nat (length ds)) 1) by (apply Z.div_pos; lia). nia.
    - assert (zmax_from 0 tiny = 0) as -> by lia. lia. }
  rewrite i64_sub_u64_mul, i64_id by (unfold in_i64; lia).
  split_and!; try lia.
  - intros x Hx. specialize (Hb x Hx). specialize (Hpos x ltac:(set_solver)).
    split; lia.
  - intros w Hw. unfold is_fair_waterlevel. rewrite Hp. by apply fair_above_low.
Qed.

(** ** The partial sort solver is fair *)

(** [L]: demands already met; [M]: the range still to split; [R]: demands
    known not to be met. *)
Record PSA_parts (wl0 cap0 : Z) (ds : list Z) (s : PartialSortAllocator)
    (L M R : list Z) : Prop := {
  parts_sd : sorted_demands_ s = L ++ M ++ R;
  parts_perm : sorted_demands_ s ≡ₚ ds;
  parts_lower : lower_limit_ s = Z.of_nat (length L);
  parts_upper : upper_limit_ s = Z.of_nat (length L) + Z.of_nat (length M) - 1;
  parts_low : forall x, x ∈ L -> x <= waterlevel_ s;
  parts_high : forall x, x ∈ M ++ R -> waterlevel_ s <= x;
  parts_sep : forall x y, x ∈ M -> y ∈ R -> x <= y;
  parts_level : waterlevel_ s = zmax_from wl0 L;
  parts_capacity : capacity_ s = cap0;
  parts_residual : residual_capacity_ s =
    cap0 - zsum L - waterlevel_ s * Z.of_nat (length (M ++ R));
  parts_residual_pos : 0 <= residual_capacity_ s;
  parts_over : R = [] \/ exists m, (forall x, x ∈ R -> m <= x) /\
    cap0 - zsum L < m * Z.of_nat (length R) + zsum M }.

(** The range of the inputs of the solver. *)
Record PSA_input (B wl0 cap0 : Z) (ds : list Z) : Prop := {
  input_level : 0 <= wl0;
  input_demands : forall x, x ∈ ds -> wl0 <= x <= B;
  input_length : (Z.of_nat (length ds) + 1) * B < 2 ^ 63;
  input_capacity : cap0 < 2 ^ 63;
  input_residual : 0 <= cap0 - wl0 * Z.of_nat (length ds) }.

Lemma new_PSA_parts B wl0 cap0 ds :
  PSA_input B wl0 cap0 ds ->
  PSA_parts wl0 cap0 ds
    (new_PSA cap0 (cap0 - wl0 * Z.of_nat (length ds)) wl0 ds) [] ds [].
Proof.
  intros [Hwl Hd Hlen Hcap Hres].
  split; unfold new_PSA; cbn -[Z.of_nat]; rewrite ?app_nil_r; try done; try lia.
  - set_solver.
  - intros x Hx. by apply Hd.
  - set_solver.
  - by left.
Qed.

Lemma sum_ask_spec wl B A a acc z :
  (forall x, x ∈ A ++ [a] -> wl <= x <= B) -> 0 <= wl -> 0 <= acc ->
  acc + Z.of_nat (length (A ++ [a])) * B < 2 ^ 63 ->
  foldl (fun '(ask, _) d => (i64 (ask + i64 (d - wl)), d)) (acc, z) (A ++ [a]) =
    (acc + zsum (A ++ [a]) - wl * Z.of_nat (length (A ++ [a])), a).
Proof.
  revert acc z. induction A as [|x A IH]; intros acc z Hr Hwl Hacc HB.
  - pose proof (Hr a ltac:(set_solver)). cbn -[Z.of_nat] in *.
    rewrite (i64_id (a - wl)) by (unfold in_i64; lia).
    rewrite i64_id by (unfold in_i64; lia). f_equal. lia.
  - pose proof (Hr x ltac:(set_solver)). rewrite <- app_comm_cons in *.
    cbn [foldl length zsum foldr] in *.
    rewrite (i64_id (x - wl)) by (unfold in_i64; nia).
    rewrite i64_id by (unfold in_i64; nia). rewrite IH.
    + f_equal. unfold zsum. lia.
    + intros y Hy. apply Hr. set_solver.
    + done.
    + lia.
    + nia.
Qed.

Section Selection.
Context (nth_elt : list Z -> nat -> list Z) (bound : Z)
  {Hsel : SelectsUpTo Z.ltb bound nth_elt}.

Lemma nth_elt_split M k :
  Z.of_nat (length M) <= bound -> (k < length M)%nat ->
  exists A a M2, nth_elt M k = A ++ a :: M2 /\ length A = k /\
    A ++ a :: M2 ≡ₚ M /\ (forall x, x ∈ A -> x <= a) /\ (forall y, y ∈ M2 -> a <= y).
Proof.
  intros Hb Hk. destruct (selects M k Hb) as [Hp Hn].
  assert (Hlen : length (nth_elt M k) = length M) by by rewrite Hp.
  destruct (lookup_lt_is_Some_2 (nth_elt M k) k) as [a Ha]; [by rewrite Hlen|].
  pose proof (take_drop_middle _ _ _ Ha) as Hsp.
  exists (take k (nth_elt M k)), a, (drop (S k) (nth_elt M k)). split_and!.
  - by rewrite Hsp.
  - rewrite length_take. lia.
  - by rewrite Hsp.
  - intros x (i & Hi)%list_elem_of_lookup. apply lookup_take_Some in Hi as [Hi ?].
    specialize (Hn i k x a ltac:(lia) Hi Ha). unfold leq in Hn. bool_to_prop. lia.
  - intros y (i & Hi)%list_elem_of_lookup. rewrite lookup_drop in Hi.
    specialize (Hn k (S k + i)%nat a y ltac:(lia) Ha Hi). unfold leq in Hn.
    bool_to_prop. lia.
Qed.

(** One iteration, with the part selected and the capacity it asks for. *)
Lemma PSA_step_eq B wl0 cap0 ds s L M R :
  PSA_input B wl0 cap0 ds -> Z.of_nat (length ds) <= bound ->
  PSA_parts wl0 cap0 ds s L M R -> M <> [] ->
  exists A a M2, A ++ a :: M2 ≡ₚ M /\ (forall x, x ∈ A -> x <= a) /\
    (forall y, y ∈ M2 -> a <= y) /\ (M2 = [] -> A = []) /\
    let sd := (L ++ (A ++ [a])) ++ M2 ++ R in
    let hi := Z.of_nat (length L) + Z.of_nat (length A) in
    let ask := zsum (A ++ [a]) - waterlevel_ s * Z.of_nat (length (A ++ [a])) +
               (a - waterlevel_ s) * Z.of_nat (length (M2 ++ R)) in
    PSA_step nth_elt s =
      if ask <=? residual_capacity_ s then
        mkPSA cap0 sd (residual_capacity_ s - ask) (hi + 1) (upper_limit_ s) a
      else if lower_limit_ s =? upper_limit_ s then
        mkPSA cap0 sd (residual_capacity_ s) (lower_limit_ s) (lower_limit_ s - 1)
          (waterlevel_ s)
      else mkPSA cap0 sd (residual_capacity_ s) (lower_limit_ s) hi (waterlevel_ s).
Proof.
  intros [Hwl0 Hd HB Hcap0 Hres0] Hbound [Hsd Hperm Hlo Hup Hlow Hhigh _ Hlvl <- Hres Hrp _] HM.
  assert (HnM : (length M <> 0)%nat) by (by intros ?%length_zero_iff_nil).
  set (k := ((length M - 1) / 2)%nat).
  assert (Hk : (k < length M)%nat).
  { unfold k. pose proof (Nat.Div0.div_le_upper_bound (length M - 1) 2 (length M - 1) ltac:(lia)). lia. }
  assert (Hpidx : partition_index s = Z.of_nat (length L) + Z.of_nat k).
  { unfold partition_index, k. rewrite Hlo, Hup, Z.quot_div_nonneg, Nat2Z.inj_div by lia.
    rewrite Nat2Z.inj_sub by lia. do 2 f_equal. lia. }
  assert (Hlen : length ds = length (L ++ M ++ R)) by by rewrite <- Hperm, Hsd.
  rewrite !length_app in Hlen.
  destruct (nth_elt_split M k) as (A & a & M2 & HA & HlA & HpM & HAa & Ha2); [lia|done|].
  assert (Hl2 : (length M = S (k + length M2))%nat).
  { rewrite <- HpM, length_app. cbn [length]. lia. }
  assert (Hrange : NthElement_range nth_elt (sorted_demands_ s) (lower_limit_ s)
            (partition_index s) (upper_limit_ s) = (L ++ (A ++ [a])) ++ M2 ++ R).
  { unfold NthElement_range. rewrite Hsd, Hlo, Hup, Hpidx, Nat2Z.id.
    replace (Z.to_nat (_ - 1 + 1)) with (length (L ++ M)) by (rewrite length_app; lia).
    replace (Z.to_nat _) with k by lia.
    rewrite take_app_length, (app_assoc L M R), !take_app_length, !drop_app_length.
    by rewrite HA, <- !app_assoc. }
  exists A, a, M2. split_and!; [done..| |].
  { intros ->. apply length_zero_iff_nil. cbn [length] in Hl2. unfold k in *.
    pose proof (Nat.Div0.mul_div_le (length M - 1) 2). lia. }
  clearbody k. cbn zeta. unfold PSA_step. rewrite Hrange, Hpidx. clear Hrange.
  assert (HlenA : length (A ++ [a]) = S k) by (rewrite length_app; cbn [length]; lia).
  rewrite Hlo, Nat2Z.id. replace (Z.to_nat _) with (length (A ++ [a])) by lia.
  rewrite <- (app_assoc L (A ++ [a])), drop_app_length, take_app_length.
  assert (Hpart : forall x, x ∈ A ++ a :: M2 -> waterlevel_ s <= x <= B).
  { intros x. rewrite HpM. intros Hx. split; [apply Hhigh; set_solver|].
    apply Hd. rewrite <- Hperm, Hsd. set_solver. }
  assert (Hwl : 0 <= waterlevel_ s).
  { rewrite Hlvl. pose proof (zmax_from_ge wl0 L). lia. }
  pose proof (Hpart a ltac:(set_solver)) as Har.
  unfold sum_ask. rewrite (sum_ask_spec _ B); [|set_solver|done|done|nia].
  rewrite Z.add_0_l, HlenA, HlA.
  rewrite (length_app L), (length_app (A ++ [a])), HlenA.
  replace (_ - _ - 1) with (Z.of_nat (length (M2 ++ R))) by lia.
  assert (HB' : 0 <= B < 2 ^ 63) by (split; [lia|nia]).
  rewrite i64_add_u64_mul, (i64_id (a - _)) by (unfold in_i64; lia).
  set (ask := _ + _ * Z.of_nat (length (M2 ++ R))).
  assert (Hask : 0 <= ask <= Z.of_nat (length ds) * B).
  { pose proof (zsum_range (A ++ [a]) (waterlevel_ s) B ltac:(set_solver)) as Hz.
    rewrite HlenA in Hz. unfold ask.
    assert (Hds : length ds = (length L + S k + length (M2 ++ R))%nat).
    { rewrite Hlen, length_app. lia. }
    rewrite Hds, !Nat2Z.inj_add.
    pose proof (Z.mul_le_mono_nonneg_r (a - waterlevel_ s) B
                  (Z.of_nat (length (M2 ++ R))) ltac:(lia) ltac:(lia)).
    pose proof (Z.mul_nonneg_nonneg (Z.of_nat (length L)) B ltac:(lia) ltac:(lia)).
    pose proof (Z.mul_nonneg_nonneg (a - waterlevel_ s) (Z.of_nat (length (M2 ++ R)))
                  ltac:(lia) ltac:(lia)). nia. }
  assert (0 <= zsum L).
  { apply zsum_nonneg. intros x Hx. specialize (Hd x). rewrite <- Hperm, Hsd in Hd.
    specialize (Hd ltac:(set_solver)). lia. }
  pose proof (Z.mul_nonneg_nonneg (waterlevel_ s) (Z.of_nat (length (M ++ R))) Hwl
                ltac:(lia)).
  rewrite i64_id by (unfold in_i64; lia). case_if; [|done].
  rewrite i64_id by (unfold in_i64; lia). done.
Qed.

(** The three outcomes of an iteration: the part selected is met, the last
    demand of the range is found not to be met, or the range is halved. *)
Lemma PSA_step_parts B wl0 cap0 ds s L M R :
  PSA_input B wl0 cap0 ds -> Z.of_nat (length ds) <= bound ->
  PSA_parts wl0 cap0 ds s L M R -> M <> [] ->
  exists L' M' R', PSA_parts wl0 cap0 ds (PSA_step nth_elt s) L' M' R' /\
    (length M' < length M)%nat.
Proof.
  intros Hin Hbound Hs HM.
  destruct (PSA_step_eq B wl0 cap0 ds s L M R Hin Hbound Hs HM)
    as (A & a & M2 & HpM & HAa & Ha2 & HM2 & ->). cbv zeta.
  destruct Hs as [Hsd Hperm Hlo Hup Hlow Hhigh Hsep Hlvl Hc Hres Hrp Hover].
  assert (Hperm' : (L ++ A ++ [a]) ++ M2 ++ R ≡ₚ ds).
  { rewrite <- Hperm, Hsd, <- HpM. by rewrite <- !app_assoc. }
  assert (Hlen : (length M = S (length A + length M2))%nat).
  { rewrite <- HpM, length_app. cbn. lia. }
  assert (HzM : zsum M = zsum A + a + zsum M2).
  { rewrite <- HpM, zsum_app, zsum_cons. lia. }
  setoid_rewrite <- HpM in Hhigh. setoid_rewrite <- HpM in Hsep.
  assert (Hwa : waterlevel_ s <= a) by (apply Hhigh; set_solver).
  rewrite !length_app, !zsum_app in *. cbn [length zsum foldr] in *.
  pose proof (zmax_from_ge wl0 L).
  repeat case_if.
  - exists (L ++ A ++ [a]), M2, R. split; [|lia].
    split; cbn [sorted_demands_ lower_limit_ upper_limit_ waterlevel_ capacity_
                residual_capacity_]; rewrite ?length_app, ?zsum_app; cbn [length zsum foldr];
      try done; try lia.
    + intros x Hx. apply elem_of_app in Hx as [Hx|Hx]; [specialize (Hlow x Hx); lia|].
      set_solver by lia.
    + intros x Hx. apply elem_of_app in Hx as [Hx|Hx]; [by apply Ha2|].
      apply Hsep; set_solver.
    + set_solver.
    + symmetry. apply zmax_from_eq; [set_solver|lia|]. intros x Hx.
      apply elem_of_app in Hx as [Hx|Hx]; [specialize (Hlow x Hx); lia|].
      set_solver by lia.
    + destruct Hover as [->|(m & Hm & ?)]; [by left|right]. exists m. split; [done|lia].
  - exists L, [], (A ++ a :: M2 ++ R). split; [|cbn; lia].
    assert (M2 = []) as -> by (apply length_zero_iff_nil; lia).
    rewrite (HM2 eq_refl) in *.
    split; cbn [sorted_demands_ lower_limit_ upper_limit_ waterlevel_ capacity_
                residual_capacity_]; cbn in *; try done; try lia.
    + by rewrite <- app_assoc.
    + by intros x y ?%elem_of_nil.
    + right. exists a. split; [|lia].
      intros x Hx. apply elem_of_cons in Hx as [->|Hx]; [done|]. apply Hsep; set_solver.
  - exists L, (A ++ [a]), (M2 ++ R). rewrite length_app. cbn [length].
    assert (M2 <> []).
    { intros ->. rewrite (HM2 eq_refl) in *. cbn in *. lia. }
    assert (length M2 <> 0%nat) by (by intros ?%length_zero_iff_nil). split; [|lia].
    split; cbn [sorted_demands_ lower_limit_ upper_limit_ waterlevel_ capacity_
                residual_capacity_]; rewrite ?length_app, ?zsum_app; cbn [length zsum foldr];
      try done; try lia.
    + by rewrite <- !app_assoc.
    + intros x Hx. apply Hhigh. set_solver.
    + intros x y Hx Hy. apply elem_of_app in Hy as [Hy|Hy].
      * specialize (Ha2 y Hy). apply elem_of_app in Hx as [Hx|Hx]; [|set_solver by lia].
        specialize (HAa x Hx). lia.
      * apply Hsep; set_solver.
    + right. exists a. split; [|rewrite Hlen in Hres; lia].
      intros x Hx. apply elem_of_app in Hx as [Hx|Hx]; [by apply Ha2|].
      apply Hsep; set_solver.
Qed.

(** The loop ends with nothing left to split. *)
Lemma PSA_loop_parts B wl0 cap0 ds fuel : forall s L M R,
  PSA_input B wl0 cap0 ds -> Z.of_nat (length ds) <= bound ->
  PSA_parts wl0 cap0 ds s L M R -> (length M < fuel)%nat ->
  exists L' R', PSA_parts wl0 cap0 ds (PSA_loop nth_elt fuel s) L' [] R'.
Proof.
  induction fuel as [|fuel IH]; intros s L M R Hin Hb Hs Hf; [lia|]. cbn [PSA_loop].
  rewrite (parts_lower _ _ _ _ _ _ _ Hs), (parts_upper _ _ _ _ _ _ _ Hs).
  destruct M as [|d M]; case_if; cbn [length] in *; try lia.
  - by exists L, R.
  - destruct (PSA_step_parts B wl0 cap0 ds s L (d :: M) R) as (L' & M' & R' & Hs' & Hl);
      try done. cbn [length] in Hl. eapply IH; eauto. lia.
Qed.

(** With nothing left to split the last division is the fair level. *)
Lemma PSA_finish_fair B wl0 cap0 ds s L R :
  PSA_input B wl0 cap0 ds -> PSA_parts wl0 cap0 ds s L [] R ->
  fair_above wl0 cap0 ds (PSA_finish s).
Proof.
  intros [Hwl0 Hd HB Hcap0 _] [Hsd Hperm Hlo Hup Hlow Hhigh _ Hlvl _ Hres Hrp Hover].
  assert (HL : 0 <= zsum L).
  { apply zsum_nonneg. intros x Hx. specialize (Hd x). rewrite <- Hperm, Hsd in Hd.
    specialize (Hd ltac:(set_solver)). lia. }
  pose proof (zmax_from_ge wl0 L). unfold PSA_finish.
  rewrite Hlo, Hup, Hsd. cbn [length] in *. rewrite app_nil_l, length_app in *.
  replace (Z.max _ _) with (Z.of_nat (length L)) by lia.
  rewrite <- Hperm, Hsd. apply fair_above_low. rewrite <- Hlvl.
  destruct (decide (R = [])) as [->|HR].
  - cbn [length] in *. rewrite (proj2 (Z.ltb_ge _ _)) by lia.
    unfold fair_above, min_sum. cbn. split_and!; [lia|lia|by left].
  - destruct Hover as [->|(m & Hm & Hlt)]; [done|]. cbn in Hlt.
    assert (HlR : (length R <> 0)%nat) by (by intros ?%length_zero_iff_nil).
    rewrite (proj2 (Z.ltb_lt _ _)) by lia.
    replace (Z.of_nat (length L + length R) - Z.of_nat (length L))
      with (Z.of_nat (length R)) by lia.
    pose proof (Z.mul_nonneg_nonneg (waterlevel_ s) (Z.of_nat (length R))).
    assert (0 <= residual_capacity_ s < 2 ^ 63) by lia.
    rewrite (u64_id (residual_capacity_ s)) by (unfold in_u64; lia).
    assert (Hq : residual_capacity_ s / Z.of_nat (length R) < m - waterlevel_ s)
      by (apply Z.div_lt_upper_bound; lia).
    assert (0 <= residual_capacity_ s / Z.of_nat (length R)) by (apply Z.div_pos; lia).
    assert (m <= B).
    { destruct R as [|r R]; [done|]. specialize (Hm r ltac:(set_solver)).
      specialize (Hd r). rewrite <- Hperm, Hsd in Hd. specialize (Hd ltac:(set_solver)). lia. }
    assert (B < 2 ^ 63) by nia.
    rewrite (u64_id (waterlevel_ s)) by (unfold in_u64; lia).
    rewrite i64_id by (unfold in_i64; lia).
    replace (cap0 - zsum L) with
      (residual_capacity_ s + waterlevel_ s * Z.of_nat (length R)) by lia.
    apply (fair_above_split _ _ _ m); [done|lia..].
Qed.

Lemma SolvePartialSort_fair B wl0 cap0 ds :
  PSA_input B wl0 cap0 ds -> Z.of_nat (length ds) <= bound ->
  fair_above wl0 cap0 ds
    (SolvePartialSort nth_elt cap0 (cap0 - wl0 * Z.of_nat (length ds)) wl0 ds).
Proof.
  intros Hin Hb. unfold SolvePartialSort, PSA_ComputeWaterlevel.
  pose proof (new_PSA_parts B wl0 cap0 ds Hin) as Hs. case_if.
  - cbn in Hif. subst ds. unfold fair_above, min_sum. cbn.
    destruct Hin as [? _ _ _ Hr]. cbn in Hr. split_and!; [lia|lia|by left].
  - destruct (PSA_loop_parts B wl0 cap0 ds (S (length ds)) _ _ _ _ Hin Hb Hs)
      as (L & R & HLR); [lia|]. by eapply PSA_finish_fair.
Qed.

(** Both solvers behind the filter. *)
Lemma ComputeWaterlevel_with_fair o B C ds :
  demands_bounded B ds -> capacity_bounded C -> Z.of_nat (length ds) <= bound \/
    solve_method o = kFullSort ->
  is_fair_waterlevel C ds (ComputeWaterlevel_with nth_elt o C ds).
Proof.
  intros Hd HC Hb. unfold ComputeWaterlevel_with.
  destruct (filter_tiny _ _ _ _ _) as [[buf cwt] wl] eqn:E.
  pose proof (filter_tiny_setup o B C ds buf cwt wl Hd HC E)
    as (Hcap & Hr & Hcwt & Hl & Hbuf & Hwl & HlB & Hfair).
  apply Hfair. rewrite Hcap in *. clear E. destruct (solve_method o) eqn:Em.
  - replace cwt with (cwt - wl * Z.of_nat (length buf) + wl * Z.of_nat (length buf)) at 1
      by lia. by apply (SolveFullSort_fair B).
  - destruct Hb as [Hb|?]; [|done]. apply (SolvePartialSort_fair B); [split; try done|].
    + lia.
    + lia.
Qed.

(** The debug check agrees with the invariant. *)
Lemma PrintInvariantViolations_parts B wl0 cap0 ds s L M R :
  PSA_input B wl0 cap0 ds -> PSA_parts wl0 cap0 ds s L M R ->
  PrintInvariantViolations s = false.
Proof.
  clear Hsel nth_elt bound.
  intros [Hwl0 Hd HB Hcap0 Hres0]
    [Hsd Hperm Hlo Hup Hlow Hhigh _ Hlvl Hc Hres Hrp _].
  assert (HLB : forall x, x ∈ L -> 0 <= x <= B).
  { intros x Hx. specialize (Hd x). rewrite <- Hperm, Hsd in Hd.
    specialize (Hd ltac:(set_solver)). lia. }
  assert (Hlen : length ds = length (L ++ M ++ R)) by by rewrite <- Hperm, Hsd.
  pose proof (zsum_bounded L B HLB) as HzL.
  assert (Hfold : forall l acc, (forall x, x ∈ l -> 0 <= x) -> 0 <= acc ->
            acc + zsum l < 2 ^ 63 -> foldl (fun a d => i64 (a + d)) acc l = acc + zsum l).
  { clear. induction l as [|d l IH]; intros acc Hp Ha Hs; [cbn; lia|].
    rewrite zsum_cons in *. cbn [foldl]. pose proof (Hp d ltac:(set_solver)).
    assert (Hl : forall x, x ∈ l -> 0 <= x) by set_solver.
    pose proof (zsum_nonneg l Hl). rewrite i64_id by (unfold in_i64; lia).
    rewrite IH; [lia|done|lia|lia]. }
  assert (HzLB : zsum L < 2 ^ 63).
  { rewrite Hlen, length_app in HB. destruct L as [|x L]; [cbn; lia|].
    specialize (HLB x ltac:(set_solver)). rewrite Nat2Z.inj_add in HB.
    pose proof (Z.mul_nonneg_nonneg (Z.of_nat (length (M ++ R))) B ltac:(lia) ltac:(lia)).
    lia. }
  unfold PrintInvariantViolations. rewrite Hsd, Hlo, Nat2Z.id.
  rewrite take_app_length, drop_app_length, Hfold; [|by intros x Hx; apply HLB|done|lia].
  assert (0 <= waterlevel_ s).
  { rewrite Hlvl. pose proof (zmax_from_ge wl0 L). lia. }
  pose proof (Z.mul_nonneg_nonneg (waterlevel_ s) (Z.of_nat (length (M ++ R)))
                ltac:(done) ltac:(lia)).
  rewrite Z.add_0_l, Hc, (i64_id (cap0 - _)) by (unfold in_i64; lia).
  rewrite i64_sub_u64_mul, Hres, (length_app L).
  replace (Z.of_nat (length L + _) - _) with (Z.of_nat (length (M ++ R))) by lia.
  rewrite i64_id by (unfold in_i64; lia). rewrite Z.eqb_refl, orb_false_r.
  apply orb_false_iff; split; apply not_true_iff_false; intros (x & Hx & Hlt)%existsb_exists;
    apply list_elem_of_In in Hx; bool_to_prop.
  - specialize (Hhigh x Hx). lia.
  - specialize (Hlow x Hx). lia.
Qed.

Lemma PSA_iterations_parts B wl0 cap0 ds fuel : forall s L M R,
  PSA_input B wl0 cap0 ds -> Z.of_nat (length ds) <= bound ->
  PSA_parts wl0 cap0 ds s L M R ->
  exists L' M' R', PSA_parts wl0 cap0 ds (PSA_loop nth_elt fuel s) L' M' R'.
Proof.
  induction fuel as [|fuel IH]; intros s L M R Hin Hb Hs; cbn [PSA_loop]; [by exists L, M, R|].
  case_if; [|by exists L, M, R]. destruct (decide (M = [])) as [->|HM].
  - rewrite (parts_lower _ _ _ _ _ _ _ Hs), (parts_upper _ _ _ _ _ _ _ Hs) in *.
    cbn in *. lia.
  - destruct (PSA_step_parts B wl0 cap0 ds s L M R) as (L' & M' & R' & Hs' & _); try done.
    by eapply IH.
Qed.
End Selection.

Lemma ComputeWaterlevel_fair o B C ds :
  demands_bounded B ds -> capacity_bounded C ->
  Z.of_nat (length ds) <= kScratchSize \/ solve_method o = kFullSort ->
  is_fair_waterlevel C ds (ComputeWaterlevel o C ds).
Proof. apply ComputeWaterlevel_with_fair. apply _. Qed.

(** ** Claims *)

(** C1: the full sort solver returns the fair water level of any list of
    bounded demands, with or without the tiny-flow filter: capping every
    demand at the level fits in the capacity, and either every demand is met
    in full or one more unit of level would not fit. *)
Theorem ComputeWaterlevel_full_sort_fair tiny B C ds :
  demands_bounded B ds -> capacity_bounded C ->
  is_fair_waterlevel C ds (ComputeWaterlevel (mkOptions kFullSort tiny) C ds).
Proof. intros Hd HC. apply (ComputeWaterlevel_fair _ B); auto. Qed.

Definition example_demands : list Z := [300; 20; 100; 7; 100].

Lemma example_bounded : demands_bounded 300 example_demands.
Proof.
  split; [|split; [done|cbn; lia]]. intros d Hd. unfold example_demands in Hd.
  repeat (apply elem_of_cons in Hd as [->|Hd]; [lia|]). by apply elem_of_nil in Hd.
Qed.

Lemma ComputeWaterlevel_full_sort_fair_witness :
  ComputeWaterlevel (mkOptions kFullSort true) 250 example_demands = 74 /\
  is_fair_waterlevel 250 example_demands
    (ComputeWaterlevel (mkOptions kFullSort true) 250 example_demands).
Proof.
  split; [vm_compute; reflexivity|].
  apply (ComputeWaterlevel_full_sort_fair true 300); [apply example_bounded|].
  split; vm_compute; congruence.
Defined.

(** C28: up to [kScratchSize] demands the partial sort solver with the
    tiny-flow filter (the default options) returns exactly the level of the
    plain full sort solver. *)
Theorem ComputeWaterlevel_partial_eq_full tiny tiny' B C ds :
  demands_bounded B ds -> capacity_bounded C -> Z.of_nat (length ds) <= kScratchSize ->
  ComputeWaterlevel (mkOptions kPartialSort tiny) C ds =
  ComputeWaterlevel (mkOptions kFullSort tiny') C ds.
Proof.
  intros Hd HC Hl. eapply fair_above_unique; apply (ComputeWaterlevel_fair _ B); auto.
Qed.

Lemma ComputeWaterlevel_partial_eq_full_witness :
  ComputeWaterlevel default_problem_options 250 example_demands = 74 /\
  ComputeWaterlevel default_problem_options 250 example_demands =
  ComputeWaterlevel (mkOptions kFullSort false) 250 example_demands.
Proof.
  split; [vm_compute; reflexivity|].
  apply (ComputeWaterlevel_partial_eq_full true false 300);
    [apply example_bounded|split; vm_compute; congruence|vm_compute; congruence].
Defined.

Lemma min_sum_dominates v ds other :
  Forall2 (fun o d => Z.min v d <= o) other ds -> min_sum v ds <= zsum other.
Proof. induction 1; [done|]. rewrite min_sum_cons, zsum_cons. lia. Qed.

Lemma SetAllocations_all_met w ds :
  w = zmax_from 0 ds -> SetAllocations w ds = ds.
Proof.
  intros ->. unfold SetAllocations. rewrite <- (map_id ds) at 2.
  apply map_ext_in. intros x Hx%list_elem_of_In. pose proof (zmax_from_elem 0 ds x Hx). lia.
Qed.

(** C10: of up to 512 demands ([kScratchSize]), or of any number with the full
    sort, the allocations set from the computed level lie between zero and the
    demand, fit in the capacity, meet every demand when all of them fit, and
    otherwise are max-min fair: any other allocation that fits leaves some
    demand unmet with at most the level.  The capacity and the demands are
    non-negative, and as large that their sums do not overflow
    ([demands_bounded]). *)
Theorem SetAllocations_max_min_fair o B C ds :
  demands_bounded B ds -> capacity_bounded C ->
  Z.of_nat (length ds) <= kScratchSize \/ solve_method o = kFullSort ->
  let level := ComputeWaterlevel o C ds in
  let allocs := SetAllocations level ds in
  Forall2 (fun a d => 0 <= a <= d) allocs ds /\ zsum allocs <= C /\
  (zsum ds <= C -> allocs = ds) /\
  (forall other, zsum other <= C -> length other = length ds -> C < zsum ds ->
     exists i x d, other !! i = Some x /\ ds !! i = Some d /\ x < d /\ x <= level).
Proof.
  intros Hd HC Hm level allocs.
  destruct (ComputeWaterlevel_fair o B C ds Hd HC Hm) as (Hw & Hs & Hmx).
  fold level in Hw, Hs, Hmx. subst allocs. clearbody level. split_and!.
  - apply Forall2_fmap_l, Forall_Forall2_diag, Forall_forall. intros x Hx.
    destruct Hd as [Hd _]. specialize (Hd x Hx). cbn. lia.
  - done.
  - intros Hz. apply SetAllocations_all_met. destruct Hmx as [?|Hmx]; [done|].
    pose proof (min_sum_le_zsum (level + 1) ds). lia.
  - intros other Ho Hlen Hz. destruct Hmx as [Hmx|Hmx].
    { change (zsum (SetAllocations level ds) <= C) in Hs.
      rewrite SetAllocations_all_met in Hs by done. lia. }
    destruct (decide (Forall2 (fun x d => Z.min (level + 1) d <= x) other ds)) as [HF|HF].
    + apply min_sum_dominates in HF. lia.
    + assert (HE : exists i x d, other !! i = Some x /\ ds !! i = Some d /\
                     ~ Z.min (level + 1) d <= x).
      { clear -Hlen HF. revert ds Hlen HF. induction other as [|x l IH]; intros [|d ds];
          intros Hlen HF; try discriminate; [by exfalso; apply HF|].
        destruct (decide (Z.min (level + 1) d <= x)); [|by exists 0%nat, x, d].
        destruct (IH ds) as (i & ? & ? & ?); [by injection Hlen| |by exists (S i); eauto].
        intros ?. apply HF. by constructor. }
      destruct HE as (i & x & d & ? & ? & ?). exists i, x, d. split_and!; try done; lia.
Qed.

Lemma SetAllocations_max_min_fair_witness :
  SetAllocations (ComputeWaterlevel default_problem_options 250 example_demands)
    example_demands = [74; 20; 74; 7; 74] /\
  zsum (SetAllocations (ComputeWaterlevel default_problem_options 250 example_demands)
          example_demands) <= 250.
Proof.
  split; [vm_compute; reflexivity|].
  apply (SetAllocations_max_min_fair default_problem_options 300);
    [apply example_bounded|split; vm_compute; congruence|left; vm_compute; congruence].
Defined.

(** The debug check of the partial sort allocator never reports a
    violation: in every state its loop passes through, the demands below the
    lower limit are at most the water level, the others at least, and the
    residual capacity is what is left at that level. *)
Theorem PartialSort_debug_check_holds B wl0 cap0 ds fuel :
  PSA_input B wl0 cap0 ds -> Z.of_nat (length ds) <= kScratchSize ->
  PrintInvariantViolations
    (PSA_loop (NthElement Z.ltb) fuel
       (new_PSA cap0 (cap0 - wl0 * Z.of_nat (length ds)) wl0 ds)) = false.
Proof.
  intros Hin Hl.
  destruct (PSA_iterations_parts (NthElement Z.ltb) kScratchSize B wl0 cap0 ds fuel
              _ _ _ _ Hin Hl (new_PSA_parts B wl0 cap0 ds Hin)) as (L & M & R & H).
  eapply PrintInvariantViolations_parts; [exact Hin|exact H].
Qed.

Lemma PartialSort_debug_check_holds_witness :
  PrintInvariantViolations
    (PSA_loop (NthElement Z.ltb) 2
       (new_PSA 250 (250 - 5 * Z.of_nat (length example_demands)) 5 example_demands)) = false.
Proof.
  apply (PartialSort_debug_check_holds 300 5 250 example_demands 2);
    [|vm_compute; congruence].
  split; try (cbn; lia). intros x Hx. unfold example_demands in Hx.
  repeat (apply elem_of_cons in Hx as [->|Hx]; [lia|]). by apply elem_of_nil in Hx.
Defined.

(** With more demands than [kScratchSize] the default solver can miss the
    fair level: on 513 zero demands and 513 large ones it returns 1296 where
    the fair level, which the full sort solver finds, is 1300. *)
Theorem ComputeWaterlevel_partial_unfair_long :
  let ds := replicate 513 0 ++ map (fun i => 1000 + i) (ascending 513) in
  ComputeWaterlevel (mkOptions kPartialSort true) 622050 ds = 1296 /\
  ComputeWaterlevel (mkOptions kFullSort true) 622050 ds = 1300 /\
  min_sum 1300 ds <= 622050 < min_sum 1301 ds.
Proof. vm_compute. repeat split; congruence. Qed.
