(* ===== verification/HashRing.v ===== *)
(** * HashRing: the ring of child ids that are at low priority

    src/heyp/alg/unordered-ids.{h,cc} (ranges of ids) and
    src/heyp/alg/downgrade/hash-ring.{h,cc}.  Ids are [uint64_t]; the ends of
    the ranges are computed in [absl::uint128], as the code does. *)

From S2P Require Import Prelude Doubles.

(** ** Ranges of ids *)

Definition MaxId : Z := 2 ^ 64 - 1.

Record IdRange := mkIdRange { lo : Z; hi : Z }.

Definition IdRange_default : IdRange := mkIdRange 1 0.

Definition IdRange_Contains (r : IdRange) (id : Z) : bool := (lo r <=? id) && (id <=? hi r).

Definition IdRange_Empty (r : IdRange) : bool := hi r <? lo r.

Record UnorderedIds := mkUnorderedIds { ranges : list IdRange; points : list Z }.

Record RingRanges := mkRingRanges { ring_a : IdRange; ring_b : IdRange }.

Definition RingRanges_default : RingRanges := mkRingRanges IdRange_default IdRange_default.

Definition RingRanges_Contains (r : RingRanges) (id : Z) : bool :=
  IdRange_Contains (ring_a r) id || IdRange_Contains (ring_b r) id.

Inductive RangeDiffType := kAdd | kDel.

Record RangeDiff := mkRangeDiff { diff : RingRanges; diff_type : RangeDiffType }.

Definition RangeDiff_default : RangeDiff := mkRangeDiff RingRanges_default kAdd.

#[export] Instance IdRange_eq_dec : EqDecision IdRange.
Proof. solve_decision. Defined.
#[export] Instance UnorderedIds_eq_dec : EqDecision UnorderedIds.
Proof. solve_decision. Defined.
#[export] Instance RangeDiffType_eq_dec : EqDecision RangeDiffType.
Proof. solve_decision. Defined.

(** ** The ring *)

Definition kNumChunks : Z := 2 ^ 32.
Definition kChunkSize : Z := kNumChunks.

Definition Uint128Low64 (z : Z) : Z := z mod 2 ^ 64.
Definition Uint128High64 (z : Z) : Z := z / 2 ^ 64.

Record HashRing := mkHashRing { start_ : Z; frac_ : double }.

Definition new_HashRing : HashRing := mkHashRing 0 d0.

Definition FracToRing (frac : double) : Z :=
  let matched_chunks := double_round_to_u64 (dmul frac (dofZ kNumChunks)) in
  if matched_chunks =? 0 then 0 else u128 (matched_chunks * kChunkSize).

Definition ComputeRangeDiff (old_start : Z) (old_frac : double)
    (new_start : Z) (new_frac : double) : RangeDiff :=
  if deq old_frac new_frac then RangeDiff_default
  else
    let old_end := u128 (old_start + u128 (FracToRing old_frac - 1)) in
    let new_end := u128 (new_start + u128 (FracToRing new_frac - 1)) in
    if dlt old_frac new_frac then
      let new_end_lo := Uint128Low64 new_end in
      let old_end_p1 := u128 (old_end + 1) in
      let old_end_p1_lo := Uint128Low64 old_end_p1 in
      let new_end_hi := Uint128High64 new_end in
      let old_end_p1_hi := Uint128High64 old_end_p1 in
      if negb (new_end_hi =? 0) && (old_end_p1_hi =? 0) then
        mkRangeDiff (mkRingRanges (mkIdRange 0 new_end_lo) (mkIdRange old_end_p1_lo MaxId)) kAdd
      else
        mkRangeDiff (mkRingRanges (mkIdRange old_end_p1_lo new_end_lo) IdRange_default) kAdd
    else if old_start <? new_start then
      mkRangeDiff (mkRingRanges (mkIdRange old_start (u64 (new_start - 1))) IdRange_default) kDel
    else if new_start =? 0 then
      mkRangeDiff (mkRingRanges (mkIdRange old_start MaxId) IdRange_default) kDel
    else
      mkRangeDiff (mkRingRanges (mkIdRange 0 (u64 (new_start - 1))) (mkIdRange old_start MaxId)) kDel.

(** The conditions the function asserts in debug builds. *)
Definition ComputeRangeDiff_asserts (old_start : Z) (old_frac : double)
    (new_start : Z) (new_frac : double) : bool :=
  if deq old_frac new_frac then old_start =? new_start
  else if dlt old_frac new_frac then old_start =? new_start
  else u128 (old_start + u128 (FracToRing old_frac - 1)) =?
       u128 (new_start + u128 (FracToRing new_frac - 1)).

Definition clamp_frac (frac : double) : double :=
  if dlt frac d0 then d0 else if dgt frac d1 then d1 else frac.

Definition UpdateFrac (h : HashRing) (frac : double) : HashRing * RangeDiff :=
  let frac := clamp_frac frac in
  let old_start := start_ h in
  let old_frac := frac_ h in
  let start :=
    if dgt (frac_ h) frac
    then u64 (start_ h + Uint128Low64 (FracToRing (dsub (frac_ h) frac)))
    else start_ h in
  (mkHashRing start frac, ComputeRangeDiff old_start old_frac start frac).

Definition Add (h : HashRing) (frac_diff : double) : HashRing * RangeDiff :=
  UpdateFrac h (dadd (frac_ h) frac_diff).

Definition Sub (h : HashRing) (frac_diff : double) : HashRing * RangeDiff :=
  UpdateFrac h (dsub (frac_ h) frac_diff).

Definition MatchingRanges (h : HashRing) : RingRanges :=
  if deq (frac_ h) d0 then RingRanges_default
  else
    let endv := u128 (u128 (start_ h + FracToRing (frac_ h)) - 1) in
    let end_low := Uint128Low64 endv in
    if negb (Uint128High64 endv =? 0) then
      mkRingRanges (mkIdRange 0 end_low) (mkIdRange (start_ h) MaxId)
    else mkRingRanges (mkIdRange (start_ h) end_low) IdRange_default.

(** ** Specification: an arc of the ring *)

(** The ids of the [len] positions from [start] on, wrapping at [2^64]. *)
Definition on_arc (start len id : Z) : Prop := (id - start) mod 2 ^ 64 < len.

Definition matches (h : HashRing) (id : Z) : bool :=
  RingRanges_Contains (MatchingRanges h) id.

Lemma arc_cases start id :
  in_u64 start -> in_u64 id ->
  (start <= id /\ (id - start) mod 2 ^ 64 = id - start) \/
  (id < start /\ (id - start) mod 2 ^ 64 = id - start + 2 ^ 64).
Proof.
  unfold in_u64. intros Hs Hi. destruct (Z.le_gt_cases start id).
  - left. split; [done|]. apply Z.mod_small. lia.
  - right. split; [lia|]. rewrite <- (Z.mod_add _ 1) by lia.
    rewrite Z.mul_1_l. apply Z.mod_small. lia.
Qed.

Lemma low_high z :
  0 <= z < 2 ^ 65 ->
  (z < 2 ^ 64 /\ Uint128Low64 z = z /\ Uint128High64 z = 0) \/
  (2 ^ 64 <= z /\ Uint128Low64 z = z - 2 ^ 64 /\ Uint128High64 z = 1).
Proof.
  intros Hz. unfold Uint128Low64, Uint128High64. destruct (Z.lt_ge_cases z (2 ^ 64)).
  - left. split_and!; [done|apply Z.mod_small; lia|apply Z.div_small; lia].
  - right. pose proof (Z.div_mod z (2 ^ 64) ltac:(lia)).
    assert (z / 2 ^ 64 = 1).
    { symmetry. apply (Z.div_unique_pos _ _ _ (z - 2 ^ 64)); lia. }
    split_and!; [done|lia|done].
Qed.

Lemma u128_id z : 0 <= z < 2 ^ 128 -> u128 z = z.
Proof. intros H. by apply Z.mod_small. Qed.

(** The end of an arc, computed with a decrement that may borrow. *)
Lemma u128_end start F :
  in_u64 start -> 0 <= F <= 2 ^ 64 -> 0 < start + F ->
  u128 (start + u128 (F - 1)) = start + F - 1.
Proof.
  unfold in_u64, u128. intros Hs HF Hp. rewrite Z.add_mod_idemp_r by lia.
  replace (start + (F - 1)) with (start + F - 1) by lia. apply Z.mod_small. lia.
Qed.

Lemma u128_end_p1 start F :
  in_u64 start -> 0 <= F <= 2 ^ 64 -> u128 (u128 (start + u128 (F - 1)) + 1) = start + F.
Proof.
  unfold in_u64, u128. intros Hs HF.
  rewrite Z.add_mod_idemp_r by lia. rewrite Z.add_mod_idemp_l by lia.
  replace (start + (F - 1) + 1) with (start + F) by lia. apply Z.mod_small. lia.
Qed.

(** Membership in ranges as inequalities. *)
Ltac ranges_to_prop :=
  unfold RingRanges_Contains, IdRange_Contains, MaxId; cbn [ring_a ring_b lo hi];
  rewrite ?orb_true_iff, ?andb_true_iff, ?Z.leb_le.

Lemma MatchingRanges_spec h id :
  in_u64 (start_ h) -> in_u64 id -> deq (frac_ h) d0 = false ->
  0 < FracToRing (frac_ h) <= 2 ^ 64 ->
  matches h id = true <-> on_arc (start_ h) (FracToRing (frac_ h)) id.
Proof.
  intros Hs Hi Hf HF. unfold matches, MatchingRanges, on_arc. rewrite Hf.
  set (F := FracToRing (frac_ h)) in *.
  assert (He : u128 (u128 (start_ h + F) - 1) = start_ h + F - 1).
  { unfold in_u64 in Hs. rewrite (u128_id (_ + F)) by lia. apply u128_id. lia. }
  rewrite He. unfold in_u64 in *.
  destruct (arc_cases (start_ h) id Hs Hi) as [[? ->]|[? ->]];
    destruct (low_high (start_ h + F - 1)) as [(? & -> & ->)|(? & -> & ->)]; try lia;
    cbn [Z.eqb negb]; ranges_to_prop; cbn; lia.
Qed.

(** ** Growing the marked arc *)

Lemma ComputeRangeDiff_add_spec start old_frac new_frac id :
  in_u64 start -> in_u64 id ->
  deq old_frac new_frac = false -> dlt old_frac new_frac = true ->
  0 <= FracToRing old_frac < FracToRing new_frac -> FracToRing new_frac <= 2 ^ 64 ->
  let d := ComputeRangeDiff start old_frac start new_frac in
  diff_type d = kAdd /\
  (RingRanges_Contains (diff d) id = true <->
   FracToRing old_frac <= (id - start) mod 2 ^ 64 < FracToRing new_frac).
Proof.
  intros Hs Hi Hne Hlt HF HF'. unfold ComputeRangeDiff. rewrite Hne, Hlt. cbv zeta.
  set (F := FracToRing old_frac) in *. set (F' := FracToRing new_frac) in *.
  rewrite u128_end_p1 by (unfold in_u64 in *; lia). rewrite u128_end by (unfold in_u64 in *; lia).
  unfold in_u64 in *.
  destruct (arc_cases start id Hs Hi) as [[? ->]|[? ->]];
    destruct (low_high (start + F' - 1)) as [(? & -> & ->)|(? & -> & ->)]; try lia;
    destruct (low_high (start + F)) as [(? & -> & ->)|(? & -> & ->)]; try lia;
    cbn [Z.eqb negb andb diff diff_type]; (split; [done|]); ranges_to_prop; cbn; lia.
Qed.

(** ** Shrinking the marked arc *)

Lemma ComputeRangeDiff_del_spec start old_frac new_frac D id :
  in_u64 start -> in_u64 id ->
  deq old_frac new_frac = false -> dlt old_frac new_frac = false ->
  0 < D <= 2 ^ 64 ->
  let d := ComputeRangeDiff start old_frac (u64 (start + Uint128Low64 D)) new_frac in
  diff_type d = kDel /\ (RingRanges_Contains (diff d) id = true <-> on_arc start D id).
Proof.
  intros Hs Hi Hne Hlt HD. unfold ComputeRangeDiff. rewrite Hne, Hlt. cbv zeta.
  assert (Hn : u64 (start + Uint128Low64 D) =
               if start + D <? 2 ^ 64 then start + D else start + D - 2 ^ 64).
  { unfold u64, Uint128Low64. rewrite Z.add_mod_idemp_r by lia. unfold in_u64 in *. case_if.
    - apply Z.mod_small. lia.
    - rewrite <- (Z.mod_add _ (-1)) by lia.
      replace (start + D + -1 * 2 ^ 64) with (start + D - 2 ^ 64) by lia.
      apply Z.mod_small. lia. }
  rewrite Hn. clear Hn. unfold on_arc, in_u64 in *.
  destruct (start + D <? 2 ^ 64) eqn:HD'; bool_to_prop;
    destruct (arc_cases start id Hs Hi) as [[? ->]|[? ->]]; repeat case_if; try lia;
    cbn [diff diff_type]; (split; [done|]); rewrite ?u64_id by (unfold in_u64; lia);
    ranges_to_prop; cbn; lia.
Qed.

(** ** One update of the ring

    [whole_chunks]: the change is not rounded away and, when shrinking,
    rounding the difference agrees with rounding both ends. *)

Definition ring_ok (h : HashRing) : Prop :=
  in_u64 (start_ h) /\ 0 <= FracToRing (frac_ h) <= 2 ^ 64 /\
  (deq (frac_ h) d0 = true <-> FracToRing (frac_ h) = 0).

Definition whole_chunks (h : HashRing) (frac : double) : Prop :=
  let f := clamp_frac frac in
  deq (frac_ h) f = true /\ FracToRing (frac_ h) = FracToRing f /\ dlt f (frac_ h) = false \/
  deq (frac_ h) f = false /\
  (dlt (frac_ h) f = true /\ dlt f (frac_ h) = false /\
   FracToRing (frac_ h) < FracToRing f \/
   dlt (frac_ h) f = false /\ dlt f (frac_ h) = true /\
   0 < FracToRing (dsub (frac_ h) f) <= 2 ^ 64 /\
   FracToRing (dsub (frac_ h) f) + FracToRing f = FracToRing (frac_ h)).

Lemma ring_ok_matches h id :
  ring_ok h -> in_u64 id ->
  matches h id = true <-> on_arc (start_ h) (FracToRing (frac_ h)) id.
Proof.
  intros (Hs & HF & Hz) Hi. destruct (deq (frac_ h) d0) eqn:E.
  - rewrite (proj1 Hz eq_refl). unfold matches, MatchingRanges, on_arc. rewrite E.
    pose proof (Z.mod_pos_bound (id - start_ h) (2 ^ 64) ltac:(lia)).
    ranges_to_prop. cbn. lia.
  - apply MatchingRanges_spec; try done.
    assert (FracToRing (frac_ h) <> 0) by (intros ?; by apply Hz in H). lia.
Qed.

Lemma on_arc_shrink start D F id :
  in_u64 start -> in_u64 id -> 0 < D -> 0 <= F -> D + F <= 2 ^ 64 ->
  on_arc (u64 (start + Uint128Low64 D)) F id <->
  on_arc start (D + F) id /\ ~ on_arc start D id.
Proof.
  intros Hs Hi HD HF HDF. unfold on_arc, u64, Uint128Low64.
  rewrite Z.add_mod_idemp_r by lia. rewrite Zminus_mod_idemp_r.
  replace (id - (start + D)) with (id - start - D) by lia.
  rewrite <- (Zminus_mod_idemp_l (id - start)).
  pose proof (Z.mod_pos_bound (id - start) (2 ^ 64) ltac:(lia)).
  set (p := (id - start) mod 2 ^ 64) in *.
  destruct (Z.le_gt_cases D p).
  - rewrite Z.mod_small by lia. lia.
  - rewrite <- (Z.mod_add _ 1) by lia. rewrite Z.mod_small by lia. lia.
Qed.

Lemma UpdateFrac_exact h frac id :
  ring_ok h -> ring_ok (UpdateFrac h frac).1 -> whole_chunks h frac -> in_u64 id ->
  let h' := (UpdateFrac h frac).1 in
  let d := (UpdateFrac h frac).2 in
  match diff_type d with
  | kAdd => matches h' id = matches h id || RingRanges_Contains (diff d) id
  | kDel => matches h' id = matches h id && negb (RingRanges_Contains (diff d) id)
  end.
Proof.
  intros Hok Hok' Hch Hi. cbv zeta. destruct Hok as (Hs & HF & Hz).
  pose proof (ring_ok_matches h id (conj Hs (conj HF Hz)) Hi) as Hm.
  pose proof (ring_ok_matches _ id Hok' Hi) as Hm'.
  destruct Hok' as (Hs' & HF' & Hz').
  unfold UpdateFrac, dgt in *. cbn [fst snd start_ frac_] in *.
  unfold whole_chunks in Hch. cbv zeta in Hch. set (f := clamp_frac frac) in *.
  pose proof (Z.mod_pos_bound (id - start_ h) (2 ^ 64) ltac:(lia)) as Hpos.
  destruct Hch as [(He & HFe & Hd)|(He & [(Hlt & Hgt & Hf)|(Hlt & Hgt & HD & Hf)])].
  - rewrite Hd in *. unfold ComputeRangeDiff in *. rewrite He. cbn [diff_type diff RangeDiff_default].
    rewrite <- HFe in Hm'. replace (RingRanges_Contains _ _) with false; cycle 1.
    { symmetry. apply not_true_iff_false. ranges_to_prop. cbn. lia. }
    rewrite orb_false_r. apply eq_true_iff_eq. rewrite Hm', Hm. done.
  - rewrite Hgt in *.
    destruct (ComputeRangeDiff_add_spec (start_ h) (frac_ h) f id) as [-> Hd]; try done; try lia.
    apply eq_true_iff_eq. rewrite orb_true_iff, Hd, Hm', Hm. unfold on_arc. lia.
  - rewrite Hgt in *.
    destruct (ComputeRangeDiff_del_spec (start_ h) (frac_ h) f (FracToRing (dsub (frac_ h) f)) id)
      as [-> Hd]; try done.
    apply eq_true_iff_eq. rewrite andb_true_iff, negb_true_iff, <- not_true_iff_false.
    rewrite Hd, Hm', Hm, on_arc_shrink, Hf by (try done; lia). done.
Qed.

(** C27: an update of the ring by whole chunks reports exactly what changed: a
    child is at low priority after it iff it was before or the reported
    addition contains it (for [kAdd]), iff it was before and the reported
    deletion does not contain it (for [kDel]).  By whole chunks: the fraction
    stays the same, or it grows by at least one chunk, or it shrinks by at
    least one chunk and the number of chunks of the difference is the
    difference of those of the two fractions, which rounding can break, as
    from 0.9 to 0.1 ([whole_chunks]); and a fraction is zero chunks only if it
    is zero ([ring_ok]). *)
Theorem UpdateFrac_diff_exact h frac id :
  ring_ok h -> ring_ok (UpdateFrac h frac).1 -> whole_chunks h frac -> in_u64 id ->
  let h' := (UpdateFrac h frac).1 in
  let d := (UpdateFrac h frac).2 in
  match diff_type d with
  | kAdd => matches h' id = matches h id || RingRanges_Contains (diff d) id
  | kDel => matches h' id = matches h id && negb (RingRanges_Contains (diff d) id)
  end.
Proof.
  intros. by apply UpdateFrac_exact.
Qed.

Definition half : double := dlit 1 2.
Definition quarter : double := dlit 1 4.

Lemma ring_ok_dec h :
  (0 <=? start_ h) && (start_ h <? 2 ^ 64) && (0 <=? FracToRing (frac_ h)) &&
  (FracToRing (frac_ h) <=? 2 ^ 64) &&
  Bool.eqb (deq (frac_ h) d0) (FracToRing (frac_ h) =? 0) = true -> ring_ok h.
Proof.
  rewrite !andb_true_iff, !Z.leb_le, Z.ltb_lt. intros [[[[??]?]?] He%Bool.eqb_prop].
  unfold ring_ok, in_u64. rewrite He, Z.eqb_eq. tauto.
Qed.

(** The arc of half the ring from [3 * 2^62] wraps; a quarter is taken off
    its front. *)
Lemma UpdateFrac_diff_exact_witness :
  let h := mkHashRing (3 * 2 ^ 62) half in
  let d := (UpdateFrac h quarter).2 in
  d = mkRangeDiff (mkRingRanges (mkIdRange (3 * 2 ^ 62) (2 ^ 64 - 1)) IdRange_default) kDel /\
  matches (UpdateFrac h quarter).1 (3 * 2 ^ 62 + 5) =
    matches h (3 * 2 ^ 62 + 5) && negb (RingRanges_Contains (diff d) (3 * 2 ^ 62 + 5)).
Proof.
  cbv zeta. split; [vm_compute; reflexivity|].
  apply (UpdateFrac_diff_exact (mkHashRing (3 * 2 ^ 62) half) quarter (3 * 2 ^ 62 + 5)).
  - apply ring_ok_dec. vm_compute. reflexivity.
  - apply ring_ok_dec. vm_compute. reflexivity.
  - right. split; [vm_compute; reflexivity|right].
    split_and!; vm_compute; congruence.
  - split; vm_compute; congruence.
Defined.

Lemma Contains_all id : in_u64 id -> IdRange_Contains (mkIdRange 0 MaxId) id = true.
Proof. unfold in_u64. intros H. ranges_to_prop. lia. Qed.

(** From 0.9 to 0.1 the rounded difference is one chunk more than that of the
    rounded fractions: the start moves a chunk too far, and so does the end,
    to ids that were not at low priority before and are not reported. *)
Lemma UpdateFrac_stray_chunk :
  let h := mkHashRing 0 (dlit 9 10) in let id := FracToRing (frac_ h) in
  FracToRing (dsub (frac_ h) (dlit 1 10)) = FracToRing (frac_ h) - FracToRing (dlit 1 10) + kChunkSize /\
  let '(h', d) := UpdateFrac h (dlit 1 10) in
  diff_type d = kDel /\ matches h id = false /\ matches h' id = true.
Proof. vm_compute. auto. Qed.

(** A decrease of the fraction that rounds to zero chunks leaves the
    marked arc as it was, but is reported as the deletion of every id of the
    ring: all children are upgraded. *)
Theorem UpdateFrac_tiny_decrease_upgrades_all h frac id :
  in_u64 (start_ h) -> in_u64 id ->
  let f := clamp_frac frac in
  deq (frac_ h) f = false -> dlt (frac_ h) f = false -> dgt (frac_ h) f = true ->
  FracToRing (dsub (frac_ h) f) = 0 ->
  start_ (UpdateFrac h frac).1 = start_ h /\
  diff_type (UpdateFrac h frac).2 = kDel /\
  RingRanges_Contains (diff (UpdateFrac h frac).2) id = true.
Proof.
  intros Hs Hi f He Hlt Hgt HD. unfold UpdateFrac. fold f. rewrite Hgt, HD.
  cbn [fst snd start_]. change (Uint128Low64 0) with 0.
  rewrite Z.add_0_r, u64_id by done. split; [done|].
  unfold ComputeRangeDiff. rewrite He, Hlt, Z.ltb_irrefl. unfold in_u64 in *.
  case_if; cbn [diff diff_type]; (split; [done|]); ranges_to_prop; [cbn; lia|].
  rewrite u64_id by (unfold in_u64; lia). cbn. lia.
Qed.

Lemma UpdateFrac_tiny_decrease_upgrades_all_witness :
  let h := mkHashRing 77 half in
  let d := (Sub h (dlit 1 (2 ^ 40))).2 in
  matches h 12345 = true /\ matches (Sub h (dlit 1 (2 ^ 40))).1 12345 = true /\
  RingRanges_Contains (diff d) 12345 = true.
Proof.
  cbv zeta. split; [vm_compute; reflexivity|]. split; [vm_compute; reflexivity|].
  apply (UpdateFrac_tiny_decrease_upgrades_all (mkHashRing 77 half)
           (dsub half (dlit 1 (2 ^ 40))) 12345);
    try (vm_compute; reflexivity); split; vm_compute; congruence.
Defined.

(** On a fresh ring a positive fraction that rounds to zero chunks marks
    the whole ring instead of nothing, and reports every id as added. *)
Theorem UpdateFrac_tiny_fraction_downgrades_all frac id :
  in_u64 id -> deq d0 frac = false -> deq frac d0 = false -> dlt d0 frac = true ->
  dlt frac d0 = false -> dgt frac d1 = false -> FracToRing frac = 0 ->
  matches (UpdateFrac new_HashRing frac).1 id = true /\
  diff_type (UpdateFrac new_HashRing frac).2 = kAdd /\
  RingRanges_Contains (diff (UpdateFrac new_HashRing frac).2) id = true.
Proof.
  intros Hi He He' Hlt Hge H1 HF. unfold matches, UpdateFrac, MatchingRanges, clamp_frac, dgt in *.
  cbn [start_ frac_ new_HashRing fst snd]. rewrite ?Hge, ?H1. cbn [start_ frac_].
  rewrite ?Hge, ?He', ?HF. unfold ComputeRangeDiff. rewrite He, Hlt, HF.
  change (FracToRing d0) with 0. cbn -[IdRange_Contains].
  unfold RingRanges_Contains. cbn -[IdRange_Contains].
  change (mkIdRange 0 18446744073709551615) with (mkIdRange 0 MaxId).
  by rewrite !Contains_all.
Qed.

Lemma UpdateFrac_tiny_fraction_downgrades_all_witness :
  matches (UpdateFrac new_HashRing (dlit 1 (2 ^ 40))).1 99 = true.
Proof.
  apply (UpdateFrac_tiny_fraction_downgrades_all (dlit 1 (2 ^ 40)) 99);
    try (vm_compute; reflexivity). split; vm_compute; congruence.
Defined.

(** The assertion that shrinking keeps the end of the arc compares 128-bit
    ends although [start_] wraps at 64 bits, so it fails when the front of
    the arc crosses the top of the ring, where the reported difference is
    right. *)
Example ComputeRangeDiff_assert_fails_on_wrap :
  let h := mkHashRing (3 * 2 ^ 62) half in
  ComputeRangeDiff_asserts (start_ h) (frac_ h)
    (start_ (UpdateFrac h quarter).1) quarter = false.
Proof. vm_compute. reflexivity. Qed.
