(* ===== verification/ParMap.v ===== *)
(** * ParMap: a map with sequential ids

    src/heyp/threads/par-indexed-map.h.  Every entry has its own mutex and
    ids are handed out under one lock, so each operation is one step.  The
    interface [IndexedMap] states what the aggregators rely on; the class of
    the code is an instance of it. *)

From S2P Require Import Prelude.

Notation ParID := Z (only parsing).

Definition kMaxEntries : Z := 10000000.
Definition kSpanSize : Z := 1000.
Definition kNumSpans : Z := kMaxEntries / kSpanSize.

(** ** The interface *)

Class IndexedMap (K V M : Type) := {
  im_new : M;
  im_GetID : M -> K -> option (M * (ParID * bool));
  im_OnID : M -> ParID -> (V -> option V) -> option M;
  im_NumIDs : M -> ParID;
  im_ForEach : M -> ParID -> ParID -> option (list (ParID * V)) }.

(** The promise, for up to [limit] keys: the values in the order of their
    ids, and the id of each key. *)
Class IndexedMapLaws (K V M : Type) `{EqDecision K, Countable K, IndexedMap K V M}
    (v0 : V) (limit : Z) := {
  im_ok : M -> Prop;
  im_contents : M -> list V;
  im_ids : M -> gmap K ParID;
  im_new_ok : im_ok im_new /\ im_contents im_new = [] /\ im_ids im_new = ∅;
  im_num m : im_ok m -> im_NumIDs m = Z.of_nat (length (im_contents m));
  im_ids_range m k i : im_ok m -> im_ids m !! k = Some i -> 0 <= i < im_NumIDs m;
  im_ids_inj m k k' i : im_ok m -> im_ids m !! k = Some i -> im_ids m !! k' = Some i -> k = k';
  im_GetID_old m k i : im_ok m -> im_ids m !! k = Some i -> im_GetID m k = Some (m, (i, false));
  im_GetID_new m k : im_ok m -> im_ids m !! k = None -> im_NumIDs m < limit ->
    exists m', im_GetID m k = Some (m', (im_NumIDs m, true)) /\ im_ok m' /\
      im_contents m' = im_contents m ++ [v0] /\ im_ids m' = <[k := im_NumIDs m]> (im_ids m);
  im_OnID_spec m i v f : im_ok m -> 0 <= i -> im_contents m !! Z.to_nat i = Some v ->
    match f v with
    | None => im_OnID m i f = None
    | Some v' => exists m', im_OnID m i f = Some m' /\ im_ok m' /\
        im_contents m' = <[Z.to_nat i := v']> (im_contents m) /\ im_ids m' = im_ids m
    end;
  im_ForEach_range m s e : im_ok m -> 0 <= s <= e -> e <= im_NumIDs m ->
    im_ForEach m s e =
      Some (take (Z.to_nat (e - s)) (drop (Z.to_nat s)
              (imap (fun i v => (Z.of_nat i, v)) (im_contents m)))) }.

(** ** The class *)

Section ParIndexedMap.
Context {K V : Type} `{Countable K} (v0 : V).

(** The constructor clears only the first [kSpanSize] of the [kNumSpans]
    span pointers; whether one of the others happens to be null is not
    known. *)
Context (uninit_is_null : Z -> bool).

Record ParIndexedMap := mkParIndexedMap {
  spans_ : gmap Z (list V);
  len_ : Z;
  id_map_ : gmap K ParID }.

Definition new_ParIndexedMap : ParIndexedMap := mkParIndexedMap ∅ 0 ∅.

Definition span_is_null (m : ParIndexedMap) (si : Z) : bool :=
  match spans_ m !! si with
  | Some _ => false
  | None => if si <? kSpanSize then true else uninit_is_null si
  end.

Definition NumSpans (len : Z) : Z := Z.quot (len + kSpanSize - 1) kSpanSize.

(** [None]: the assertion that the next span is not allocated fails. *)
Definition AddEntry (m : ParIndexedMap) : option (ParIndexedMap * ParID) :=
  let id := len_ m in
  if Z.rem id kSpanSize =? 0 then
    let next_span_id := Z.quot id kSpanSize in
    if span_is_null m next_span_id
    then Some (mkParIndexedMap
                 (<[next_span_id := replicate (Z.to_nat kSpanSize) v0]> (spans_ m))
                 (id + 1) (id_map_ m), id)
    else None
  else Some (mkParIndexedMap (spans_ m) (id + 1) (id_map_ m), id).

Definition GetID (m : ParIndexedMap) (key : K) : option (ParIndexedMap * (ParID * bool)) :=
  match id_map_ m !! key with
  | Some id => Some (m, (id, false))
  | None =>
      '(m, id) ← AddEntry m;
      Some (mkParIndexedMap (spans_ m) (len_ m) (<[key := id]> (id_map_ m)), (id, true))
  end.

Definition get_entry (m : ParIndexedMap) (si ei : Z) : option V :=
  span ← spans_ m !! si; span !! Z.to_nat ei.

(** [None]: an assertion fails or the callback does. *)
Definition OnID (m : ParIndexedMap) (id : ParID) (func : V -> option V) : option ParIndexedMap :=
  if id <? len_ m then
    let span_id := Z.quot id kSpanSize in
    let entry_id := Z.rem id kSpanSize in
    span ← spans_ m !! span_id;
    v ← span !! Z.to_nat entry_id;
    v' ← func v;
    Some (mkParIndexedMap (<[span_id := <[Z.to_nat entry_id := v']> span]> (spans_ m))
            (len_ m) (id_map_ m))
  else None.

Definition NumIDs (m : ParIndexedMap) : ParID := len_ m.

(** The entries [ei, ei_stop) of a span, numbered from [cur_id]. *)
Fixpoint each_entry (n : nat) (m : ParIndexedMap) (si ei cur_id : Z) : option (list (ParID * V)) :=
  match n with
  | O => Some []
  | S n =>
      v ← get_entry m si ei;
      rest ← each_entry n m si (ei + 1) (cur_id + 1);
      Some ((cur_id, v) :: rest)
  end.

Fixpoint each_span (n : nat) (m : ParIndexedMap) (start stop si cur_id : Z)
    : option (list (ParID * V)) :=
  match n with
  | O => Some []
  | S n =>
      let start_span := Z.quot start kSpanSize in
      let end_span := Z.quot (stop - 1) kSpanSize in
      let ei := if si =? start_span then Z.rem start kSpanSize else 0 in
      let ei_stop := if si =? end_span then Z.rem (stop - 1) kSpanSize + 1 else kSpanSize in
      here ← each_entry (Z.to_nat (ei_stop - ei)) m si ei cur_id;
      rest ← each_span n m start stop (si + 1) (cur_id + Z.of_nat (length here));
      Some (here ++ rest)
  end.

(** The calls of [ForEach], in order; [None]: an assertion fails. *)
Definition ForEach (m : ParIndexedMap) (start stop : ParID) : option (list (ParID * V)) :=
  if (0 <=? start) && (stop <=? len_ m) then
    let start_span := Z.quot start kSpanSize in
    let end_span := Z.quot (stop - 1) kSpanSize in
    each_span (Z.to_nat (end_span + 1 - start_span)) m start stop start_span start
  else None.

(** The copy when nothing else runs: spans are copied entry by entry. *)
Definition copy_span (m : ParIndexedMap) (len si : Z) : list V :=
  let num_entries :=
    if si =? NumSpans len - 1 then Z.rem len kSpanSize else kSpanSize in
  let ospan := default [] (spans_ m !! si) in
  take (Z.to_nat num_entries) ospan ++
  replicate (Z.to_nat (kSpanSize - num_entries)) v0.

Definition BestEffortCopy (m : ParIndexedMap) : ParIndexedMap :=
  let len := len_ m in
  mkParIndexedMap
    (list_to_map (map (fun si => (si, copy_span m len si)) (seqZ 0 (NumSpans len))))
    len (id_map_ m).

(** ** The abstract contents *)

Definition entry_at (m : ParIndexedMap) (i : nat) : V :=
  default v0 (get_entry m (Z.of_nat i / kSpanSize) (Z.of_nat i mod kSpanSize)).

Definition contents (m : ParIndexedMap) : list V :=
  map (entry_at m) (seq 0 (Z.to_nat (len_ m))).

Record par_ok (m : ParIndexedMap) : Prop := {
  po_len : 0 <= len_ m;
  po_spans : forall si, 0 <= si -> si * kSpanSize < len_ m ->
    exists span, spans_ m !! si = Some span /\ length span = Z.to_nat kSpanSize;
  po_null : forall si, len_ m <= si * kSpanSize -> spans_ m !! si = None;
  po_fresh : forall i, len_ m <= i -> Z.of_nat (Z.to_nat i) = i ->
    get_entry m (i / kSpanSize) (i mod kSpanSize) = None \/
    get_entry m (i / kSpanSize) (i mod kSpanSize) = Some v0;
  po_ids : forall k i, id_map_ m !! k = Some i -> 0 <= i < len_ m;
  po_inj : forall k k' i, id_map_ m !! k = Some i -> id_map_ m !! k' = Some i -> k = k' }.

Lemma new_ParIndexedMap_ok : par_ok new_ParIndexedMap.
Proof.
  split; cbn; try lia; unfold get_entry; cbn; intros; rewrite ?lookup_empty in *; auto; try done.
  unfold kSpanSize in *. lia.
Qed.

Lemma get_entry_some m i :
  par_ok m -> 0 <= i < len_ m ->
  exists v, get_entry m (i / kSpanSize) (i mod kSpanSize) = Some v.
Proof.
  intros Hok Hi. unfold get_entry, kSpanSize in *.
  destruct (po_spans m Hok (i / 1000)) as (span & -> & Hl).
  - apply Z.div_pos; lia.
  - pose proof (Z.mul_div_le i 1000). unfold kSpanSize. lia.
  - cbn. apply lookup_lt_is_Some_2. rewrite Hl. unfold kSpanSize.
    pose proof (Z.mod_pos_bound i 1000). lia.
Qed.

Lemma length_contents m : length (contents m) = Z.to_nat (len_ m).
Proof. unfold contents. by rewrite length_map, length_seq. Qed.

Lemma contents_lookup m i :
  par_ok m -> (i < Z.to_nat (len_ m))%nat ->
  contents m !! i = get_entry m (Z.of_nat i / kSpanSize) (Z.of_nat i mod kSpanSize).
Proof.
  intros Hok Hi. unfold contents. rewrite list_lookup_fmap, lookup_seq_lt by done. cbn.
  destruct (get_entry_some m (Z.of_nat i) Hok ltac:(lia)) as [v Hv].
  unfold entry_at. by rewrite Hv.
Qed.

(** ** [ForEach] visits the ids of the range in order *)

Definition visits (m : ParIndexedMap) (a : Z) (n : nat) : list (ParID * V) :=
  map (fun j => (a + Z.of_nat j, entry_at m (Z.to_nat a + j)%nat)) (seq 0 n).

Lemma visits_cons m a n :
  0 <= a -> visits m a (S n) = (a, entry_at m (Z.to_nat a)) :: visits m (a + 1) n.
Proof.
  intros Ha. unfold visits. cbn [seq map]. f_equal.
  - f_equal; [lia|]. f_equal. lia.
  - rewrite <- seq_shift, map_map. apply map_ext. intros j. f_equal; [lia|]. f_equal. lia.
Qed.

Lemma visits_app m a n k :
  0 <= a -> visits m a (n + k) = visits m a n ++ visits m (a + Z.of_nat n) k.
Proof.
  revert a. induction n as [|n IH]; intros a Ha.
  - by rewrite Z.add_0_r.
  - rewrite Nat.add_succ_l, !visits_cons by done. cbn [app]. f_equal.
    rewrite IH by lia. f_equal. by replace (a + 1 + Z.of_nat n) with (a + Z.of_nat (S n)) by lia.
Qed.

Lemma length_visits m a n : length (visits m a n) = n.
Proof. unfold visits. by rewrite length_map, length_seq. Qed.

Lemma div_mod_eq si ei : 0 <= ei < kSpanSize ->
  (si * kSpanSize + ei) / kSpanSize = si /\ (si * kSpanSize + ei) mod kSpanSize = ei.
Proof.
  unfold kSpanSize. intros He. rewrite Z.add_comm, Z.div_add, Z.mod_add by lia.
  rewrite Z.div_small, Z.mod_small by lia. lia.
Qed.

Lemma each_entry_spec m n : forall si ei cur,
  par_ok m -> 0 <= si -> 0 <= ei -> ei + Z.of_nat n <= kSpanSize ->
  cur = si * kSpanSize + ei -> cur + Z.of_nat n <= len_ m ->
  each_entry n m si ei cur = Some (visits m cur n).
Proof.
  induction n as [|n IH]; intros si ei cur Hok Hsi Hei Hn Hcur Hlen; [done|].
  cbn [each_entry]. unfold kSpanSize in *.
  destruct (div_mod_eq si ei) as [Hd Hm]; [unfold kSpanSize; lia|].
  destruct (get_entry_some m cur Hok ltac:(lia)) as [v Hv].
  unfold kSpanSize in Hd, Hm, Hv. rewrite Hcur in Hv. rewrite Hd, Hm in Hv.
  rewrite Hv. cbn [mbind option_bind].
  rewrite (IH si (ei + 1) (cur + 1)); [|done|lia|lia|lia|lia|lia]. cbn [mbind option_bind].
  rewrite visits_cons by lia. f_equal. f_equal. f_equal.
  unfold entry_at. rewrite Z2Nat.id by lia. unfold kSpanSize.
  by rewrite Hcur, Hd, Hm, Hv.
Qed.

Lemma each_span_spec m start stop n : forall si cur,
  par_ok m -> 0 <= start -> start < stop -> stop <= len_ m ->
  start / kSpanSize <= si -> Z.of_nat n = (stop - 1) / kSpanSize + 1 - si ->
  cur = Z.max start (si * kSpanSize) -> cur <= stop ->
  each_span n m start stop si cur = Some (visits m cur (Z.to_nat (stop - cur))).
Proof.
  unfold kSpanSize. induction n as [|n IH]; intros si cur Hok Hs Hlt Hlen Hsi Hn Hcur Hle.
  - cbn. pose proof (Z.mul_succ_div_gt (stop - 1) 1000 ltac:(lia)).
    replace (stop - cur) with 0 by lia. done.
  - cbn [each_span]. unfold kSpanSize. rewrite !Z.quot_div_nonneg, !Z.rem_mod_nonneg by lia.
    pose proof (Z.div_mod start 1000 ltac:(lia)). pose proof (Z.mod_pos_bound start 1000 ltac:(lia)).
    pose proof (Z.div_mod (stop - 1) 1000 ltac:(lia)).
    pose proof (Z.mod_pos_bound (stop - 1) 1000 ltac:(lia)).
    set (ei := if si =? start / 1000 then start mod 1000 else 0).
    assert (Hei : cur = si * 1000 + ei /\ 0 <= ei < 1000).
    { unfold ei. case_if; subst; lia. }
    set (ei_stop := if si =? (stop - 1) / 1000 then (stop - 1) mod 1000 + 1 else 1000).
    assert (Hst : ei <= ei_stop <= 1000 /\ (si < (stop - 1) / 1000 -> ei_stop = 1000) /\
                  (si = (stop - 1) / 1000 -> si * 1000 + ei_stop = stop)).
    { unfold ei_stop, ei. repeat case_if; lia. }
    assert (Hlast : si <= (stop - 1) / 1000) by lia.
    rewrite (each_entry_spec m) with (cur := cur); [|done|..];
      try (unfold kSpanSize; destruct (Z.eq_dec si ((stop - 1) / 1000)); lia).
    cbn [mbind option_bind]. rewrite length_visits.
    destruct (Z.eq_dec si ((stop - 1) / 1000)) as [He|He].
    + assert (n = 0%nat) as -> by lia. cbn. rewrite app_nil_r. do 2 f_equal. lia.
    + rewrite (IH (si + 1)); [|done|lia|lia|lia|lia|lia|lia|lia]. cbn [mbind option_bind].
      f_equal. rewrite <- visits_app by lia. f_equal. lia.
Qed.

Lemma ForEach_visits m start stop :
  par_ok m -> 0 <= start <= stop -> stop <= len_ m ->
  ForEach m start stop = Some (visits m start (Z.to_nat (stop - start))).
Proof.
  intros Hok Hs Hl. unfold ForEach. rewrite !(proj2 (Z.leb_le _ _)) by lia. cbn [andb].
  destruct (Z.eq_dec start stop) as [<-|].
  - rewrite Z.sub_diag. cbn [Z.to_nat visits map seq].
    destruct (Z.eq_dec start 0) as [->|]; [done|].
    unfold kSpanSize. rewrite !Z.quot_div_nonneg by lia.
    pose proof (Z.div_mod start 1000 ltac:(lia)). pose proof (Z.mod_pos_bound start 1000 ltac:(lia)).
    pose proof (Z.div_mod (start - 1) 1000 ltac:(lia)).
    pose proof (Z.mod_pos_bound (start - 1) 1000 ltac:(lia)).
    destruct (Z.to_nat _) as [|[|k]] eqn:En; [done| |lia].
    cbn [each_span]. unfold kSpanSize. rewrite !Z.quot_div_nonneg, !Z.rem_mod_nonneg by lia.
    rewrite Z.eqb_refl, (proj2 (Z.eqb_eq _ _)) by lia.
    replace (Z.to_nat _) with 0%nat by lia. done.
  - unfold kSpanSize. rewrite !Z.quot_div_nonneg by lia.
    rewrite (each_span_spec m); try done; try (unfold kSpanSize; lia).
    + pose proof (Z.div_le_mono start (stop - 1) 1000). unfold kSpanSize. lia.
    + pose proof (Z.mul_div_le start 1000). unfold kSpanSize. lia.
Qed.

Lemma visits_contents m s e :
  0 <= s <= e -> e <= len_ m ->
  visits m s (Z.to_nat (e - s)) =
  take (Z.to_nat (e - s)) (drop (Z.to_nat s)
    (imap (fun i v => (Z.of_nat i, v)) (contents m))).
Proof.
  intros Hs He. apply list_eq. intros i.
  destruct (decide (i < Z.to_nat (e - s))%nat) as [Hi|Hi].
  - rewrite lookup_take_lt, lookup_drop, list_lookup_imap by done.
    unfold visits, contents. rewrite !list_lookup_fmap, !lookup_seq_lt by lia. cbn.
    f_equal. f_equal. lia.
  - rewrite !lookup_ge_None_2; [done| |].
    + rewrite length_take. lia.
    + rewrite length_visits. lia.
Qed.

(** ** Adding and updating entries *)

Lemma get_entry_insert_ne m m' si span i :
  spans_ m' = <[si := span]> (spans_ m) -> i / kSpanSize <> si ->
  get_entry m' (i / kSpanSize) (i mod kSpanSize) = get_entry m (i / kSpanSize) (i mod kSpanSize).
Proof. intros E Hne. unfold get_entry. rewrite E. by rewrite lookup_insert_ne. Qed.

Lemma contents_ext m m' :
  len_ m' = len_ m ->
  (forall i, 0 <= i < len_ m -> get_entry m' (i / kSpanSize) (i mod kSpanSize) =
                               get_entry m (i / kSpanSize) (i mod kSpanSize)) ->
  contents m' = contents m.
Proof.
  intros Hl He. unfold contents. rewrite Hl. apply map_ext_in. intros i Hi%in_seq.
  unfold entry_at. by rewrite He by lia.
Qed.

Lemma contents_snoc m m' :
  0 <= len_ m -> len_ m' = len_ m + 1 ->
  (forall i, 0 <= i < len_ m -> get_entry m' (i / kSpanSize) (i mod kSpanSize) =
                               get_entry m (i / kSpanSize) (i mod kSpanSize)) ->
  default v0 (get_entry m' (len_ m / kSpanSize) (len_ m mod kSpanSize)) = v0 ->
  contents m' = contents m ++ [v0].
Proof.
  intros H0 Hl He Hlast. unfold contents. rewrite Hl.
  replace (Z.to_nat (len_ m + 1)) with (Z.to_nat (len_ m) + 1)%nat by lia.
  rewrite seq_app, map_app. f_equal.
  - apply map_ext_in. intros i Hi%in_seq. unfold entry_at. by rewrite He by lia.
  - cbn. f_equal. unfold entry_at. by rewrite Z2Nat.id by lia.
Qed.

Lemma AddEntry_spec m :
  par_ok m -> len_ m < kSpanSize * kSpanSize ->
  exists m', AddEntry m = Some (m', len_ m) /\ id_map_ m' = id_map_ m /\ len_ m' = len_ m + 1 /\
    contents m' = contents m ++ [v0] /\
    (forall k, id_map_ m !! k = None -> par_ok (mkParIndexedMap (spans_ m') (len_ m')
       (<[k := len_ m]> (id_map_ m')))).
Proof.
  intros [Hl Hs Hn Hf Hi Hj] Hlt. unfold AddEntry, kSpanSize in *.
  rewrite Z.rem_mod_nonneg, Z.quot_div_nonneg by lia.
  pose proof (Z.div_mod (len_ m) 1000 ltac:(lia)) as Hdm.
  pose proof (Z.mod_pos_bound (len_ m) 1000 ltac:(lia)) as Hmb.
  assert (Hids : forall k, id_map_ m !! k = None -> forall k' i,
            <[k := len_ m]> (id_map_ m) !! k' = Some i -> 0 <= i < len_ m + 1).
  { intros k Hk k' i Hki. apply lookup_insert_Some in Hki as [[_ <-]|[_ Hki]]; [lia|].
    apply Hi in Hki. lia. }
  assert (Hinj : forall k, id_map_ m !! k = None -> forall k1 k2 i,
            <[k := len_ m]> (id_map_ m) !! k1 = Some i ->
            <[k := len_ m]> (id_map_ m) !! k2 = Some i -> k1 = k2).
  { intros k Hk k1 k2 i H1 H2.
    apply lookup_insert_Some in H1 as [[<- <-]|[? H1]];
      apply lookup_insert_Some in H2 as [[<- ?]|[? H2]]; subst; try done;
      [apply Hi in H2; lia|apply Hi in H1; lia|by eapply Hj]. }
  case_if.
  - assert (Hnull : spans_ m !! (len_ m / 1000) = None) by (apply Hn; lia).
    unfold span_is_null. rewrite Hnull, (proj2 (Z.ltb_lt _ _)) by (unfold kSpanSize; lia).
    set (m' := mkParIndexedMap _ _ _). eexists. split; [done|]. split_and!; try done.
    + apply contents_snoc; [done|done| |].
      * intros i Hi0. apply (get_entry_insert_ne m m' (len_ m / 1000)
          (replicate (Z.to_nat 1000) v0)); [done|]. unfold kSpanSize.
        pose proof (Z.div_mod i 1000 ltac:(lia)). pose proof (Z.mod_pos_bound i 1000 ltac:(lia)).
        lia.
      * unfold get_entry, kSpanSize. cbn [spans_ m']. rewrite lookup_insert_eq. cbn [mbind option_bind].
        rewrite lookup_replicate_2 by lia. done.
    + intros k Hk. split; cbn [len_ spans_ id_map_ m']; [lia| | | | |].
      * intros si Hsi Hle. destruct (decide (si = len_ m / 1000)) as [->|].
        -- rewrite lookup_insert_eq. eexists. split; [done|]. by rewrite length_replicate.
        -- rewrite lookup_insert_ne by done. apply Hs; [done|]. unfold kSpanSize in *. lia.
      * intros si Hle. unfold kSpanSize in *. rewrite lookup_insert_ne by lia. apply Hn. lia.
      * intros i Hle Hz. destruct (decide (i / kSpanSize = len_ m / 1000)) as [He|].
        -- right. unfold get_entry. cbn [spans_]. rewrite He, lookup_insert_eq.
           cbn [mbind option_bind]. apply lookup_replicate_2. unfold kSpanSize.
           pose proof (Z.mod_pos_bound i 1000 ltac:(lia)). lia.
        -- erewrite get_entry_insert_ne; [|cbn; reflexivity|done]. apply Hf; [lia|done].
      * by apply Hids.
      * by apply Hinj.
  - eexists. split; [done|]. split_and!; try done.
    + apply contents_snoc; try done. unfold get_entry, kSpanSize in *. cbn [spans_].
      destruct (Hf (len_ m) ltac:(lia) ltac:(lia)) as [->| ->]; done.
    + intros k Hk. split; cbn [len_ spans_ id_map_]; [lia| | | | |].
      * intros si Hsi Hle. apply Hs; [done|]. unfold kSpanSize in *.
        destruct (Z.eq_dec (si * 1000) (len_ m)) as [He|]; [|lia]. exfalso. apply Hif.
        rewrite <- He. by rewrite Z.mod_mul.
      * intros si Hle. apply Hn. unfold kSpanSize in *. lia.
      * intros i Hle Hz. apply (Hf i); [lia|done].
      * by apply Hids.
      * by apply Hinj.
Qed.

Lemma contents_insert m m' i v :
  0 <= i < len_ m -> len_ m' = len_ m ->
  get_entry m' (i / kSpanSize) (i mod kSpanSize) = Some v ->
  (forall j, 0 <= j < len_ m -> j <> i -> get_entry m' (j / kSpanSize) (j mod kSpanSize) =
                               get_entry m (j / kSpanSize) (j mod kSpanSize)) ->
  contents m' = <[Z.to_nat i := v]> (contents m).
Proof.
  intros Hi Hl Hv Hne. apply list_eq. intros j.
  destruct (decide (j < Z.to_nat (len_ m))%nat) as [Hj|Hj].
  - destruct (decide (j = Z.to_nat i)) as [->|].
    + rewrite list_lookup_insert_eq by (rewrite length_contents; lia).
      unfold contents. rewrite list_lookup_fmap, lookup_seq_lt by lia. cbn.
      unfold entry_at. rewrite Z2Nat.id by lia. by rewrite Hv.
    + rewrite list_lookup_insert_ne by done. unfold contents. rewrite Hl.
      rewrite !list_lookup_fmap, !lookup_seq_lt by lia. cbn. unfold entry_at.
      by rewrite Hne by lia.
  - rewrite !lookup_ge_None_2; rewrite ?length_insert, ?length_contents; try done; lia.
Qed.

Lemma OnID_spec m i v f :
  par_ok m -> 0 <= i -> contents m !! Z.to_nat i = Some v ->
  match f v with
  | None => OnID m i f = None
  | Some v' => exists m', OnID m i f = Some m' /\ par_ok m' /\
      contents m' = <[Z.to_nat i := v']> (contents m) /\ id_map_ m' = id_map_ m
  end.
Proof.
  intros Hok Hi Hv. pose proof (lookup_lt_Some _ _ _ Hv) as Hlt. rewrite length_contents in Hlt.
  rewrite contents_lookup in Hv by (try done; lia). rewrite Z2Nat.id in Hv by done.
  destruct Hok as [Hl Hs Hn Hf Hid Hj]. unfold OnID.
  rewrite (proj2 (Z.ltb_lt _ _)) by lia. unfold kSpanSize in *.
  rewrite Z.rem_mod_nonneg, Z.quot_div_nonneg by lia. unfold get_entry in Hv.
  destruct (spans_ m !! (i / 1000)) as [span|] eqn:Es; [|done]. cbn [mbind option_bind] in *.
  rewrite Hv. cbn [mbind option_bind]. destruct (f v) as [v'|]; [|done].
  set (m' := mkParIndexedMap (<[i / 1000 := <[Z.to_nat (i mod 1000) := v']> span]> (spans_ m))
               (len_ m) (id_map_ m)).
  exists m'. split; [done|]. pose proof (lookup_lt_Some _ _ _ Hv) as Hei.
  assert (Hsame : get_entry m' (i / kSpanSize) (i mod kSpanSize) = Some v').
  { unfold get_entry, kSpanSize. cbn [spans_ m']. rewrite lookup_insert_eq. cbn.
    by apply list_lookup_insert_eq. }
  assert (Hother : forall j, 0 <= j -> j <> i ->
    get_entry m' (j / kSpanSize) (j mod kSpanSize) = get_entry m (j / kSpanSize) (j mod kSpanSize)).
  { intros j Hj0 Hne. unfold get_entry, kSpanSize. cbn [spans_ m'].
    destruct (decide (j / 1000 = i / 1000)) as [He|].
    - rewrite He, lookup_insert_eq, Es. cbn. apply list_lookup_insert_ne.
      pose proof (Z.div_mod i 1000 ltac:(lia)). pose proof (Z.div_mod j 1000 ltac:(lia)).
      pose proof (Z.mod_pos_bound i 1000 ltac:(lia)). pose proof (Z.mod_pos_bound j 1000 ltac:(lia)).
      lia.
    - by rewrite lookup_insert_ne. }
  split_and!; try done.
  - split; try done; cbn [len_ spans_ id_map_ m'].
    + intros si Hsi Hle. destruct (decide (si = i / 1000)) as [->|].
      * rewrite lookup_insert_eq. eexists. split; [done|]. rewrite length_insert.
        destruct (Hs (i / 1000)) as (span' & Es' & Hlen); [done|done|].
        rewrite Es in Es'. injection Es' as <-. exact Hlen.
      * rewrite lookup_insert_ne by done. by apply Hs.
    + intros si Hle. rewrite lookup_insert_ne; [by apply Hn|].
      pose proof (Z.mul_div_le i 1000 ltac:(lia)). unfold kSpanSize in *. lia.
    + intros j Hle Hz. fold m'. rewrite Hother by lia. by apply Hf.
  - apply contents_insert; [lia|done|done|]. intros j Hj0 Hne. apply Hother; [lia|done].
Qed.

#[export] Instance ParIndexedMap_ops : IndexedMap K V ParIndexedMap := {|
  im_new := new_ParIndexedMap;
  im_GetID := GetID;
  im_OnID := OnID;
  im_NumIDs := NumIDs;
  im_ForEach := ForEach |}.

(** The map keeps the promise of the interface for as many entries as the
    constructor prepared spans for. *)
#[export] Program Instance ParIndexedMap_laws :
  IndexedMapLaws K V ParIndexedMap v0 (kSpanSize * kSpanSize) := {|
  im_ok := par_ok;
  im_contents := contents;
  im_ids := id_map_ |}.
Next Obligation. split; [apply new_ParIndexedMap_ok|done]. Qed.
Next Obligation. intros m Hok. cbn. rewrite length_contents. pose proof (po_len m Hok). unfold NumIDs. lia. Qed.
Next Obligation. intros m k i Hok Hk. by apply (po_ids m Hok k). Qed.
Next Obligation. intros m k k' i Hok Hk Hk'. by apply (po_inj m Hok k k' i). Qed.
Next Obligation. intros m k i Hok Hk. cbn. unfold GetID. by rewrite Hk. Qed.
Next Obligation.
  intros m k Hok Hk Hlt. cbn in *. unfold GetID. rewrite Hk.
  destruct (AddEntry_spec m Hok Hlt) as (m' & -> & Hid & Hl & Hc & Hok').
  cbn [mbind option_bind]. eexists. split; [done|]. split_and!.
  - by apply Hok'.
  - rewrite <- Hc. by apply contents_ext.
  - cbn. by rewrite Hid.
Qed.
Next Obligation. intros m i v f Hok Hi Hv. by apply OnID_spec. Qed.
Next Obligation.
  intros m s e Hok Hs He. cbn in *. unfold NumIDs in He.
  rewrite ForEach_visits, visits_contents by done. done.
Qed.

(** ** Ids of a sequence of keys *)

Fixpoint GetIDs (m : ParIndexedMap) (keys : list K)
    : option (ParIndexedMap * list (ParID * bool)) :=
  match keys with
  | [] => Some (m, [])
  | k :: keys => '(m, r) ← GetID m k; '(m, rs) ← GetIDs m keys; Some (m, r :: rs)
  end.

(** Every id below the length belongs to a key. *)
Definition ids_onto (m : ParIndexedMap) : Prop :=
  forall i : ParID, 0 <= i < len_ m -> exists k, id_map_ m !! k = Some i.

Definition known (m : ParIndexedMap) : gset K := dom (id_map_ m).

Lemma GetID_step m k :
  par_ok m -> ids_onto m -> (k ∉ known m -> len_ m < kSpanSize * kSpanSize) ->
  exists m' id, GetID m k = Some (m', (id, bool_decide (k ∉ known m))) /\
    par_ok m' /\ ids_onto m' /\ known m' = {[k]} ∪ known m /\
    id_map_ m' !! k = Some id /\ id_map_ m ⊆ id_map_ m' /\
    len_ m' = len_ m + (if bool_decide (k ∉ known m) then 1 else 0).
Proof.
  intros Hok Honto Hlt. unfold GetID, known. destruct (id_map_ m !! k) as [i|] eqn:E.
  - exists m, i. assert (Hin : k ∈ dom (id_map_ m)) by (by eapply elem_of_dom_2).
    rewrite bool_decide_eq_false_2 by (intros Hni; by apply Hni).
    split_and!; try done; [|lia]. set_solver.
  - assert (Hni : k ∉ dom (id_map_ m)) by (by apply not_elem_of_dom).
    destruct (AddEntry_spec m Hok (Hlt Hni)) as (m1 & -> & Hid & Hl & _ & Hok1).
    cbn [mbind option_bind].
    rewrite bool_decide_eq_true_2 by done.
    eexists _, _. split; [done|]. specialize (Hok1 k E). cbn [id_map_ len_] in *.
    rewrite Hid in *. split_and!; try done.
    + intros i Hi. cbn [id_map_ len_] in *. rewrite Hl in Hi.
      destruct (decide (i = len_ m)) as [->|].
      * exists k. by rewrite lookup_insert_eq.
      * destruct (Honto i ltac:(lia)) as [k' Hk']. exists k'.
        rewrite lookup_insert_ne; [done|]. intros ->. congruence.
    + by rewrite dom_insert_L.
    + by rewrite lookup_insert_eq.
    + by apply insert_subseteq.
Qed.

Lemma GetIDs_spec keys : forall m,
  par_ok m -> ids_onto m ->
  Z.of_nat (size (known m)) = len_ m ->
  Z.of_nat (size (known m ∪ list_to_set keys)) <= kSpanSize * kSpanSize ->
  exists m' ids, GetIDs m keys = Some (m', ids) /\ par_ok m' /\ ids_onto m' /\
    id_map_ m ⊆ id_map_ m' /\ known m' = known m ∪ list_to_set keys /\
    len_ m' = Z.of_nat (size (known m')) /\ length ids = length keys /\
    forall i k r, keys !! i = Some k -> ids !! i = Some r ->
      id_map_ m' !! k = Some (fst r) /\
      (snd r = true <-> k ∉ known m ∪ list_to_set (take i keys)).
Proof.
  induction keys as [|k keys IH]; intros m Hok Honto Hsz Hle.
  - exists m, []. cbn in *. split_and!; try done. set_solver.
  - cbn [GetIDs list_to_set] in *.
    assert (Hlt : k ∉ known m -> len_ m < kSpanSize * kSpanSize).
    { intros Hni. rewrite <- Hsz. eapply Z.lt_le_trans; [|exact Hle].
      apply inj_lt, subset_size. set_solver. }
    destruct (GetID_step m k Hok Honto Hlt) as (m1 & id & -> & Hok1 & Honto1 & Hk1 & Hid & Hsub & Hl1).
    cbn [mbind option_bind].
    destruct (IH m1) as (m' & ids & -> & Hok' & Honto' & Hsub' & Hk' & Hl' & Hlen & Hids); try done.
    { rewrite Hk1, Hl1, <- Hsz. case_bool_decide as Hd.
      - rewrite size_union by set_solver. rewrite size_singleton. lia.
      - replace ({[k]} ∪ known m) with (known m) by set_solver. lia. }
    { rewrite Hk1. by replace ({[k]} ∪ known m ∪ list_to_set keys)
        with (known m ∪ ({[k]} ∪ list_to_set keys)) by set_solver. }
    cbn [mbind option_bind]. eexists _, _. split; [done|]. split_and!; try done.
    + by etrans.
    + rewrite Hk', Hk1. set_solver.
    + cbn. by rewrite Hlen.
    + intros [|i] k0 r Hk0 Hr; cbn in Hk0, Hr.
      * injection Hk0 as <-. injection Hr as <-. cbn [fst snd take list_to_set].
        split; [by eapply lookup_weaken|]. rewrite bool_decide_eq_true. set_solver.
      * destruct (Hids i k0 r Hk0 Hr) as [? Hs]. split; [done|]. rewrite Hs, Hk1.
        cbn [take list_to_set]. set_solver.
Qed.

(** ** The copy *)

Lemma BestEffortCopy_entry m i :
  par_ok m -> 0 <= i < len_ m ->
  get_entry (BestEffortCopy m) (i / kSpanSize) (i mod kSpanSize) =
  if (i / kSpanSize =? (len_ m - 1) / kSpanSize) && (len_ m mod kSpanSize =? 0)
  then Some v0 else get_entry m (i / kSpanSize) (i mod kSpanSize).
Proof.
  intros Hok Hi. unfold get_entry, BestEffortCopy. cbn [spans_].
  pose proof (Z.div_mod i 1000 ltac:(lia)). pose proof (Z.mod_pos_bound i 1000 ltac:(lia)).
  pose proof (Z.div_mod (len_ m) 1000 ltac:(lia)).
  pose proof (Z.mod_pos_bound (len_ m) 1000 ltac:(lia)).
  pose proof (Z.div_mod (len_ m - 1) 1000 ltac:(lia)).
  pose proof (Z.mod_pos_bound (len_ m - 1) 1000 ltac:(lia)).
  pose proof (Z.div_mod (len_ m + 999) 1000 ltac:(lia)).
  pose proof (Z.mod_pos_bound (len_ m + 999) 1000 ltac:(lia)).
  assert (HNS : NumSpans (len_ m) = (len_ m - 1) / 1000 + 1).
  { unfold NumSpans, kSpanSize. rewrite Z.quot_div_nonneg by lia.
    replace (len_ m + 1000 - 1) with (len_ m + 999) by lia. lia. }
  unfold kSpanSize in *.
  rewrite (elem_of_list_to_map_1 _ (i / 1000) (copy_span m (len_ m) (i / 1000))).
  2:{ rewrite <- list_fmap_compose. cbn. rewrite list_fmap_id. apply NoDup_seqZ. }
  2:{ apply list_elem_of_fmap. exists (i / 1000). split; [done|]. apply elem_of_seqZ. lia. }
  cbn [mbind option_bind].
  destruct (po_spans m Hok (i / 1000)) as (span & Es & Hlen);
    [lia|unfold kSpanSize; lia|]. unfold kSpanSize in Hlen.
  unfold copy_span, kSpanSize. rewrite HNS, Es. cbn [default mbind option_bind].
  rewrite Z.rem_mod_nonneg by lia.
  replace ((len_ m - 1) / 1000 + 1 - 1) with ((len_ m - 1) / 1000) by lia.
  case_if; cbn [andb id]; [case_if|].
  - rewrite Hif0. rewrite lookup_app_r by (rewrite length_take; cbn; lia).
    rewrite length_take. cbn [Z.to_nat]. rewrite Nat.min_0_l, Nat.sub_0_r.
    apply lookup_replicate_2. lia.
  - rewrite lookup_app_l by (rewrite length_take; lia). apply lookup_take_lt. lia.
  - rewrite lookup_app_l by (rewrite length_take; lia). apply lookup_take_lt. lia.
Qed.
End ParIndexedMap.

(** For up to a million distinct keys, a sequence of [GetID] calls on a new map
    numbers the distinct keys [0, 1, ...] without a gap: every key keeps one
    id, two keys never share one, every id below [NumIDs] is used, and a
    call reports a new entry exactly for the first occurrence of its key. *)
Theorem GetIDs_dense {K V} `{Countable K} (v0 : V) uninit (keys : list K)
  (Hfew : Z.of_nat (size (list_to_set keys : gset K)) <= kSpanSize * kSpanSize) :
  exists m ids,
    GetIDs v0 uninit new_ParIndexedMap keys = Some (m, ids) /\ length ids = length keys /\
    NumIDs m = Z.of_nat (size (list_to_set keys : gset K)) /\
    (forall n, 0 <= n < NumIDs m <-> exists r, r ∈ ids /\ fst r = n) /\
    (forall i j k k' r r', keys !! i = Some k -> keys !! j = Some k' ->
       ids !! i = Some r -> ids !! j = Some r' -> (fst r = fst r' <-> k = k')) /\
    (forall i k r, keys !! i = Some k -> ids !! i = Some r ->
       (snd r = true <-> k ∉ take i keys)).
Proof.
  destruct (GetIDs_spec v0 uninit keys new_ParIndexedMap)
    as (m & ids & Hrun & Hok & Honto & _ & Hk & Hl & Hlen & Hids).
  - apply (new_ParIndexedMap_ok v0).
  - intros i. cbn. lia.
  - unfold known. cbn. by rewrite dom_empty_L, size_empty.
  - unfold known. cbn [new_ParIndexedMap id_map_]. rewrite dom_empty_L, union_empty_l_L. lia.
  - unfold known at 2 in Hk. cbn [new_ParIndexedMap id_map_] in Hk.
    rewrite dom_empty_L, union_empty_l_L in Hk.
    exists m, ids. split_and!; try done.
    + unfold NumIDs. by rewrite Hl, Hk.
    + intros n. split.
      * intros (k & Hkn)%Honto. assert (Hin : k ∈ known m) by (by eapply elem_of_dom_2).
        rewrite Hk in Hin. apply elem_of_list_to_set, list_elem_of_lookup in Hin as [i Hi].
        destruct (lookup_lt_is_Some_2 ids i) as [r Hr];
          [rewrite Hlen; by eapply lookup_lt_Some|].
        destruct (Hids i k r Hi Hr) as [Hr' _]. exists r.
        split; [by eapply list_elem_of_lookup_2|congruence].
      * intros (r & [i Hr]%list_elem_of_lookup & <-).
        destruct (lookup_lt_is_Some_2 keys i) as [k Hi];
          [rewrite <- Hlen; by eapply lookup_lt_Some|].
        apply (po_ids v0 m Hok k). by apply (Hids i k r).
    + intros i j k k' r r' Hi Hj Hr Hr'. destruct (Hids i k r Hi Hr) as [H1 _].
      destruct (Hids j k' r' Hj Hr') as [H2 _]. split; [|congruence].
      intros E. rewrite E in H1. by apply (po_inj v0 m Hok k k' (fst r')).
    + intros i k r Hi Hr. destruct (Hids i k r Hi Hr) as [_ Hs].
      unfold known in Hs. cbn [new_ParIndexedMap id_map_] in Hs.
      rewrite Hs, dom_empty_L, union_empty_l_L. by rewrite elem_of_list_to_set.
Qed.

Lemma GetIDs_dense_witness :
  exists m ids,
    GetIDs 0 (fun _ => false) new_ParIndexedMap ["a"; "b"; "a"] = Some (m, ids) /\
    map fst ids = [0; 1; 0] /\ NumIDs m = 2.
Proof.
  destruct (GetIDs_dense 0 (fun _ => false) ["a"; "b"; "a"]) as (m & ids & Hrun & _ & Hn & _).
  { by vm_compute. }
  exists m, ids. split_and!; [done| |].
  - assert (E : (snd <$> GetIDs 0 (fun _ => false) new_ParIndexedMap ["a"; "b"; "a"]) =
                Some [(0, true); (1, true); (0, false)]) by (vm_compute; reflexivity).
    rewrite Hrun in E. cbn in E. by injection E as ->.
  - rewrite Hn. by vm_compute.
Defined.

(** The copy of a map holds the values of the original, except that the
    last span is lost when it is full: its entries are the initial values
    again. *)
Theorem BestEffortCopy_loses_full_span {K V} `{Countable K} (v0 : V) (m : @ParIndexedMap K V _ _)
  (Hok : par_ok v0 m) :
  NumIDs (BestEffortCopy v0 m) = NumIDs m /\
  (NumIDs m mod kSpanSize <> 0 -> contents v0 (BestEffortCopy v0 m) = contents v0 m) /\
  (0 < NumIDs m -> NumIDs m mod kSpanSize = 0 ->
     contents v0 (BestEffortCopy v0 m) =
     take (Z.to_nat (NumIDs m - kSpanSize)) (contents v0 m) ++
     replicate (Z.to_nat kSpanSize) v0).
Proof.
  unfold NumIDs. pose proof (po_len v0 m Hok) as Hl0. split_and!; [done| |].
  - intros Hm. apply contents_ext; [done|]. intros i Hi.
    rewrite BestEffortCopy_entry by done. apply Z.eqb_neq in Hm. by rewrite Hm, andb_false_r.
  - intros Hpos Hm. apply list_eq. intros i.
    pose proof (Z.div_mod (len_ m) 1000 ltac:(lia)) as Hdm. unfold kSpanSize in *.
    destruct (decide (i < Z.to_nat (len_ m))%nat) as [Hi|Hi].
    + transitivity (Some (entry_at v0 (BestEffortCopy v0 m) i)).
      { unfold contents. rewrite list_lookup_fmap, lookup_seq_lt by (cbn; lia). done. }
      unfold entry_at. rewrite BestEffortCopy_entry by (done || lia). unfold kSpanSize.
      rewrite Hm, Z.eqb_refl, andb_true_r.
      pose proof (Z.div_mod (Z.of_nat i) 1000 ltac:(lia)).
      pose proof (Z.mod_pos_bound (Z.of_nat i) 1000 ltac:(lia)).
      pose proof (Z.div_mod (len_ m - 1) 1000 ltac:(lia)).
      pose proof (Z.mod_pos_bound (len_ m - 1) 1000 ltac:(lia)).
      case_if; cbn [default].
      * rewrite lookup_app_r by (rewrite length_take, length_contents; lia).
        symmetry. apply lookup_replicate_2. rewrite length_take, length_contents. lia.
      * rewrite lookup_app_l by (rewrite length_take, length_contents; lia).
        rewrite lookup_take_lt by lia. unfold contents.
        rewrite list_lookup_fmap, lookup_seq_lt by lia. done.
    + rewrite !lookup_ge_None_2; [done| |].
      * rewrite length_app, length_take, length_replicate, length_contents. lia.
      * rewrite length_contents. cbn [BestEffortCopy len_]. lia.
Qed.

Lemma BestEffortCopy_loses_full_span_witness :
  exists m : @ParIndexedMap string Z _ _, par_ok 0 m /\ contents 0 m = [5] /\
    contents 0 (BestEffortCopy 0 m) = [5].
Proof.
  destruct (GetID_step 0 (fun _ => false) (new_ParIndexedMap : @ParIndexedMap string Z _ _) "a")
    as (m & id & Hg & Hok & _).
  { apply new_ParIndexedMap_ok. }
  { intros i. cbn. lia. }
  { by vm_compute. }
  assert (Hl : len_ m = 1 /\ contents 0 m = [0]).
  { assert (E : ((fun p => (len_ (fst p), contents 0 (fst p))) <$>
      GetID 0 (fun _ => false) (new_ParIndexedMap : @ParIndexedMap string Z _ _) "a") =
      Some (1, [0])) by (vm_compute; reflexivity).
    rewrite Hg in E. cbn [fst fmap option_fmap option_map] in E. injection E as E1 E2.
    by rewrite E1, E2. }
  destruct Hl as [Hl Hc].
  destruct (OnID_spec 0 m 0 0 (fun _ => Some 5) Hok ltac:(lia)) as (m' & _ & Hok' & Hc' & _).
  { by rewrite Hc. }
  exists m'. rewrite Hc in Hc'. change (contents 0 m' = [5]) in Hc'.
  split_and!; [done|done|].
  destruct (BestEffortCopy_loses_full_span 0 m' Hok') as (_ & -> & _); [done|].
  apply (f_equal length) in Hc'. rewrite length_contents in Hc'. cbn in Hc'.
  unfold NumIDs. replace (len_ m') with 1 by lia. by vm_compute.
Defined.

Lemma GetIDs_app {K V} `{Countable K} (v0 : V) uninit (ks ks' : list K) : forall m,
  GetIDs v0 uninit m (ks ++ ks') =
  '(m1, r1) ← GetIDs v0 uninit m ks; '(m2, r2) ← GetIDs v0 uninit m1 ks'; Some (m2, r1 ++ r2).
Proof.
  induction ks as [|k ks IH]; intros m; cbn [GetIDs app mbind option_bind].
  - by destruct (GetIDs v0 uninit m ks') as [[]|].
  - destruct (GetID v0 uninit m k) as [[m1 r]|]; [|done]. cbn [mbind option_bind].
    rewrite IH. destruct (GetIDs v0 uninit m1 ks) as [[m2 rs]|]; [|done].
    cbn [mbind option_bind]. by destruct (GetIDs v0 uninit m2 ks') as [[]|].
Qed.

(** The map holds a tenth of the [kMaxEntries] it is declared for: the
    constructor clears [kSpanSize] of the [kNumSpans] span pointers, so the
    key after the first million fails the assertion on the next span unless
    the uninitialised pointer happens to be null. *)
Theorem GetID_after_million_fails {K V} `{Countable K} (v0 : V) uninit (keys : list K) k
  (Hmillion : Z.of_nat (size (list_to_set keys : gset K)) = kSpanSize * kSpanSize)
  (Hnew : k ∉ keys) (Huninit : uninit kSpanSize = false) :
  is_Some (GetIDs v0 uninit new_ParIndexedMap keys) /\
  GetIDs v0 uninit new_ParIndexedMap (keys ++ [k]) = None.
Proof.
  rewrite GetIDs_app. destruct (GetIDs_spec v0 uninit keys new_ParIndexedMap)
    as (m & ids & -> & Hok & _ & _ & Hk & Hl & _).
  - apply (new_ParIndexedMap_ok v0).
  - intros i. cbn. lia.
  - unfold known. cbn. by rewrite dom_empty_L, size_empty.
  - unfold known. cbn [new_ParIndexedMap id_map_]. rewrite dom_empty_L, union_empty_l_L. lia.
  - split; [by eexists|]. cbn [mbind option_bind GetIDs].
    unfold known at 2 in Hk. cbn [new_ParIndexedMap id_map_] in Hk.
    rewrite dom_empty_L, union_empty_l_L in Hk. rewrite Hk, Hmillion in Hl.
    unfold GetID. assert (id_map_ m !! k = None) as ->.
    { apply not_elem_of_dom. fold (known m). rewrite Hk. by rewrite elem_of_list_to_set. }
    unfold AddEntry. rewrite Hl.
    change (Z.rem (kSpanSize * kSpanSize) kSpanSize =? 0) with true.
    change (Z.quot (kSpanSize * kSpanSize) kSpanSize) with kSpanSize. cbv zeta iota beta.
    unfold span_is_null. rewrite (po_null v0 m Hok kSpanSize) by (rewrite Hl; lia).
    change (kSpanSize <? kSpanSize) with false. cbv iota. by rewrite Huninit.
Qed.

Lemma GetID_after_million_fails_witness :
  GetIDs 0 (fun _ => false) new_ParIndexedMap (seqZ 0 1000000 ++ [-1]) = None.
Proof.
  apply (GetID_after_million_fails 0 (fun _ => false) (seqZ 0 1000000) (-1)).
  - rewrite size_list_to_set by apply NoDup_seqZ. by rewrite length_seqZ, Z2Nat.id by lia.
  - rewrite elem_of_seqZ. lia.
  - done.
Defined.

(** A map that has reached [kMaxEntries] addresses the span array past its
    end; it does not return the documented -1. *)
Lemma GetID_at_kMaxEntries {K V} `{Countable K} (v0 : V) uninit (m : @ParIndexedMap K V _ _) k m' r :
  len_ m = kMaxEntries -> id_map_ m !! k = None -> GetID v0 uninit m k = Some (m', r) ->
  fst r <> -1 /\ is_Some (spans_ m' !! kNumSpans).
Proof.
  intros Hl Hk. unfold GetID. rewrite Hk. unfold AddEntry. rewrite Hl.
  change (Z.rem kMaxEntries kSpanSize =? 0) with true.
  change (Z.quot kMaxEntries kSpanSize) with kNumSpans. cbv zeta iota beta.
  destruct (span_is_null uninit m kNumSpans); [|done]. intros [= <- <-].
  split; [done|]. cbn [spans_]. rewrite lookup_insert_eq. by eexists.
Qed.
