(* ===== verification/Clock.v ===== *)
(** * Clock: the interface of [absl::Time] and [absl::Duration]

    Times are points of a totally ordered line, durations their
    differences.  The code only uses the operations below; [ZClock] counts
    nanoseconds and is what the concrete examples run on. *)

From S2P Require Import Prelude Doubles.

Class Clock := {
  Time : Type;
  Duration : Type;
  time_leb : Time -> Time -> bool;
  time_plus : Time -> Duration -> Time;
  time_minus : Time -> Duration -> Time;
  time_diff : Time -> Time -> Duration;
  dur_leb : Duration -> Duration -> bool;
  dur_twice : Duration -> Duration;
  ZeroDuration : Duration;
  ToDoubleSeconds : Duration -> double;
  UnixEpoch : Time;
  InfinitePast : Time;
  InfiniteFuture : Time }.

Definition time_ltb `{Clock} (a b : Time) : bool := negb (time_leb b a).
Definition dur_ltb `{Clock} (a b : Duration) : bool := negb (dur_leb b a).

(** The documented order of times. *)
Class ClockLaws `{Clock} := {
  time_leb_refl t : time_leb t t = true;
  time_leb_trans a b c : time_leb a b = true -> time_leb b c = true -> time_leb a c = true;
  time_leb_antisym a b : time_leb a b = true -> time_leb b a = true -> a = b;
  time_leb_total a b : time_leb a b = true \/ time_leb b a = true;
  time_leb_past t : time_leb InfinitePast t = true;
  time_leb_future t : time_leb t InfiniteFuture = true;
  time_leb_plus t d : dur_leb ZeroDuration d = true -> time_leb t (time_plus t d) = true }.

Section Laws.
Context `{ClockLaws}.

Lemma time_ltb_leb a b : time_ltb a b = true -> time_leb a b = true.
Proof.
  unfold time_ltb. intros Hn%negb_true_iff. destruct (time_leb_total a b); congruence.
Qed.

Lemma time_leb_false a b : time_leb a b = false -> time_leb b a = true.
Proof. intros Hf. destruct (time_leb_total a b); congruence. Qed.

Lemma time_leb_ltb_trans a b c :
  time_leb a b = true -> time_ltb b c = true -> time_ltb a c = true.
Proof.
  unfold time_ltb. rewrite !negb_true_iff. intros Hab Hbc.
  apply not_true_iff_false. intros Hca. apply not_true_iff_false in Hbc. apply Hbc.
  by eapply time_leb_trans.
Qed.

Lemma time_ltb_leb_trans a b c :
  time_ltb a b = true -> time_leb b c = true -> time_ltb a c = true.
Proof.
  unfold time_ltb. rewrite !negb_true_iff. intros Hab Hbc.
  apply not_true_iff_false. intros Hca. apply not_true_iff_false in Hab. apply Hab.
  by eapply time_leb_trans.
Qed.
End Laws.

#[export] Hint Resolve time_leb_refl time_ltb_leb : heyp.

Definition time_min `{Clock} (a b : Time) : Time := if time_ltb b a then b else a.
Definition time_max `{Clock} (a b : Time) : Time := if time_ltb a b then b else a.

(** Nanoseconds.  Arithmetic with an infinite operand saturates, as the
    library's infinite durations do. *)
Inductive ztime := ZPast | ZAt (ns : Z) | ZFuture.

Definition infinite_duration : Z := 2 ^ 63 - 1.

Definition ztime_add (t : ztime) (d : Z) : ztime :=
  match t with ZAt t => ZAt (t + d) | _ => t end.

Definition ZClock : Clock := {|
  Time := ztime; Duration := Z;
  time_leb a b := match a, b with
                  | ZPast, _ | _, ZFuture => true
                  | _, ZPast | ZFuture, _ => false
                  | ZAt a, ZAt b => a <=? b end;
  time_plus := ztime_add;
  time_minus t d := ztime_add t (- d);
  time_diff a b := match a, b with
                   | ZAt a, ZAt b => a - b
                   | ZPast, _ | _, ZFuture => - infinite_duration
                   | ZFuture, _ | _, ZPast => infinite_duration end;
  dur_leb := Z.leb;
  dur_twice d := 2 * d;
  ZeroDuration := 0;
  ToDoubleSeconds d := ddiv (dofZ d) (dofZ 1000000000);
  UnixEpoch := ZAt 0;
  InfinitePast := ZPast;
  InfiniteFuture := ZFuture |}.

Lemma ZClock_laws : @ClockLaws ZClock.
Proof.
  split; cbn.
  - intros [|t|]; auto using Z.leb_refl.
  - intros [|a|] [|b|] [|c|]; rewrite ?Z.leb_le; try done. lia.
  - intros [|a|] [|b|]; rewrite ?Z.leb_le; try done. intros. f_equal. lia.
  - intros [|a|] [|b|]; rewrite ?Z.leb_le; try tauto. lia.
  - done.
  - by intros [].
  - intros [|t|] d; rewrite ?Z.leb_le; try done. cbn. rewrite Z.leb_le. lia.
Qed.

Definition seconds (s : Z) : @Duration ZClock := s * 1000000000.
Definition at_seconds (s : Z)  : @Time ZClock := ZAt (s * 1000000000).
