(* ===== verification/Views.v ===== *)
(** * Views: an aggregate as hosts or as jobs

    src/heyp/alg/flow-volume.h and src/heyp/alg/agg-info-views.{h,cc}: the
    children of an aggregate as the downgrade selectors see them, one per
    host or one per job with the host to job index.  [XXH64] is a
    parameter. *)

From S2P Require Import Prelude FlowMarker.

Inductive FVSource := kPredictedDemand | kUsage.

Definition GetFlowVolume (info : FlowInfo) (source : FVSource) : Z :=
  match source with
  | kPredictedDemand => predicted_demand_bps info
  | kUsage => ewma_usage_bps info
  end.

Record ChildFlowInfo := mkChild {
  child_id : Z;
  volume_bps : Z;
  child_currently_lopri : bool }.

#[export] Instance ChildFlowInfo_eq_dec : EqDecision ChildFlowInfo.
Proof. solve_decision. Defined.
#[export] Instance ChildFlowInfo_inhabited : Inhabited ChildFlowInfo := populate (mkChild 0 0 false).

(** ** One child per host *)

Definition HostLevelView_Create (vol_source : FVSource) (info : AggInfo) : list ChildFlowInfo :=
  map (fun c => mkChild (host_id (flow c)) (GetFlowVolume c vol_source) (currently_lopri c))
    (children info).

(** ** One child per job *)

Record JobLevelView := mkJobLevelView {
  job_children : list ChildFlowInfo;
  job_index : list nat }.

(** The key of a host's job. *)
Definition job_marker (host_flow : FlowMarker) : FlowMarker :=
  mkFlowMarker (src_dc host_flow) (dst_dc host_flow) (job host_flow) 0 "" "" UNSET 0 0 0.

Record job_builder := mkBuilder {
  flow_to_job_index : gmap FlowMarker nat;
  built_children : list ChildFlowInfo;
  built_index : list nat }.

Section JobView.
Context (XXH64 : string -> Z).

(** [get_job_info_index]. *)
Definition get_job_info_index (b : job_builder) (host_flow : FlowMarker) : job_builder * nat :=
  let flow := job_marker host_flow in
  match flow_to_job_index b !! flow with
  | Some j => (b, j)
  | None =>
      let j := length (built_children b) in
      (mkBuilder (<[flow := j]> (flow_to_job_index b))
         (built_children b ++ [mkChild (XXH64 (job flow)) 0 false]) (built_index b), j)
  end.

Definition add_host_to_job (vol_source : FVSource) (b : job_builder) (child : FlowInfo)
    : job_builder :=
  let '(b, j) := get_job_info_index b (flow child) in
  mkBuilder (flow_to_job_index b)
    (alter (fun c => mkChild (child_id c)
                       (i64 (volume_bps c + GetFlowVolume child vol_source))
                       (child_currently_lopri c || currently_lopri child))
       j (built_children b))
    (built_index b ++ [j]).

Definition JobLevelView_Create (vol_source : FVSource) (info : AggInfo) : JobLevelView :=
  let b := foldl (add_host_to_job vol_source) (mkBuilder ∅ [] []) (children info) in
  mkJobLevelView (built_children b) (built_index b).

(** ** Invariant of the construction *)

Definition hosts_of_job (idx : list nat) (hosts : list FlowInfo) (j : nat) : list FlowInfo :=
  map snd (filter (fun '(i, _) => i = j) (zip idx hosts)).

#[local] Arguments hosts_of_job : simpl never.

(** What the view must be after the hosts [hs]. *)
Record builder_inv (vol_source : FVSource) (hs : list FlowInfo) (b : job_builder) : Prop := {
  inv_length : length (built_index b) = length hs;
  inv_range : forall m j, flow_to_job_index b !! m = Some j -> (j < length (built_children b))%nat;
  inv_inj : forall m m' j, flow_to_job_index b !! m = Some j ->
    flow_to_job_index b !! m' = Some j -> m = m';
  inv_index : forall i j h, built_index b !! i = Some j -> hs !! i = Some h ->
    flow_to_job_index b !! job_marker (flow h) = Some j;
  inv_child : forall j c, built_children b !! j = Some c ->
    volume_bps c =
      i64 (zsum (map (fun h => GetFlowVolume h vol_source) (hosts_of_job (built_index b) hs j))) /\
    child_currently_lopri c = existsb currently_lopri (hosts_of_job (built_index b) hs j) }.

Lemma hosts_of_job_snoc idx hs i h j :
  length idx = length hs ->
  hosts_of_job (idx ++ [i]) (hs ++ [h]) j =
  hosts_of_job idx hs j ++ (if decide (i = j) then [h] else []).
Proof.
  intros Hl. unfold hosts_of_job. rewrite zip_with_app by done.
  rewrite filter_app, map_app. f_equal. cbn. by destruct (decide (i = j)).
Qed.

Lemma hosts_of_job_none idx hs j :
  length idx = length hs -> (forall i, i ∈ idx -> i <> j) -> hosts_of_job idx hs j = [].
Proof.
  revert hs. induction idx as [|i idx IH]; intros [|h hs] Hl Hi; try done.
  unfold hosts_of_job in *. cbn. destruct (decide (i = j)) as [->|?].
  - exfalso. apply (Hi j); set_solver.
  - apply IH; [by injection Hl|]. set_solver.
Qed.

Lemma get_job_info_index_inv vol_source hs b h b' j :
  builder_inv vol_source hs b -> get_job_info_index b h = (b', j) ->
  builder_inv vol_source hs b' /\ (j < length (built_children b'))%nat /\
  flow_to_job_index b' !! job_marker h = Some j.
Proof.
  intros [Hl Hr Hinj Hidx Hc] E. unfold get_job_info_index in E.
  destruct (flow_to_job_index b !! job_marker h) as [j0|] eqn:Em; simplify_eq.
  { split_and!; [by split|by eapply Hr|done]. }
  cbn. rewrite length_app, lookup_insert_eq. cbn. split_and!; [|lia|done].
  assert (Hne : forall i, i ∈ built_index b -> i <> length (built_children b)).
  { intros i (k & Hk)%list_elem_of_lookup ->.
    destruct (lookup_lt_is_Some_2 hs k) as [h' Hh'].
    { rewrite <- Hl. by eapply lookup_lt_Some. }
    specialize (Hidx _ _ _ Hk Hh'). apply Hr in Hidx. lia. }
  split; cbn; rewrite ?length_app; cbn; try done.
  - intros m j Hm. apply lookup_insert_Some in Hm as [[? <-]|[? Hm]]; [lia|].
    apply Hr in Hm. lia.
  - intros m m' j Hm Hm'.
    apply lookup_insert_Some in Hm as [[<- <-]|[? Hm]];
      apply lookup_insert_Some in Hm' as [[<- ?]|[? Hm']]; try done.
    + apply Hr in Hm'. lia.
    + subst. apply Hr in Hm. lia.
    + by eapply Hinj.
  - intros i j h' Hi Hh'. specialize (Hidx _ _ _ Hi Hh').
    rewrite lookup_insert_ne; [done|]. intros E. rewrite E in Em. congruence.
  - intros j c Hj. apply lookup_app_Some in Hj as [Hj|[Hge Hj]]; [by apply Hc|].
    apply list_lookup_singleton_Some in Hj as [Hj <-].
    assert (j = length (built_children b)) as -> by lia.
    rewrite hosts_of_job_none by done. cbn. done.
Qed.

Lemma add_host_to_job_inv vol_source hs b h :
  builder_inv vol_source hs b ->
  builder_inv vol_source (hs ++ [h]) (add_host_to_job vol_source b h).
Proof.
  intros Hb. unfold add_host_to_job.
  destruct (get_job_info_index b (flow h)) as [b' j] eqn:E.
  apply (get_job_info_index_inv vol_source hs) in E as ([Hl Hr Hinj Hidx Hc] & Hj & Hm);
    [|done].
  split; cbn; rewrite ?length_app, ?length_alter; cbn; try done.
  - by rewrite Hl.
  - intros i k h' Hi Hh'. apply lookup_app_Some in Hi as [Hi|[Hge Hi]].
    + rewrite lookup_app_l in Hh' by (rewrite <- Hl; by eapply lookup_lt_Some).
      by eapply Hidx.
    + rewrite lookup_app_r in Hh' by lia. rewrite Hl in Hi.
      apply list_lookup_singleton_Some in Hi as [? <-].
      apply list_lookup_singleton_Some in Hh' as [_ <-]. done.
  - intros k c Hk. rewrite hosts_of_job_snoc by done. rewrite map_app, existsb_app, zsum_app.
    destruct (decide (j = k)) as [->|Hne].
    + rewrite list_lookup_alter_eq in Hk. apply fmap_Some in Hk as (c0 & Hc0 & ->).
      destruct (Hc _ _ Hc0) as [Hv Hlo]. cbn. rewrite orb_false_r, Hlo, Z.add_0_r, Hv.
      by rewrite i64_add_l.
    + rewrite list_lookup_alter_ne in Hk by done. cbn. rewrite Z.add_0_r, orb_false_r.
      by apply Hc.
Qed.
End JobView.

(** ** Claims *)

Lemma JobLevelView_builder XXH64 vol_source info :
  builder_inv vol_source (children info)
    (foldl (add_host_to_job XXH64 vol_source) (mkBuilder ∅ [] []) (children info)).
Proof.
  generalize (children info) as hs. intros hs. induction hs as [|h hs IH] using rev_ind.
  - by split.
  - rewrite foldl_snoc. by apply add_host_to_job_inv.
Qed.

Lemma JobLevelView_index_length XXH64 vol_source info :
  length (job_index (JobLevelView_Create XXH64 vol_source info)) = length (children info).
Proof. apply (JobLevelView_builder XXH64 vol_source info). Qed.

Lemma JobLevelView_index_range XXH64 vol_source info i j :
  job_index (JobLevelView_Create XXH64 vol_source info) !! i = Some j ->
  (j < length (job_children (JobLevelView_Create XXH64 vol_source info)))%nat.
Proof.
  intros Hj. destruct (JobLevelView_builder XXH64 vol_source info) as [Hl Hr _ Hidx _].
  destruct (lookup_lt_is_Some_2 (children info) i) as [h Hh].
  { rewrite <- Hl. by eapply lookup_lt_Some. }
  specialize (Hidx _ _ _ Hj Hh). by eapply Hr.
Qed.

(** The job-level view groups hosts exactly by (source DC, destination
    DC, job): every host has the index of a job of the view, two hosts share
    it iff they agree on those fields, a job's volume is the (wrapped) sum of
    its hosts' volumes and it counts as low priority iff one of its hosts
    does. *)
Theorem JobLevelView_groups_hosts XXH64 vol_source info :
  let v := JobLevelView_Create XXH64 vol_source info in
  length (job_index v) = length (children info) /\
  (forall i j, job_index v !! i = Some j -> (j < length (job_children v))%nat) /\
  (forall i i' j j' h h', job_index v !! i = Some j -> job_index v !! i' = Some j' ->
     children info !! i = Some h -> children info !! i' = Some h' ->
     (j = j' <-> job_marker (flow h) = job_marker (flow h'))) /\
  (forall j c, job_children v !! j = Some c ->
     let hosts := hosts_of_job (job_index v) (children info) j in
     volume_bps c = i64 (zsum (map (fun h => GetFlowVolume h vol_source) hosts)) /\
     child_currently_lopri c = existsb currently_lopri hosts).
Proof.
  intros v. split_and!.
  - apply JobLevelView_index_length.
  - apply JobLevelView_index_range.
  - destruct (JobLevelView_builder XXH64 vol_source info) as [Hl Hr Hinj Hidx Hc].
    intros i i' j j' h h' Hj Hj' Hh Hh'.
    pose proof (Hidx _ _ _ Hj Hh) as E. pose proof (Hidx _ _ _ Hj' Hh') as E'. split.
    + intros <-. by eapply Hinj.
    + intros Em. rewrite Em in E. congruence.
  - apply JobLevelView_builder.
Qed.
