(* ===== verification/RateLimits.v ===== *)
(** * RateLimits: limits, demand prediction, sampling, fractions

    src/heyp/alg/rate-limits.cc, demand-predictor.cc, sampler.h and the
    fraction computations of qos-downgrade.{h,cc}. *)

From S2P Require Import Prelude Doubles FlowMarker MaxMin Clock Views.

(** ** rate-limits.cc *)

Definition BweBurstinessFactor (info : AggInfo) : double :=
  let parent_demand_bps := dofZ (predicted_demand_bps (parent info)) in
  let sum_child_demand_bps :=
    foldl (fun acc c => dadd acc (dofZ (predicted_demand_bps c))) d0 (children info) in
  if deq parent_demand_bps d0 || deq sum_child_demand_bps d0 then d1
  else if dlt sum_child_demand_bps parent_demand_bps then d1
  else ddiv sum_child_demand_bps parent_demand_bps.

Definition EvenlyDistributeExtra (admission : Z) (demands : list Z) (waterlevel : Z) : Z :=
  if bool_decide (demands = []) then admission
  else
    let admission := foldl (fun a d => i64 (a - Z.min d waterlevel)) admission demands in
    let admission := Z.max 0 admission in
    i64 (u64 admission / Z.of_nat (length demands)).

(** ** demand-predictor.cc *)

Section Predictor.
Context `{Clock}.

Record UsageHistoryEntry := mkEntry { entry_time : Time; entry_bps : Z }.

Record BweDemandPredictor := mkBwe {
  time_window_ : Duration;
  usage_multiplier_ : double;
  min_demand_bps_ : Z }.

Definition in_window (p : BweDemandPredictor) (now : Time) (e : UsageHistoryEntry) : bool :=
  time_leb (time_minus now (time_window_ p)) (entry_time e).

Definition FromUsage (p : BweDemandPredictor) (now : Time)
    (usage_history : list UsageHistoryEntry) : Z :=
  let max_usage_bps :=
    foldl (fun m e => if in_window p now e then dmax m (dofZ (entry_bps e)) else m)
      d0 (reverse usage_history) in
  let est := dmul max_usage_bps (usage_multiplier_ p) in
  if dgt est (dofZ (min_demand_bps_ p)) then double_to_i64 est else min_demand_bps_ p.

Definition NopDemandPredictor_FromUsage (now : Time)
    (usage_history : list UsageHistoryEntry) : Z := 0.

(** Only the entries of the window count. *)
Lemma FromUsage_window p now h :
  FromUsage p now h = FromUsage p now (filter (fun e => in_window p now e = true) h).
Proof.
  unfold FromUsage. rewrite <- filter_reverse.
  assert (Hf : forall l m,
    foldl (fun m e => if in_window p now e then dmax m (dofZ (entry_bps e)) else m) m l =
    foldl (fun m e => if in_window p now e then dmax m (dofZ (entry_bps e)) else m) m
      (filter (fun e => in_window p now e = true) l)).
  { induction l as [|e l IH]; intros m; [done|]. cbn [foldl].
    destruct (in_window p now e) eqn:E.
    - rewrite filter_cons_True by done. cbn [foldl]. rewrite E. apply IH.
    - rewrite filter_cons_False by (by rewrite E). apply IH. }
  by rewrite Hf.
Qed.
End Predictor.

(** ** sampler.h *)

Record ThresholdSampler := mkSampler { approval_ : double; thresh_ : double }.

Definition new_ThresholdSampler (num_samples_at_approval approval : double) : ThresholdSampler :=
  mkSampler approval (ddiv num_samples_at_approval approval).

Definition ThresholdSamplingProbOf (approval thresh usage : double) : double :=
  if deq approval d0 then d1 else dmin (dmul usage thresh) d1.

(** [rand]: the uniform draw from [0, 1). *)
Definition ShouldInclude (s : ThresholdSampler) (rand usage : double) : bool :=
  dlt rand (ThresholdSamplingProbOf (approval_ s) (thresh_ s) usage).

Definition AggUsage_RecordSample (s : ThresholdSampler) (est_ usage : double) : double :=
  dadd est_ (ddiv usage (ThresholdSamplingProbOf (approval_ s) (thresh_ s) usage)).

Record ValCount := mkValCount { val : double; expected_count : double }.

(** The counts of the distribution estimator, in insertion order; the order
    in which the code iterates over its hash map is unspecified. *)
Fixpoint UsageDist_RecordSample (counts_ : list (double * Z)) (usage : double)
    : list (double * Z) :=
  match counts_ with
  | [] => [(usage, 1)]
  | (u, n) :: rest =>
      if deq u usage then (u, i32 (n + 1)) :: rest
      else (u, n) :: UsageDist_RecordSample rest usage
  end.

Definition EstDist (s : ThresholdSampler) (counts_ : list (double * Z)) : list ValCount :=
  map (fun '(usage, count) =>
         mkValCount usage
           (ddiv (dofZ count) (ThresholdSamplingProbOf (approval_ s) (thresh_ s) usage)))
    counts_.

(** ** qos-downgrade.{h,cc} *)

Record DowngradeFracController := mkFracController {
  max_inc : double;
  prop_gain : double;
  ignore_overage_below : double;
  ignore_overage_by_coarseness_multiplier : double }.

(** [None]: the process exits on an increment out of [-1, 1]. *)
Definition TrafficFracToDowngradeRaw (config_ : DowngradeFracController)
    (cur setpoint input2output_conversion max_task_usage_frac : double) : option double :=
  let err := dsub cur setpoint in
  if dlt d0 err && dlt err (ignore_overage_below config_) then Some d0
  else if dlt d0 err &&
          dlt err (dmul (ignore_overage_by_coarseness_multiplier config_) max_task_usage_frac)
  then Some d0
  else
    let x := dmul (prop_gain config_) err in
    let x := dmul x input2output_conversion in
    if dlt x (dneg d1) || dgt x d1 then None
    else Some (dcopysign (dfmin (dabs x) (max_inc config_)) x).

Definition TrafficFracToDowngrade (config_ : DowngradeFracController)
    (hipri_usage_bps lopri_usage_bps hipri_rate_limit_bps max_task_usage_bps : double)
    : option double :=
  let total_usage_bps := dadd hipri_usage_bps lopri_usage_bps in
  let cur := ddiv hipri_usage_bps total_usage_bps in
  let setpoint := ddiv hipri_rate_limit_bps total_usage_bps in
  TrafficFracToDowngradeRaw config_ cur setpoint d1 (ddiv max_task_usage_bps total_usage_bps).

Definition FracAdmittedAtLOPRI (vol_source : FVSource) (p : FlowInfo)
    (hipri_rate_limit lopri_rate_limit : Z) : double :=
  let volume := GetFlowVolume p vol_source in
  let maybe_admit := (0 <? lopri_rate_limit) && (0 <? volume) && (hipri_rate_limit <? volume) in
  if maybe_admit then
    let total_rate_limit_bps := dofZ (i64 (hipri_rate_limit + lopri_rate_limit)) in
    let total_admitted_demand_bps := dmin (dofZ volume) total_rate_limit_bps in
    dsub d1 (ddiv (dofZ hipri_rate_limit) total_admitted_demand_bps)
  else d0.

(** The literal [1.00001]. *)
Definition probe_slack : double := dlit 100001 100000.

(** [None]: not implemented for usage, the process exits. *)
Definition FracAdmittedAtLOPRIToProbe (vol_source : FVSource) (agg_info : AggInfo)
    (hipri_rate_limit lopri_rate_limit : Z) (demand_multiplier lopri_frac : double)
    : option double :=
  match vol_source with
  | kUsage => None
  | kPredictedDemand =>
      let volume := GetFlowVolume (parent agg_info) vol_source in
      if volume <? hipri_rate_limit then Some lopri_frac
      else if dgt (dofZ volume) (dmul demand_multiplier (dofZ hipri_rate_limit))
      then Some lopri_frac
      else
        match children agg_info with
        | [] => Some lopri_frac
        | child0 :: _ =>
            let smallest_child_demand_bps :=
              foldl (fun m c => Z.min m (GetFlowVolume c vol_source))
                (GetFlowVolume child0 vol_source) (children agg_info) in
            if lopri_rate_limit <? smallest_child_demand_bps then Some lopri_frac
            else
              let revised_frac :=
                ddiv (dmul probe_slack (dofZ smallest_child_demand_bps)) (dofZ volume) in
              if dgt revised_frac lopri_frac then Some revised_frac else Some lopri_frac
        end
  end.

Section Revise.
Context `{Clock}.

Record SingleAggState := mkSingleAggState {
  sa_alloc : FlowAlloc;
  sa_frac_lopri : double;
  sa_last_time : Time;
  sa_last_cum_hipri_usage_bytes : Z;
  sa_last_cum_lopri_usage_bytes : Z }.

(** The measured ratio over the intended one. *)
Definition measured_ratio (hipri_usage_bytes lopri_usage_bytes frac_lopri : double) : double :=
  ddiv (dmul lopri_usage_bytes (dsub d1 frac_lopri)) (dmul hipri_usage_bytes frac_lopri).

Definition HeypSigcomm20MaybeReviseLOPRIAdmission (acceptable_ratio : double) (time : Time)
    (p : FlowInfo) (cur_state : SingleAggState) : Z :=
  let cur_limit := lopri_rate_limit_bps (sa_alloc cur_state) in
  if time_leb time (sa_last_time cur_state) then cur_limit
  else if (0 <? hipri_rate_limit_bps (sa_alloc cur_state)) && dlt d0 (sa_frac_lopri cur_state)
  then
    let hipri_usage_bytes :=
      dofZ (i64 (cum_hipri_usage_bytes p - sa_last_cum_hipri_usage_bytes cur_state)) in
    let lopri_usage_bytes :=
      dofZ (i64 (cum_lopri_usage_bytes p - sa_last_cum_lopri_usage_bytes cur_state)) in
    if deq hipri_usage_bytes d0 then cur_limit
    else if dlt (measured_ratio hipri_usage_bytes lopri_usage_bytes (sa_frac_lopri cur_state))
              acceptable_ratio then
      let lopri_usage_bps :=
        ddiv (dmul (dofZ 8) lopri_usage_bytes)
          (ToDoubleSeconds (time_diff time (sa_last_time cur_state))) in
      Z.min (double_to_i64 lopri_usage_bps) cur_limit
    else cur_limit
  else cur_limit.
End Revise.

(** ** Claims *)

Lemma foldl_sub_level l : forall a wl,
  (forall d, d ∈ l -> 0 <= d) -> 0 <= wl -> min_sum wl l <= a < 2 ^ 63 ->
  foldl (fun a d => i64 (a - Z.min d wl)) a l = a - min_sum wl l.
Proof.
  induction l as [|d l IH]; intros a wl Hp Hwl Ha; [cbn; lia|].
  rewrite min_sum_cons in *. cbn [foldl].
  assert (0 <= d) by (apply Hp; set_solver).
  assert (0 <= min_sum wl l).
  { apply zsum_nonneg. intros x (y & -> & Hy)%list_elem_of_fmap.
    specialize (Hp y ltac:(set_solver)). lia. }
  rewrite (Z.min_comm d), i64_id by (unfold in_i64; lia).
  rewrite IH; [lia|set_solver|done|lia].
Qed.

Lemma level_plus_extra o B C ds :
  demands_bounded B ds -> capacity_bounded C -> ds <> [] ->
  Z.of_nat (length ds) <= NthElement.kScratchSize \/ solve_method o = kFullSort ->
  let level := ComputeWaterlevel o C ds in
  let extra := EvenlyDistributeExtra C ds level in
  let total := zsum (map (fun d => Z.min d level + extra) ds) in
  0 <= extra /\ total <= C < total + Z.of_nat (length ds).
Proof.
  intros Hd HC Hne Hm level extra total.
  destruct (ComputeWaterlevel_fair o B C ds Hd HC Hm) as (Hw & Hs & _). fold level in Hw, Hs.
  destruct Hd as [Hd _]. destruct HC as [HC0 HC].
  assert (Hn : (length ds <> 0)%nat) by (by intros ?%length_zero_iff_nil).
  assert (Hms : 0 <= min_sum level ds).
  { apply zsum_nonneg. intros x (y & -> & Hy)%list_elem_of_fmap. specialize (Hd y Hy). lia. }
  assert (He : extra = (C - min_sum level ds) / Z.of_nat (length ds)).
  { unfold extra, EvenlyDistributeExtra. rewrite bool_decide_eq_false_2 by done.
    rewrite foldl_sub_level; [|intros d Hd'; by apply Hd|done|lia].
    rewrite Z.max_r by lia. rewrite u64_id by (unfold in_u64; lia).
    apply i64_id. unfold in_i64.
    assert (0 <= (C - min_sum level ds) / Z.of_nat (length ds)) by (apply Z.div_pos; lia).
    assert ((C - min_sum level ds) / Z.of_nat (length ds) <= C - min_sum level ds)
      by (apply Z.div_le_upper_bound; nia). lia. }
  subst total. clearbody extra level. set (total := zsum _).
  assert (Ht : total = min_sum level ds + extra * Z.of_nat (length ds)).
  { unfold total. clear. unfold min_sum. induction ds as [|d ds IH]; [cbn; lia|].
    cbn [map length]. rewrite !zsum_cons, IH, (Z.min_comm d). lia. }
  pose proof (Z.div_mod (C - min_sum level ds) (Z.of_nat (length ds)) ltac:(lia)).
  pose proof (Z.mod_pos_bound (C - min_sum level ds) (Z.of_nat (length ds)) ltac:(lia)).
  assert (0 <= extra) by (rewrite He; apply Z.div_pos; lia).
  rewrite Ht, He. lia.
Qed.

(** C39: for up to 512 demands ([kScratchSize]), or any number with the full
    sort, that are non-negative and whose sums do not overflow, capping every
    demand at the water level of the admission and giving every child the
    evenly distributed extra uses at most the admission, and all of it up to
    less than one unit per child. *)
Theorem waterlevel_plus_extra_uses_admission o B C ds :
  demands_bounded B ds -> capacity_bounded C -> ds <> [] ->
  Z.of_nat (length ds) <= NthElement.kScratchSize \/ solve_method o = kFullSort ->
  let level := ComputeWaterlevel o C ds in
  let extra := EvenlyDistributeExtra C ds level in
  let total := zsum (map (fun d => Z.min d level + extra) ds) in
  0 <= extra /\ total <= C < total + Z.of_nat (length ds).
Proof. apply level_plus_extra. Qed.

Lemma waterlevel_plus_extra_uses_admission_witness :
  let level := ComputeWaterlevel default_problem_options 700 example_demands in
  level = 300 /\ EvenlyDistributeExtra 700 example_demands level = 34 /\
  0 <= EvenlyDistributeExtra 700 example_demands level.
Proof.
  cbv zeta. split; [vm_compute; reflexivity|]. split; [vm_compute; reflexivity|].
  apply (waterlevel_plus_extra_uses_admission default_problem_options 300 700 example_demands);
    [apply example_bounded|split; vm_compute; congruence|done|left; vm_compute; congruence].
Defined.

Lemma revised_limit_le `{Clock} ratio time p (s : SingleAggState) :
  let cur := lopri_rate_limit_bps (sa_alloc s) in
  let revised := HeypSigcomm20MaybeReviseLOPRIAdmission ratio time p s in
  revised <= cur /\
  (revised <> cur ->
     time_ltb (sa_last_time s) time = true /\
     0 < hipri_rate_limit_bps (sa_alloc s) /\ dlt d0 (sa_frac_lopri s) = true /\
     i64 (cum_hipri_usage_bytes p - sa_last_cum_hipri_usage_bytes s) <> 0 /\
     dlt (measured_ratio
            (dofZ (i64 (cum_hipri_usage_bytes p - sa_last_cum_hipri_usage_bytes s)))
            (dofZ (i64 (cum_lopri_usage_bytes p - sa_last_cum_lopri_usage_bytes s)))
            (sa_frac_lopri s)) ratio = true).
Proof.
  intros cur revised. unfold revised, HeypSigcomm20MaybeReviseLOPRIAdmission. fold cur.
  unfold time_ltb. destruct (time_leb time (sa_last_time s)) eqn:Et; [split; [lia|done]|].
  destruct (_ && _) eqn:Ea; [|split; [lia|done]]. bool_to_prop.
  destruct (deq _ d0) eqn:Ez; [split; [lia|done]|].
  destruct (dlt _ ratio) eqn:Er; [|split; [lia|done]].
  split; [lia|]. intros _. split_and!; try done.
  intros Hz. rewrite Hz in Ez. done.
Qed.

(** Revising the low-priority admission after congestion never raises the
    limit, and changes it only when time has advanced, both classes were in
    use and the measured ratio is below the acceptable one. *)
Theorem MaybeReviseLOPRIAdmission_never_raises `{Clock} ratio time p (s : SingleAggState) :
  let cur := lopri_rate_limit_bps (sa_alloc s) in
  let revised := HeypSigcomm20MaybeReviseLOPRIAdmission ratio time p s in
  revised <= cur /\
  (revised <> cur ->
     time_ltb (sa_last_time s) time = true /\
     0 < hipri_rate_limit_bps (sa_alloc s) /\ dlt d0 (sa_frac_lopri s) = true /\
     i64 (cum_hipri_usage_bytes p - sa_last_cum_hipri_usage_bytes s) <> 0 /\
     dlt (measured_ratio
            (dofZ (i64 (cum_hipri_usage_bytes p - sa_last_cum_hipri_usage_bytes s)))
            (dofZ (i64 (cum_lopri_usage_bytes p - sa_last_cum_lopri_usage_bytes s)))
            (sa_frac_lopri s)) ratio = true).
Proof. apply revised_limit_le. Qed.

(** The probing fraction is the given one or a strictly larger one; it is
    raised only when the volume is between the high-priority limit and its
    multiple, and then it is what the smallest child needs, which fits in the
    low-priority limit. *)
Theorem ToProbe_raises_for_smallest_child info hl ll mult frac r :
  FracAdmittedAtLOPRIToProbe kPredictedDemand info hl ll mult frac = Some r ->
  r = frac \/
  (dlt frac r = true /\
   let volume := predicted_demand_bps (parent info) in
   hl <= volume /\ dgt (dofZ volume) (dmul mult (dofZ hl)) = false /\
   exists smallest, smallest ∈ map predicted_demand_bps (children info) /\
     (forall c, c ∈ children info -> smallest <= predicted_demand_bps c) /\
     smallest <= ll /\
     r = ddiv (dmul probe_slack (dofZ smallest)) (dofZ volume)).
Proof.
  unfold FracAdmittedAtLOPRIToProbe. cbn [GetFlowVolume].
  destruct (_ <? hl) eqn:Eh; [intros [= <-]; by left|].
  destruct (dgt (dofZ _) _) eqn:Em; [intros [= <-]; by left|].
  destruct (children info) as [|c0 cs] eqn:Ec; [intros [= <-]; by left|].
  set (smallest := foldl _ _ _).
  assert (Hs : smallest ∈ map predicted_demand_bps (c0 :: cs) /\
               forall c, c ∈ c0 :: cs -> smallest <= predicted_demand_bps c).
  { assert (Hg : forall l m,
      let f := foldl (fun m c => Z.min m (predicted_demand_bps c)) m l in
      (f = m \/ f ∈ map predicted_demand_bps l) /\ f <= m /\
      (forall c, c ∈ l -> f <= predicted_demand_bps c)).
    { clear. induction l as [|c l IH]; intros m; cbn [foldl map].
      - split; [by left|]. split; [lia|set_solver].
      - destruct (IH (Z.min m (predicted_demand_bps c))) as (H1 & H2 & H3). cbn zeta in *.
        set (f := foldl _ _ l) in *. split_and!; [|lia|].
        + destruct H1 as [->|H1]; [|right; set_solver].
          destruct (Z.min_spec m (predicted_demand_bps c)) as [[_ ->]|[_ ->]];
            [by left|right; set_solver].
        + intros c' [->|Hc']%elem_of_cons; [lia|by apply H3]. }
    destruct (Hg (c0 :: cs) (predicted_demand_bps c0)) as (H1 & _ & H3). fold smallest in H1, H3.
    split; [|done]. destruct H1 as [->|?]; [set_solver|done]. }
  destruct (ll <? smallest) eqn:El; [intros [= <-]; by left|].
  destruct (dgt _ frac) eqn:Er; intros [= <-]; [right|by left]. bool_to_prop.
  split_and!; [done|lia|done|]. exists smallest. split_and!; [apply Hs|apply Hs|lia|done].
Qed.

Definition probe_example : AggInfo :=
  let c d := mkFlowInfo empty_marker d 0 0 0 0 0 0 false None in
  mkAggInfo (c 1000) [c 400; c 100; c 500].

Lemma ToProbe_raises_for_smallest_child_witness :
  exists r, FracAdmittedAtLOPRIToProbe kPredictedDemand probe_example 950 200 (dlit 11 10) d0 = Some r
    /\ dlt d0 r = true.
Proof.
  destruct (FracAdmittedAtLOPRIToProbe kPredictedDemand probe_example 950 200 (dlit 11 10) d0)
    as [r|] eqn:E; [|vm_compute in E; discriminate].
  exists r. split; [reflexivity|].
  destruct (ToProbe_raises_for_smallest_child probe_example 950 200 (dlit 11 10) d0 r E)
    as [Hr|[Hr _]]; [|exact Hr].
  rewrite Hr in E. vm_compute in E. discriminate.
Defined.

(** The feedback controller's increment is never larger in magnitude than
    the configured maximum, and it is zero for an overage below the noise
    threshold. *)
Theorem TrafficFracToDowngradeRaw_bounded config cur setpoint i2o task r :
  dsign (max_inc config) = false -> dis_nan (max_inc config) = false ->
  dle d0 (max_inc config) = true ->
  TrafficFracToDowngradeRaw config cur setpoint i2o task = Some r ->
  dis_nan r = false -> dle (dabs r) (max_inc config) = true.
Proof.
  intros Hs Hn H0. unfold TrafficFracToDowngradeRaw.
  set (err := dsub cur setpoint). set (x := dmul (dmul _ _) _).
  destruct (_ && _); [intros [= <-]; done|].
  destruct (_ && _); [intros [= <-]; done|].
  destruct (_ || _); [done|]. intros [= <-] _.
  set (m := max_inc config) in *.
  assert (Habs : dabs (dcopysign (dfmin (dabs x) m) x) = dabs (dfmin (dabs x) m)).
  { unfold dcopysign. destruct (Bool.eqb _ _); [done|].
    by destruct (dfmin (dabs x) m). }
  rewrite Habs. unfold dfmin.
  assert (Hsm : dabs m = m) by (destruct m; cbn in *; subst; done).
  destruct (dis_nan (dabs x)) eqn:En.
  - rewrite Hsm. by apply dle_refl.
  - rewrite Hn. destruct (dlt m (dabs x)) eqn:El.
    + rewrite Hsm. by apply dle_refl.
    + assert (dabs (dabs x) = dabs x) as -> by (by destruct x). by apply dlt_false_dle.
Qed.

Definition example_frac_controller : DowngradeFracController :=
  mkFracController (dlit 1 10) (dlit 3 4) (dlit 1 100) (dlit 1 1).

Lemma TrafficFracToDowngradeRaw_bounded_witness :
  exists r, TrafficFracToDowngrade example_frac_controller (dofZ 80) (dofZ 20) (dofZ 40) (dofZ 3)
    = Some r /\ dle (dabs r) (dlit 1 10) = true.
Proof.
  destruct (TrafficFracToDowngrade example_frac_controller (dofZ 80) (dofZ 20) (dofZ 40) (dofZ 3))
    as [r|] eqn:E; [|vm_compute in E; discriminate].
  exists r. split; [reflexivity|].
  apply (TrafficFracToDowngradeRaw_bounded example_frac_controller
    (ddiv (dofZ 80) (dofZ 100)) (ddiv (dofZ 40) (dofZ 100)) d1 (ddiv (dofZ 3) (dofZ 100)) r);
    try (vm_compute; reflexivity); [exact E|].
  vm_compute in E. injection E as <-. reflexivity.
Defined.
