(* ===== verification/FlowState.v ===== *)
(** * FlowState: usage and demand of one flow or aggregate

    src/heyp/flows/state.{h,cc}: [AggState] (an aggregate updated with
    counters and summed usages) and [LeafState] (a connection updated with a
    cumulative counter).  A failed [H_SPDLOG_CHECK] is [None]. *)

From S2P Require Import Prelude Doubles FlowMarker Clock RateLimits.

(** ** Setters of [FlowInfo] *)

Definition set_aux (a : option AuxInfo) (i : FlowInfo) : FlowInfo :=
  match a with
  | None => i
  | Some a => mkFlowInfo (flow i) (predicted_demand_bps i) (ewma_usage_bps i)
      (ewma_hipri_usage_bps i) (ewma_lopri_usage_bps i) (cum_usage_bytes i)
      (cum_hipri_usage_bytes i) (cum_lopri_usage_bytes i) (currently_lopri i) (Some a)
  end.

Definition set_ewma (u h l : Z) (i : FlowInfo) : FlowInfo :=
  mkFlowInfo (flow i) (predicted_demand_bps i) u h l (cum_usage_bytes i)
    (cum_hipri_usage_bytes i) (cum_lopri_usage_bytes i) (currently_lopri i) (aux i).

Definition set_counters (lopri : bool) (cum h l : Z) (i : FlowInfo) : FlowInfo :=
  mkFlowInfo (flow i) (predicted_demand_bps i) (ewma_usage_bps i) (ewma_hipri_usage_bps i)
    (ewma_lopri_usage_bps i) cum h l lopri (aux i).

Definition set_predicted_demand_bps (d : Z) (i : FlowInfo) : FlowInfo :=
  mkFlowInfo (flow i) d (ewma_usage_bps i) (ewma_hipri_usage_bps i)
    (ewma_lopri_usage_bps i) (cum_usage_bytes i) (cum_hipri_usage_bytes i)
    (cum_lopri_usage_bytes i) (currently_lopri i) (aux i).

Definition info_of_flow (m : FlowMarker) : FlowInfo :=
  mkFlowInfo m 0 0 0 0 0 0 0 false None.

Section State.
Context `{Clock}.

(** [DemandPredictor]: the virtual [FromUsage]. *)
Definition DemandPredictor : Type := Time -> list UsageHistoryEntry -> Z.

(** ** AggState *)

Record AggState := mkAggState {
  usage_history_ : list UsageHistoryEntry;
  updated_time_ : Time;
  cur_ : FlowInfo;
  smooth_usage_ : bool;
  was_updated_ : bool;
  have_bps_ : bool }.

Definition new_AggState (m : FlowMarker) (smooth_usage : bool) : AggState :=
  mkAggState [] InfinitePast (info_of_flow m) smooth_usage false false.

Record AggUpdate := mkAggUpdate {
  u_time : Time;
  sum_child_usage_bps : Z;
  sum_child_hipri_usage_bps : Z;
  sum_child_lopri_usage_bps : Z;
  u_cum_hipri_usage_bytes : Z;
  u_cum_lopri_usage_bytes : Z;
  u_aux : option AuxInfo }.

(** Garbage collection of the history: nothing is dropped until the oldest
    entry is twice the window old; then everything before the first entry
    in the window goes. *)
Fixpoint keep_from (min_time : Time) (h : list UsageHistoryEntry) : list UsageHistoryEntry :=
  match h with
  | [] => []
  | e :: rest => if time_leb min_time (entry_time e) then h else keep_from min_time rest
  end.

Definition gc_history (window : Duration) (now : Time) (h : list UsageHistoryEntry)
    : list UsageHistoryEntry :=
  match h with
  | [] => []
  | front :: _ =>
      if dur_ltb (dur_twice window) (time_diff now (entry_time front))
      then keep_from (time_minus now window) h else h
  end.

Definition alpha : double := dlit 3 10.

Definition ewma (measured : double) (old : Z) : Z :=
  double_to_i64 (dadd (dmul alpha measured) (dmul (dsub d1 alpha) (dofZ old))).

(** The part of [AggState::UpdateUsage] after the first-update branch. *)
Definition record_usage (s : AggState) (u : AggUpdate) (window : Duration)
    (predictor : DemandPredictor) (is_lopri : bool) (cum : Z) (m mh ml : double) : AggState :=
  let c := cur_ s in
  let c :=
    if negb (have_bps_ s) || negb (smooth_usage_ s)
    then set_ewma (double_to_i64 m) (double_to_i64 mh) (double_to_i64 ml) c
    else set_ewma (ewma m (ewma_usage_bps c)) (ewma mh (ewma_hipri_usage_bps c))
           (ewma ml (ewma_lopri_usage_bps c)) c in
  let c := set_counters is_lopri cum (u_cum_hipri_usage_bytes u) (u_cum_lopri_usage_bytes u) c in
  let h := gc_history window (u_time u)
             (usage_history_ s ++ [mkEntry (u_time u) (ewma_usage_bps c)]) in
  mkAggState h (u_time u) (set_predicted_demand_bps (predictor (u_time u) h) c)
    (smooth_usage_ s) (was_updated_ s) true.

Definition mean_bps (dur : Duration) (bytes : Z) (measured : double) : double :=
  if dur_ltb ZeroDuration dur
  then dmax (ddiv (dofZ (i64 (8 * i64 bytes))) (ToDoubleSeconds dur)) measured
  else measured.

Definition Agg_UpdateUsage (s : AggState) (u : AggUpdate) (window : Duration)
    (predictor : DemandPredictor) : option AggState :=
  let c := cur_ s in
  let cum := i64 (u_cum_hipri_usage_bytes u + u_cum_lopri_usage_bytes u) in
  let is_lopri := (u_cum_hipri_usage_bytes u =? cum_hipri_usage_bytes c) &&
                  (cum_lopri_usage_bytes c <? u_cum_lopri_usage_bytes u) in
  if time_ltb (u_time u) (updated_time_ s) then Some s
  else if (u_cum_hipri_usage_bytes u <? cum_hipri_usage_bytes c) ||
          (u_cum_lopri_usage_bytes u <? cum_lopri_usage_bytes c) then None
  else
    let m := dofZ (sum_child_usage_bps u) in
    let mh := dofZ (sum_child_hipri_usage_bps u) in
    let ml := dofZ (sum_child_lopri_usage_bps u) in
    let s := mkAggState (usage_history_ s) (updated_time_ s) (set_aux (u_aux u) c)
               (smooth_usage_ s) (was_updated_ s) (have_bps_ s) in
    if was_updated_ s then
      let dur := time_diff (u_time u) (updated_time_ s) in
      let m := mean_bps dur (cum - cum_usage_bytes c) m in
      let mh := mean_bps dur (u_cum_hipri_usage_bytes u - cum_hipri_usage_bytes c) mh in
      let ml := mean_bps dur (u_cum_lopri_usage_bytes u - cum_lopri_usage_bytes c) ml in
      Some (record_usage s u window predictor is_lopri cum m mh ml)
    else
      let s := mkAggState (usage_history_ s) (u_time u)
                 (set_counters is_lopri cum (u_cum_hipri_usage_bytes u)
                    (u_cum_lopri_usage_bytes u) (cur_ s))
                 (smooth_usage_ s) true (have_bps_ s) in
      if deq m d0 then Some s
      else Some (record_usage s u window predictor is_lopri cum m mh ml).

(** ** LeafState: an [AggState] that smooths *)

Definition new_LeafState (m : FlowMarker) : AggState := new_AggState m true.

Record LeafUpdate := mkLeafUpdate {
  lu_time : Time;
  lu_cum_usage_bytes : Z;
  instantaneous_usage_bps : Z;
  lu_is_lopri : bool;
  lu_aux : option AuxInfo }.

Definition leaf_update (s : AggState) (u : LeafUpdate) : AggUpdate :=
  let c := cur_ s in
  let update_usage_bytes :=
    if lu_cum_usage_bytes u <? cum_usage_bytes c then cum_usage_bytes c
    else lu_cum_usage_bytes u in
  let bps_diff := i64 (update_usage_bytes - cum_usage_bytes c) in
  mkAggUpdate (lu_time u) (instantaneous_usage_bps u) 0 0
    (if lu_is_lopri u then cum_hipri_usage_bytes c
     else i64 (cum_hipri_usage_bytes c + bps_diff))
    (if lu_is_lopri u then i64 (cum_lopri_usage_bytes c + bps_diff)
     else cum_lopri_usage_bytes c)
    (lu_aux u).

Definition Leaf_UpdateUsage (s : AggState) (u : LeafUpdate) (window : Duration)
    (predictor : DemandPredictor) : option AggState :=
  Agg_UpdateUsage s (leaf_update s u) window predictor.
End State.

(** ** Garbage collection *)

Section GC.
Context `{Clock}.

Lemma keep_from_suffix mt h : exists dropped, h = dropped ++ keep_from mt h /\
  (forall e, e ∈ dropped -> time_leb mt (entry_time e) = false).
Proof.
  induction h as [|e h (d & E & Hd)]; cbn; [exists []; split; [done|set_solver]|].
  destruct (time_leb mt (entry_time e)) eqn:Et; [exists []; split; [done|set_solver]|].
  exists (e :: d). split; [by rewrite E at 1|].
  intros e' [->|He']%elem_of_cons; [done|by apply Hd].
Qed.

Lemma gc_history_suffix w now h : exists dropped, h = dropped ++ gc_history w now h /\
  (forall e, e ∈ dropped -> time_leb (time_minus now w) (entry_time e) = false).
Proof.
  unfold gc_history. destruct h as [|front h]; [exists []; split; [done|set_solver]|].
  destruct (dur_ltb _ _); [apply keep_from_suffix|]. exists []. split; [done|set_solver].
Qed.

Lemma gc_history_elem w now h e : e ∈ gc_history w now h -> e ∈ h.
Proof. destruct (gc_history_suffix w now h) as (d & E & _). rewrite E at 2. set_solver. Qed.
End GC.

(** Garbage collecting the history drops a prefix with no entry of the
    window, so a predictor that looks at the same window predicts the same
    demand from the collected history as from the whole one. *)
Theorem gc_history_keeps_prediction `{Clock} p w now h :
  time_window_ p = w ->
  FromUsage p now (gc_history w now h) = FromUsage p now h /\
  exists dropped, h = dropped ++ gc_history w now h /\
    (forall e, e ∈ dropped -> in_window p now e = false).
Proof.
  intros <-. destruct (gc_history_suffix (time_window_ p) now h) as (d & E & Hd). split.
  - assert (Hf : filter (fun e => in_window p now e = true) h =
                 filter (fun e => in_window p now e = true) (gc_history (time_window_ p) now h)).
    { rewrite E at 1. rewrite filter_app.
      assert (filter (fun e => in_window p now e = true) d = []) as ->; [|done].
      apply filter_none. intros e He. unfold in_window. by rewrite Hd. }
    by rewrite (FromUsage_window p now h), (FromUsage_window p now (gc_history _ _ _)), Hf.
  - by exists d.
Qed.

Definition example_history : list (@UsageHistoryEntry ZClock) :=
  [@mkEntry ZClock (at_seconds 1) 500; @mkEntry ZClock (at_seconds 9) 300;
   @mkEntry ZClock (at_seconds 30) 100].

Lemma gc_history_keeps_prediction_witness :
  map (@entry_bps ZClock) (@gc_history ZClock (seconds 10) (at_seconds 30) example_history) =
    [100] /\
  @FromUsage ZClock (@mkBwe ZClock (seconds 10) (dlit 11 10) 50) (at_seconds 30)
    (@gc_history ZClock (seconds 10) (at_seconds 30) example_history) =
  @FromUsage ZClock (@mkBwe ZClock (seconds 10) (dlit 11 10) 50) (at_seconds 30) example_history.
Proof.
  split; [vm_compute; reflexivity|].
  exact (proj1 (@gc_history_keeps_prediction ZClock (@mkBwe ZClock (seconds 10) (dlit 11 10) 50)
           (seconds 10) (at_seconds 30) example_history eq_refl)).
Defined.

(** ** The invariant of the state *)

Section Invariant.
Context `{ClockLaws}.

Record agg_ok (s : AggState) : Prop := {
  ok_cum : cum_usage_bytes (cur_ s) =
    i64 (cum_hipri_usage_bytes (cur_ s) + cum_lopri_usage_bytes (cur_ s));
  ok_times : forall e, e ∈ usage_history_ s ->
    time_leb (entry_time e) (updated_time_ s) = true;
  ok_sorted : StronglySorted (fun a b => time_leb (entry_time a) (entry_time b) = true)
    (usage_history_ s);
  ok_fresh : was_updated_ s = false -> usage_history_ s = [] /\ have_bps_ s = false }.

Lemma new_AggState_ok m b : agg_ok (new_AggState m b).
Proof. split; cbn; try done; [set_solver|constructor]. Qed.

Lemma StronglySorted_suffix {A} (R : A -> A -> Prop) (d l : list A) :
  StronglySorted R (d ++ l) -> StronglySorted R l.
Proof. induction d as [|x d IH]; [done|]. intros [Hs _]%StronglySorted_inv. auto. Qed.

Lemma StronglySorted_snoc {A} (R : A -> A -> Prop) (l : list A) x :
  StronglySorted R l -> (forall y, y ∈ l -> R y x) -> StronglySorted R (l ++ [x]).
Proof.
  induction l as [|y l IH]; intros Hs Hx; cbn; [by repeat constructor|].
  apply StronglySorted_inv in Hs as [Hs Hy]. constructor; [apply IH; [done|set_solver]|].
  apply Forall_app. split; [done|]. constructor; [apply Hx; set_solver|constructor].
Qed.

Definition same_flow_settings (s s' : AggState) : Prop :=
  flow (cur_ s') = flow (cur_ s) /\ smooth_usage_ s' = smooth_usage_ s.

Definition counters_are (s : AggState) (u : AggUpdate) : Prop :=
  cum_hipri_usage_bytes (cur_ s) = u_cum_hipri_usage_bytes u /\
  cum_lopri_usage_bytes (cur_ s) = u_cum_lopri_usage_bytes u /\
  updated_time_ s = u_time u.

Lemma record_usage_ok s u w predictor lopri m mh ml :
  (forall e, e ∈ usage_history_ s -> time_leb (entry_time e) (u_time u) = true) ->
  StronglySorted (fun a b => time_leb (entry_time a) (entry_time b) = true)
    (usage_history_ s) -> was_updated_ s = true ->
  let s' := record_usage s u w predictor lopri
              (i64 (u_cum_hipri_usage_bytes u + u_cum_lopri_usage_bytes u)) m mh ml in
  agg_ok s' /\ counters_are s' u /\ same_flow_settings s s'.
Proof.
  intros Ht Hs Hw s'. unfold s', record_usage.
  set (c := set_counters _ _ _ _ _). set (h := gc_history _ _ _).
  assert (Hh : forall e, e ∈ h -> time_leb (entry_time e) (u_time u) = true).
  { intros e He%gc_history_elem. apply elem_of_app in He as [He|He]; [by apply Ht|].
    apply list_elem_of_singleton in He as ->. apply time_leb_refl. }
  split_and!.
  - split; cbn; try done.
    + destruct (gc_history_suffix w (u_time u)
        (usage_history_ s ++ [mkEntry (u_time u) (ewma_usage_bps c)])) as (d & E & _).
      fold h in E. eapply StronglySorted_suffix. rewrite <- E.
      apply StronglySorted_snoc; [done|]. cbn. exact Ht.
    + by rewrite Hw.
  - unfold counters_are. cbn. done.
  - unfold same_flow_settings. cbn. by destruct (_ || _).
Qed.

Lemma set_aux_counters a i :
  cum_usage_bytes (set_aux a i) = cum_usage_bytes i /\ flow (set_aux a i) = flow i /\
  cum_hipri_usage_bytes (set_aux a i) = cum_hipri_usage_bytes i /\
  cum_lopri_usage_bytes (set_aux a i) = cum_lopri_usage_bytes i.
Proof. by destruct a. Qed.

Ltac use_record_usage Ht Hs Hfl :=
  match goal with
  | |- agg_ok (record_usage ?s0 ?u ?w ?p ?l _ ?m ?mh ?ml) /\ _ =>
      destruct (record_usage_ok s0 u w p l m mh ml Ht Hs eq_refl) as (Ho & Hcn & Hfs & Hss);
      split; [exact Ho|]; split; [exact Hcn|];
      split; [split; [etransitivity; [exact Hfs|exact Hfl]|exact Hss]|reflexivity]
  end.

Lemma Agg_UpdateUsage_newer s u w predictor :
  agg_ok s -> time_ltb (u_time u) (updated_time_ s) = false ->
  cum_hipri_usage_bytes (cur_ s) <= u_cum_hipri_usage_bytes u ->
  cum_lopri_usage_bytes (cur_ s) <= u_cum_lopri_usage_bytes u ->
  exists s', Agg_UpdateUsage s u w predictor = Some s' /\
    agg_ok s' /\ counters_are s' u /\ same_flow_settings s s' /\ was_updated_ s' = true.
Proof.
  intros [Hc Ht Hs Hf] Hnew Hh Hl. unfold Agg_UpdateUsage. rewrite Hnew.
  rewrite !(proj2 (Z.ltb_ge _ _)) by done. cbn [orb].
  assert (Ht' : forall e, e ∈ usage_history_ s -> time_leb (entry_time e) (u_time u) = true).
  { intros e He. eapply time_leb_trans; [by apply Ht|].
    unfold time_ltb in Hnew. by apply negb_false_iff in Hnew. }
  destruct (set_aux_counters (u_aux u) (cur_ s)) as (_ & Hfl & _).
  destruct (was_updated_ s) eqn:Ew; cbn [was_updated_].
  - eexists. split; [done|]. use_record_usage Ht' Hs Hfl.
  - destruct (Hf eq_refl) as [Hh0 Hb0]. destruct (deq _ d0).
    + eexists. split; [done|]. split_and!.
      * split; cbn; rewrite ?Hh0; try done; try constructor.
        intros e He. by apply elem_of_nil in He.
      * split_and!; done.
      * split; [exact Hfl|done].
      * done.
    + eexists. split; [done|].
      use_record_usage Ht' Hs Hfl.
Qed.
End Invariant.

(** An update of an aggregate: an update older than the last one changes
    nothing; otherwise the process stops exactly when one of the two
    cumulative counters went back, and if it does not the state holds the
    counters and time of the update, keeps the flow, and keeps the invariant
    (total = high + low priority bytes, history ordered and not newer than
    the last update). *)
Theorem Agg_UpdateUsage_correct `{ClockLaws} s u w predictor :
  agg_ok s ->
  match Agg_UpdateUsage s u w predictor with
  | None =>
      time_leb (updated_time_ s) (u_time u) = true /\
      (u_cum_hipri_usage_bytes u < cum_hipri_usage_bytes (cur_ s) \/
       u_cum_lopri_usage_bytes u < cum_lopri_usage_bytes (cur_ s))
  | Some s' =>
      agg_ok s' /\ same_flow_settings s s' /\
      if time_ltb (u_time u) (updated_time_ s) then s' = s
      else counters_are s' u /\
           cum_hipri_usage_bytes (cur_ s) <= cum_hipri_usage_bytes (cur_ s') /\
           cum_lopri_usage_bytes (cur_ s) <= cum_lopri_usage_bytes (cur_ s')
  end.
Proof.
  intros Hok. destruct (time_ltb (u_time u) (updated_time_ s)) eqn:Hold.
  { unfold Agg_UpdateUsage. by rewrite Hold. }
  destruct (Z.lt_ge_cases (u_cum_hipri_usage_bytes u) (cum_hipri_usage_bytes (cur_ s))) as [Hh|Hh];
  [|destruct (Z.lt_ge_cases (u_cum_lopri_usage_bytes u) (cum_lopri_usage_bytes (cur_ s))) as [Hl|Hl]].
  - unfold Agg_UpdateUsage. rewrite Hold, (proj2 (Z.ltb_lt _ _) Hh). cbn.
    unfold time_ltb in Hold. apply negb_false_iff in Hold. auto.
  - unfold Agg_UpdateUsage. rewrite Hold, (proj2 (Z.ltb_lt _ _) Hl), orb_true_r.
    unfold time_ltb in Hold. apply negb_false_iff in Hold. auto.
  - destruct (Agg_UpdateUsage_newer s u w predictor Hok Hold Hh Hl)
      as (s' & -> & Hok' & (Hc1 & Hc2 & Ht) & Hs & _).
    split_and!; try done; [rewrite Hc1|rewrite Hc2]; lia.
Qed.

Definition zinfo (t hi lo : Z) : @AggUpdate ZClock :=
  @mkAggUpdate ZClock (at_seconds t) 800 0 0 hi lo None.

Definition zpredictor : @DemandPredictor ZClock := fun _ _ => 7.

Lemma Agg_UpdateUsage_correct_witness :
  exists s', @Agg_UpdateUsage ZClock (@new_AggState ZClock empty_marker false) (zinfo 5 100 50)
      (seconds 10) zpredictor = Some s' /\ cum_hipri_usage_bytes (@cur_ ZClock s') = 100.
Proof.
  pose proof (@Agg_UpdateUsage_correct ZClock ZClock_laws (@new_AggState ZClock empty_marker false)
    (zinfo 5 100 50) (seconds 10) zpredictor
    (@new_AggState_ok ZClock ZClock_laws empty_marker false)) as Hx.
  destruct (@Agg_UpdateUsage ZClock _ (zinfo 5 100 50) (seconds 10) zpredictor) as [s'|] eqn:E;
    [|destruct Hx as [_ [Hx|Hx]]; vm_compute in Hx; discriminate].
  exists s'. split; [reflexivity|]. destruct Hx as (_ & _ & (Hx & _) & _). exact Hx.
Defined.

(** ** Leaf states *)

Section Leaf.
Context `{ClockLaws}.

Record leaf_ok (s : AggState) : Prop := {
  lo_agg : agg_ok s;
  lo_hi : 0 <= cum_hipri_usage_bytes (cur_ s);
  lo_lo : 0 <= cum_lopri_usage_bytes (cur_ s);
  lo_sum : cum_hipri_usage_bytes (cur_ s) + cum_lopri_usage_bytes (cur_ s) < 2 ^ 63 }.

Lemma leaf_ok_cum s :
  leaf_ok s ->
  cum_usage_bytes (cur_ s) = cum_hipri_usage_bytes (cur_ s) + cum_lopri_usage_bytes (cur_ s).
Proof. intros [[Hc _ _ _] Hh Hl Hs]. rewrite Hc. apply i64_id. unfold in_i64. lia. Qed.

Lemma new_LeafState_ok m : leaf_ok (new_LeafState m).
Proof. split; cbn; try lia. apply new_AggState_ok. Qed.

(** The outcome of a leaf update: never a failed check. *)
Lemma Leaf_UpdateUsage_spec s u w predictor :
  leaf_ok s -> lu_cum_usage_bytes u < 2 ^ 63 ->
  exists s', Leaf_UpdateUsage s u w predictor = Some s' /\ leaf_ok s' /\
    same_flow_settings s s' /\
    if time_ltb (lu_time u) (updated_time_ s) then s' = s
    else
      updated_time_ s' = lu_time u /\
      cum_usage_bytes (cur_ s') = Z.max (cum_usage_bytes (cur_ s)) (lu_cum_usage_bytes u) /\
      (if lu_is_lopri u
       then cum_hipri_usage_bytes (cur_ s') = cum_hipri_usage_bytes (cur_ s)
       else cum_lopri_usage_bytes (cur_ s') = cum_lopri_usage_bytes (cur_ s)).
Proof.
  intros Hok Hu. pose proof (leaf_ok_cum s Hok) as Hcum. destruct Hok as [Hagg Hh Hl Hs].
  unfold Leaf_UpdateUsage.
  set (c := cum_usage_bytes (cur_ s)) in *.
  set (hi := cum_hipri_usage_bytes (cur_ s)) in *.
  set (lo := cum_lopri_usage_bytes (cur_ s)) in *.
  assert (Hupd : exists g, 0 <= g /\ c + g = Z.max c (lu_cum_usage_bytes u) /\
    u_cum_hipri_usage_bytes (leaf_update s u) = (if lu_is_lopri u then hi else hi + g) /\
    u_cum_lopri_usage_bytes (leaf_update s u) = (if lu_is_lopri u then lo + g else lo) /\
    u_time (leaf_update s u) = lu_time u).
  { exists (Z.max c (lu_cum_usage_bytes u) - c). unfold leaf_update. cbn.
    fold c hi lo. assert (Hm : (if lu_cum_usage_bytes u <? c then c else lu_cum_usage_bytes u) =
      Z.max c (lu_cum_usage_bytes u)) by (case_if; lia).
    rewrite Hm, (i64_id (_ - c)) by (unfold in_i64; lia).
    split_and!; try lia; destruct (lu_is_lopri u); try done; apply i64_id; unfold in_i64; lia. }
  destruct Hupd as (g & Hg & Hcg & Hhi & Hlo & Ht).
  destruct (time_ltb (lu_time u) (updated_time_ s)) eqn:Hold.
  { exists s. unfold Agg_UpdateUsage. rewrite Ht, Hold. split_and!; try done. }
  destruct (Agg_UpdateUsage_newer s (leaf_update s u) w predictor)
    as (s' & -> & Hok' & (Hc1 & Hc2 & Ht') & Hs' & _); try done; try by rewrite Ht.
  { rewrite Hhi. fold hi. destruct (lu_is_lopri u); lia. }
  { rewrite Hlo. fold lo. destruct (lu_is_lopri u); lia. }
  exists s'. split; [done|].
  assert (Hsum : cum_hipri_usage_bytes (cur_ s') + cum_lopri_usage_bytes (cur_ s') = c + g).
  { rewrite Hc1, Hc2, Hhi, Hlo. destruct (lu_is_lopri u); lia. }
  assert (Hlok : leaf_ok s').
  { split; [done| | |lia]; rewrite ?Hc1, ?Hc2, ?Hhi, ?Hlo; destruct (lu_is_lopri u); lia. }
  split_and!; [done|done|by rewrite Ht', Ht| |].
  - rewrite (leaf_ok_cum s' Hlok). lia.
  - rewrite Hc1, Hc2, Hhi, Hlo. by destruct (lu_is_lopri u).
Qed.

(** The same flow, with counters at least as high. *)
Record grows (s s' : AggState) : Prop := {
  gr_flow : flow (cur_ s') = flow (cur_ s);
  gr_hi : cum_hipri_usage_bytes (cur_ s) <= cum_hipri_usage_bytes (cur_ s');
  gr_lo : cum_lopri_usage_bytes (cur_ s) <= cum_lopri_usage_bytes (cur_ s') }.

#[export] Instance grows_preorder : PreOrder grows.
Proof.
  split; [by split|]. intros s1 s2 s3 [E1 H1 L1] [E2 H2 L2]. split; [congruence|lia|lia].
Qed.

Lemma Leaf_UpdateUsage_grows s u w predictor s' :
  leaf_ok s -> lu_cum_usage_bytes u < 2 ^ 63 ->
  Leaf_UpdateUsage s u w predictor = Some s' -> grows s s'.
Proof.
  intros Hok Hu E. destruct (Leaf_UpdateUsage_spec s u w predictor Hok Hu)
    as (s1 & E1 & Hok1 & [Hfl _] & Hc). rewrite E1 in E. injection E as ->.
  pose proof (leaf_ok_cum s Hok) as H1. pose proof (leaf_ok_cum s' Hok1) as H2.
  destruct (time_ltb _ _); [by subst|]. destruct Hc as (_ & Hm & Hside).
  split; [done|..]; destruct (lu_is_lopri u); lia.
Qed.
End Leaf.

(** A leaf update never stops the process, whatever counter is reported:
    a counter that went back is replaced by the last one, the growth is
    charged to the class in use and to that class only, and the total is the
    largest counter seen. *)
Theorem Leaf_UpdateUsage_never_fails `{ClockLaws} s u w predictor :
  leaf_ok s -> lu_cum_usage_bytes u < 2 ^ 63 ->
  exists s', Leaf_UpdateUsage s u w predictor = Some s' /\ leaf_ok s' /\
    same_flow_settings s s' /\
    if time_ltb (lu_time u) (updated_time_ s) then s' = s
    else
      updated_time_ s' = lu_time u /\
      cum_usage_bytes (cur_ s') = Z.max (cum_usage_bytes (cur_ s)) (lu_cum_usage_bytes u) /\
      (if lu_is_lopri u
       then cum_hipri_usage_bytes (cur_ s') = cum_hipri_usage_bytes (cur_ s)
       else cum_lopri_usage_bytes (cur_ s') = cum_lopri_usage_bytes (cur_ s)).
Proof. apply Leaf_UpdateUsage_spec. Qed.

Lemma Leaf_UpdateUsage_never_fails_witness :
  exists s', @Leaf_UpdateUsage ZClock (@new_LeafState ZClock empty_marker)
      (@mkLeafUpdate ZClock (at_seconds 3) 900 0 true None) (seconds 10) zpredictor = Some s' /\
    cum_usage_bytes (@cur_ ZClock s') = 900.
Proof.
  destruct (@Leaf_UpdateUsage_never_fails ZClock ZClock_laws (@new_LeafState ZClock empty_marker)
    (@mkLeafUpdate ZClock (at_seconds 3) 900 0 true None) (seconds 10) zpredictor)
    as (s' & E & _ & _ & _ & Hc & _).
  - apply (@new_LeafState_ok ZClock ZClock_laws).
  - vm_compute. reflexivity.
  - exists s'. split; [exact E|exact Hc].
Defined.
