(* ===== verification/FlowTracker.v ===== *)
(** * FlowTracker: the connections of a host

    src/heyp/host-agent/flow-tracker.{h,cc}: the tracker (active and done
    flows, sequence numbers) and the reporter that feeds it from the lines of
    [ss]; how a line is read is a parameter here, [SsLines.ParseLineSS] is the
    code's.  The map is keyed by the connection tuple ([EqHostFlowNoId]); its
    iteration order is unspecified.  The mutex makes every method atomic. *)

From S2P Require Import Prelude Doubles FlowMarker Clock RateLimits FlowState.

Inductive FlowPri := kUnset | kHi | kLo.

#[export] Instance FlowPri_eq_dec : EqDecision FlowPri.
Proof. solve_decision. Defined.

Section Tracker.
Context `{Clock}.

Record FlowTracker_Config := mkTrackerConfig {
  usage_history_window : Duration;
  ignore_instantaneous_usage : bool }.

Record FlowTracker := mkFlowTracker {
  next_seqnum_ : Z;
  active_flows_ : gmap FlowMarker AggState;
  done_flows_ : list AggState }.

Definition new_FlowTracker : FlowTracker := mkFlowTracker 0 ∅ [].

Record FlowUpdate := mkFlowUpdate {
  fu_flow : FlowMarker;
  fu_instantaneous_usage_bps : Z;
  fu_cum_usage_bytes : Z;
  used_priority : FlowPri;
  fu_aux : option AuxInfo }.

Definition CreateLeafState (f : FlowMarker) (n : Z) : AggState := new_LeafState (set_seqnum f n).

(** The state of a flow, created with the next sequence number when the
    flow is not active. *)
Definition ensure_active (t : FlowTracker) (f : FlowMarker) : FlowTracker * AggState :=
  match active_flows_ t !! host_flow_key f with
  | Some s => (t, s)
  | None =>
      let n := u64 (next_seqnum_ t + 1) in
      let s := CreateLeafState f n in
      (mkFlowTracker n (<[host_flow_key f := s]> (active_flows_ t)) (done_flows_ t), s)
  end.

Definition move_to_done (t : FlowTracker) (f : FlowMarker) (s : AggState) : FlowTracker :=
  mkFlowTracker (next_seqnum_ t) (delete (host_flow_key f) (active_flows_ t))
    (done_flows_ t ++ [s]).

Definition set_active (t : FlowTracker) (f : FlowMarker) (s : AggState) : FlowTracker :=
  mkFlowTracker (next_seqnum_ t) (<[host_flow_key f := s]> (active_flows_ t)) (done_flows_ t).

Definition leaf_update_of (c : FlowTracker_Config) (timestamp : Time) (is_lopri : bool)
    (u : FlowUpdate) : LeafUpdate :=
  mkLeafUpdate timestamp (fu_cum_usage_bytes u)
    (if ignore_instantaneous_usage c then 0 else fu_instantaneous_usage_bps u)
    is_lopri (fu_aux u).

Section Ops.
Context (config_ : FlowTracker_Config) (demand_predictor_ : DemandPredictor).

(** One round of the loop of [UpdateFlows]; the flag says whether the
    index advances.  [None]: a check fails. *)
Definition update_one (t : FlowTracker) (timestamp : Time) (u : FlowUpdate)
    : option (FlowTracker * bool) :=
  let '(t, state) := ensure_active t (fu_flow u) in
  if fu_cum_usage_bytes u <? cum_usage_bytes (cur_ state)
  then Some (move_to_done t (fu_flow u) state, false)
  else if bool_decide (used_priority u = kUnset) then None
  else
    s ← Leaf_UpdateUsage state
          (leaf_update_of config_ timestamp (bool_decide (used_priority u = kLo)) u)
          (usage_history_window config_) demand_predictor_;
    Some (set_active t (fu_flow u) s, true).

Inductive outcome := Returned (t : FlowTracker) | CheckFailed | OutOfFuel.

Fixpoint UpdateFlows (fuel : nat) (t : FlowTracker) (timestamp : Time)
    (batch : list FlowUpdate) : outcome :=
  match batch with
  | [] => Returned t
  | u :: rest =>
      match fuel with
      | O => OutOfFuel
      | S fuel =>
          match update_one t timestamp u with
          | None => CheckFailed
          | Some (t, advance) =>
              UpdateFlows fuel t timestamp (if advance then rest else batch)
          end
      end
  end.

Definition finalize_one (t : FlowTracker) (timestamp : Time) (u : FlowUpdate)
    : option FlowTracker :=
  let '(t, state) := ensure_active t (fu_flow u) in
  let is_lopri := bool_decide (used_priority u = kLo) in
  let is_lopri :=
    if bool_decide (used_priority u = kUnset) && currently_lopri (cur_ state)
    then true else is_lopri in
  s ← Leaf_UpdateUsage state (leaf_update_of config_ timestamp is_lopri u)
        (usage_history_window config_) demand_predictor_;
  Some (move_to_done t (fu_flow u) s).

Fixpoint FinalizeFlows (t : FlowTracker) (timestamp : Time) (batch : list FlowUpdate)
    : option FlowTracker :=
  match batch with
  | [] => Some t
  | u :: rest => t ← finalize_one t timestamp u; FinalizeFlows t timestamp rest
  end.
End Ops.

(** The calls made by the iterations, in some order of the active flows. *)
Definition ForEachActiveFlow (t : FlowTracker) : list (Time * FlowInfo) :=
  map (fun '(_, s) => (updated_time_ s, cur_ s)) (map_to_list (active_flows_ t)).

Definition ForEachFlow (t : FlowTracker) : list (Time * FlowInfo) :=
  ForEachActiveFlow t ++ map (fun s => (updated_time_ s, cur_ s)) (done_flows_ t).

(** ** The reporter *)

(** The outcome of parsing one line; [None] is a parse error. *)
Record parsed_line := mkParsed {
  pl_flow : FlowMarker;
  pl_usage_bps : Z;
  pl_cum_usage_bytes : Z;
  pl_aux : option AuxInfo }.

Definition IgnoreFlow (my_addrs : list string) (f : FlowMarker) : bool :=
  negb (bool_decide (src_addr f ∈ my_addrs)).

(** [ReportState] up to the call of the tracker: lines are read until the
    first empty one. *)
Fixpoint ReportState_updates (my_addrs : list string) (parse : string -> option parsed_line)
    (is_lopri : FlowMarker -> bool) (lines : list string) : list FlowUpdate :=
  match lines with
  | [] => []
  | line :: rest =>
      if bool_decide (line = "") then []
      else
        match parse line with
        | None => ReportState_updates my_addrs parse is_lopri rest
        | Some p =>
            if IgnoreFlow my_addrs (pl_flow p)
            then ReportState_updates my_addrs parse is_lopri rest
            else mkFlowUpdate (pl_flow p) (pl_usage_bps p) (pl_cum_usage_bytes p)
                   (if is_lopri (pl_flow p) then kLo else kHi) (pl_aux p)
                 :: ReportState_updates my_addrs parse is_lopri rest
        end
  end.

(** One line of the monitor of finished connections. *)
Definition MonitorDone_line (config_ : FlowTracker_Config) (predictor : DemandPredictor)
    (my_addrs : list string) (parse : string -> option parsed_line)
    (t : FlowTracker) (now : Time) (line : string) : option FlowTracker :=
  match parse line with
  | None => Some t
  | Some p =>
      if IgnoreFlow my_addrs (pl_flow p) then Some t
      else FinalizeFlows config_ predictor t now
             [mkFlowUpdate (pl_flow p) (pl_usage_bps p) (pl_cum_usage_bytes p) kUnset
                (pl_aux p)]
  end.

(** ** The invariant *)

Definition all_states (t : FlowTracker) : list AggState :=
  (map_to_list (active_flows_ t)).*2 ++ done_flows_ t.

Definition state_seqnum (s : AggState) : Z := seqnum (flow (cur_ s)).

Definition seqnums (t : FlowTracker) : list Z := map state_seqnum (all_states t).

(** The numbers 1, ..., n. *)
Definition one_to (n : Z) : list Z := map Z.of_nat (seq 1 (Z.to_nat n)).

Context `{!ClockLaws}.

Record tracker_ok (t : FlowTracker) : Prop := {
  to_range : 0 <= next_seqnum_ t < 2 ^ 64;
  to_seqnums : seqnums t ≡ₚ one_to (next_seqnum_ t);
  to_leaf : forall s, s ∈ all_states t -> leaf_ok s;
  to_keys : forall k s, active_flows_ t !! k = Some s -> host_flow_key (flow (cur_ s)) = k }.

Lemma one_to_succ n : 0 <= n -> one_to (n + 1) = one_to n ++ [n + 1].
Proof.
  intros Hn. unfold one_to. replace (Z.to_nat (n + 1)) with (Z.to_nat n + 1)%nat by lia.
  rewrite seq_app, map_app. cbn. do 2 f_equal. lia.
Qed.

Lemma new_FlowTracker_ok : tracker_ok new_FlowTracker.
Proof.
  split; cbn; [lia| | |].
  - unfold seqnums, all_states. cbn. by rewrite map_to_list_empty.
  - unfold all_states. cbn. rewrite map_to_list_empty. intros s Hs. by apply elem_of_nil in Hs.
  - intros k s Hk. by rewrite lookup_empty in Hk.
Qed.

Lemma all_states_lookup t k s :
  active_flows_ t !! k = Some s ->
  all_states t ≡ₚ s :: all_states (mkFlowTracker (next_seqnum_ t) (delete k (active_flows_ t))
                                  (done_flows_ t)).
Proof.
  intros Hk. unfold all_states. cbn. by rewrite <- (map_to_list_delete _ k s Hk).
Qed.

Lemma all_states_insert t k s n :
  active_flows_ t !! k = None ->
  all_states (mkFlowTracker n (<[k := s]> (active_flows_ t)) (done_flows_ t)) ≡ₚ
  s :: all_states t.
Proof. intros Hk. unfold all_states. cbn. by rewrite map_to_list_insert. Qed.

Lemma all_states_set_active t f s0 s :
  active_flows_ t !! host_flow_key f = Some s0 ->
  all_states (set_active t f s) ≡ₚ
    s :: all_states (mkFlowTracker (next_seqnum_ t)
           (delete (host_flow_key f) (active_flows_ t)) (done_flows_ t)).
Proof.
  intros Hk. rewrite <- (all_states_insert _ (host_flow_key f) s (next_seqnum_ t)) by
    (cbn; apply lookup_delete_eq).
  cbn. by rewrite insert_delete_eq.
Qed.

Lemma all_states_move t f s0 s :
  active_flows_ t !! host_flow_key f = Some s0 ->
  all_states (move_to_done t f s) ≡ₚ
    s :: all_states (mkFlowTracker (next_seqnum_ t)
           (delete (host_flow_key f) (active_flows_ t)) (done_flows_ t)).
Proof.
  intros Hk. unfold all_states, move_to_done. cbn.
  by rewrite app_assoc, (Permutation_app_comm (_ ++ _) [s]).
Qed.

(** The state of a flow after [ensure_active]. *)
Lemma ensure_active_spec t f t' s :
  tracker_ok t -> next_seqnum_ t < 2 ^ 64 - 1 -> ensure_active t f = (t', s) ->
  tracker_ok t' /\ active_flows_ t' !! host_flow_key f = Some s /\ leaf_ok s /\
  host_flow_key (flow (cur_ s)) = host_flow_key f /\
  next_seqnum_ t <= next_seqnum_ t' <= next_seqnum_ t + 1 /\
  (active_flows_ t !! host_flow_key f = None -> cum_usage_bytes (cur_ s) = 0) /\
  (forall k, k <> host_flow_key f -> active_flows_ t' !! k = active_flows_ t !! k).
Proof.
  intros [Hr Hs Hl Hk] Hn E. unfold ensure_active in E.
  destruct (active_flows_ t !! host_flow_key f) as [s0|] eqn:Ef; simplify_eq.
  { assert (leaf_ok s).
    { apply Hl. rewrite (all_states_lookup _ _ _ Ef). set_solver. }
    split_and!; try done; try lia. by apply Hk. }
  rewrite u64_id in * by (unfold in_u64; lia).
  assert (Hkey : host_flow_key (set_seqnum f (next_seqnum_ t + 1)) = host_flow_key f) by done.
  assert (Hlo : leaf_ok (CreateLeafState f (next_seqnum_ t + 1))) by apply new_LeafState_ok.
  pose proof (all_states_insert t (host_flow_key f)
    (CreateLeafState f (next_seqnum_ t + 1)) (next_seqnum_ t + 1) Ef) as Hins.
  split_and!; cbn [next_seqnum_ active_flows_]; try lia; try done.
  - split; cbn [next_seqnum_]; [lia| | |].
    + unfold seqnums. rewrite Hins. cbn [map]. fold (seqnums t).
      rewrite Hs, one_to_succ by lia. cbn. by rewrite Permutation_app_comm.
    + intros s. rewrite Hins. intros [->|?]%elem_of_cons; [done|by apply Hl].
    + cbn. intros k s Hks. apply lookup_insert_Some in Hks as [[<- <-]|[_ Hks]]; [done|].
      by apply Hk.
  - by rewrite lookup_insert_eq.
  - intros k Hne. by rewrite lookup_insert_ne.
Qed.

(** Replacing the state of an active flow, or moving it to the done ones,
    by one with the same flow keeps the invariant. *)
Lemma replace_state_ok t f s0 s :
  tracker_ok t -> active_flows_ t !! host_flow_key f = Some s0 -> leaf_ok s ->
  flow (cur_ s) = flow (cur_ s0) ->
  tracker_ok (set_active t f s) /\ tracker_ok (move_to_done t f s).
Proof.
  intros [Hr Hs Hl Hk] Hf Hlo Hfl.
  pose proof (all_states_lookup _ _ _ Hf) as Hold.
  set (rest := all_states (mkFlowTracker _ _ _)) in Hold.
  assert (Hseq : state_seqnum s :: map state_seqnum rest ≡ₚ seqnums t).
  { unfold seqnums. rewrite Hold. unfold state_seqnum at 1. by rewrite Hfl. }
  assert (Hrest : forall s', s' ∈ rest -> leaf_ok s').
  { intros s' Hs'. apply Hl. rewrite Hold. set_solver. }
  split; (split; [done| | |]).
  - unfold seqnums. rewrite (all_states_set_active _ _ _ _ Hf).
    etransitivity; [exact Hseq|exact Hs].
  - intros s'. rewrite (all_states_set_active _ _ _ _ Hf).
    intros [->|?]%elem_of_cons; [done|by apply Hrest].
  - cbn. intros k s' Hs'. apply lookup_insert_Some in Hs' as [[<- <-]|[_ Hs']]; [|by apply Hk].
    rewrite Hfl. by apply Hk.
  - unfold seqnums. rewrite (all_states_move _ _ _ s Hf).
    etransitivity; [exact Hseq|exact Hs].
  - intros s'. rewrite (all_states_move _ _ _ s Hf).
    intros [->|?]%elem_of_cons; [done|by apply Hrest].
  - cbn. intros k s' Hs'. apply lookup_delete_Some in Hs' as [_ Hs']. by apply Hk.
Qed.

Context (config_ : FlowTracker_Config) (predictor : DemandPredictor).

Definition valid_counter (u : FlowUpdate) : Prop := 0 <= fu_cum_usage_bytes u < 2 ^ 63.
Definition valid_update (u : FlowUpdate) : Prop :=
  valid_counter u /\ used_priority u <> kUnset.

Definition active (t : FlowTracker) (k : FlowMarker) : Prop := is_Some (active_flows_ t !! k).

(** One round: either the flow is done and no longer active, which cannot
    happen to a flow that was not active, or it is updated and active. *)
Lemma update_one_spec t ts u :
  tracker_ok t -> next_seqnum_ t < 2 ^ 64 - 1 -> valid_update u ->
  exists t' advance, update_one config_ predictor t ts u = Some (t', advance) /\
    tracker_ok t' /\ next_seqnum_ t <= next_seqnum_ t' <= next_seqnum_ t + 1 /\
    (forall k, k <> host_flow_key (fu_flow u) -> active_flows_ t' !! k = active_flows_ t !! k) /\
    (if advance then active t' (host_flow_key (fu_flow u))
     else active_flows_ t' !! host_flow_key (fu_flow u) = None /\
          active t (host_flow_key (fu_flow u))).
Proof.
  intros Hok Hn [[Hc0 Hc] Hp]. unfold update_one.
  destruct (ensure_active t (fu_flow u)) as [t1 s] eqn:E.
  destruct (ensure_active_spec t (fu_flow u) t1 s Hok Hn E)
    as (Hok1 & Hs & Hlo & Hkey & Hns & Hfresh & Hother).
  case_if.
  - exists (move_to_done t1 (fu_flow u) s), false. split_and!; try done; try (cbn; lia).
    + by apply (replace_state_ok t1 (fu_flow u) s s).
    + intros k Hk. cbn. rewrite lookup_delete_ne by done. by apply Hother.
    + cbn. apply lookup_delete_eq.
    + destruct (active_flows_ t !! host_flow_key (fu_flow u)) eqn:Ef; [by eexists|].
      rewrite Hfresh in Hif by done. lia.
  - rewrite bool_decide_eq_false_2 by done.
    destruct (Leaf_UpdateUsage_spec s (leaf_update_of config_ ts
      (bool_decide (used_priority u = kLo)) u) (usage_history_window config_) predictor Hlo)
      as (s' & -> & Hlo' & [Hfl _] & _); [cbn; lia|].
    cbn [mbind option_bind]. exists (set_active t1 (fu_flow u) s'), true. split_and!; try done; try (cbn; lia).
    + by apply (replace_state_ok t1 (fu_flow u) s s').
    + intros k Hk. cbn. rewrite lookup_insert_ne by done. by apply Hother.
    + unfold active. cbn. rewrite lookup_insert_eq. by eexists.
Qed.

Lemma UpdateFlows_cons fuel t ts u rest :
  UpdateFlows config_ predictor (S fuel) t ts (u :: rest) =
  match update_one config_ predictor t ts u with
  | None => CheckFailed
  | Some (t, advance) =>
      UpdateFlows config_ predictor fuel t ts (if advance then rest else u :: rest)
  end.
Proof. done. Qed.

Lemma UpdateFlows_spec : forall batch fuel t ts,
  tracker_ok t -> Forall valid_update batch ->
  next_seqnum_ t + 2 * Z.of_nat (length batch) < 2 ^ 64 ->
  (2 * length batch <= fuel)%nat ->
  exists t', UpdateFlows config_ predictor fuel t ts batch = Returned t' /\ tracker_ok t' /\
    next_seqnum_ t <= next_seqnum_ t' <= next_seqnum_ t + 2 * Z.of_nat (length batch) /\
    (forall k, active t k -> active t' k) /\
    (forall u, u ∈ batch -> active t' (host_flow_key (fu_flow u))).
Proof.
  induction batch as [|u rest IH]; intros fuel t ts Hok Hv Hn Hf.
  { exists t. destruct fuel; split_and!; try done; cbn; try lia;
      intros u Hu; by apply elem_of_nil in Hu. }
  apply Forall_cons in Hv as [Hu Hv]. cbn [length] in *.
  assert (Hfin : forall fuel t1, (2 * length rest <= fuel)%nat -> tracker_ok t1 ->
    next_seqnum_ t <= next_seqnum_ t1 <= next_seqnum_ t + 2 ->
    active t1 (host_flow_key (fu_flow u)) ->
    (forall k, k <> host_flow_key (fu_flow u) -> active_flows_ t1 !! k = active_flows_ t !! k) ->
    exists t', UpdateFlows config_ predictor fuel t1 ts rest = Returned t' /\ tracker_ok t' /\
      next_seqnum_ t <= next_seqnum_ t' <= next_seqnum_ t + 2 * Z.of_nat (S (length rest)) /\
      (forall k, active t k -> active t' k) /\
      (forall u', u' ∈ u :: rest -> active t' (host_flow_key (fu_flow u')))).
  { intros f t1 Hf1 Hok1 Hn1 Ha1 Ho1.
    destruct (IH f t1 ts Hok1 Hv ltac:(lia) Hf1) as (t' & -> & Hok' & Hn' & Hact & Hb).
    exists t'. split_and!; try done; try lia.
    - intros k Hk. apply Hact. destruct (decide (k = host_flow_key (fu_flow u))) as [->|];
        [done|]. unfold active. by rewrite Ho1.
    - intros u' [->|Hu']%elem_of_cons; [by apply Hact|by apply Hb]. }
  destruct fuel as [|[|fuel]]; [lia|lia|]. rewrite UpdateFlows_cons.
  destruct (update_one_spec t ts u Hok ltac:(lia) Hu)
    as (t1 & adv & -> & Hok1 & Hn1 & Ho1 & Ha1).
  destruct adv; [apply Hfin; try done; lia|]. destruct Ha1 as [Hnone _].
  destruct (update_one_spec t1 ts u Hok1 ltac:(lia) Hu)
    as (t2 & adv & E2 & Hok2 & Hn2 & Ho2 & Ha2).
  rewrite UpdateFlows_cons, E2. destruct adv.
  - apply Hfin; try done; try lia. intros k Hk. by rewrite Ho2, Ho1.
  - destruct Ha2 as [_ [s Hs]]. congruence.
Qed.

(** A negative counter is lower than the counter of any state, so each
    round only moves the state it just created to the done flows. *)
Lemma update_one_negative t ts u :
  tracker_ok t -> next_seqnum_ t < 2 ^ 64 - 1 -> fu_cum_usage_bytes u < 0 ->
  exists t', update_one config_ predictor t ts u = Some (t', false) /\ tracker_ok t' /\
    next_seqnum_ t' <= next_seqnum_ t + 1.
Proof.
  intros Hok Hn Hc. unfold update_one.
  destruct (ensure_active t (fu_flow u)) as [t1 s] eqn:E.
  destruct (ensure_active_spec t (fu_flow u) t1 s Hok Hn E)
    as (Hok1 & Hs & Hlo & Hkey & Hns & _ & _).
  pose proof (leaf_ok_cum s Hlo) as Hcum. destruct Hlo as [_ ? ? _].
  rewrite (proj2 (Z.ltb_lt _ _)) by lia. eexists. split; [done|]. split; [|cbn; lia].
  apply (replace_state_ok t1 (fu_flow u) s s); try done.
  apply (to_leaf _ Hok1). rewrite (all_states_lookup _ _ _ Hs). set_solver.
Qed.

Lemma UpdateFlows_negative fuel : forall t ts u rest,
  tracker_ok t -> next_seqnum_ t + Z.of_nat fuel < 2 ^ 64 -> fu_cum_usage_bytes u < 0 ->
  UpdateFlows config_ predictor fuel t ts (u :: rest) = OutOfFuel.
Proof.
  induction fuel as [|fuel IH]; intros t ts u rest Hok Hn Hc; [done|]. cbn [UpdateFlows].
  destruct (update_one_negative t ts u Hok ltac:(lia) Hc) as (t1 & -> & Hok1 & Hn1).
  apply IH; [done|lia|done].
Qed.

Lemma FinalizeFlows_spec : forall batch t ts,
  tracker_ok t -> Forall valid_counter batch ->
  next_seqnum_ t + Z.of_nat (length batch) < 2 ^ 64 ->
  exists t', FinalizeFlows config_ predictor t ts batch = Some t' /\ tracker_ok t' /\
    (forall u, u ∈ batch -> ~ active t' (host_flow_key (fu_flow u))) /\
    length (done_flows_ t') = (length (done_flows_ t) + length batch)%nat /\
    (forall k, ~ active t k -> ~ active t' k).
Proof.
  induction batch as [|u rest IH]; intros t ts Hok Hv Hn.
  { exists t. split_and!; try done; try (cbn; lia).
    intros u Hu. by apply elem_of_nil in Hu. }
  apply Forall_cons in Hv as [Hu Hv]. cbn [FinalizeFlows length] in *. unfold finalize_one.
  destruct (ensure_active t (fu_flow u)) as [t1 s] eqn:E.
  assert (Hdone : done_flows_ t1 = done_flows_ t).
  { unfold ensure_active in E. destruct (active_flows_ t !! _); by simplify_eq. }
  destruct (ensure_active_spec t (fu_flow u) t1 s Hok ltac:(lia) E)
    as (Hok1 & Hs & Hlo & Hkey & Hns & _ & Hother).
  destruct (Leaf_UpdateUsage_spec s (leaf_update_of config_ ts
     (if bool_decide (used_priority u = kUnset) && currently_lopri (cur_ s) then true
      else bool_decide (used_priority u = kLo)) u)
     (usage_history_window config_) predictor Hlo) as (s' & -> & Hlo' & [Hfl _] & _).
  { destruct Hu. cbn. lia. }
  cbn [mbind option_bind].
  destruct (replace_state_ok t1 (fu_flow u) s s' Hok1 Hs Hlo' Hfl) as [_ Hok2].
  assert (Hgone : ~ active (move_to_done t1 (fu_flow u) s') (host_flow_key (fu_flow u))).
  { unfold active. cbn. rewrite lookup_delete_eq. by intros [? ?]. }
  destruct (IH (move_to_done t1 (fu_flow u) s') ts Hok2 Hv) as (t' & -> & Hok' & Hb & Hd & Hna);
    [cbn; lia|].
  exists t'. split_and!; try done.
  - intros u' [->|Hu']%elem_of_cons; [by apply Hna|by apply Hb].
  - rewrite Hd. cbn. rewrite length_app, Hdone. cbn. lia.
  - intros k Hk. apply Hna. unfold active in *. cbn.
    destruct (decide (k = host_flow_key (fu_flow u))) as [->|].
    + rewrite lookup_delete_eq. by intros [? ?].
    + rewrite lookup_delete_ne, Hother by done. done.
Qed.

(** ** What happens to the states over time *)

(** No state is lost or counts less than before, and every state is of a
    flow known before or of one of [fs]. *)
Record tracker_evolves (fs : list FlowMarker) (t t' : FlowTracker) : Prop := {
  ev_kept : forall s, s ∈ all_states t -> exists s', s' ∈ all_states t' /\ grows s s';
  ev_from : forall s', s' ∈ all_states t' ->
    (exists s, s ∈ all_states t /\ flow (cur_ s') = flow (cur_ s)) \/
    (exists f n, f ∈ fs /\ flow (cur_ s') = set_seqnum f n) }.

Lemma tracker_evolves_refl fs t : tracker_evolves fs t t.
Proof. split; intros s Hs; [by exists s|left; by exists s]. Qed.

Lemma tracker_evolves_trans fs t1 t2 t3 : tracker_evolves fs t1 t2 -> tracker_evolves fs t2 t3 -> tracker_evolves fs t1 t3.
Proof.
  intros [K1 F1] [K2 F2]. split.
  - intros s Hs. destruct (K1 s Hs) as (s2 & Hs2 & G2). destruct (K2 s2 Hs2) as (s3 & Hs3 & G3).
    exists s3. split; [done|]. by etransitivity.
  - intros s3 Hs3. destruct (F2 s3 Hs3) as [(s2 & Hs2 & E2)|]; [|by right].
    destruct (F1 s2 Hs2) as [(s1 & Hs1 & E1)|(f & n & Hf & E1)]; [left; exists s1|right; exists f, n];
      split; congruence.
Qed.

Lemma tracker_evolves_weaken fs fs' t t' : fs ⊆ fs' -> tracker_evolves fs t t' -> tracker_evolves fs' t t'.
Proof.
  intros Hsub [K F]. split; [done|]. intros s Hs. destruct (F s Hs) as [|(f & n & Hf & E)]; [by left|].
  right. exists f, n. split; [by apply Hsub|done].
Qed.

Lemma ensure_active_evolves t f t' s : ensure_active t f = (t', s) -> tracker_evolves [f] t t'.
Proof.
  unfold ensure_active. destruct (active_flows_ t !! host_flow_key f) eqn:E; intros [= <- <-];
    [apply tracker_evolves_refl|]. set (s := CreateLeafState _ _).
  pose proof (all_states_insert t (host_flow_key f) s (u64 (next_seqnum_ t + 1)) E) as Hp.
  split; intros s0.
  - intros Hs. exists s0. rewrite Hp. split; [by right|done].
  - rewrite Hp. intros [->|Hs]%elem_of_cons; [|left; by exists s0]. right.
    exists f, (u64 (next_seqnum_ t + 1)). split; [by left|done].
Qed.

Lemma replace_state_evolves t f s0 s :
  active_flows_ t !! host_flow_key f = Some s0 -> grows s0 s ->
  tracker_evolves [] t (set_active t f s) /\ tracker_evolves [] t (move_to_done t f s).
Proof.
  intros Hf Hg. pose proof (all_states_lookup _ _ _ Hf) as Hold.
  assert (Hev : forall t', all_states t' ≡ₚ s :: all_states (mkFlowTracker (next_seqnum_ t)
             (delete (host_flow_key f) (active_flows_ t)) (done_flows_ t)) -> tracker_evolves [] t t').
  { intros t' Hp. split; intros x.
    - rewrite Hold. intros [->|Hx]%elem_of_cons; [exists s|exists x]; rewrite Hp;
        (split; [by constructor|done]).
    - rewrite Hp. intros [->|Hx]%elem_of_cons; left; [exists s0|exists x]; rewrite Hold;
        (split; [by constructor|by destruct Hg]). }
  split; apply Hev; [by eapply all_states_set_active|by eapply all_states_move].
Qed.

Lemma update_one_evolves t ts u t' advance :
  tracker_ok t -> next_seqnum_ t < 2 ^ 64 - 1 -> valid_counter u ->
  update_one config_ predictor t ts u = Some (t', advance) -> tracker_evolves [fu_flow u] t t'.
Proof.
  intros Hok Hn [_ Hc] E. unfold update_one in E.
  destruct (ensure_active t (fu_flow u)) as [t1 s] eqn:E1.
  destruct (ensure_active_spec t (fu_flow u) t1 s Hok Hn E1) as (_ & Hs & Hlo & _).
  eapply tracker_evolves_trans; [by eapply ensure_active_evolves|].
  eapply tracker_evolves_weaken with []; [apply list_subseteq_nil|].
  destruct (_ <? _); [|destruct (bool_decide (used_priority u = kUnset)); [done|]].
  - injection E as <- <-. by eapply replace_state_evolves.
  - destruct (Leaf_UpdateUsage _ _ _ _) as [s'|] eqn:El; [|done]. injection E as <- <-.
    apply (replace_state_evolves t1 (fu_flow u) s s' Hs).
    by eapply Leaf_UpdateUsage_grows in El.
Qed.

Lemma UpdateFlows_evolves : forall fuel batch t ts t',
  tracker_ok t -> Forall valid_update batch -> next_seqnum_ t + Z.of_nat fuel < 2 ^ 64 ->
  UpdateFlows config_ predictor fuel t ts batch = Returned t' ->
  tracker_evolves (map fu_flow batch) t t'.
Proof.
  induction fuel as [|fuel IH]; intros [|u rest] t ts t' Hok Hv Hn E; cbn in E;
    try (injection E as <-; apply tracker_evolves_refl); try done.
  pose proof Hv as [[Hu Hp] Hrest]%Forall_cons.
  destruct (update_one_spec t ts u Hok ltac:(lia) (conj Hu Hp)) as (t1 & adv & E1 & Hok1 & Hn1 & _).
  rewrite E1 in E. apply tracker_evolves_trans with t1.
  - eapply tracker_evolves_weaken; [|eapply update_one_evolves; [exact Hok|lia|exact Hu|exact E1]].
    intros f ->%list_elem_of_singleton. by left.
  - destruct adv; [eapply tracker_evolves_weaken with (map fu_flow rest); [by apply list_subseteq_cons|]|];
      (eapply IH; [exact Hok1| |lia|exact E]; done).
Qed.

Lemma finalize_one_evolves t ts u t' :
  tracker_ok t -> next_seqnum_ t < 2 ^ 64 - 1 -> valid_counter u ->
  finalize_one config_ predictor t ts u = Some t' -> tracker_evolves [fu_flow u] t t'.
Proof.
  intros Hok Hn [_ Hc] E. unfold finalize_one in E.
  destruct (ensure_active t (fu_flow u)) as [t1 s] eqn:E1.
  destruct (ensure_active_spec t (fu_flow u) t1 s Hok Hn E1) as (_ & Hs & Hlo & _).
  eapply tracker_evolves_trans; [by eapply ensure_active_evolves|].
  eapply tracker_evolves_weaken with []; [apply list_subseteq_nil|].
  destruct (Leaf_UpdateUsage _ _ _ _) as [s'|] eqn:El; [|done]. injection E as <-.
  apply (replace_state_evolves t1 (fu_flow u) s s' Hs). by eapply Leaf_UpdateUsage_grows in El.
Qed.
End Tracker.

(** C36: a batch of updates with valid counters and priorities terminates
    without a failed check (each update needs at most two rounds); afterwards
    every updated flow is active, no flow stopped being active, and every
    sequence number handed out so far belongs to exactly one state, active or
    done: no state is lost or numbered twice. *)
Theorem UpdateFlows_terminates `{ClockLaws} config predictor batch t ts :
  tracker_ok t -> Forall valid_update batch ->
  next_seqnum_ t + 2 * Z.of_nat (length batch) < 2 ^ 64 ->
  exists t', UpdateFlows config predictor (2 * length batch) t ts batch = Returned t' /\
    seqnums t' ≡ₚ one_to (next_seqnum_ t') /\ tracker_ok t' /\
    (forall k, active t k -> active t' k) /\
    (forall u, u ∈ batch -> active t' (host_flow_key (fu_flow u))).
Proof.
  intros Hok Hv Hn.
  destruct (UpdateFlows_spec config predictor batch (2 * length batch) t ts Hok Hv Hn)
    as (t' & E & Hok' & _ & Ha & Hb); [lia|].
  exists t'. split_and!; try done. apply Hok'.
Qed.

Definition flow_on_port (p : Z) : FlowMarker :=
  mkFlowMarker "" "" "" 1 "10.0.0.1" "10.0.0.2" TCP p 80 0.

Definition zupdate (p cum : Z) : FlowUpdate := mkFlowUpdate (flow_on_port p) 0 cum kHi None.

Definition zconfig : @FlowTracker_Config ZClock := @mkTrackerConfig ZClock (seconds 120) true.

(** The counter of the first flow goes back: the flow is restarted. *)
Lemma UpdateFlows_terminates_witness :
  exists t', @UpdateFlows ZClock zconfig zpredictor 6 (@new_FlowTracker ZClock) (at_seconds 1)
      [zupdate 7 500; zupdate 8 100; zupdate 7 20] = @Returned ZClock t' /\
    @seqnums ZClock t' ≡ₚ one_to (@next_seqnum_ ZClock t').
Proof.
  destruct (@UpdateFlows_terminates ZClock ZClock_laws zconfig zpredictor
    [zupdate 7 500; zupdate 8 100; zupdate 7 20] (@new_FlowTracker ZClock) (at_seconds 1))
    as (t' & E & Hs & _).
  - apply (@new_FlowTracker_ok ZClock).
  - repeat constructor; try (vm_compute; congruence); discriminate.
  - vm_compute. reflexivity.
  - exists t'. split; [exact E|exact Hs].
Defined.

(** A negative counter makes [UpdateFlows] loop: no number of rounds (up
    to the exhaustion of the sequence numbers) finishes the batch. *)
Theorem UpdateFlows_negative_counter_diverges `{ClockLaws} config predictor fuel t ts u rest :
  tracker_ok t -> next_seqnum_ t + Z.of_nat fuel < 2 ^ 64 -> fu_cum_usage_bytes u < 0 ->
  UpdateFlows config predictor fuel t ts (u :: rest) = OutOfFuel.
Proof. apply UpdateFlows_negative. Qed.

Lemma UpdateFlows_negative_counter_diverges_witness :
  @UpdateFlows ZClock zconfig zpredictor 40 (@new_FlowTracker ZClock) (at_seconds 1)
    [zupdate 7 (-1)] = @OutOfFuel ZClock.
Proof.
  apply (@UpdateFlows_negative_counter_diverges ZClock ZClock_laws).
  - apply (@new_FlowTracker_ok ZClock).
  - vm_compute. reflexivity.
  - vm_compute. reflexivity.
Defined.

(** Finalizing a batch with valid counters never fails a check, adds one
    done state per update and leaves none of the flows active. *)
Theorem FinalizeFlows_moves_to_done `{ClockLaws} config predictor batch t ts :
  tracker_ok t -> Forall valid_counter batch ->
  next_seqnum_ t + Z.of_nat (length batch) < 2 ^ 64 ->
  exists t', FinalizeFlows config predictor t ts batch = Some t' /\ tracker_ok t' /\
    (forall u, u ∈ batch -> ~ active t' (host_flow_key (fu_flow u))) /\
    length (done_flows_ t') = (length (done_flows_ t) + length batch)%nat.
Proof.
  intros Hok Hv Hn.
  destruct (FinalizeFlows_spec config predictor batch t ts Hok Hv Hn)
    as (t' & E & Hok' & Hb & Hd & _).
  exists t'. split_and!; done.
Qed.

Lemma FinalizeFlows_moves_to_done_witness :
  exists t', @FinalizeFlows ZClock zconfig zpredictor (@new_FlowTracker ZClock) (at_seconds 1)
      [zupdate 7 500; zupdate 8 100] = Some t' /\ length (@done_flows_ ZClock t') = 2%nat.
Proof.
  destruct (@FinalizeFlows_moves_to_done ZClock ZClock_laws zconfig zpredictor
    [zupdate 7 500; zupdate 8 100] (@new_FlowTracker ZClock) (at_seconds 1))
    as (t' & E & _ & _ & Hd).
  - apply (@new_FlowTracker_ok ZClock).
  - repeat constructor; vm_compute; congruence.
  - vm_compute. reflexivity.
  - exists t'. split; [exact E|exact Hd].
Defined.
