(* ===== verification/SsLines.v ===== *)
(** * SsLines: the lines of [ss]

    src/heyp/host-agent/urls.cc, parse-ss.{h,cc} and gen-parse-ss.py.
    [ParseFieldsSS] is written by a generator from a table of fields; the
    table is [TCP_STAT_DESC], the code the generator writes for an entry is
    [late_code] and [early_code].  Abseil's string functions are the interface
    [AbslStrings].  An error status is [None] inside; the outer [None] of
    [ParseLineSS] is a read past the end of the fields. *)

From Stdlib Require Import Floats.SpecFloat.
From stdpp Require Import pretty.
From S2P Require Import Prelude Text Doubles FlowMarker Clock RateLimits FlowState FlowTracker.

#[local] Open Scope string_scope.
#[local] Open Scope list_scope.
#[local] Open Scope Z_scope.

(** ** Abseil's string functions *)

Class AbslStrings := {
  StartsWith : string -> string -> bool;
  EndsWith : string -> string -> bool;
  StripPrefix : string -> string -> string;
  StripSuffix : string -> string -> string;
  StrContains : string -> Ascii.ascii -> bool;
  StrSplit_SkipWhitespace : (Ascii.ascii -> bool) -> string -> list string;
  (* at an integer type with the given least and greatest value *)
  SimpleAtoi : Z -> Z -> string -> option Z;
  SimpleAtod : string -> option double }.

(** A number may begin with a digit, a sign, a point, white space, or be one
    of the words inf, infinity and nan in either case. *)
Definition starts_number (c : Ascii.ascii) : bool :=
  Ascii.is_space c || bool_decide (is_Some (Ascii.is_nat c)) ||
  existsb (fun n => is_char n c) [43; 45; 46; 73; 78; 105; 110]%nat.

Class AbslStringsLaws `{AbslStrings} := {
  StartsWith_true s p : StartsWith s p = true <-> exists r, s = p +:+ r;
  EndsWith_true s p : EndsWith s p = true <-> exists r, s = r +:+ p;
  StripPrefix_app p r : StripPrefix (p +:+ r) p = r;
  StripSuffix_app p r : StripSuffix (r +:+ p) p = r;
  StripSuffix_other s p : EndsWith s p = false -> StripSuffix s p = s;
  StrContains_true s c : StrContains s c = true <-> c ∈ String.list_ascii_of_string s;
  StrSplit_pieces sep s :
    StrSplit_SkipWhitespace sep s = filter (fun w => all_space w = false) (split_at sep s);
  SimpleAtoi_pretty lo hi n : lo <= n <= hi -> SimpleAtoi lo hi (pretty n) = Some n;
  SimpleAtoi_range lo hi s n : SimpleAtoi lo hi s = Some n -> lo <= n <= hi;
  SimpleAtod_starts s v : SimpleAtod s = Some v ->
    exists c r, s = String c r /\ starts_number c = true }.

(** ** urls.cc *)

(** [rfind] of one character. *)
Fixpoint rfind (c : Ascii.ascii) (s : string) : option nat :=
  match s with
  | EmptyString => None
  | String a s =>
      match rfind c s with
      | Some n => Some (S n)
      | None => if bool_decide (a = c) then Some 0%nat else None
      end
  end.

Definition colon : Ascii.ascii := Ascii.ascii_of_nat 58.
Definition bracket : Ascii.ascii := Ascii.ascii_of_nat 91.

Inductive host_port_error :=
  EmptyHostPort | PortNotFound | InvalidPort (port_str : string) | NoAddress | InvalidAddress.

Section ParseSS.
Context `{AbslStrings}.

Notation atoi_i32 := (SimpleAtoi (- 2 ^ 31) (2 ^ 31 - 1)).
Notation atoi_i64 := (SimpleAtoi (- 2 ^ 63) (2 ^ 63 - 1)).
Notation atoi_u64 := (SimpleAtoi 0 (2 ^ 64 - 1)).

(** What stands between the brackets, without the prefix of an IPv4 address. *)
Definition unmap_addr (s : string) : string :=
  if StartsWith s "::ffff:" && negb (StrContains (substr 7 s) colon) then substr 7 s else s.

Definition ParseHostPort (s : string) : host_port_error + string * Z :=
  if bool_decide (s = "") then inl EmptyHostPort
  else
    match rfind colon s with
    | None => inl PortNotFound
    | Some port_separator =>
        let port_str := substr (port_separator + 1) s in
        match atoi_i32 port_str with
        | None => inl (InvalidPort port_str)
        | Some port =>
            if (port_separator =? 0)%nat then inl NoAddress
            else if bool_decide (String.get 0 s = Some bracket) then
              if (port_separator <? 3)%nat then inl InvalidAddress
              else inr (unmap_addr (String.substring 1 (port_separator - 2) s), port)
            else inr (String.substring 0 port_separator s, port)
        end
    end.

(** ** parse-ss.cc *)

Definition last_char (s : string) : option Ascii.ascii := String.get (String.length s - 1) s.

Definition multiplier_of (last : option Ascii.ascii) : Z :=
  match last with
  | None => 1
  | Some c =>
      if is_char 107 c || is_char 75 c then 10 ^ 3
      else if is_char 109 c || is_char 77 c then 10 ^ 6
      else if is_char 103 c || is_char 71 c then 10 ^ 9
      else if is_char 116 c || is_char 84 c then 10 ^ 12
      else 1
  end.

Definition ParseBpsSS (s : string) : option Z :=
  if negb (EndsWith s "bps") then None
  else
    let s := StripSuffix s "bps" in
    let multiplier := multiplier_of (last_char s) in
    let s := if multiplier =? 1 then s else String.substring 0 (String.length s - 1) s in
    val ← SimpleAtod s; Some (double_to_i64 (dmul val (dofZ multiplier))).

Definition ParseMsSS (has_junk : bool) (s : string) : option Z :=
  let s := if has_junk then
             match String.index 0 "(" s with Some ind => String.substring 0 ind s | None => s end
           else s in
  if negb (EndsWith s "ms") then None else atoi_i64 (StripSuffix s "ms").

End ParseSS.

(** ** gen-parse-ss.py: the table *)

(** What follows the name of a field. *)
Inductive scalar := ty_int | ty_uint | ty_double | ty_bps | ty_ms | ty_ms_junk.

Inductive desc :=
  | one (ty : scalar)
  | flag
  | sep (c : Ascii.ascii) (subs : list (string * scalar))
  | composite (subs : list (string * scalar))
  | nextfield_bps
  | nextfield_maybesep (c : Ascii.ascii) (subs : list (string * scalar)).

Definition comma : Ascii.ascii := Ascii.ascii_of_nat 44.
Definition slash : Ascii.ascii := Ascii.ascii_of_nat 47.

Definition TCP_STAT_DESC : list (string * desc) := [
  ("wscale", sep comma [("snd_wscale", ty_int); ("rcv_wscale", ty_int)]);
  ("rto", one ty_double);
  ("backoff", one ty_int);
  ("rtt", sep slash [("rtt", ty_double); ("rttvar", ty_double)]);
  ("ato", one ty_double);
  ("qack", one ty_int);
  ("mss", one ty_int);
  ("pmtu", one ty_uint);
  ("rcvmss", one ty_int);
  ("advmss", one ty_int);
  ("cwnd", one ty_uint);
  ("ssthresh", one ty_int);
  ("bytes_sent", one ty_uint);
  ("bytes_retrans", one ty_uint);
  ("bytes_acked", one ty_uint);
  ("bytes_received", one ty_uint);
  ("segs_out", one ty_uint);
  ("segs_in", one ty_uint);
  ("data_segs_out", one ty_uint);
  ("data_segs_in", one ty_uint);
  ("bbr", composite [("bw", ty_bps); ("mrtt", ty_double); ("pacing_gain", ty_double); ("cwnd_gain", ty_double)]);
  ("send", nextfield_bps);
  ("lastsnd", one ty_uint);
  ("lastrcv", one ty_uint);
  ("lastack", one ty_uint);
  ("pacing_rate", nextfield_maybesep slash [("pacing_rate", ty_bps); ("pacing_rate_max", ty_bps)]);
  ("delivery_rate", nextfield_bps);
  ("delivered", one ty_uint);
  ("delivered_ce", one ty_uint);
  ("app_limited", flag);
  ("busy", one ty_ms);
  ("rwnd_limited", one ty_ms_junk);
  ("sndbuf_limited", one ty_ms_junk);
  ("unacked", one ty_uint);
  ("retrans", sep slash [("retrans", ty_uint); ("retrans_total", ty_uint)]);
  ("lost", one ty_uint);
  ("sacked", one ty_uint);
  ("dsack_dups", one ty_uint);
  ("fackets", one ty_uint);
  ("reordering", one ty_int);
  ("reord_seen", one ty_int);
  ("rcv_rtt", one ty_double);
  ("rcv_space", one ty_int);
  ("rcv_ssthresh", one ty_uint);
  ("notsent", one ty_uint);
  ("minrtt", one ty_double)].

(** Where a value goes. *)
Inductive dest := AuxField (name : string) | cum_usage_bytes_ref | cur_usage_bps_ref.

Definition IS_AUX_KEEP_NAME : list string := [
  "snd_wscale"; "rcv_wscale"; "backoff"; "qack"; "mss"; "pmtu"; "rcvmss"; "advmss"; "cwnd"; "ssthresh";
  "bytes_retrans"; "bytes_acked"; "bytes_received"; "segs_out"; "segs_in"; "data_segs_out"; "data_segs_in";
  "pacing_rate"; "pacing_rate_max"; "delivery_rate"; "delivered"; "delivered_ce"; "app_limited"; "unacked";
  "retrans"; "retrans_total"; "lost"; "sacked"; "dsack_dups"; "fackets"; "reordering"; "reord_seen";
  "rcv_space"; "rcv_ssthresh"].

Definition RENAME_MAP_IS_AUX_NAME : list (string * dest) := [
  ("ato", AuxField "ato_ms");
  ("busy", AuxField "busy_time_ms");
  ("bytes_sent", cum_usage_bytes_ref);
  ("lastsnd", AuxField "lastsnd_ms");
  ("lastrcv", AuxField "lastrcv_ms");
  ("lastack", AuxField "lastack_ms");
  ("minrtt", AuxField "min_rtt_ms");
  ("notsent", AuxField "not_sent");
  ("rcv_rtt", AuxField "rcv_rtt_ms");
  ("rto", AuxField "rto_ms");
  ("rtt", AuxField "rtt_ms");
  ("rttvar", AuxField "rtt_var_ms");
  ("rwnd_limited", AuxField "rwnd_limited_ms");
  ("sndbuf_limited", AuxField "sndbuf_limited_ms");
  ("send", cur_usage_bps_ref);
  ("bbr:bw", AuxField "bbr_bw");
  ("bbr:mrtt", AuxField "bbr_min_rtt_ms");
  ("bbr:pacing_gain", AuxField "bbr_pacing_gain");
  ("bbr:cwnd_gain", AuxField "bbr_cwnd_gain")].

Definition assoc {A} (name : string) (l : list (string * A)) : option A :=
  snd <$> head (filter (fun p => fst p = name) l).

(** [None]: the generator stops with an error. *)
Definition tr_name (fname : string) : option dest :=
  if bool_decide (fname ∈ IS_AUX_KEEP_NAME) then Some (AuxField fname)
  else assoc fname RENAME_MAP_IS_AUX_NAME.

Definition is_aux_dest (d : dest) : bool := if d is AuxField _ then true else false.

Definition field_is_aux (fname : string) : option bool :=
  if bool_decide (fname = "wscale") || bool_decide (fname = "bbr") then Some true
  else is_aux_dest <$> tr_name fname.

(** The generator sorts the pieces of code by the names of their fields. *)
Definition by_name (a b : string * desc) : Prop := String.leb (fst a) (fst b) = true.
#[export] Instance by_name_dec a b : Decision (by_name a b).
Proof. unfold by_name. apply _. Defined.

Definition late_parsing : list (string * desc) := merge_sort by_name TCP_STAT_DESC.

Definition is_nextfield (d : desc) : bool :=
  match d with nextfield_bps | nextfield_maybesep _ _ => true | _ => false end.

Definition early_parsing : list (string * desc) :=
  filter (fun p => is_nextfield (snd p) = true) late_parsing.

(** ** The generated [ParseFieldsSS] *)

Record ss_state := mkSs {
  ss_cur_usage_bps : Z;
  ss_cum_usage_bytes : Z;
  ss_aux : option AuxInfo;
  next_is : list string  (* the flags that are set *) }.

Definition set_aux_field (name : string) (v : AuxValue) (a : AuxInfo) : AuxInfo :=
  (name, v) :: filter (fun p => fst p <> name) a.

Definition int_value (v : AuxValue) : option Z := if v is AuxInt z then Some z else None.

Definition assignment_stmt (dst : dest) (v : AuxValue) (st : ss_state) : ss_state :=
  match dst with
  | AuxField name =>
      mkSs (ss_cur_usage_bps st) (ss_cum_usage_bytes st) (set_aux_field name v <$> ss_aux st) (next_is st)
  | cum_usage_bytes_ref =>
      mkSs (ss_cur_usage_bps st) (default (ss_cum_usage_bytes st) (int_value v)) (ss_aux st) (next_is st)
  | cur_usage_bps_ref =>
      mkSs (default (ss_cur_usage_bps st) (int_value v)) (ss_cum_usage_bytes st) (ss_aux st) (next_is st)
  end.

Definition set_next (name : string) (b : bool) (st : ss_state) : ss_state :=
  mkSs (ss_cur_usage_bps st) (ss_cum_usage_bytes st) (ss_aux st)
    (if b then name :: next_is st else filter (fun n => n <> name) (next_is st)).

(** What the code of one entry does: nothing, or it sets and skips the rest of
    the field, or it returns an error. *)
Inductive attempt := NoMatch | Done (st : ss_state) | Failed.

Definition done_or_failed (o : option ss_state) : attempt :=
  match o with Some st => Done st | None => Failed end.

Section ParseFields.
Context `{AbslStrings}.

(** A [uint64_t] is stored in a field of type [int64]. *)
Definition parse_scalar (ty : scalar) (field : string) : option AuxValue :=
  match ty with
  | ty_int => AuxInt <$> SimpleAtoi (- 2 ^ 63) (2 ^ 63 - 1) field
  | ty_uint => (fun v => AuxInt (i64 v)) <$> SimpleAtoi 0 (2 ^ 64 - 1) field
  | ty_double => AuxDouble <$> SimpleAtod field
  | ty_bps => AuxInt <$> ParseBpsSS field
  | ty_ms => AuxInt <$> ParseMsSS false field
  | ty_ms_junk => AuxInt <$> ParseMsSS true field
  end.

Definition parse_to (name : string) (ty : scalar) (field : string) (st : ss_state) : option ss_state :=
  dst ← tr_name name; v ← parse_scalar ty field; Some (assignment_stmt dst v st).

(** The pieces of a field, one after the other. *)
Fixpoint parse_subs (subs : list (string * scalar)) (pieces : list string) (st : ss_state) : option ss_state :=
  match subs, pieces with
  | (name, ty) :: subs, p :: pieces => st ← parse_to name ty p st; parse_subs subs pieces st
  | _, _ => Some st
  end.

Definition gen_parse_sep (c : Ascii.ascii) (subs : list (string * scalar)) (field : string) (st : ss_state)
    : option ss_state :=
  let pieces := StrSplit_SkipWhitespace (fun a => bool_decide (a = c)) field in
  if (length pieces =? length subs)%nat then parse_subs subs pieces st else None.

Definition gen_parse_maybesep (c : Ascii.ascii) (subs : list (string * scalar)) (field : string) (st : ss_state)
    : option ss_state :=
  let pieces := StrSplit_SkipWhitespace (fun a => bool_decide (a = c)) field in
  if (length pieces <? 1)%nat then None else parse_subs subs pieces st.

(** One piece of a composite value: the first entry whose name it begins with. *)
Fixpoint parse_sub_field (field_name : string) (subs : list (string * scalar)) (piece : string) (st : ss_state)
    : option ss_state :=
  match subs with
  | [] => Some st
  | (name, ty) :: subs =>
      if StartsWith piece (name +:+ ":")
      then parse_to (field_name +:+ ":" +:+ name) ty (StripPrefix piece (name +:+ ":")) st
      else parse_sub_field field_name subs piece st
  end.

Definition gen_parse_composite (field_name : string) (subs : list (string * scalar)) (field : string)
    (st : ss_state) : option ss_state :=
  if negb (StartsWith field "(") || negb (EndsWith field ")") then None
  else
    let field := String.substring 1 (String.length field - 2) field in
    foldl (fun o piece => st ← o; parse_sub_field field_name subs piece st) (Some st)
      (StrSplit_SkipWhitespace (fun a => bool_decide (a = comma)) field).

(** [gen_strip_prefix_then] around the code [parse]. *)
Definition with_prefix (name field : string) (parse : string -> option ss_state) : attempt :=
  let prefix := name +:+ ":" in
  if StartsWith field prefix then done_or_failed (parse (StripPrefix field prefix)) else NoMatch.

Definition late_code (name : string) (d : desc) (field : string) (st : ss_state) : attempt :=
  match d with
  | one ty => with_prefix name field (fun f => parse_to name ty f st)
  | flag =>
      if bool_decide (field = name)
      then done_or_failed (dst ← tr_name name; Some (assignment_stmt dst (AuxBool true) st)) else NoMatch
  | sep c subs => with_prefix name field (fun f => gen_parse_sep c subs f st)
  | composite subs => with_prefix name field (fun f => gen_parse_composite name subs f st)
  | nextfield_bps | nextfield_maybesep _ _ =>
      if bool_decide (field = name) then Done (set_next name true st) else NoMatch
  end.

(** [gen_check_aux]: an auxiliary field is looked at only with [aux]. *)
Definition check_aux (name : string) (st : ss_state) (code : attempt) : attempt :=
  if default true (field_is_aux name) && negb (bool_decide (is_Some (ss_aux st))) then NoMatch else code.

Fixpoint run_late (l : list (string * desc)) (field : string) (st : ss_state) : option ss_state :=
  match l with
  | [] => Some st
  | (name, d) :: l =>
      match check_aux name st (late_code name d field st) with
      | NoMatch => run_late l field st
      | Done st => Some st
      | Failed => None
      end
  end.

Definition early_code (name : string) (d : desc) (field : string) (st : ss_state) : option ss_state :=
  st ← match d with
       | nextfield_maybesep c subs => gen_parse_maybesep c subs field st
       | _ => parse_to name ty_bps field st
       end;
  Some (set_next name false st).

Definition first_char (s : string) : option Ascii.ascii := String.get 0 s.

(** One round of the loop over the fields. *)
Definition parse_field (st : ss_state) (field : string) : option ss_state :=
  match head (filter (fun p => fst p ∈ next_is st) early_parsing) with
  | Some (name, d) => early_code name d field st
  | None => run_late (filter (fun p => first_char (fst p) = first_char field) late_parsing) field st
  end.

Definition ParseFieldsSS (fields : list string) (st : ss_state) : option ss_state :=
  foldl (fun o field => st ← o; parse_field st field) (Some st) fields.

(** [collect_aux]: an [aux] is passed.  The addresses are fields 3 and 4. *)
Definition ParseLineSS (host_id_to_use : Z) (collect_aux : bool) (line : string) : option (option parsed_line) :=
  let fields := StrSplit_SkipWhitespace is_blank line in
  src ← fields !! 3%nat; dst ← fields !! 4%nat;
  Some (match ParseHostPort src, ParseHostPort dst with
        | inr (src_addr, src_port), inr (dst_addr, dst_port) =>
            st ← ParseFieldsSS fields (mkSs 0 0 (if collect_aux then Some [] else None) []);
            Some (mkParsed (mkFlowMarker "" "" "" host_id_to_use src_addr dst_addr TCP src_port dst_port 0)
                    (ss_cur_usage_bps st) (ss_cum_usage_bytes st) (ss_aux st))
        | _, _ => None
        end).
End ParseFields.

(** ** Addresses read back *)

(** The addresses as ss prints them: a plain one, one in brackets, an IPv4
    address mapped into IPv6. *)
Inductive ss_addr := Plain (host : string) | Bracketed (host : string) | Mapped (v4 : string).

Definition show_addr (a : ss_addr) : string :=
  match a with
  | Plain h => h
  | Bracketed h => "[" +:+ h +:+ "]"
  | Mapped h => "[::ffff:" +:+ h +:+ "]"
  end.

Definition addr_host (a : ss_addr) : string := match a with Plain h | Bracketed h | Mapped h => h end.

Definition addr_ok (a : ss_addr) : bool :=
  match a with
  | Plain h => negb (bool_decide (h = "")) && negb (bool_decide (first_char h = Some bracket))
  | Bracketed h => negb (bool_decide (h = "")) && negb (String.prefix "::ffff:" h)
  | Mapped h => negb (has_char colon h)
  end.

Definition show_host_port (a : ss_addr) (port : Z) : string := show_addr a +:+ ":" +:+ pretty port.

Lemma rfind_none c s : has_char c s = false -> rfind c s = None.
Proof.
  induction s as [|a s IH]; [done|]. cbn. intros [Ha Hs]%orb_false_iff. by rewrite (IH Hs), Ha.
Qed.

Lemma rfind_last c s t : has_char c t = false -> rfind c (s +:+ String c t) = Some (String.length s).
Proof.
  intros Ht. induction s as [|a s IH].
  - change ("" +:+ ?s) with s. cbn. by rewrite (rfind_none _ _ Ht), bool_decide_eq_true_2.
  - rewrite append_cons. cbn. by rewrite IH.
Qed.

Section Addresses.
Context `{AbslStringsLaws}.

Lemma StrContains_has_char s c : StrContains s c = has_char c s.
Proof. apply eq_true_iff_eq. by rewrite StrContains_true, has_char_elem. Qed.

Lemma StartsWith_prefix s p : StartsWith s p = String.prefix p s.
Proof. apply eq_true_iff_eq. by rewrite StartsWith_true, prefix_split. Qed.

Lemma unmap_addr_mapped h : has_char colon h = false -> unmap_addr ("::ffff:" +:+ h) = h.
Proof.
  intros Hh. unfold unmap_addr.
  rewrite (proj2 (StartsWith_true _ _)) by by eexists. rewrite (substr_app 7 "::ffff:" h) by done.
  by rewrite StrContains_has_char, Hh.
Qed.

Lemma unmap_addr_other h : String.prefix "::ffff:" h = false -> unmap_addr h = h.
Proof. intros Hh. unfold unmap_addr. by rewrite StartsWith_prefix, Hh. Qed.

Lemma ParseHostPort_at s port : - 2 ^ 31 <= port < 2 ^ 31 -> s <> "" ->
  ParseHostPort (s +:+ ":" +:+ pretty port) =
  if bool_decide (first_char s = Some bracket) then
    if (String.length s <? 3)%nat then inl InvalidAddress
    else inr (unmap_addr (String.substring 1 (String.length s - 2) (s +:+ ":" +:+ pretty port)), port)
  else inr (s, port).
Proof.
  intros Hp Hs. unfold ParseHostPort. set (t := pretty port).
  change (":" +:+ t) with (String colon t).
  assert (Ht : has_char colon t = false) by by apply has_char_pretty.
  rewrite rfind_last by done. rewrite bool_decide_eq_false_2 by (destruct s; [done|by rewrite append_cons]).
  replace (s +:+ String colon t) with ((s +:+ ":") +:+ t) by by rewrite append_assoc.
  rewrite substr_app by (rewrite length_append; cbn; lia). unfold t at 1. rewrite SimpleAtoi_pretty by lia.
  rewrite (proj2 (Nat.eqb_neq _ _)) by (by destruct s). rewrite append_assoc.
  rewrite (substring_app_l s) by done. by destruct s.
Qed.

(** An address and a port are read back as they are printed, a mapped IPv4
    address as the IPv4 address. *)
Theorem ParseHostPort_roundtrip a port :
  addr_ok a = true -> - 2 ^ 31 <= port < 2 ^ 31 ->
  ParseHostPort (show_host_port a port) = inr (addr_host a, port).
Proof.
  intros Ha Hp. unfold show_host_port.
  assert (Hin : forall h, h <> "" -> ParseHostPort (("[" +:+ h +:+ "]") +:+ ":" +:+ pretty port) =
    inr (unmap_addr h, port)).
  { intros h Hh. rewrite ParseHostPort_at by done. rewrite bool_decide_eq_true_2 by done.
    assert (Hlen : String.length ("[" +:+ h +:+ "]") = (String.length h + 2)%nat) by (rewrite !length_append; cbn; lia).
    rewrite (proj2 (Nat.ltb_ge _ _)) by (rewrite Hlen; destruct h; [done|cbn; lia]).
    rewrite Hlen, Nat.add_sub, !append_assoc, (substring_app_r "[") by done. by rewrite substring_app_l. }
  destruct a as [h|h|h]; cbn [show_addr addr_host addr_ok] in *.
  - apply andb_true_iff in Ha as [Hne%negb_true_iff%bool_decide_eq_false Hb%negb_true_iff].
    rewrite ParseHostPort_at by done. by rewrite Hb.
  - apply andb_true_iff in Ha as [Hne%negb_true_iff%bool_decide_eq_false Hb%negb_true_iff].
    rewrite Hin by done. by rewrite unmap_addr_other.
  - apply negb_true_iff in Ha. rewrite <- (unmap_addr_mapped h) at 2 by done.
    rewrite <- Hin by done. by rewrite !append_assoc.
Qed.
End Addresses.

(** ** At most one entry of the table applies to a field *)

(** A field up to its first colon. *)
Fixpoint before_colon (s : string) : string :=
  match s with
  | EmptyString => ""
  | String a s => if bool_decide (a = colon) then "" else String a (before_colon s)
  end.

Lemma before_colon_app name r : has_char colon name = false -> before_colon (name +:+ ":" +:+ r) = name.
Proof.
  induction name as [|a s IH]; [done|]. cbn [has_char]. intros [Ha Hs]%orb_false_iff.
  rewrite append_cons. cbn [before_colon]. by rewrite Ha, IH.
Qed.

Lemma before_colon_id s : has_char colon s = false -> before_colon s = s.
Proof. induction s as [|a s IH]; [done|]. cbn. intros [Ha Hs]%orb_false_iff. by rewrite Ha, IH. Qed.

Lemma before_colon_first s : before_colon s <> "" -> first_char (before_colon s) = first_char s.
Proof. destruct s as [|a s]; [done|]. cbn. by case_bool_decide. Qed.

(** The facts about the table that the parser relies on. *)
Lemma TCP_STAT_DESC_names :
  forallb (fun p => negb (bool_decide (fst p = "")) && negb (has_char colon (fst p))) TCP_STAT_DESC = true /\
  bool_decide (NoDup (map fst TCP_STAT_DESC)) = true.
Proof. split; by vm_compute. Qed.

Lemma assoc_Some {A} (l : list (string * A)) name d :
  NoDup (map fst l) -> assoc name l = Some d <-> (name, d) ∈ l.
Proof.
  unfold assoc. induction l as [|[n e] l IH]; cbn [map].
  - intros _. split; [done|by intros ?%elem_of_nil].
  - intros [Hn Hl]%NoDup_cons. specialize (IH Hl). rewrite filter_cons. cbn [fst]. rewrite elem_of_cons.
    destruct (decide (n = name)) as [->|Hne].
    + cbn. split; [intros [= ->]; by left|]. intros [[= ->]|Hin]; [done|].
      destruct Hn. by apply (list_elem_of_fmap_2 fst) in Hin.
    + rewrite IH. split; [by right|]. intros [[= -> ->]|Hin]; done.
Qed.

(** The entry of a field. *)
Definition entry_of (field : string) : option desc := assoc (before_colon field) TCP_STAT_DESC.

Lemma late_parsing_names : NoDup (map fst late_parsing).
Proof.
  unfold late_parsing. rewrite (merge_sort_Permutation by_name TCP_STAT_DESC).
  apply (bool_decide_eq_true_1 _ (proj2 TCP_STAT_DESC_names)).
Qed.

Lemma late_parsing_in name d : (name, d) ∈ late_parsing -> name <> "" /\ has_char colon name = false.
Proof.
  unfold late_parsing. rewrite (merge_sort_Permutation by_name TCP_STAT_DESC). intros Hin.
  destruct TCP_STAT_DESC_names as [Hall _]. rewrite forallb_forall in Hall.
  apply list_elem_of_In, Hall, andb_true_iff in Hin as [Hne%negb_true_iff%bool_decide_eq_false Hc%negb_true_iff].
  done.
Qed.

Lemma candidates_entry field :
  assoc (before_colon field) (filter (fun p => first_char (fst p) = first_char field) late_parsing) =
  entry_of field.
Proof.
  set (l := filter _ late_parsing).
  assert (Hl : NoDup (map fst l)).
  { apply NoDup_map_filter, late_parsing_names. }
  apply option_eq. intros d. unfold entry_of.
  rewrite !assoc_Some by (done || apply (bool_decide_eq_true_1 _ (proj2 TCP_STAT_DESC_names))).
  unfold l. rewrite list_elem_of_filter. unfold late_parsing at 1.
  rewrite (merge_sort_Permutation by_name TCP_STAT_DESC). split; [by intros [_ ?]|]. intros Hin. split; [|done].
  apply before_colon_first. refine (proj1 (late_parsing_in _ d _)). unfold late_parsing.
  by rewrite (merge_sort_Permutation by_name TCP_STAT_DESC).
Qed.

Section Parser.
Context `{AbslStringsLaws}.

Lemma late_code_matches name d field st :
  has_char colon name = false -> late_code name d field st <> NoMatch -> before_colon field = name.
Proof.
  intros Hn. unfold late_code, with_prefix.
  assert (Hp : StartsWith field (name +:+ ":") = true -> before_colon field = name).
  { intros [r ->]%StartsWith_true. rewrite append_assoc. by apply before_colon_app. }
  assert (He : bool_decide (field = name) = true -> before_colon field = name).
  { intros ->%bool_decide_eq_true. by apply before_colon_id. }
  destruct d; destruct (StartsWith field _); destruct (bool_decide _); auto; done.
Qed.

Lemma run_late_entry l field st :
  NoDup (map fst l) -> (forall name d, (name, d) ∈ l -> has_char colon name = false) ->
  run_late l field st =
  match assoc (before_colon field) l with
  | None => Some st
  | Some d =>
      match check_aux (before_colon field) st (late_code (before_colon field) d field st) with
      | NoMatch => Some st
      | Done st => Some st
      | Failed => None
      end
  end.
Proof.
  induction l as [|[name d] l IH]; intros Hnd Hc; [done|]. cbn [run_late]. cbn [map] in Hnd.
  apply NoDup_cons in Hnd as [Hnin Hnd].
  assert (Hcl : forall n e, (n, e) ∈ l -> has_char colon n = false) by (intros n e ?; eapply Hc; by right).
  specialize (IH Hnd Hcl). unfold assoc. rewrite filter_cons. cbn [fst].
  destruct (decide (name = before_colon field)) as [E|Hne].
  - cbn. rewrite <- E. destruct (check_aux _ _ _) eqn:Ec; try done. rewrite IH.
    destruct (assoc _ l) as [e|] eqn:Ea; [|done]. apply (assoc_Some _ _ _ Hnd) in Ea.
    destruct Hnin. rewrite E. by apply (list_elem_of_fmap_2 fst) in Ea.
  - assert (check_aux name st (late_code name d field st) = NoMatch) as ->.
    { unfold check_aux. destruct (_ && _); [done|]. destruct (late_code name d field st) eqn:Ec; [done| |];
        (destruct Hne; symmetry; eapply late_code_matches; [eapply Hc; by left|by rewrite Ec]). }
    rewrite IH. done.
Qed.

(** One round of the loop, by the entry of the field. *)
Lemma parse_field_entry st field : next_is st = [] ->
  parse_field st field =
  match entry_of field with
  | None => Some st
  | Some d =>
      match check_aux (before_colon field) st (late_code (before_colon field) d field st) with
      | NoMatch => Some st
      | Done st => Some st
      | Failed => None
      end
  end.
Proof.
  intros Hn. unfold parse_field. rewrite Hn, filter_none by (intros ? _; by apply not_elem_of_nil). cbn [head].
  rewrite run_late_entry, candidates_entry; [done| |].
  - apply NoDup_map_filter, late_parsing_names.
  - intros name d [_ Hin]%list_elem_of_filter. by eapply late_parsing_in.
Qed.

(** ** The usage, with and without the auxiliary fields *)

(** The reference: the rate after the word [send] and the counter
    [bytes_sent]; the state is whether the word before was [send]. *)
Definition usage_step (s : bool * Z * Z) (field : string) : option (bool * Z * Z) :=
  let '(after_send, cur, cum) := s in
  if after_send : bool then v ← ParseBpsSS field; Some (false, v, cum)
  else if bool_decide (field = "send") then Some (true, cur, cum)
  else if StartsWith field "bytes_sent:" then
    v ← SimpleAtoi 0 (2 ^ 64 - 1) (StripPrefix field "bytes_sent:"); Some (false, cur, i64 v)
  else Some (false, cur, cum).

Definition usage_of (fields : list string) : option (bool * Z * Z) :=
  foldl (fun o field => s ← o; usage_step s field) (Some (false, 0, 0)) fields.

Definition dests_of (p : string * desc) : list (option dest) :=
  match snd p with
  | one _ | flag | nextfield_bps => [tr_name (fst p)]
  | sep _ subs | nextfield_maybesep _ subs => map (fun s => tr_name (fst s)) subs
  | composite subs => map (fun s => tr_name (fst p +:+ ":" +:+ fst s)) subs
  end.

Definition is_aux_entry (p : string * desc) : bool :=
  bool_decide (field_is_aux (fst p) = Some true) &&
  forallb (fun d => match d with Some (AuxField _) => true | _ => false end) (dests_of p).

Definition is_usage_entry (p : string * desc) : bool :=
  match snd p with
  | one ty_uint => bool_decide (fst p = "bytes_sent")
  | nextfield_bps => bool_decide (fst p = "send")
  | _ => false
  end.

#[export] Instance dest_eq_dec : EqDecision dest.
Proof. solve_decision. Defined.

Lemma TCP_STAT_DESC_entries : forallb (fun p => is_aux_entry p || is_usage_entry p) TCP_STAT_DESC = true.
Proof. by vm_compute. Qed.

(** What the code of an auxiliary entry leaves alone. *)
Record same_usage (st st' : ss_state) : Prop := {
  su_cur : ss_cur_usage_bps st' = ss_cur_usage_bps st;
  su_cum : ss_cum_usage_bytes st' = ss_cum_usage_bytes st;
  su_next : next_is st' = next_is st;
  su_aux : is_Some (ss_aux st') <-> is_Some (ss_aux st) }.

Lemma same_usage_refl st : same_usage st st.
Proof. by split. Qed.

Lemma same_usage_trans a b c : same_usage a b -> same_usage b c -> same_usage a c.
Proof. intros [] []. split; try congruence. naive_solver. Qed.

Lemma assignment_same name v st : same_usage st (assignment_stmt (AuxField name) v st).
Proof. split; cbn; try done. by rewrite fmap_is_Some. Qed.

Lemma parse_to_same name x ty f st st' :
  tr_name name = Some (AuxField x) -> parse_to name ty f st = Some st' -> same_usage st st'.
Proof.
  unfold parse_to. intros ->. cbn [mbind option_bind].
  destruct (parse_scalar ty f) as [v|]; [|done]. intros [= <-]. apply assignment_same.
Qed.

Definition aux_dest_of (name : string) : Prop := exists x, tr_name name = Some (AuxField x).

Lemma parse_subs_same subs : forall pieces st st',
  Forall (fun s => aux_dest_of (fst s)) subs -> parse_subs subs pieces st = Some st' -> same_usage st st'.
Proof.
  induction subs as [|[name ty] subs IH]; intros [|p pieces] st st' Hall; cbn [parse_subs];
    try (intros [= <-]; apply same_usage_refl).
  apply Forall_cons in Hall as [[x Hx] Hall].
  destruct (parse_to name ty p st) as [st1|] eqn:E; [|done]. cbn [mbind option_bind]. intros Hs.
  eapply same_usage_trans; [by eapply parse_to_same|by eapply IH].
Qed.

Lemma parse_sub_field_same fname subs piece st st' :
  Forall (fun s => aux_dest_of (fname +:+ ":" +:+ fst s)) subs ->
  parse_sub_field fname subs piece st = Some st' -> same_usage st st'.
Proof.
  induction 1 as [|[name ty] subs [x Hx] _ IH]; cbn [parse_sub_field]; [intros [= <-]; apply same_usage_refl|].
  destruct (StartsWith _ _); [by apply (parse_to_same _ x)|done].
Qed.

Lemma fold_same {A} (f : A -> ss_state -> option ss_state) (l : list A) :
  (forall x st st', f x st = Some st' -> same_usage st st') -> forall st st',
  foldl (fun o x => st ← o; f x st) (Some st) l = Some st' -> same_usage st st'.
Proof.
  intros Hf. assert (Hnone : forall l, foldl (fun o x => st ← o; f x st) None l = None) by (clear; by induction l).
  induction l as [|x l IH]; intros st st'; cbn [foldl]; [intros [= <-]; apply same_usage_refl|].
  cbn [mbind option_bind]. destruct (f x st) as [st1|] eqn:E; [|by rewrite Hnone].
  intros Hl. eapply same_usage_trans; [by eapply Hf|by apply IH].
Qed.

Lemma gen_parse_composite_same fname subs field st st' :
  Forall (fun s => aux_dest_of (fname +:+ ":" +:+ fst s)) subs ->
  gen_parse_composite fname subs field st = Some st' -> same_usage st st'.
Proof.
  intros Hs. unfold gen_parse_composite. destruct (_ || _); [done|]. apply fold_same.
  intros. by eapply parse_sub_field_same.
Qed.

Lemma forallb_dests {A} (g : A -> string) (l : list A) :
  forallb (fun d => match d with Some (AuxField _) => true | _ => false end) (map (fun a => tr_name (g a)) l) = true ->
  Forall (fun a => aux_dest_of (g a)) l.
Proof.
  induction l as [|a l IH]; cbn; [done|]. intros [Ha Hl]%andb_true_iff. constructor; [|by apply IH].
  unfold aux_dest_of. destruct (tr_name (g a)) as [[x| |]|]; try done. by exists x.
Qed.

Lemma late_code_aux name d field st st' :
  is_aux_entry (name, d) = true -> late_code name d field st = Done st' ->
  same_usage st st' \/ is_nextfield d = true /\ field = name /\ st' = set_next name true st.
Proof.
  unfold is_aux_entry. intros [_ Hd]%andb_true_iff.
  assert (Hp : forall parse, (forall f, parse f = Some st' -> same_usage st st') ->
    with_prefix name field parse = Done st' -> same_usage st st').
  { intros parse Hpar. unfold with_prefix. destruct (StartsWith _ _); [|done].
    destruct (parse _) as [s|] eqn:E; [|done]. intros [= ->]. by eapply Hpar. }
  intros Hdone. destruct d as [ty| |c subs|subs| |c subs]; cbn [late_code dests_of snd fst] in *.
  - left. cbn in Hd. destruct (tr_name name) as [[x| |]|] eqn:E; try done.
    revert Hdone. apply Hp. intros f. by apply (parse_to_same _ x).
  - left. cbn in Hd. case_bool_decide; [|done]. destruct (tr_name name) as [[x| |]|] eqn:E; try done.
    injection Hdone as <-. apply assignment_same.
  - left. revert Hdone. apply Hp. intros f. unfold gen_parse_sep. case_match; [|done].
    by apply parse_subs_same, (forallb_dests fst).
  - left. revert Hdone. apply Hp. intros f. by apply gen_parse_composite_same, (forallb_dests (fun s => _ +:+ ":" +:+ fst s)).
  - right. case_bool_decide; [|done]. injection Hdone as <-. done.
  - right. case_bool_decide; [|done]. injection Hdone as <-. done.
Qed.

(** *** What a rate begins with *)

Lemma ParseBpsSS_starts s v : ParseBpsSS s = Some v -> exists c r, s = String c r /\ starts_number c = true.
Proof.
  unfold ParseBpsSS. destruct (EndsWith s "bps") eqn:E; [|done]. cbn [negb].
  apply EndsWith_true in E as [r ->]. rewrite StripSuffix_app. set (k := if _ =? 1 then _ else _).
  assert (Hk : k = r \/ k = String.substring 0 (String.length r - 1) r) by (unfold k; case_match; auto).
  destruct (SimpleAtod k) as [x|] eqn:Ea; [|done]. intros _. apply SimpleAtod_starts in Ea as (c & r' & Ek & Hc).
  destruct r as [|d r]; [by destruct Hk as [Hk|Hk]; rewrite Ek in Hk|]. rewrite append_cons. exists d, (r +:+ "bps").
  split; [done|]. destruct Hk as [Hk|Hk]; rewrite Ek in Hk; [by injection Hk as <- _|].
  destruct (String.length (String d r) - 1)%nat as [|n]; [done|]. cbn in Hk. by injection Hk as <- _.
Qed.

Lemma split_at_first sep c r : sep c = false -> exists w ws, split_at sep (String c r) = String c w :: ws.
Proof. intros Hc. cbn. rewrite Hc. destruct (split_at sep r) as [|w ws]; by eexists _, _. Qed.

Lemma maybesep_starts c name subs f st st' :
  gen_parse_maybesep c ((name, ty_bps) :: subs) f st = Some st' ->
  match first_char f with Some a => starts_number a = true \/ a = c | None => True end.
Proof.
  unfold gen_parse_maybesep. rewrite StrSplit_pieces. destruct f as [|a f]; [done|]. cbn [first_char String.get].
  destruct (bool_decide (a = c)) eqn:Ec; [apply bool_decide_eq_true in Ec; auto|].
  destruct (split_at_first (fun b => bool_decide (b = c)) a f Ec) as (w & ws & ->). rewrite filter_cons.
  destruct (decide (all_space (String a w) = false)) as [Hs|Hs].
  - cbn [length Nat.ltb Nat.leb parse_subs]. unfold parse_to. destruct (tr_name name); [|done].
    cbn [mbind option_bind parse_scalar]. destruct (ParseBpsSS _) as [v|] eqn:E; [|done]. intros _. left.
    apply ParseBpsSS_starts in E as (b & r & [= <- _] & Hb). done.
  - intros _. left. cbn in Hs. unfold starts_number. destruct (Ascii.is_space a); [done|]. by destruct Hs.
Qed.

(** The two words that carry the usage cannot be rates. *)
Lemma usage_word_not_number f :
  match first_char f with Some a => starts_number a = true \/ a = slash | None => True end ->
  f <> "send" /\ StartsWith f "bytes_sent:" = false.
Proof.
  intros Hf. split.
  - intros ->. destruct Hf as [Hf|Hf]; [by vm_compute in Hf|done].
  - apply not_true_iff_false. intros [r ->]%StartsWith_true. destruct Hf as [Hf|Hf]; [by vm_compute in Hf|done].
Qed.

Lemma usage_step_other cur cum f :
  f <> "send" -> StartsWith f "bytes_sent:" = false -> usage_step (false, cur, cum) f = Some (false, cur, cum).
Proof. intros Hs Hb. cbn. by rewrite bool_decide_eq_false_2, Hb. Qed.

(** *** The parser follows the reference *)

(** Which flag is set; only the auxiliary fields set the last two. *)
Definition flags_ok (collect after_send : bool) (next : list string) : Prop :=
  next = (if after_send then ["send"] else []) \/
  collect = true /\ after_send = false /\ (next = ["delivery_rate"] \/ next = ["pacing_rate"]).

Record tracks (collect : bool) (st : ss_state) (s : bool * Z * Z) : Prop := {
  tk_cur : ss_cur_usage_bps st = snd (fst s);
  tk_cum : ss_cum_usage_bytes st = snd s;
  tk_aux : is_Some (ss_aux st) <-> collect = true;
  tk_next : flags_ok collect (fst (fst s)) (next_is st) }.

Definition field_ok (collect : bool) (s : bool * Z * Z) (f : string) (r : option ss_state) : Prop :=
  match r with
  | Some st' => exists s', usage_step s f = Some s' /\ tracks collect st' s'
  | None => collect = false -> usage_step s f = None
  end.

Lemma send_field collect st cur cum f :
  tracks collect st (true, cur, cum) -> field_ok collect (true, cur, cum) f (parse_field st f).
Proof.
  intros [Hcur Hcum Haux Hn]. cbn in Hn. destruct Hn as [Hn|(_ & [=] & _)]. unfold parse_field. rewrite Hn.
  assert (head (filter (fun p => fst p ∈ ["send"]) early_parsing) = Some ("send", nextfield_bps)) as -> by by vm_compute.
  unfold early_code, parse_to. assert (tr_name "send" = Some cur_usage_bps_ref) as -> by by vm_compute.
  cbn [mbind option_bind parse_scalar]. unfold field_ok. cbn [usage_step].
  destruct (ParseBpsSS f) as [v|]; [|done]. cbn. eexists. split; [done|]. split; try done. cbn. by rewrite Hn; left.
Qed.

Lemma clear_flag name st : next_is st = [name] -> next_is (set_next name false st) = [].
Proof. intros Hn. cbn. rewrite Hn. apply filter_none. intros n ->%list_elem_of_singleton Hne. by destruct Hne. Qed.

(** A field read as an auxiliary rate. *)
Lemma rate_field st cur cum name f st1 :
  tracks true st (false, cur, cum) -> next_is st = [name] -> same_usage st st1 ->
  match first_char f with Some a => starts_number a = true \/ a = slash | None => True end ->
  field_ok true (false, cur, cum) f (Some (set_next name false st1)).
Proof.
  intros [Hcur Hcum Haux _] Hn [Sc Sb Sn Sa] Hf. destruct (usage_word_not_number f Hf) as [Hs Hb].
  exists (false, cur, cum). split; [by apply usage_step_other|]. split; cbn [ss_cur_usage_bps ss_cum_usage_bytes ss_aux set_next].
  - by rewrite Sc. - by rewrite Sb. - by rewrite Sa. - left. apply clear_flag. by rewrite Sn.
Qed.

Lemma aux_rate_field st cur cum f :
  tracks true st (false, cur, cum) -> (next_is st = ["delivery_rate"] \/ next_is st = ["pacing_rate"]) ->
  field_ok true (false, cur, cum) f (parse_field st f).
Proof.
  intros Ht Hn. unfold parse_field. destruct Hn as [Hn|Hn]; rewrite Hn.
  - assert (head (filter (fun p => fst p ∈ ["delivery_rate"]) early_parsing) = Some ("delivery_rate", nextfield_bps))
      as -> by by vm_compute.
    unfold early_code. assert (Ht' : tr_name "delivery_rate" = Some (AuxField "delivery_rate")) by by vm_compute.
    destruct (parse_to "delivery_rate" ty_bps f st) as [st1|] eqn:E; [|done]. cbn [mbind option_bind].
    eapply rate_field; [done|done|by eapply parse_to_same|].
    unfold parse_to in E. rewrite Ht' in E. cbn [mbind option_bind parse_scalar] in E.
    destruct (ParseBpsSS f) as [v|] eqn:Ev; [|done]. apply ParseBpsSS_starts in Ev as (c & r & -> & Hc). by left.
  - assert (head (filter (fun p => fst p ∈ ["pacing_rate"]) early_parsing) =
      Some ("pacing_rate", nextfield_maybesep slash [("pacing_rate", ty_bps); ("pacing_rate_max", ty_bps)]))
      as -> by by vm_compute.
    unfold early_code. destruct (gen_parse_maybesep _ _ f st) as [st1|] eqn:E; [|done]. cbn [mbind option_bind].
    eapply rate_field; [done|done| |by eapply maybesep_starts].
    unfold gen_parse_maybesep in E. destruct (_ <? 1)%nat; [done|]. eapply parse_subs_same; [|exact E].
    repeat constructor; by eexists.
Qed.

Lemma bytes_sent_prefix f : StartsWith f "bytes_sent:" = true -> before_colon f = "bytes_sent".
Proof. intros [r ->]%StartsWith_true. by apply (before_colon_app "bytes_sent" r). Qed.

Lemma nextfield_names name d : (name, d) ∈ TCP_STAT_DESC -> is_nextfield d = true ->
  name = "send" \/ name = "delivery_rate" \/ name = "pacing_rate".
Proof.
  intros Hin Hd. assert (Hall : forallb (fun p => negb (is_nextfield (snd p)) ||
    bool_decide (fst p = "send" \/ fst p = "delivery_rate" \/ fst p = "pacing_rate")) TCP_STAT_DESC = true) by by vm_compute.
  rewrite forallb_forall in Hall. apply list_elem_of_In, Hall in Hin. cbn in Hin. rewrite Hd in Hin. cbn in Hin.
  by apply bool_decide_eq_true in Hin.
Qed.

(** A field that the table gives to an auxiliary entry. *)
Lemma aux_entry_field collect st cur cum d f :
  tracks collect st (false, cur, cum) -> next_is st = [] ->
  (before_colon f, d) ∈ TCP_STAT_DESC -> is_aux_entry (before_colon f, d) = true ->
  field_ok collect (false, cur, cum) f
    (match check_aux (before_colon f) st (late_code (before_colon f) d f st) with
     | NoMatch => Some st | Done st => Some st | Failed => None end).
Proof.
  intros Ht Hn Hin Ha. pose proof Ha as [Hfa%bool_decide_eq_true _]%andb_true_iff. cbn [fst] in Hfa.
  assert (Hs : f <> "send") by (intros ->; by vm_compute in Hfa).
  assert (Hb : StartsWith f "bytes_sent:" = false).
  { apply not_true_iff_false. intros E%bytes_sent_prefix. rewrite E in Hfa. by vm_compute in Hfa. }
  pose proof (usage_step_other cur cum f Hs Hb) as Hu.
  assert (Hstay : field_ok collect (false, cur, cum) f (Some st)) by by eexists.
  unfold check_aux. rewrite Hfa. cbn [default from_option]. destruct (bool_decide (is_Some (ss_aux st))) eqn:Ea; [|done].
  apply bool_decide_eq_true, (tk_aux _ _ _ Ht) in Ea as ->. cbn [negb andb].
  destruct (late_code _ d f st) as [|st'|] eqn:E; [done| |done].
  eexists. split; [done|]. destruct Ht as [Hcur Hcum Haux _].
  destruct (late_code_aux _ _ _ _ _ Ha E) as [[Sc Sb Sn Sa]|(Hnf & Hname & ->)].
  - split; cbn; [by rewrite Sc|by rewrite Sb|by rewrite Sa|left; by rewrite Sn].
  - split; cbn; [done|done|done|]. right. split; [done|]. split; [done|]. rewrite Hn.
    destruct (nextfield_names _ _ Hin Hnf) as [E'|[E'|E']]; rewrite E'; auto. by rewrite E' in Hfa; vm_compute in Hfa.
Qed.

Lemma usage_entry_field collect st cur cum d f :
  tracks collect st (false, cur, cum) -> next_is st = [] -> is_usage_entry (before_colon f, d) = true ->
  field_ok collect (false, cur, cum) f
    (match check_aux (before_colon f) st (late_code (before_colon f) d f st) with
     | NoMatch => Some st | Done st => Some st | Failed => None end).
Proof.
  intros Ht Hn Hd. assert (Hstay : f <> "send" -> StartsWith f "bytes_sent:" = false ->
    field_ok collect (false, cur, cum) f (Some st)).
  { intros Hs Hb. eexists. by split; [apply usage_step_other|]. }
  unfold is_usage_entry in Hd. cbn [fst snd] in Hd. unfold check_aux. destruct Ht as [Hcur Hcum Haux _].
  destruct d as [[]| | | | |]; try done; apply bool_decide_eq_true in Hd; rewrite Hd.
  - assert (field_is_aux "bytes_sent" = Some false) as -> by by vm_compute. cbn [default from_option id andb late_code].
    assert (Hs : f <> "send") by by intros ->.
    unfold with_prefix. change ("bytes_sent" +:+ ":") with "bytes_sent:".
    destruct (StartsWith f "bytes_sent:") eqn:Eb; [|by apply Hstay]. unfold parse_to.
    assert (tr_name "bytes_sent" = Some cum_usage_bytes_ref) as -> by by vm_compute.
    cbn [mbind option_bind parse_scalar]. unfold field_ok. cbn [usage_step].
    rewrite (bool_decide_eq_false_2 _ Hs), Eb.
    destruct (SimpleAtoi 0 _ _) as [v|]; [|done]. cbn. eexists. split; [done|]. split; try done. cbn. by left.
  - assert (field_is_aux "send" = Some false) as -> by by vm_compute. cbn [default from_option id andb late_code].
    case_bool_decide as E.
    + subst f. exists (true, cur, cum). split; [done|]. split; try done. cbn. rewrite Hn. by left.
    + apply Hstay; [done|]. apply not_true_iff_false. intros E'%bytes_sent_prefix. by rewrite Hd in E'.
Qed.

Lemma parse_field_tracks collect st s f :
  tracks collect st s -> field_ok collect s f (parse_field st f).
Proof.
  intros Ht. destruct s as [[[] cur] cum]; [by apply send_field|].
  destruct (tk_next _ _ _ Ht) as [Hn|(-> & _ & Hn)]; cbn in Hn; [|by apply aux_rate_field].
  rewrite parse_field_entry by done. destruct (entry_of f) as [d|] eqn:Ed.
  - unfold entry_of in Ed. apply assoc_Some in Ed; [|apply (bool_decide_eq_true_1 _ (proj2 TCP_STAT_DESC_names))].
    pose proof TCP_STAT_DESC_entries as Hall. rewrite forallb_forall in Hall.
    pose proof (Hall _ (proj1 (list_elem_of_In _ _) Ed)) as [Ha|Hu]%orb_true_iff;
      [by apply aux_entry_field|by apply usage_entry_field].
  - exists (false, cur, cum). split; [|done]. apply usage_step_other.
    + intros ->. by vm_compute in Ed.
    + apply not_true_iff_false. intros E%bytes_sent_prefix. unfold entry_of in Ed. rewrite E in Ed. by vm_compute in Ed.
Qed.

Lemma ParseFieldsSS_tracks collect fields : forall st s, tracks collect st s ->
  match ParseFieldsSS fields st with
  | Some st' => exists s', foldl (fun o f => s ← o; usage_step s f) (Some s) fields = Some s' /\ tracks collect st' s'
  | None => collect = false -> foldl (fun o f => s ← o; usage_step s f) (Some s) fields = None
  end.
Proof.
  unfold ParseFieldsSS. induction fields as [|f fields IH]; intros st s Ht; cbn [foldl]; [by exists s|].
  pose proof (parse_field_tracks collect st s f Ht) as Hf. unfold field_ok in Hf. cbn [mbind option_bind].
  destruct (parse_field st f) as [st'|].
  - destruct Hf as (s' & -> & Ht'). by apply IH.
  - rewrite foldl_none. intros Hc. by rewrite (Hf Hc), foldl_none.
Qed.

Definition start_state (collect_aux : bool) : ss_state := mkSs 0 0 (if collect_aux then Some [] else None) [].

Lemma start_tracks collect : tracks collect (start_state collect) (false, 0, 0).
Proof. split; cbn; try done; [|by left]. by destruct collect. Qed.

(** Without auxiliary fields the parser is the reference. *)
Lemma ParseFieldsSS_no_aux fields :
  (fun st => (ss_cur_usage_bps st, ss_cum_usage_bytes st, ss_aux st)) <$> ParseFieldsSS fields (start_state false) =
  (fun '(_, cur, cum) => (cur, cum, None)) <$> usage_of fields.
Proof.
  pose proof (ParseFieldsSS_tracks false fields _ _ (start_tracks false)) as Hf. unfold usage_of.
  destruct (ParseFieldsSS fields _) as [st|].
  - destruct Hf as ([[a cur] cum] & -> & [Hc Hb Ha _]). cbn in *. rewrite Hc, Hb.
    destruct (ss_aux st) as [x|]; [|done]. assert (false = true) by (apply Ha; by exists x). done.
  - by rewrite (Hf eq_refl).
Qed.

Lemma split_line_words ws : ws <> [] -> Forall (fun w => clean w = true) ws ->
  StrSplit_SkipWhitespace is_blank (unwords ws) = ws.
Proof.
  intros Hne Hws. rewrite StrSplit_pieces, split_at_unwords by done. apply filter_every.
  intros w Hw. rewrite Forall_forall in Hws. specialize (Hws w Hw). unfold clean in Hws.
  apply andb_true_iff in Hws as [Hne'%negb_true_iff%bool_decide_eq_false Hs].
  destruct w as [|c w]; [done|]. cbn in *. apply andb_true_iff in Hs as [Hc%negb_true_iff _]. by rewrite Hc.
Qed.

(** C12: a line of ss is read as its connection: the two addresses and ports, the
    rate after the last word [send] and the last counter [bytes_sent]. *)
Theorem ParseLineSS_reads_connection id state recvq sendq src src_port dst dst_port stats :
  let ws := [state; recvq; sendq; show_host_port src src_port; show_host_port dst dst_port] ++ stats in
  Forall (fun w => clean w = true) ws -> addr_ok src = true -> addr_ok dst = true ->
  - 2 ^ 31 <= src_port < 2 ^ 31 -> - 2 ^ 31 <= dst_port < 2 ^ 31 ->
  ParseLineSS id false (unwords ws) =
  Some ((fun '(_, cur, cum) =>
           mkParsed (mkFlowMarker "" "" "" id (addr_host src) (addr_host dst) TCP src_port dst_port 0) cur cum None)
        <$> usage_of ws).
Proof.
  intros ws Hws Hs Hd Hsp Hdp. unfold ParseLineSS. rewrite split_line_words by done.
  assert (Hsrc : ws !! 3%nat = Some (show_host_port src src_port)) by done.
  assert (Hdst : ws !! 4%nat = Some (show_host_port dst dst_port)) by done.
  clearbody ws. rewrite Hsrc, Hdst. cbn [mbind option_bind]. f_equal. rewrite !ParseHostPort_roundtrip by done.
  change (mkSs 0 0 None []) with (start_state false). pose proof (ParseFieldsSS_no_aux ws) as E.
  destruct (ParseFieldsSS ws _) as [st|], (usage_of ws) as [[[a cur] cum]|]; try done.
  cbn in *. by injection E as -> -> ->.
Qed.

(** Collecting the auxiliary fields changes neither the connection nor its
    usage: a line that parses with them parses without them to the same. *)
Theorem ParseLineSS_aux_independent id line p :
  ParseLineSS id true line = Some (Some p) ->
  ParseLineSS id false line = Some (Some (mkParsed (pl_flow p) (pl_usage_bps p) (pl_cum_usage_bytes p) None)).
Proof.
  unfold ParseLineSS. set (fields := StrSplit_SkipWhitespace _ _).
  destruct (fields !! 3%nat) as [src|]; [|done]. destruct (fields !! 4%nat) as [dst|]; [|done].
  cbn [mbind option_bind]. destruct (ParseHostPort src) as [|[sa sp]]; [done|].
  destruct (ParseHostPort dst) as [|[da dp]]; [done|].
  change (mkSs 0 0 (Some []) []) with (start_state true). change (mkSs 0 0 None []) with (start_state false).
  pose proof (ParseFieldsSS_tracks true fields _ _ (start_tracks true)) as Hf.
  destruct (ParseFieldsSS fields (start_state true)) as [st|]; [|done]. intros [= <-].
  destruct Hf as ([[a cur] cum] & Eu & [Hc Hb _ _]). pose proof (ParseFieldsSS_no_aux fields) as E.
  unfold usage_of in E. rewrite Eu in E. destruct (ParseFieldsSS fields (start_state false)) as [st'|]; [|done].
  cbn in *. congruence.
Qed.

(** A line of fewer than five fields is read past its end. *)
Lemma ParseLineSS_undefined id collect line :
  ParseLineSS id collect line = None <-> (length (StrSplit_SkipWhitespace is_blank line) < 5)%nat.
Proof.
  unfold ParseLineSS. set (fields := StrSplit_SkipWhitespace _ _). split.
  - intros E. destruct (decide (length fields < 5)%nat) as [|Hlen]; [done|].
    destruct (lookup_lt_is_Some_2 fields 3 ltac:(lia)) as [src Es].
    destruct (lookup_lt_is_Some_2 fields 4 ltac:(lia)) as [dst Ed]. by rewrite Es, Ed in E.
  - intros Hlen. destruct (fields !! 3%nat); [|done]. by rewrite (lookup_ge_None_2 fields 4) by lia.
Qed.
End Parser.

(** ** A concrete Abseil, and lines of ss *)

Definition read_integer_in (lo hi : Z) (s : string) : option Z :=
  n ← read_integer s; if (lo <=? n) && (n <=? hi) then Some n else None.

(** Decimal numbers without an exponent. *)
Definition read_decimal (s : string) : option double :=
  match s with
  | String c _ =>
      if starts_number c then
        match split_at (is_char 46) s with
        | [a] => dofZ <$> read_number a
        | [a; b] => n ← read_number (a +:+ b); Some (dlit n (10 ^ Z.of_nat (String.length b)))
        | _ => None
        end
      else None
  | EmptyString => None
  end.

#[export] Instance simple_absl : AbslStrings := {|
  StartsWith s p := String.prefix p s;
  EndsWith s p := has_suffix p s;
  StripPrefix s p := strip_prefix p s;
  StripSuffix s p := strip_suffix p s;
  StrContains s c := has_char c s;
  StrSplit_SkipWhitespace sep s := filter (fun w => all_space w = false) (split_at sep s);
  SimpleAtoi := read_integer_in;
  SimpleAtod := read_decimal |}.

#[export] Instance simple_absl_laws : AbslStringsLaws.
Proof.
  split; cbn.
  - intros. apply prefix_split.
  - intros. apply has_suffix_split.
  - apply strip_prefix_app.
  - apply strip_suffix_app.
  - intros s p E. unfold strip_suffix. by rewrite E.
  - intros s c. apply has_char_elem.
  - done.
  - intros lo hi n Hn. unfold read_integer_in. rewrite pretty_reads_integer. cbn.
    by rewrite (proj2 (Z.leb_le _ _)), (proj2 (Z.leb_le _ _)) by lia.
  - intros lo hi s n. unfold read_integer_in. destruct (read_integer s) as [m|]; [|done]. cbn.
    case_if; [|done]. intros [= <-]. lia.
  - intros s v. destruct s as [|c r]; [done|]. cbn. destruct (starts_number c) eqn:Ec; [|done]. intros _. by exists c, r.
Qed.

(** Words of a line from the program's own test. *)
Definition example_stats : list string :=
  ["bbr"; "wscale:7,7"; "rto:204"; "rtt:0.128/0.085"; "ato:40"; "mss:1448"; "bytes_sent:1431";
   "bbr:(bw:413714088bps,mrtt:0.028,pacing_gain:2.88672,cwnd_gain:2.88672)"; "send"; "3891500000bps";
   "lastsnd:1536"; "pacing_rate"; "4355966600bps"; "delivery_rate"; "413714280bps"; "app_limited";
   "busy:436ms"; "minrtt:0.028"].

Definition example_src : ss_addr := Mapped "140.197.113.99".
Definition example_dst : ss_addr := Mapped "192.168.1.7".

Definition example_words : list string :=
  ["ESTAB"; "0"; "0"; show_host_port example_src 4580; show_host_port example_dst 38290] ++ example_stats.

Definition example_marker : FlowMarker :=
  mkFlowMarker "" "" "" 123 "140.197.113.99" "192.168.1.7" TCP 4580 38290 0.

Lemma ParseHostPort_roundtrip_witness :
  ParseHostPort "[::ffff:192.168.1.7]:38290" = inr ("192.168.1.7", 38290).
Proof. apply (ParseHostPort_roundtrip (Mapped "192.168.1.7") 38290); [by vm_compute|lia]. Defined.

Lemma ParseLineSS_reads_connection_witness :
  ParseLineSS 123 false (unwords example_words) = Some (Some (mkParsed example_marker 3891500000 1431 None)).
Proof.
  unfold example_words.
  pose proof (ParseLineSS_reads_connection 123 "ESTAB" "0" "0" example_src 4580 example_dst 38290 example_stats) as E.
  cbv zeta in E. rewrite E; clear E.
  - vm_compute. reflexivity.
  - apply (Forall_forall _ _). intros w Hw. apply list_elem_of_In in Hw. revert w Hw. apply forallb_forall.
    vm_compute. reflexivity.
  - reflexivity.
  - reflexivity.
  - lia.
  - lia.
Defined.

Definition example_aux : AuxInfo :=
  match ParseLineSS 123 true (unwords example_words) with
  | Some (Some p) => default [] (pl_aux p)
  | _ => []
  end.

Lemma example_aux_fields : map fst example_aux =
  ["min_rtt_ms"; "busy_time_ms"; "app_limited"; "delivery_rate"; "pacing_rate"; "lastsnd_ms"; "bbr_cwnd_gain";
   "bbr_pacing_gain"; "bbr_min_rtt_ms"; "bbr_bw"; "mss"; "ato_ms"; "rtt_var_ms"; "rtt_ms"; "rto_ms"; "rcv_wscale";
   "snd_wscale"].
Proof. by vm_compute. Qed.

Lemma ParseLineSS_aux_independent_witness :
  ParseLineSS 123 false (unwords example_words) = Some (Some (mkParsed example_marker 3891500000 1431 None)).
Proof.
  apply (ParseLineSS_aux_independent 123 (unwords example_words)
    (mkParsed example_marker 3891500000 1431 (Some example_aux))).
  vm_compute. reflexivity.
Defined.

(** A suffix multiplies the rate; a negative rate and a rate without a unit
    are told apart. *)
Lemma ParseBpsSS_examples :
  ParseBpsSS "10Mbps" = Some 10000000 /\ ParseBpsSS "1.5kbps" = Some 1500 /\ ParseBpsSS "bps" = None /\
  ParseBpsSS "10M" = None.
Proof. split_and!; by vm_compute. Qed.

(** A counter of 2^63 bytes or more comes out negative. *)
Lemma huge_counter_is_negative :
  ParseLineSS 1 false "E 0 0 1.1.1.1:1 2.2.2.2:2 bytes_sent:9223372036854775808" =
  Some (Some (mkParsed (mkFlowMarker "" "" "" 1 "1.1.1.1" "2.2.2.2" TCP 1 2 0) 0 (- 2 ^ 63) None)).
Proof. by vm_compute. Qed.

(** A line with fewer fields, as after a partial read, is undefined behaviour. *)
Lemma short_line_is_undefined : ParseLineSS 1 false "ESTAB 0 0 1.1.1.1:1" = None.
Proof. by vm_compute. Qed.
