(* ===== verification/Aggregator.v ===== *)
(** * Aggregator: flow usage grouped by host or by pair of DCs

    src/heyp/flows/aggregator.{h,cc}: [FlowAggregator].  Each bundler reports
    its flows; a flow not reported for the window of the configuration moves
    from the active to the dead map of its bundler, where its byte counters
    keep counting.  [ForEachAgg] groups the flows of all bundlers and feeds
    the sums to one [AggState] per aggregate.  The map of bundlers is used
    through the interface [IndexedMap].  A failed check is [None]; the order
    of a hash map is the order of [map_to_list]. *)

From S2P Require Import Prelude Doubles FlowMarker ParMap Clock RateLimits FlowState.

Section Aggregator.
Context `{Clock}.

(** [InfoBundle] of src/heyp/proto/heyp.proto, its timestamp converted. *)
Record InfoBundle := mkInfoBundle {
  bundler : FlowMarker;
  timestamp : Time;
  gen : Z;
  flow_infos : list FlowInfo }.

Record FlowAggregator_Config := mkAggConfig {
  usage_history_window : Duration;
  get_agg_flow_fn : FlowMarker -> FlowMarker;
  is_valid_parent : option (FlowMarker -> bool);
  is_valid_child : option (FlowMarker -> bool) }.

Definition NewConnToHostAggregator (window : Duration) : FlowAggregator_Config :=
  mkAggConfig window ToHostFlow
    (Some (fun h => ExpectedFieldsAreSet h HostFlowOptions &&
                    UnexpectedFieldsAreUnset h HostFlowOptions))
    (Some (fun c => ExpectedFieldsAreSet c default_options)).

Definition NewHostToClusterAggregator (window : Duration) : FlowAggregator_Config :=
  mkAggConfig window ToClusterFlow
    (Some (fun c => ExpectedFieldsAreSet c ClusterFlowOptions &&
                    UnexpectedFieldsAreUnset c ClusterFlowOptions))
    (Some (fun h => ExpectedFieldsAreSet h HostFlowOptions)).

Notation FlowMap A := (gmap FlowMarker A).

Record BundleState := mkBundleState {
  last_updated : Time;
  active : FlowMap (Time * FlowInfo);
  dead : FlowMap (Time * FlowInfo) }.

Definition new_BundleState : BundleState := mkBundleState InfinitePast ∅ ∅.

(** ** Update *)

Section Update.
Context (config_ : FlowAggregator_Config).

Definition child_is_valid (fi : FlowInfo) : bool :=
  match is_valid_child config_ with Some f => f (flow fi) | None => true end.

Definition report_flow (ts : Time) (bs : BundleState) (fi : FlowInfo) : BundleState :=
  match active bs !! flow fi with
  | None => mkBundleState (last_updated bs) (<[flow fi := (ts, fi)]> (active bs))
              (delete (flow fi) (dead bs))
  | Some _ => mkBundleState (last_updated bs) (<[flow fi := (ts, fi)]> (active bs)) (dead bs)
  end.

Fixpoint report_flows (ts : Time) (bs : BundleState) (fis : list FlowInfo) : option BundleState :=
  match fis with
  | [] => Some bs
  | fi :: fis => if child_is_valid fi then report_flows ts (report_flow ts bs fi) fis else None
  end.

Definition expired (ts : Time) (e : Time * FlowInfo) : bool :=
  time_ltb (time_plus (fst e) (usage_history_window config_)) ts.

Definition to_erase (ts : Time) (bs : BundleState) : list FlowMarker :=
  map fst (filter (fun p => expired ts (snd p) = true) (map_to_list (active bs))).

Definition bury (ts : Time) (bs : BundleState) (m : FlowMarker) : BundleState :=
  match active bs !! m with
  | Some (_, fi) => mkBundleState (last_updated bs) (delete m (active bs))
                      (<[m := (ts, fi)]> (dead bs))
  | None => bs
  end.

Definition update_bundle (b : InfoBundle) (bs : BundleState) : option BundleState :=
  bs ← report_flows (timestamp b) bs (flow_infos b);
  Some (foldl (bury (timestamp b)) bs (to_erase (timestamp b) bs)).
End Update.

(** ** ForEachAgg: one pass over the flows *)

Record AggWIP := mkAggWIP {
  oldest_active_time : Time;
  newest_dead_time : Time;
  wip_cum_hipri : Z;
  wip_cum_lopri : Z;
  sum_ewma_usage_bps : Z;
  sum_ewma_hipri_usage_bps : Z;
  sum_ewma_lopri_usage_bps : Z;
  wip_children : list FlowInfo }.

Definition new_AggWIP : AggWIP := mkAggWIP InfiniteFuture InfinitePast 0 0 0 0 0 [].

Definition add_active (w : AggWIP) (e : Time * FlowInfo) : AggWIP :=
  let '(t, fi) := e in
  mkAggWIP (time_min (oldest_active_time w) t) (newest_dead_time w)
    (i64 (wip_cum_hipri w + cum_hipri_usage_bytes fi))
    (i64 (wip_cum_lopri w + cum_lopri_usage_bytes fi))
    (i64 (sum_ewma_usage_bps w + ewma_usage_bps fi))
    (if currently_lopri fi then sum_ewma_hipri_usage_bps w
     else i64 (sum_ewma_hipri_usage_bps w + ewma_usage_bps fi))
    (if currently_lopri fi then i64 (sum_ewma_lopri_usage_bps w + ewma_usage_bps fi)
     else sum_ewma_lopri_usage_bps w)
    (wip_children w ++ [fi]).

Definition add_dead (w : AggWIP) (e : Time * FlowInfo) : AggWIP :=
  let '(t, fi) := e in
  mkAggWIP (oldest_active_time w) (time_max (newest_dead_time w) t)
    (i64 (wip_cum_hipri w + cum_hipri_usage_bytes fi))
    (i64 (wip_cum_lopri w + cum_lopri_usage_bytes fi))
    (sum_ewma_usage_bps w) (sum_ewma_hipri_usage_bps w) (sum_ewma_lopri_usage_bps w)
    (wip_children w).

Section ForEachAgg.
Context (config_ : FlowAggregator_Config) (agg_demand_predictor_ : DemandPredictor).

(** The state [GetAggWIP] finds or inserts, updated in place. *)
Definition on_agg_wip (add : AggWIP -> Time * FlowInfo -> AggWIP)
    (wips : FlowMap AggWIP) (p : FlowMarker * (Time * FlowInfo)) : FlowMap AggWIP :=
  let m := get_agg_flow_fn config_ (fst p) in
  <[m := add (default new_AggWIP (wips !! m)) (snd p)]> wips.

Definition add_bundle (wips : FlowMap AggWIP) (bs : BundleState) : FlowMap AggWIP :=
  foldl (on_agg_wip add_dead)
    (foldl (on_agg_wip add_active) wips (map_to_list (active bs)))
    (map_to_list (dead bs)).

Definition agg_wips (bss : list BundleState) : FlowMap AggWIP := foldl add_bundle ∅ bss.

Definition wip_time (w : AggWIP) : Time :=
  if negb (time_leb InfiniteFuture (oldest_active_time w)) then oldest_active_time w
  else if negb (time_leb (newest_dead_time w) InfinitePast) then newest_dead_time w
  else UnixEpoch.

Definition wip_update (w : AggWIP) : AggUpdate :=
  mkAggUpdate (wip_time w) (sum_ewma_usage_bps w) (sum_ewma_hipri_usage_bps w)
    (sum_ewma_lopri_usage_bps w) (wip_cum_hipri w) (wip_cum_lopri w) None.

(** [GetAggState]: found or inserted. *)
Definition GetAggState (m : FlowMarker) (states : FlowMap AggState) : AggState :=
  default (new_AggState m false) (states !! m).

(** One aggregate: its state is updated, then [func] is called with the time
    and the aggregate. *)
Definition update_agg (states : FlowMap AggState) (p : FlowMarker * AggWIP)
    : option (FlowMap AggState * (Time * AggInfo)) :=
  let '(m, wip) := p in
  s ← Agg_UpdateUsage (GetAggState m states) (wip_update wip) (usage_history_window config_)
        agg_demand_predictor_;
  Some (<[m := s]> states, (wip_time wip, mkAggInfo (cur_ s) (wip_children wip))).

Fixpoint update_aggs (states : FlowMap AggState) (wips : list (FlowMarker * AggWIP))
    : option (FlowMap AggState * list (Time * AggInfo)) :=
  match wips with
  | [] => Some (states, [])
  | p :: wips =>
      '(states, call) ← update_agg states p;
      '(states, calls) ← update_aggs states wips;
      Some (states, call :: calls)
  end.
End ForEachAgg.

(** ** The class, over any map of bundlers *)

Section Class.
Context {M : Type} `{IndexedMap FlowMarker BundleState M}.
Context (config_ : FlowAggregator_Config) (agg_demand_predictor_ : DemandPredictor).

Record FlowAggregator := mkFlowAggregator {
  bundle_states_ : M;
  agg_states_ : FlowMap AggState }.

Definition new_FlowAggregator : FlowAggregator := mkFlowAggregator im_new ∅.

Definition GetBundlerID (fa : FlowAggregator) (b : FlowMarker) : option (FlowAggregator * ParID) :=
  '(m, (id, _)) ← im_GetID (bundle_states_ fa) b;
  Some (mkFlowAggregator m (agg_states_ fa), id).

Definition Update (fa : FlowAggregator) (bundler_id : ParID) (b : InfoBundle)
    : option FlowAggregator :=
  m ← im_OnID (bundle_states_ fa) bundler_id (update_bundle config_ b);
  Some (mkFlowAggregator m (agg_states_ fa)).

(** The calls of [func], in order. *)
Definition ForEachAgg (fa : FlowAggregator) : option (FlowAggregator * list (Time * AggInfo)) :=
  bss ← im_ForEach (bundle_states_ fa) 0 (im_NumIDs (bundle_states_ fa));
  '(states, calls) ← update_aggs config_ agg_demand_predictor_ (agg_states_ fa)
                       (map_to_list (agg_wips config_ (map snd bss)));
  Some (mkFlowAggregator (bundle_states_ fa) states, calls).
End Class.
End Aggregator.

(** ** What an update does to a bundler's flows *)

Section UpdateSpec.
Context `{ClockLaws} (config_ : FlowAggregator_Config).

(** The flows of the two maps are distinct. *)
Definition bundle_disjoint (bs : BundleState) : Prop := active bs ##ₘ dead bs.

Definition last_report (m : FlowMarker) (fis : list FlowInfo) : option FlowInfo :=
  last (filter (fun fi => flow fi = m) fis).

Lemma last_report_cons m fi fis :
  last_report m (fi :: fis) =
  match last_report m fis with
  | Some fi' => Some fi'
  | None => if decide (flow fi = m) then Some fi else None
  end.
Proof.
  unfold last_report. destruct (decide (flow fi = m)).
  - rewrite filter_cons_True by done. rewrite last_cons. by destruct (last _).
  - rewrite filter_cons_False by done. by destruct (last _).
Qed.

Lemma report_flow_disjoint ts bs fi :
  bundle_disjoint bs -> bundle_disjoint (report_flow ts bs fi).
Proof.
  unfold bundle_disjoint, report_flow. rewrite !map_disjoint_spec. intros Hd m x y.
  destruct (active bs !! flow fi) eqn:E; cbn [active dead].
  - destruct (decide (flow fi = m)) as [<-|]; [|rewrite lookup_insert_ne by done; apply Hd].
    intros _ Hy. by eapply Hd.
  - destruct (decide (flow fi = m)) as [<-|].
    + rewrite lookup_delete_eq. done.
    + rewrite lookup_insert_ne, lookup_delete_ne by done. apply Hd.
Qed.

Lemma report_flow_lookup ts bs fi m :
  bundle_disjoint bs ->
  active (report_flow ts bs fi) !! m =
    (if decide (flow fi = m) then Some (ts, fi) else active bs !! m) /\
  dead (report_flow ts bs fi) !! m = (if decide (flow fi = m) then None else dead bs !! m).
Proof.
  unfold bundle_disjoint, report_flow. intros Hd.
  assert (Hdead : forall e, active bs !! m = Some e -> dead bs !! m = None).
  { intros e He. by eapply map_disjoint_Some_l. }
  destruct (active bs !! flow fi) eqn:E; cbn [active dead]; case_decide; subst;
    rewrite ?lookup_insert_eq, ?lookup_delete_eq; split; try done; eauto;
    by rewrite ?lookup_insert_ne, ?lookup_delete_ne.
Qed.

Lemma report_flows_spec ts fis : forall bs,
  bundle_disjoint bs ->
  report_flows config_ ts bs fis =
    (if forallb (child_is_valid config_) fis then Some (foldl (report_flow ts) bs fis) else None) /\
  bundle_disjoint (foldl (report_flow ts) bs fis) /\
  forall m,
    active (foldl (report_flow ts) bs fis) !! m =
      match last_report m fis with Some fi => Some (ts, fi) | None => active bs !! m end /\
    dead (foldl (report_flow ts) bs fis) !! m =
      match last_report m fis with Some fi => None | None => dead bs !! m end.
Proof.
  induction fis as [|fi fis IH]; intros bs Hd; [done|].
  destruct (IH (report_flow ts bs fi)) as (Hr & Hd' & Hl); [by apply report_flow_disjoint|].
  cbn [report_flows forallb foldl]. rewrite Hr. split_and!; [by destruct (child_is_valid _ fi)|done|].
  intros m. destruct (Hl m) as [-> ->], (report_flow_lookup ts bs fi m Hd) as [-> ->].
  rewrite last_report_cons. destruct (last_report m fis); [done|]. by case_decide.
Qed.

Lemma bury_lookup ts ms m : forall bs,
  active (foldl (bury ts) bs ms) !! m =
    (if bool_decide (m ∈ ms) then None else active bs !! m) /\
  dead (foldl (bury ts) bs ms) !! m =
    match active bs !! m with
    | Some (_, fi) => if bool_decide (m ∈ ms) then Some (ts, fi) else dead bs !! m
    | None => dead bs !! m
    end.
Proof.
  induction ms as [|k ms IH]; intros bs; cbn [foldl].
  { rewrite bool_decide_eq_false_2 by set_solver. by destruct (active bs !! m) as [[]|]. }
  destruct (IH (bury ts bs k)) as [-> ->]. unfold bury.
  destruct (active bs !! k) as [[t fi]|] eqn:Ek; cbn [active dead];
    destruct (decide (m = k)) as [->|Hne].
  - rewrite lookup_delete_eq, lookup_insert_eq, Ek.
    rewrite (bool_decide_eq_true_2 (k ∈ k :: ms)) by set_solver. by case_bool_decide.
  - rewrite lookup_delete_ne, lookup_insert_ne by done.
    rewrite (bool_decide_ext (m ∈ k :: ms) (m ∈ ms)) by set_solver. done.
  - rewrite Ek. rewrite (bool_decide_eq_true_2 (k ∈ k :: ms)) by set_solver. by case_bool_decide.
  - rewrite (bool_decide_ext (m ∈ k :: ms) (m ∈ ms)) by set_solver. done.
Qed.

Lemma elem_of_to_erase ts bs m :
  m ∈ to_erase config_ ts bs <-> exists e, active bs !! m = Some e /\ expired config_ ts e = true.
Proof.
  unfold to_erase. rewrite list_elem_of_fmap. split.
  - intros ([k e] & -> & [He Hin]%list_elem_of_filter). apply elem_of_map_to_list in Hin. eauto.
  - intros (e & Hm & He). exists (m, e). split; [done|]. apply list_elem_of_filter.
    split; [done|]. by apply elem_of_map_to_list.
Qed.

(** Where a flow is after an update. *)
Definition flow_after (b : InfoBundle) (bs : BundleState) (m : FlowMarker)
    : option (Time * FlowInfo) * option (Time * FlowInfo) :=
  match last_report m (flow_infos b) with
  | Some fi => (Some (timestamp b, fi), None)
  | None =>
      match active bs !! m with
      | Some e => if expired config_ (timestamp b) e then (None, Some (timestamp b, snd e))
                  else (Some e, None)
      | None => (None, dead bs !! m)
      end
  end.

Lemma update_bundle_lookup b bs :
  bundle_disjoint bs -> dur_leb ZeroDuration (usage_history_window config_) = true ->
  forallb (child_is_valid config_) (flow_infos b) = true ->
  exists bs', update_bundle config_ b bs = Some bs' /\ bundle_disjoint bs' /\
    forall m, (active bs' !! m, dead bs' !! m) = flow_after b bs m.
Proof.
  intros Hd Hw Hv. unfold update_bundle.
  destruct (report_flows_spec (timestamp b) (flow_infos b) bs Hd) as (-> & Hd1 & Hl1).
  rewrite Hv. cbn [mbind option_bind]. set (bs1 := foldl _ _ _) in *. eexists. split; [done|].
  assert (Hall : forall m, (active (foldl (bury (timestamp b)) bs1
                     (to_erase config_ (timestamp b) bs1)) !! m,
                   dead (foldl (bury (timestamp b)) bs1
                     (to_erase config_ (timestamp b) bs1)) !! m) = flow_after b bs m).
  { intros m. destruct (bury_lookup (timestamp b) (to_erase config_ (timestamp b) bs1) m bs1)
      as [-> ->].
    destruct (Hl1 m) as [Ha1 Hdd1]. unfold flow_after.
    assert (Hin : m ∈ to_erase config_ (timestamp b) bs1 <-> exists e, active bs1 !! m = Some e /\
              expired config_ (timestamp b) e = true) by apply elem_of_to_erase.
    rewrite Ha1 in *. rewrite Hdd1. destruct (last_report m (flow_infos b)) as [fi|].
    - rewrite bool_decide_eq_false_2; [done|]. rewrite Hin. intros (e & [= <-] & He).
      unfold expired, time_ltb in He. cbn [fst] in He. by rewrite time_leb_plus in He.
    - destruct (active bs !! m) as [[t fi]|] eqn:Em.
      + destruct (expired config_ (timestamp b) (t, fi)) eqn:Ee.
        * rewrite bool_decide_eq_true_2 by (apply Hin; eauto). done.
        * rewrite bool_decide_eq_false_2.
          -- f_equal. by eapply map_disjoint_Some_l.
          -- rewrite Hin. intros (e & [= <-] & ?). congruence.
      + by case_bool_decide. }
  split; [|exact Hall]. apply map_disjoint_spec. intros m x y Hx Hy. specialize (Hall m).
  rewrite Hx, Hy in Hall. unfold flow_after in Hall.
  destruct (last_report _ _); [done|]. destruct (active bs !! m); [|done].
  by destruct (expired _ _ _).
Qed.
End UpdateSpec.

(** ** What [ForEachAgg] sums *)

Section ForEachAggSpec.
Context `{ClockLaws} (config_ : FlowAggregator_Config) (predictor : DemandPredictor).

(** A flow of a bundler, with whether it is active. *)
Definition flow_events (bs : BundleState) : list (bool * (FlowMarker * (Time * FlowInfo))) :=
  map (pair true) (map_to_list (active bs)) ++ map (pair false) (map_to_list (dead bs)).

Definition event_agg (ev : bool * (FlowMarker * (Time * FlowInfo))) : FlowMarker :=
  get_agg_flow_fn config_ (fst (snd ev)).
Definition event_info (ev : bool * (FlowMarker * (Time * FlowInfo))) : FlowInfo := snd (snd (snd ev)).

Definition add_event (w : AggWIP) (ev : bool * (FlowMarker * (Time * FlowInfo))) : AggWIP :=
  if fst ev then add_active w (snd (snd ev)) else add_dead w (snd (snd ev)).

Definition agg_events (k : FlowMarker) (bss : list BundleState) :=
  filter (fun ev => event_agg ev = k) (concat (map flow_events bss)).

Lemma agg_wips_lookup bss k :
  agg_wips config_ bss !! k =
  match agg_events k bss with [] => None | evs => Some (foldl add_event new_AggWIP evs) end.
Proof.
  unfold agg_wips, agg_events.
  assert (E : forall m, foldl (add_bundle config_) m bss =
    foldl (fun m ev => <[event_agg ev := add_event (default new_AggWIP (m !! event_agg ev)) ev]> m)
      m (concat (map flow_events bss))).
  { induction bss as [|bs bss IH]; intros m; [done|]. cbn [foldl map concat].
    rewrite foldl_app, <- IH. f_equal. unfold add_bundle, flow_events. rewrite foldl_app.
    assert (Ef : forall b add l m', (forall w ev, fst ev = b -> add_event w ev = add w (snd (snd ev))) ->
      foldl (on_agg_wip config_ add) m' l =
      foldl (fun m ev => <[event_agg ev := add_event (default new_AggWIP (m !! event_agg ev)) ev]> m)
        m' (map (pair b) l)).
    { intros b add l. induction l as [|p l IHl]; intros m' Hb; [done|]. cbn [foldl map].
      rewrite IHl by done. f_equal. by rewrite Hb. }
    erewrite <- (Ef true add_active), <- (Ef false add_dead); [done| |];
      intros w ev Hev; unfold add_event; by rewrite Hev. }
  rewrite E, group_fold. by rewrite lookup_empty.
Qed.

(** One field of the sums. *)
Lemma foldl_i64_sum (field : AggWIP -> Z) (g : FlowInfo -> Z) evs :
  (forall w ev, field (add_event w ev) = i64 (field w + g (event_info ev))) ->
  forall w, in_i64 (field w) ->
  field (foldl add_event w evs) = i64 (field w + zsum (map (fun ev => g (event_info ev)) evs)).
Proof.
  intros Hf. induction evs as [|ev evs IH]; intros w Hw; cbn [foldl map].
  - rewrite zsum_nil, Z.add_0_r. by rewrite i64_id.
  - rewrite IH; rewrite Hf; [|apply i64_in_range]. rewrite zsum_cons, i64_add_l. f_equal. lia.
Qed.

Lemma foldl_children evs : forall w,
  wip_children (foldl add_event w evs) =
  wip_children w ++ map event_info (filter (fun ev => fst ev = true) evs).
Proof.
  induction evs as [|[[] [m [t fi]]] evs IH]; intros w; cbn [foldl].
  - by rewrite app_nil_r.
  - rewrite IH, filter_cons_True by done. cbn. by rewrite <- app_assoc.
  - rewrite IH, filter_cons_False by done. done.
Qed.

Lemma time_min_le a b : time_leb (time_min a b) a = true /\ time_leb (time_min a b) b = true.
Proof.
  unfold time_min. destruct (time_ltb b a) eqn:E; split; auto with heyp.
  unfold time_ltb in E. by apply negb_false_iff in E.
Qed.

Lemma foldl_oldest evs : forall w,
  time_leb (oldest_active_time (foldl add_event w evs)) (oldest_active_time w) = true /\
  forall ev, ev ∈ evs -> fst ev = true ->
    time_leb (oldest_active_time (foldl add_event w evs)) (fst (snd (snd ev))) = true.
Proof.
  induction evs as [|[b [m [t fi]]] evs IH]; intros w; cbn [foldl].
  - split; [apply time_leb_refl|]. intros ev Hev. by apply elem_of_nil in Hev.
  - destruct (IH (add_event w (b, (m, (t, fi))))) as [Hw Hevs].
    destruct b; cbn [add_event fst snd add_active add_dead oldest_active_time] in *.
    + destruct (time_min_le (oldest_active_time w) t) as [Hm1 Hm2]. split.
      * by eapply time_leb_trans.
      * intros ev [->|Hev]%elem_of_cons Hb; [|by apply Hevs]. by eapply time_leb_trans.
    + split; [done|]. intros ev [->|Hev]%elem_of_cons Hb; [done|by apply Hevs].
Qed.

Lemma wip_time_oldest w t :
  time_leb (oldest_active_time w) t = true -> time_ltb t InfiniteFuture = true ->
  time_leb (wip_time w) t = true.
Proof.
  intros Ht Hf. unfold wip_time. destruct (time_leb InfiniteFuture _) eqn:E; [|done].
  exfalso. unfold time_ltb in Hf. apply negb_true_iff in Hf.
  rewrite (time_leb_trans _ _ _ E Ht) in Hf. done.
Qed.

(** ** Totals *)

Definition bundle_total (g : FlowInfo -> Z) (k : FlowMarker) (bs : BundleState) : Z :=
  map_sum (fun m e => if decide (get_agg_flow_fn config_ m = k) then g (snd e) else 0)
    (active bs ∪ dead bs).
Definition total (g : FlowInfo -> Z) (k : FlowMarker) (bss : list BundleState) : Z :=
  zsum (map (bundle_total g k) bss).

Lemma zsum_filter {A} (P : A -> Prop) `{!forall x, Decision (P x)} (f : A -> Z) (l : list A) :
  zsum (map f (filter P l)) = zsum (map (fun x => if decide (P x) then f x else 0) l).
Proof.
  induction l as [|x l IH]; [done|]. cbn [map]. rewrite zsum_cons, filter_cons.
  case_decide; cbn [map]; rewrite ?zsum_cons; lia.
Qed.

Lemma agg_events_total g k bss :
  Forall bundle_disjoint bss ->
  zsum (map (fun ev => g (event_info ev)) (agg_events k bss)) = total g k bss.
Proof.
  intros Hd. unfold agg_events. rewrite zsum_filter. unfold total.
  induction Hd as [|bs bss Hbs _ IH]; [done|]. cbn [map concat].
  rewrite map_app, zsum_app, IH, zsum_cons. f_equal. unfold bundle_total, flow_events.
  rewrite map_sum_union by exact Hbs. rewrite map_app, zsum_app. unfold map_sum.
  by rewrite !map_map.
Qed.

(** ** The invariant of the aggregator *)

Record bundle_ok (bs : BundleState) : Prop := {
  bo_disjoint : bundle_disjoint bs;
  bo_counters : forall m e, (active bs ∪ dead bs) !! m = Some e ->
    0 <= cum_hipri_usage_bytes (snd e) /\ 0 <= cum_lopri_usage_bytes (snd e);
  bo_times : forall m e, active bs !! m = Some e -> time_ltb (fst e) InfiniteFuture = true }.

(** The state of an aggregate never counts more than its flows do. *)
Definition states_ok (bss : list BundleState) (states : gmap FlowMarker AggState) : Prop :=
  forall k s, states !! k = Some s ->
    agg_ok s /\ flow (cur_ s) = k /\
    cum_hipri_usage_bytes (cur_ s) <= total cum_hipri_usage_bytes k bss /\
    cum_lopri_usage_bytes (cur_ s) <= total cum_lopri_usage_bytes k bss.

Lemma total_nonneg k bss :
  Forall bundle_ok bss ->
  0 <= total cum_hipri_usage_bytes k bss /\ 0 <= total cum_lopri_usage_bytes k bss.
Proof.
  intros Hok. unfold total. split; apply zsum_nonneg;
    intros x (bs & -> & Hin)%list_elem_of_fmap;
    (eapply Forall_forall in Hok; [|done]);
    apply map_sum_nonneg; intros m e He; destruct (bo_counters bs Hok m e He);
    by case_decide.
Qed.

(** What is reported for an aggregate, given the states before. *)
Record agg_reported (bss : list BundleState) (states : gmap FlowMarker AggState)
    (k : FlowMarker) (call : Time * AggInfo) : Prop := {
  ar_flow : flow (parent (snd call)) = k;
  ar_children : children (snd call) =
    map event_info (filter (fun ev => fst ev = true) (agg_events k bss));
  ar_time : forall bs m e, bs ∈ bss -> active bs !! m = Some e ->
    get_agg_flow_fn config_ m = k -> time_leb (fst call) (fst e) = true;
  ar_counters :
    (exists s, states !! k = Some s /\ time_ltb (fst call) (updated_time_ s) = true /\
       parent (snd call) = cur_ s) \/
    (cum_hipri_usage_bytes (parent (snd call)) = total cum_hipri_usage_bytes k bss /\
     cum_lopri_usage_bytes (parent (snd call)) = total cum_lopri_usage_bytes k bss) }.

Definition small_totals (bss : list BundleState) : Prop :=
  forall k, total cum_hipri_usage_bytes k bss < 2 ^ 63 /\
            total cum_lopri_usage_bytes k bss < 2 ^ 63.

(** The sum over all flows bounds the total of every aggregate. *)
Definition all_flows_sum (g : FlowInfo -> Z) (bss : list BundleState) : Z :=
  zsum (map (fun bs => map_sum (fun _ e => g (snd e)) (active bs ∪ dead bs)) bss).

Lemma total_le_all g k bss :
  (forall bs m e, bs ∈ bss -> (active bs ∪ dead bs) !! m = Some e -> 0 <= g (snd e)) ->
  total g k bss <= all_flows_sum g bss.
Proof.
  intros Hg. unfold total, all_flows_sum. induction bss as [|bs bss IH]; [done|].
  cbn [map]. rewrite !zsum_cons.
  assert (bundle_total g k bs <= map_sum (fun _ e => g (snd e)) (active bs ∪ dead bs)).
  { unfold bundle_total. set (all := _ ∪ _). unfold map_sum.
    assert (Hin : forall p, p ∈ map_to_list all -> 0 <= g (snd (snd p))).
    { intros [m e] Hp%elem_of_map_to_list. apply (Hg bs m e); [by left|done]. }
    induction (map_to_list all) as [|p l IHl]; [done|]. cbn [map]. rewrite !zsum_cons.
    pose proof (Hin p ltac:(by left)). specialize (IHl ltac:(intros q Hq; apply Hin; by right)).
    case_decide; lia. }
  specialize (IH ltac:(intros b m e Hb; apply (Hg b m e); by right)). lia.
Qed.

Lemma small_totals_bound bss :
  Forall bundle_ok bss -> all_flows_sum cum_hipri_usage_bytes bss < 2 ^ 63 ->
  all_flows_sum cum_lopri_usage_bytes bss < 2 ^ 63 -> small_totals bss.
Proof.
  intros Hok Hh Hl k. rewrite Forall_forall in Hok.
  split; (eapply Z.le_lt_trans; [apply total_le_all|done]);
    intros bs m e Hbs He; by apply (bo_counters bs (Hok bs Hbs) m e).
Qed.

Lemma update_agg_spec bss states k wip :
  Forall bundle_ok bss -> small_totals bss -> states_ok bss states ->
  agg_wips config_ bss !! k = Some wip ->
  exists states' call, update_agg config_ predictor states (k, wip) = Some (states', call) /\
    states_ok bss states' /\ agg_reported bss states k call /\
    forall k', k' <> k -> states' !! k' = states !! k'.
Proof.
  intros Hok Hsmall Hst Hwip. rewrite agg_wips_lookup in Hwip.
  assert (Hw : wip = foldl add_event new_AggWIP (agg_events k bss)).
  { destruct (agg_events k bss); [done|]. by injection Hwip as <-. }
  clear Hwip. destruct (total_nonneg k bss Hok) as [H0h H0l]. destruct (Hsmall k) as [Hsh Hsl].
  assert (Hdis : Forall bundle_disjoint bss) by (eapply Forall_impl; [exact Hok|apply bo_disjoint]).
  assert (Hh : wip_cum_hipri wip = total cum_hipri_usage_bytes k bss).
  { rewrite Hw, (foldl_i64_sum wip_cum_hipri cum_hipri_usage_bytes).
    - rewrite agg_events_total by done. rewrite i64_id; unfold in_i64; cbn; lia.
    - by intros w [[] [m [t fi]]].
    - done. }
  assert (Hl : wip_cum_lopri wip = total cum_lopri_usage_bytes k bss).
  { rewrite Hw, (foldl_i64_sum wip_cum_lopri cum_lopri_usage_bytes).
    - rewrite agg_events_total by done. rewrite i64_id; unfold in_i64; cbn; lia.
    - by intros w [[] [m [t fi]]].
    - done. }
  assert (Hs : agg_ok (GetAggState k states) /\ flow (cur_ (GetAggState k states)) = k /\
    cum_hipri_usage_bytes (cur_ (GetAggState k states)) <= total cum_hipri_usage_bytes k bss /\
    cum_lopri_usage_bytes (cur_ (GetAggState k states)) <= total cum_lopri_usage_bytes k bss).
  { unfold GetAggState. destruct (states !! k) as [s|] eqn:E; cbn [default]; [by apply Hst|].
    split_and!; [apply new_AggState_ok|done|done|done]. }
  destruct Hs as (Hsok & Hsf & Hsh' & Hsl'). unfold update_agg.
  assert (Hchild : wip_children wip =
    map event_info (filter (fun ev => fst ev = true) (agg_events k bss)))
    by (by rewrite Hw, foldl_children).
  assert (Htime : forall bs m e, bs ∈ bss -> active bs !! m = Some e ->
    get_agg_flow_fn config_ m = k -> time_leb (wip_time wip) (fst e) = true).
  { intros bs m e Hbs He Hm. apply wip_time_oldest.
    - rewrite Hw. destruct (foldl_oldest (agg_events k bss) new_AggWIP) as [_ Ho].
      apply (Ho (true, (m, e))); [|done]. apply list_elem_of_filter. split; [done|].
      apply list_elem_of_In, in_concat. exists (flow_events bs).
      split; apply list_elem_of_In; [by apply list_elem_of_fmap_2|].
      apply elem_of_app. left. apply list_elem_of_fmap_2. by apply elem_of_map_to_list.
    - eapply (bo_times bs); [|done]. by eapply Forall_forall in Hok. }
  destruct (time_ltb (wip_time wip) (updated_time_ (GetAggState k states))) eqn:Hold.
  - assert (Agg_UpdateUsage (GetAggState k states) (wip_update wip)
      (usage_history_window config_) predictor = Some (GetAggState k states)) as ->
      by (unfold Agg_UpdateUsage; cbn [u_time wip_update]; by rewrite Hold).
    cbn [mbind option_bind]. eexists _, _. split; [done|]. split_and!.
    + intros k' s' Hk'. apply lookup_insert_Some in Hk' as [[<- <-]|[? Hk']]; [done|by apply Hst].
    + split; cbn [fst snd parent children]; try done. left.
      unfold GetAggState in *. destruct (states !! k) as [s|]; cbn [default] in *; [by exists s|].
      exfalso. cbn in Hold. unfold time_ltb in Hold. by rewrite time_leb_past in Hold.
    + intros k' Hne. by rewrite lookup_insert_ne.
  - destruct (Agg_UpdateUsage_newer (GetAggState k states) (wip_update wip)
      (usage_history_window config_) predictor) as (s' & -> & Hok' & (Hc1 & Hc2 & Ht) & (Hf & _) & _);
      [done|done|cbn; lia|cbn; lia|].
    cbn [mbind option_bind u_cum_hipri_usage_bytes u_cum_lopri_usage_bytes wip_update] in *.
    rewrite Hh in Hc1. rewrite Hl in Hc2.
    eexists _, _. split; [done|]. split_and!.
    + intros k' s'' Hk'. apply lookup_insert_Some in Hk' as [[<- <-]|[? Hk']]; [|by apply Hst].
      split_and!; [done|congruence|lia|lia].
    + split; cbn [fst snd parent children]; try done; [congruence|]. by right.
    + intros k' Hne. by rewrite lookup_insert_ne.
Qed.

Lemma update_aggs_spec bss wips : forall states,
  Forall bundle_ok bss -> small_totals bss -> states_ok bss states ->
  NoDup (map fst wips) ->
  (forall k w, (k, w) ∈ wips -> agg_wips config_ bss !! k = Some w) ->
  exists states' calls, update_aggs config_ predictor states wips = Some (states', calls) /\
    states_ok bss states' /\ Forall2 (agg_reported bss states) (map fst wips) calls.
Proof.
  induction wips as [|[k w] wips IH]; intros states Hok Hsmall Hst Hnd Hw.
  - exists states, []. done.
  - cbn [map fst] in *. apply NoDup_cons in Hnd as [Hk Hnd]. cbn [update_aggs].
    destruct (update_agg_spec bss states k w Hok Hsmall Hst) as (st1 & call & -> & Hst1 & Hr & Hsame);
      [apply Hw; set_solver|].
    cbn [mbind option_bind]. destruct (IH st1) as (st2 & calls & -> & Hst2 & Hrs); try done.
    { intros k' w' Hin. apply Hw. set_solver. }
    cbn [mbind option_bind]. eexists _, _. split; [done|]. split; [done|].
    constructor; [done|]. apply Forall2_same_length_lookup in Hrs as [Hlen Hrs].
    apply Forall2_same_length_lookup. split; [done|]. intros i k' c Hi Hc.
    destruct (Hrs i k' c Hi Hc) as [Hf1 Hf2 Hf3 Hf4]. split; try done.
    destruct Hf4 as [(s & Hs & Hrest)|?]; [left|by right]. exists s. split; [|done].
    rewrite <- Hsame; [done|]. intros ->. apply Hk. by eapply list_elem_of_lookup_2.
Qed.
End ForEachAggSpec.

(** ** The class over the interface *)

Section ClassSpec.
Context `{ClockLaws} {M : Type} `{!IndexedMap FlowMarker BundleState M} {limit : Z}
  `{!IndexedMapLaws FlowMarker BundleState M new_BundleState limit}.
Context (config_ : FlowAggregator_Config) (predictor : DemandPredictor).

Definition bundles (fa : FlowAggregator) : list BundleState := im_contents (bundle_states_ fa).

Record agg_inv (fa : @FlowAggregator _ M) : Prop := {
  ai_map : im_ok (bundle_states_ fa);
  ai_bundles : Forall bundle_ok (bundles fa);
  ai_states : states_ok config_ (bundles fa) (agg_states_ fa) }.

Lemma new_FlowAggregator_inv : agg_inv new_FlowAggregator.
Proof.
  destruct im_new_ok as (Hok & Hc & _). split; unfold bundles; cbn; [done| |].
  - by rewrite Hc.
  - intros k s Hk. by rewrite lookup_empty in Hk.
Qed.

Lemma total_app g k bss bss' :
  total config_ g k (bss ++ bss') = total config_ g k bss + total config_ g k bss'.
Proof. unfold total. by rewrite map_app, zsum_app. Qed.

Lemma GetBundlerID_inv fa b :
  agg_inv fa -> im_ids (bundle_states_ fa) !! b = None -> im_NumIDs (bundle_states_ fa) < limit ->
  exists fa', GetBundlerID fa b = Some (fa', im_NumIDs (bundle_states_ fa)) /\ agg_inv fa' /\
    bundles fa' = bundles fa ++ [new_BundleState].
Proof.
  intros [Hm Hb Hs] Hnone Hlt. unfold GetBundlerID.
  destruct (im_GetID_new _ b Hm Hnone Hlt) as (m' & -> & Hok' & Hc & _).
  cbn [mbind option_bind]. eexists. split; [done|]. unfold bundles in *.
  cbn [bundle_states_ agg_states_]. split; [|done].
  split; unfold bundles; cbn [bundle_states_ agg_states_]; [done| |]; rewrite Hc.
  - apply Forall_app. split; [done|]. constructor; [|done].
    split; [apply map_disjoint_empty_l| |]; intros m e He; cbn in He.
    + rewrite (left_id_L ∅ (∪)) in He. by rewrite lookup_empty in He.
    + by rewrite lookup_empty in He.
  - intros k s Hk. destruct (Hs k s Hk) as (? & ? & ? & ?). rewrite !total_app.
    assert (E : forall g, total config_ g k [new_BundleState] = 0).
    { intros g. unfold total, bundle_total. cbn [map new_BundleState active dead].
      rewrite (left_id_L ∅ (∪)). unfold map_sum. rewrite map_to_list_empty. done. }
    rewrite !E. split_and!; try done; lia.
Qed.

(** A bundle whose flows count at least what they counted before. *)
Record bundle_monotone (bs : BundleState) (b : InfoBundle) : Prop := {
  bm_time : time_ltb (timestamp b) InfiniteFuture = true;
  bm_nonneg : forall fi, fi ∈ flow_infos b ->
    0 <= cum_hipri_usage_bytes fi /\ 0 <= cum_lopri_usage_bytes fi;
  bm_grow : forall fi e, fi ∈ flow_infos b -> (active bs ∪ dead bs) !! flow fi = Some e ->
    cum_hipri_usage_bytes (snd e) <= cum_hipri_usage_bytes fi /\
    cum_lopri_usage_bytes (snd e) <= cum_lopri_usage_bytes fi }.

Lemma last_report_elem m fis fi : last_report m fis = Some fi -> fi ∈ fis /\ flow fi = m.
Proof.
  unfold last_report. intros Hl%last_Some_elem_of. apply list_elem_of_filter in Hl. tauto.
Qed.

Lemma pair_lookup_union bs m :
  (active bs ∪ dead bs) !! m = match active bs !! m with Some e => Some e | None => dead bs !! m end.
Proof. rewrite lookup_union. by destruct (active bs !! m), (dead bs !! m). Qed.

Lemma update_bundle_ok b bs :
  bundle_ok bs -> dur_leb ZeroDuration (usage_history_window config_) = true ->
  forallb (child_is_valid config_) (flow_infos b) = true -> bundle_monotone bs b ->
  exists bs', update_bundle config_ b bs = Some bs' /\ bundle_ok bs' /\
    (forall m, (active bs' !! m, dead bs' !! m) = flow_after config_ b bs m) /\
    forall k, bundle_total config_ cum_hipri_usage_bytes k bs <=
                bundle_total config_ cum_hipri_usage_bytes k bs' /\
              bundle_total config_ cum_lopri_usage_bytes k bs <=
                bundle_total config_ cum_lopri_usage_bytes k bs'.
Proof.
  intros [Hd Hc Htm] Hw Hv [Hbt Hnn Hgr].
  destruct (update_bundle_lookup config_ b bs Hd Hw Hv) as (bs' & Hu & Hd' & Hall).
  exists bs'. split; [done|].
  (* every flow of [bs'] was reported or comes from [bs] *)
  assert (Hfrom : forall m e, (active bs' ∪ dead bs') !! m = Some e ->
    (exists fi, last_report m (flow_infos b) = Some fi /\ snd e = fi) \/
    (last_report m (flow_infos b) = None /\
     exists e0, (active bs ∪ dead bs) !! m = Some e0 /\ snd e = snd e0)).
  { intros m e. rewrite !pair_lookup_union. specialize (Hall m). unfold flow_after in Hall.
    destruct (last_report m (flow_infos b)) as [fi|].
    { injection Hall as -> _. intros [= <-]. left. by exists fi. }
    destruct (active bs !! m) as [e0|];
      [destruct (expired config_ (timestamp b) e0)|]; injection Hall as Ha Hdd; rewrite Ha, ?Hdd;
      intros He; simplify_eq/=; right; (split; [done|]); eauto. }
  assert (Hkeep : forall m e, (active bs ∪ dead bs) !! m = Some e ->
    exists e', (active bs' ∪ dead bs') !! m = Some e' /\
      cum_hipri_usage_bytes (snd e) <= cum_hipri_usage_bytes (snd e') /\
      cum_lopri_usage_bytes (snd e) <= cum_lopri_usage_bytes (snd e')).
  { intros m e He. pose proof He as Hu0. rewrite pair_lookup_union in He |- *.
    specialize (Hall m). unfold flow_after in Hall.
    destruct (last_report m (flow_infos b)) as [fi|] eqn:Elr.
    { injection Hall as -> _. apply last_report_elem in Elr as [Hin <-].
      eexists. split; [done|]. by apply Hgr. }
    destruct (active bs !! m) as [e0|];
      [injection He as ->; destruct (expired config_ (timestamp b) e)|];
      injection Hall as Ha Hdd; rewrite Ha, ?Hdd; eexists; (split; [done|]); cbn; lia. }
  assert (Hc' : forall m e, (active bs' ∪ dead bs') !! m = Some e ->
    0 <= cum_hipri_usage_bytes (snd e) /\ 0 <= cum_lopri_usage_bytes (snd e)).
  { intros m e [(fi & Hl & ->)|(_ & e0 & He0 & ->)]%Hfrom.
    - apply last_report_elem in Hl as [Hin _]. by apply Hnn.
    - by eapply Hc. }
  split; [|split; [exact Hall|]].
  - split; try done. intros m e He. specialize (Hall m). rewrite He in Hall.
    unfold flow_after in Hall. destruct (last_report m (flow_infos b)).
    + injection Hall as -> _. done.
    + destruct (active bs !! m) as [e0|] eqn:E0; [|done].
      destruct (expired config_ _ e0); [done|]. injection Hall as -> _. by eapply Htm.
  - intros k. unfold bundle_total. split; apply map_sum_mono.
    + intros m e He. destruct (Hkeep m e He) as (e' & ? & ? & ?). exists e'. split; [done|].
      by case_decide.
    + intros m e He. destruct (Hc' m e He). by case_decide.
    + intros m e He. destruct (Hkeep m e He) as (e' & ? & ? & ?). exists e'. split; [done|].
      by case_decide.
    + intros m e He. destruct (Hc' m e He). by case_decide.
Qed.

Lemma zsum_insert_mono (f : BundleState -> Z) bss i bs bs' :
  bss !! i = Some bs -> f bs <= f bs' -> zsum (map f bss) <= zsum (map f (<[i := bs']> bss)).
Proof.
  revert i. induction bss as [|x bss IH]; intros [|i] Hi Hf; [done..| |].
  - injection Hi as ->. cbn. unfold zsum. cbn. lia.
  - change (f x + zsum (map f bss) <= f x + zsum (map f (<[i := bs']> bss))).
    specialize (IH i Hi Hf). lia.
Qed.

Lemma Update_inv fa id bs b :
  agg_inv fa -> dur_leb ZeroDuration (usage_history_window config_) = true ->
  0 <= id -> bundles fa !! Z.to_nat id = Some bs ->
  forallb (child_is_valid config_) (flow_infos b) = true -> bundle_monotone bs b ->
  exists fa' bs', Update config_ fa id b = Some fa' /\ agg_inv fa' /\
    agg_states_ fa' = agg_states_ fa /\ bundles fa' = <[Z.to_nat id := bs']> (bundles fa) /\
    (forall m, (active bs' !! m, dead bs' !! m) = flow_after config_ b bs m).
Proof.
  intros [Hm Hb Hs] Hw Hid Hbs Hv Hmono.
  assert (Hok : bundle_ok bs) by (eapply Forall_lookup_1; [exact Hb|exact Hbs]).
  destruct (update_bundle_ok b bs Hok Hw Hv Hmono) as (bs' & Hu & Hok' & Hall & Htot).
  pose proof (im_OnID_spec _ id bs (update_bundle config_ b) Hm Hid Hbs) as Hon.
  rewrite Hu in Hon. destruct Hon as (m' & Hon & Hm' & Hc' & _).
  unfold Update. rewrite Hon. cbn [mbind option_bind]. eexists _, bs'. split; [done|].
  split_and!; try done. unfold bundles in *.
  split; unfold bundles; cbn [bundle_states_ agg_states_]; [done| |]; rewrite Hc'.
  - by apply Forall_insert.
  - intros k s Hk. destruct (Hs k s Hk) as (? & ? & Hh & Hl). split_and!; try done.
    + etransitivity; [exact Hh|]. eapply zsum_insert_mono; [exact Hbs|apply Htot].
    + etransitivity; [exact Hl|]. eapply zsum_insert_mono; [exact Hbs|apply Htot].
Qed.

Lemma ForEachAgg_inv fa :
  agg_inv fa -> small_totals config_ (bundles fa) ->
  exists fa' calls, ForEachAgg config_ predictor fa = Some (fa', calls) /\ agg_inv fa' /\
    bundle_states_ fa' = bundle_states_ fa /\
    Forall2 (agg_reported config_ (bundles fa) (agg_states_ fa))
      (map fst (map_to_list (agg_wips config_ (bundles fa)))) calls.
Proof.
  intros [Hm Hb Hs] Hsmall. unfold ForEachAgg, bundles in *.
  pose proof (im_num _ Hm) as Hn.
  rewrite im_ForEach_range by (done || lia). cbn [mbind option_bind].
  rewrite Z.sub_0_r, Hn, Nat2Z.id. cbn [Z.to_nat]. rewrite drop_0, take_ge by (by rewrite length_imap).
  assert (E : map snd (imap (fun i v => (Z.of_nat i, v)) (im_contents (bundle_states_ fa))) =
              im_contents (bundle_states_ fa)).
  { apply list_eq. intros i. rewrite list_lookup_fmap, list_lookup_imap.
    by destruct (im_contents _ !! i). }
  rewrite E.
  destruct (update_aggs_spec config_ predictor (im_contents (bundle_states_ fa))
    (map_to_list (agg_wips config_ (im_contents (bundle_states_ fa)))) (agg_states_ fa))
    as (st & calls & -> & Hst & Hrep); try done.
  - apply NoDup_fst_map_to_list.
  - intros k w. apply elem_of_map_to_list.
  - cbn [mbind option_bind]. eexists _, _. split; [done|]. split_and!; done.
Qed.
End ClassSpec.

(** C30: an update of a bundler's flows, over any map of bundlers that keeps
    the interface: with non-negative counters that did not go back, the
    update succeeds, changes only that bundler and keeps the invariant of
    the aggregator; a reported flow is active with the bundle's time and the
    last reported values and no longer dead; an active flow that was not
    reported for longer than the window is dead with the bundle's time and
    its last values; any other flow stays where it is. *)
Theorem Update_moves_flows `{ClockLaws} {M : Type} `{!IndexedMap FlowMarker BundleState M}
    {limit : Z} `{!IndexedMapLaws FlowMarker BundleState M new_BundleState limit}
    config_ fa id bs b :
  agg_inv config_ fa -> dur_leb ZeroDuration (usage_history_window config_) = true ->
  0 <= id -> bundles fa !! Z.to_nat id = Some bs ->
  forallb (child_is_valid config_) (flow_infos b) = true -> bundle_monotone bs b ->
  exists fa' bs', Update config_ fa id b = Some fa' /\ agg_inv config_ fa' /\
    agg_states_ fa' = agg_states_ fa /\ bundles fa' = <[Z.to_nat id := bs']> (bundles fa) /\
    forall m, (active bs' !! m, dead bs' !! m) =
      match last_report m (flow_infos b) with
      | Some fi => (Some (timestamp b, fi), None)
      | None =>
          match active bs !! m with
          | Some (t, fi) =>
              if time_ltb (time_plus t (usage_history_window config_)) (timestamp b)
              then (None, Some (timestamp b, fi)) else (Some (t, fi), None)
          | None => (None, dead bs !! m)
          end
      end.
Proof.
  intros Hinv Hw Hid Hbs Hv Hmono.
  destruct (Update_inv config_ fa id bs b) as (fa' & bs' & Hu & Hi & Hs & Hb & Hall); try done.
  exists fa', bs'. split_and!; try done. intros m. rewrite Hall. unfold flow_after, expired.
  destruct (last_report m _); [done|]. by destruct (active bs !! m) as [[]|].
Qed.

(** C26: a pass over the aggregates, over any map of bundlers that keeps the
    interface: it never stops, keeps the invariant, and reports every
    aggregate that has a flow exactly once, under its own marker, with the
    active flows as children and no later than the report of any of them;
    unless the sums are older than what the aggregate already knows, its
    byte counters are the totals over all active and dead flows of all
    bundlers. *)
Theorem ForEachAgg_reports `{ClockLaws} {M : Type} `{!IndexedMap FlowMarker BundleState M}
    {limit : Z} `{!IndexedMapLaws FlowMarker BundleState M new_BundleState limit}
    config_ predictor fa :
  agg_inv config_ fa -> small_totals config_ (bundles fa) ->
  exists fa' calls keys, ForEachAgg config_ predictor fa = Some (fa', calls) /\
    agg_inv config_ fa' /\ bundle_states_ fa' = bundle_states_ fa /\
    NoDup keys /\ (forall k, k ∈ keys <-> agg_events config_ k (bundles fa) <> []) /\
    Forall2 (agg_reported config_ (bundles fa) (agg_states_ fa)) keys calls.
Proof.
  intros Hinv Hsmall.
  destruct (ForEachAgg_inv config_ predictor fa Hinv Hsmall) as (fa' & calls & He & Hi & Hb & Hr).
  eexists fa', calls, _. split_and!; [done|done|done| | |exact Hr].
  - apply NoDup_fst_map_to_list.
  - intros k. rewrite list_elem_of_fmap. split.
    + intros ([k' w] & -> & Hin%elem_of_map_to_list). rewrite agg_wips_lookup in Hin.
      by destruct (agg_events _ _ _).
    + intros Hne. pose proof (agg_wips_lookup config_ (bundles fa) k) as Hl.
      destruct (agg_events _ _ _) as [|ev evs] eqn:E; [done|].
      eexists (k, _). split; [done|]. by apply elem_of_map_to_list.
Qed.

Section Example.
Let m1 : FlowMarker := mkFlowMarker "a" "b" "j" 7 "" "" UNSET 0 0 0.
Let fi1 : FlowInfo := mkFlowInfo m1 0 500 500 0 90 60 30 false None.
Let config : @FlowAggregator_Config ZClock := @NewHostToClusterAggregator ZClock (seconds 120).
Let bundle1 : @InfoBundle ZClock := @mkInfoBundle ZClock m1 (at_seconds 5) 1 [fi1].
Let Bundlers := @ParIndexedMap FlowMarker (@BundleState ZClock) _ _.
#[local] Instance example_ops : IndexedMap FlowMarker (@BundleState ZClock) Bundlers :=
  ParIndexedMap_ops (@new_BundleState ZClock) (fun _ => true).
#[local] Instance example_laws : IndexedMapLaws FlowMarker (@BundleState ZClock) Bundlers
    (@new_BundleState ZClock) (kSpanSize * kSpanSize) :=
  ParIndexedMap_laws (@new_BundleState ZClock) (fun _ => true).
#[local] Existing Instance ZClock_laws.

Lemma example_registered :
  exists fa : @FlowAggregator ZClock Bundlers,
    agg_inv config fa /\ bundles fa = [@new_BundleState ZClock] /\ agg_states_ fa = ∅.
Proof.
  destruct (GetBundlerID_inv config new_FlowAggregator m1) as (fa & Hg & Hi & Hb).
  - apply new_FlowAggregator_inv.
  - cbn. apply lookup_empty.
  - done.
  - exists fa. split; [done|]. split; [by rewrite Hb|]. unfold GetBundlerID in Hg.
    destruct (im_GetID _ m1) as [[m' [id c]]|]; [|done]. cbn [mbind option_bind] in Hg.
    by injection Hg as <- _.
Qed.

Lemma bundle1_monotone : bundle_monotone (@new_BundleState ZClock) bundle1.
Proof.
  split; [done| |].
  - intros fi Hfi. apply list_elem_of_singleton in Hfi as ->. done.
  - intros fi e _ He. cbn [active dead new_BundleState] in He.
    rewrite (left_id_L ∅ (∪)) in He. by rewrite lookup_empty in He.
Qed.

Lemma last_report_bundle1 m : last_report m [fi1] = if decide (m1 = m) then Some fi1 else None.
Proof. rewrite last_report_cons. by cbn. Qed.

Lemma example_updated :
  exists (fa : @FlowAggregator ZClock Bundlers) bs,
    agg_inv config fa /\ bundles fa = [bs] /\ agg_states_ fa = ∅ /\
    active bs = {[m1 := (at_seconds 5, fi1)]} /\ dead bs = ∅.
Proof.
  destruct example_registered as (fa & Hi & Hb & Hs).
  destruct (Update_inv config fa 0 (@new_BundleState ZClock) bundle1)
    as (fa' & bs' & _ & Hi' & Hs' & Hb' & Hall); try done.
  - by rewrite Hb.
  - apply bundle1_monotone.
  - exists fa', bs'. split; [done|]. split; [by rewrite Hb', Hb|]. split; [by rewrite Hs'|].
    assert (Hm : forall m, active bs' !! m = (if decide (m1 = m) then Some (at_seconds 5, fi1) else None)
                 /\ dead bs' !! m = None).
    { intros m. specialize (Hall m). unfold flow_after in Hall.
      change (flow_infos bundle1) with [fi1] in Hall. rewrite last_report_bundle1 in Hall.
      destruct (decide (m1 = m)); cbn [active dead new_BundleState] in Hall;
        rewrite ?lookup_empty in Hall; by injection Hall. }
    split; apply map_eq; intros m; destruct (Hm m) as [Ha Hd].
    + rewrite Ha. destruct (decide (m1 = m)) as [->|]; [by rewrite lookup_singleton_eq|].
      by rewrite lookup_singleton_ne.
    + by rewrite Hd, lookup_empty.
Qed.

Lemma Update_moves_flows_witness :
  exists (fa' : @FlowAggregator ZClock Bundlers) bs,
    agg_inv config fa' /\ bundles fa' = [bs] /\ active bs !! m1 = Some (at_seconds 5, fi1).
Proof.
  destruct example_registered as (fa & Hi & Hb & _).
  destruct (Update_moves_flows config fa 0 (@new_BundleState ZClock) bundle1)
    as (fa' & bs' & _ & Hi' & _ & Hb' & Hall); try done.
  - by rewrite Hb.
  - apply bundle1_monotone.
  - exists fa', bs'. split; [done|]. split; [by rewrite Hb', Hb|].
    specialize (Hall m1). change (flow_infos bundle1) with [fi1] in Hall.
    rewrite last_report_bundle1, decide_True in Hall by done.
    exact (f_equal fst Hall).
Defined.

Lemma example_total (fa : @FlowAggregator ZClock Bundlers) bs g k :
  bundles fa = [bs] -> active bs = {[m1 := (at_seconds 5, fi1)]} -> dead bs = ∅ ->
  total config g k (bundles fa) = if decide (ToClusterFlow m1 = k) then g fi1 else 0.
Proof.
  intros Hb Ha Hd. rewrite Hb. unfold total, bundle_total. cbn [map]. rewrite Ha, Hd.
  rewrite (right_id_L ∅ (∪)). unfold map_sum. rewrite map_to_list_singleton.
  cbn [map fst snd]. rewrite !zsum_cons, !zsum_nil, !Z.add_0_r. done.
Qed.

Lemma example_totals (fa : @FlowAggregator ZClock Bundlers) bs :
  bundles fa = [bs] -> active bs = {[m1 := (at_seconds 5, fi1)]} -> dead bs = ∅ ->
  small_totals config (bundles fa).
Proof.
  intros Hb Ha Hd k. rewrite !(example_total fa bs) by done. case_decide; cbn; lia.
Qed.

Lemma ForEachAgg_reports_witness :
  exists (fa fa' : @FlowAggregator ZClock Bundlers) calls call,
    @ForEachAgg ZClock Bundlers _ config zpredictor fa = Some (fa', calls) /\ call ∈ calls /\
    flow (parent (snd call)) = ToClusterFlow m1 /\
    cum_hipri_usage_bytes (parent (snd call)) = 60.
Proof.
  destruct example_updated as (fa & bs & Hi & Hb & Hs & Ha & Hd).
  pose proof (fun g k => example_total fa bs g k Hb Ha Hd) as Htot.
  destruct (ForEachAgg_reports config zpredictor fa Hi)
    as (fa' & calls & keys & Hrun & _ & _ & _ & Hkeys & Hrep).
  { by apply (example_totals fa bs). }
  assert (Hin : ToClusterFlow m1 ∈ keys).
  { apply Hkeys. intros E. pose proof (agg_events_total config cum_hipri_usage_bytes
      (ToClusterFlow m1) (bundles fa)) as Ht.
    rewrite E, Htot, decide_True in Ht by done. discriminate Ht.
    eapply Forall_impl; [apply Hi|apply bo_disjoint]. }
  apply list_elem_of_lookup in Hin as [i Hi'].
  destruct (Forall2_lookup_l _ _ _ _ _ Hrep Hi') as (call & Hcall & [Hf _ _ Hc]).
  exists fa, fa', calls, call. split; [done|]. split; [by eapply list_elem_of_lookup_2|].
  split; [done|]. destruct Hc as [(s & Hsome & _)|[Hc _]].
  - exfalso. rewrite Hs in Hsome. by rewrite lookup_empty in Hsome.
  - rewrite Hc, Htot, decide_True by done. done.
Defined.
End Example.
