(* ===== verification/Selectors.v ===== *)
(** * Selectors: which children of an aggregate go to low priority

    src/heyp/alg/downgrade: the greedy assignment, the selectors built on it
    (heyp-sigcomm-20, largest first), the knapsack selector, the hashing
    selector and the mask it is turned into, and the front end
    [DowngradeSelector] of src/heyp/alg/qos-downgrade.cc.  The OR-tools
    knapsack solver is a parameter. *)

From S2P Require Import Prelude Doubles FlowMarker HashRing Views.

(** ** Greedy assignment (greedy-assign.h) *)

Definition child_volume (cs : list ChildFlowInfo) (i : nat) : Z := volume_bps (cs !!! i).

Section Greedy.
Context (StateToIncrease : bool) (want_demand : Z) (cs : list ChildFlowInfo)
        (punish_only_largest : bool).

Fixpoint GreedyAssignToMinimizeGap (cur_demand : Z) (sorted : list nat) (lopri : list bool)
    : list bool :=
  match sorted with
  | [] => lopri
  | child_i :: rest =>
      if Bool.eqb (lopri !!! child_i) StateToIncrease
      then GreedyAssignToMinimizeGap cur_demand rest lopri
      else
        let next_demand := i64 (cur_demand + child_volume cs child_i) in
        let flip := <[child_i := StateToIncrease]> lopri in
        if want_demand <? next_demand then
          let exceeds_twice_gap := i64 (i64 (2 * want_demand) - cur_demand) <? next_demand in
          if punish_only_largest then if negb exceeds_twice_gap then flip else lopri
          else
            let have_children_with_less_demand := negb (bool_decide (rest = [])) in
            if have_children_with_less_demand || exceeds_twice_gap
            then GreedyAssignToMinimizeGap cur_demand rest lopri
            else GreedyAssignToMinimizeGap next_demand rest flip
        else GreedyAssignToMinimizeGap next_demand rest flip
  end.
End Greedy.

(** The order of the children: decreasing demand, ties by decreasing index. *)
Definition child_before (cs : list ChildFlowInfo) (l r : nat) : bool :=
  let lhs_demand := child_volume cs l in
  let rhs_demand := child_volume cs r in
  if lhs_demand =? rhs_demand then (r <=? l)%nat else rhs_demand <? lhs_demand.

Definition children_sorted_by_dec_demand (cs : list ChildFlowInfo) : list nat :=
  merge_sort (fun l r => Is_true (child_before cs l r)) (seq 0 (length cs)).

Definition sum_volumes (cs : list ChildFlowInfo) : Z :=
  foldl (fun acc c => i64 (acc + volume_bps c)) 0 cs.

Definition sum_lopri_volumes (cs : list ChildFlowInfo) : Z :=
  foldl (fun acc c => if child_currently_lopri c then i64 (acc + volume_bps c) else acc) 0 cs.

(** ** impl-heyp-sigcomm-20.cc *)

Definition HeypSigcomm20_PickLOPRIChildren (cs : list ChildFlowInfo) (want_frac_lopri : double)
    : list bool :=
  let lopri_children := map child_currently_lopri cs in
  let total_demand := sum_volumes cs in
  let lopri_demand := sum_lopri_volumes cs in
  if total_demand =? 0 then replicate (length cs) false
  else
    let sorted := children_sorted_by_dec_demand cs in
    if dgt (ddiv (dofZ lopri_demand) (dofZ total_demand)) want_frac_lopri then
      let hipri_demand := i64 (total_demand - lopri_demand) in
      let want_demand := double_to_i64 (dmul (dsub d1 want_frac_lopri) (dofZ total_demand)) in
      GreedyAssignToMinimizeGap false want_demand cs false hipri_demand sorted lopri_children
    else
      let want_demand := double_to_i64 (dmul want_frac_lopri (dofZ total_demand)) in
      GreedyAssignToMinimizeGap true want_demand cs false lopri_demand sorted lopri_children.

(** ** impl-largest-first.cc *)

Definition LargestFirst_PickLOPRIChildren (cs : list ChildFlowInfo) (want_frac_lopri : double)
    : list bool :=
  let total_demand := sum_volumes cs in
  if total_demand =? 0 then replicate (length cs) false
  else
    let sorted := children_sorted_by_dec_demand cs in
    let want_demand := double_to_i64 (dmul want_frac_lopri (dofZ total_demand)) in
    GreedyAssignToMinimizeGap true want_demand cs true 0 sorted (replicate (length cs) false).

(** ** impl-knapsack-solver.cc

    [solver profits weights capacity] is the result of [Solve] with the
    items of the best solution. *)

Section Knapsack.
Context (solver : list Z -> list Z -> Z -> Z * (nat -> bool)).

(** [None]: one of the checks on the solver's answer fails. *)
Definition KnapsackSolver_PickLOPRIChildren (cs : list ChildFlowInfo) (want_frac_lopri : double)
    : option (list bool) :=
  let total_demand := sum_volumes cs in
  let demands := map volume_bps cs in
  let want_demand := double_to_i64 (dmul want_frac_lopri (dofZ total_demand)) in
  let '(got_total_demand, BestSolutionContains) := solver demands demands want_demand in
  let lopri_children := map BestSolutionContains (seq 0 (length cs)) in
  let double_check_total_demand :=
    foldl (fun acc i => if BestSolutionContains i then i64 (acc + demands !!! i) else acc)
      0 (seq 0 (length cs)) in
  if (got_total_demand <=? want_demand) && (double_check_total_demand =? got_total_demand)
  then Some lopri_children else None.

(** src/heyp/alg/export.cc: the same selection for the Go simulator. *)
Definition HeypKnapsackUsageLOPRI (demands : list Z) (want_frac_lopri : double)
    : Z * list Z :=
  let total_demand := foldl (fun acc d => i64 (acc + d)) 0 demands in
  let want_demand := double_to_i64 (dmul want_frac_lopri (dofZ total_demand)) in
  let '(ret, BestSolutionContains) := solver demands demands want_demand in
  (ret, map (fun i => if BestSolutionContains i then 1 else 0) (seq 0 (length demands))).
End Knapsack.

(** ** The hashing selector (impl-hashing.{h,cc}, iface.{h,cc}) *)

Record DowngradeDiff := mkDowngradeDiff {
  to_downgrade : UnorderedIds;
  to_upgrade : UnorderedIds }.

Definition no_ids : UnorderedIds := mkUnorderedIds [] [].

Definition nonempty_ranges (d : RingRanges) : list IdRange :=
  filter (fun r => IdRange_Empty r = false) [ring_a d; ring_b d].

Definition Hashing_PickChildren (lopri_ : HashRing) (want_frac_lopri : double)
    : HashRing * DowngradeDiff :=
  let '(lopri_, d) := UpdateFrac lopri_ want_frac_lopri in
  let rs := mkUnorderedIds (nonempty_ranges (diff d)) [] in
  (lopri_,
   match diff_type d with
   | kAdd => mkDowngradeDiff rs no_ids
   | kDel => mkDowngradeDiff no_ids rs
   end).

Definition IsLOPRI (lopri_ : HashRing) (id : Z) : bool :=
  RingRanges_Contains (MatchingRanges lopri_) id.

Definition mark_ranges (value : bool) (rs : list IdRange) (cs : list ChildFlowInfo)
    (lopri : list bool) : list bool :=
  foldl (fun lopri r =>
           zip_with (fun l c => if IdRange_Contains r (child_id c) then value else l) lopri cs)
    lopri rs.

(** The index of each id: the last child with it. *)
Definition id2index (cs : list ChildFlowInfo) : gmap Z nat :=
  foldl (fun m '(i, c) => <[child_id c := i]> m) ∅ (imap pair cs).

Definition mark_points (value : bool) (ps : list Z) (cs : list ChildFlowInfo)
    (lopri : list bool) : list bool :=
  foldl (fun lopri p =>
           match id2index cs !! p with Some i => <[i := value]> lopri | None => lopri end)
    lopri ps.

Definition initial_mask (last_is_lopri_ : gmap Z bool) (cs : list ChildFlowInfo) : list bool :=
  map (fun c => match last_is_lopri_ !! child_id c with
                | Some b => b | None => child_currently_lopri c end) cs.

Definition remember_mask (last_is_lopri_ : gmap Z bool) (cs : list ChildFlowInfo)
    (lopri : list bool) : gmap Z bool :=
  foldl (fun m '(c, b) => <[child_id c := b]> m) last_is_lopri_ (zip cs lopri).

(** [DiffDowngradeSelectorImpl::PickLOPRIChildren] after the virtual call. *)
Definition DiffSelector_ApplyDiff (last_is_lopri_ : gmap Z bool) (d : DowngradeDiff)
    (cs : list ChildFlowInfo) : gmap Z bool * list bool :=
  let lopri := initial_mask last_is_lopri_ cs in
  let lopri := mark_ranges true (ranges (to_downgrade d)) cs lopri in
  let lopri := mark_points true (points (to_downgrade d)) cs lopri in
  let lopri := mark_ranges false (ranges (to_upgrade d)) cs lopri in
  let lopri := mark_points false (points (to_upgrade d)) cs lopri in
  (remember_mask last_is_lopri_ cs lopri, lopri).

Record HashingSelector := mkHashingSelector {
  hs_lopri : HashRing;
  hs_last_is_lopri : gmap Z bool }.

Definition Hashing_PickLOPRIChildren (s : HashingSelector) (cs : list ChildFlowInfo)
    (want_frac_lopri : double) : HashingSelector * list bool :=
  let '(ring, d) := Hashing_PickChildren (hs_lopri s) want_frac_lopri in
  let '(last, lopri) := DiffSelector_ApplyDiff (hs_last_is_lopri s) d cs in
  (mkHashingSelector ring last, lopri).

(** The hashing context of src/heyp/alg/export.cc: children known by id. *)
Definition ExportAggInfoView (child_ids : list Z) : list ChildFlowInfo :=
  map (fun id => mkChild id 0 false) child_ids.

Definition HeypSelectLOPRIHashing (s : HashingSelector) (child_ids : list Z)
    (want_frac_lopri : double) : HashingSelector * list Z :=
  let '(s, lopri) := Hashing_PickLOPRIChildren s (ExportAggInfoView child_ids) want_frac_lopri in
  (s, map (fun b : bool => if b then 1 else 0) lopri).

(** ** The front end (qos-downgrade.{h,cc}) *)

(** The implementations [GetSelector] creates, with the state they keep. *)
Inductive SelectorImpl :=
  | ImplHashing (s : HashingSelector)
  | ImplHeypSigcomm20
  | ImplKnapsackSolver (time_limit_sec : double)
  | ImplLargestFirst.

Inductive DowngradeSelectorType :=
  DS_HEYP_SIGCOMM20 | DS_HASHING | DS_HYBRID_HASHING | DS_KNAPSACK_SOLVER | DS_LARGEST_FIRST.

(** [None]: the type is not supported and the process exits. *)
Definition GetSelector (ty : DowngradeSelectorType) (time_limit_sec : double)
    : option SelectorImpl :=
  match ty with
  | DS_HASHING => Some (ImplHashing (mkHashingSelector new_HashRing ∅))
  | DS_HEYP_SIGCOMM20 => Some ImplHeypSigcomm20
  | DS_KNAPSACK_SOLVER => Some (ImplKnapsackSolver time_limit_sec)
  | DS_LARGEST_FIRST => Some ImplLargestFirst
  | DS_HYBRID_HASHING => None
  end.

Record DowngradeSelector := mkDowngradeSelector {
  ds_impl : SelectorImpl;
  downgrade_jobs_ : bool;
  downgrade_usage_ : bool }.

Section FrontEnd.
(** The knapsack solver may depend on the time limit. *)
Context (XXH64 : string -> Z) (solver : double -> list Z -> list Z -> Z -> Z * (nat -> bool)).

(** The virtual call. *)
Definition impl_PickLOPRIChildren (impl : SelectorImpl) (cs : list ChildFlowInfo)
    (want_frac_lopri : double) : option (SelectorImpl * list bool) :=
  match impl with
  | ImplHashing s =>
      let '(s, l) := Hashing_PickLOPRIChildren s cs want_frac_lopri in
      Some (ImplHashing s, l)
  | ImplHeypSigcomm20 => Some (impl, HeypSigcomm20_PickLOPRIChildren cs want_frac_lopri)
  | ImplKnapsackSolver t =>
      l ← KnapsackSolver_PickLOPRIChildren (solver t) cs want_frac_lopri; Some (impl, l)
  | ImplLargestFirst => Some (impl, LargestFirst_PickLOPRIChildren cs want_frac_lopri)
  end.

Definition view_source (s : DowngradeSelector) : FVSource :=
  if downgrade_usage_ s then Views.kUsage else Views.kPredictedDemand.

(** [None]: a check fails (or the implementation gives up). *)
Definition PickLOPRIChildren (s : DowngradeSelector) (agg_info : AggInfo)
    (want_frac_lopri : double) : option (DowngradeSelector * list bool) :=
  if downgrade_jobs_ s then
    let v := JobLevelView_Create XXH64 (view_source s) agg_info in
    '(impl, job_selection) ← impl_PickLOPRIChildren (ds_impl s) (job_children v) want_frac_lopri;
    let n := length (children agg_info) in
    if (n =? length (job_index v))%nat then
      host_selection ← mapM (fun j => job_selection !! j) (job_index v);
      Some (mkDowngradeSelector impl (downgrade_jobs_ s) (downgrade_usage_ s), host_selection)
    else None
  else
    '(impl, l) ← impl_PickLOPRIChildren (ds_impl s)
                   (HostLevelView_Create (view_source s) agg_info) want_frac_lopri;
    Some (mkDowngradeSelector impl (downgrade_jobs_ s) (downgrade_usage_ s), l).
End FrontEnd.

(** ** Greedy: lemmas

    The demand of a bin, and its distance to the wanted demand. *)

Definition bin_demand (inc : bool) (cs : list ChildFlowInfo) (lopri : list bool) : Z :=
  zsum (zip_with (fun b c => if Bool.eqb b inc then volume_bps c else 0) lopri cs).

Lemma bin_demand_cons inc c cs b lopri :
  bin_demand inc (c :: cs) (b :: lopri) =
  (if Bool.eqb b inc then volume_bps c else 0) + bin_demand inc cs lopri.
Proof. done. Qed.

Lemma bin_demand_insert inc cs : forall lopri i,
  length lopri = length cs -> (i < length cs)%nat -> lopri !!! i <> inc ->
  bin_demand inc cs (<[i := inc]> lopri) = bin_demand inc cs lopri + child_volume cs i.
Proof.
  unfold bin_demand, child_volume.
  induction cs as [|c cs IH]; intros [|b lopri] [|i] Hl Hi Hne; cbn in *; try lia.
  - destruct b, inc; cbn in *; try done; lia.
  - rewrite <- Z.add_assoc. f_equal. apply IH; [lia|lia|done].
Qed.

Lemma bin_demand_bounds inc cs lopri T :
  (forall c, c ∈ cs -> 0 <= volume_bps c) -> zsum (map volume_bps cs) <= T ->
  0 <= bin_demand inc cs lopri <= T.
Proof.
  unfold bin_demand. revert lopri T.
  induction cs as [|c cs IH]; intros [|b lopri] T Hp HT; cbn in *; try lia.
  - assert (0 <= volume_bps c) by (apply Hp; set_solver).
    assert (0 <= zsum (map volume_bps cs)).
    { apply zsum_nonneg. intros x (c' & -> & Hc')%list_elem_of_fmap. apply Hp. set_solver. }
    unfold zsum in *. lia.
  - assert (0 <= volume_bps c) by (apply Hp; set_solver).
    specialize (IH lopri (T - volume_bps c)). unfold zsum in *.
    assert (0 <= foldr Z.add 0 (zip_with (fun b c => if Bool.eqb b inc then volume_bps c else 0) lopri cs)
              <= T - volume_bps c) by (apply IH; [set_solver|lia]).
    destruct (Bool.eqb b inc); lia.
Qed.

(** The range of the inputs on which the greedy arithmetic does not wrap. *)
Record greedy_input (want : Z) (cs : list ChildFlowInfo) : Prop := {
  gi_volumes : forall c, c ∈ cs -> 0 <= volume_bps c;
  gi_total : zsum (map volume_bps cs) < 2 ^ 62;
  gi_want : 0 <= want < 2 ^ 62 }.

Lemma child_volume_bounds want cs i :
  greedy_input want cs -> (i < length cs)%nat -> 0 <= child_volume cs i < 2 ^ 62.
Proof.
  intros [Hv Ht _] Hi. unfold child_volume.
  destruct (lookup_lt_is_Some_2 cs i Hi) as [c Hc].
  rewrite (list_lookup_total_correct _ _ _ Hc).
  apply list_elem_of_split_length in Hc as (l1 & l2 & -> & _).
  rewrite map_app, zsum_app in Ht. cbn [map] in Ht. rewrite zsum_cons in Ht.
  assert (0 <= zsum (map volume_bps l1)).
  { apply zsum_nonneg. intros x (c' & -> & Hc')%list_elem_of_fmap. apply Hv. set_solver. }
  assert (0 <= zsum (map volume_bps l2)).
  { apply zsum_nonneg. intros x (c' & -> & Hc')%list_elem_of_fmap. apply Hv. set_solver. }
  specialize (Hv c ltac:(set_solver)). lia.
Qed.

(** What the assignment guarantees about its result [r]. *)
Record greedy_post (inc : bool) (want : Z) (cs : list ChildFlowInfo) (punish : bool)
    (sorted : list nat) (lopri r : list bool) : Prop := {
  gp_length : length r = length lopri;
  gp_monotone : forall i, lopri !! i = Some inc -> r !! i = Some inc;
  gp_outside : forall i, i ∉ sorted -> r !! i = lopri !! i;
  gp_gap : Z.abs (want - bin_demand inc cs r) <= Z.abs (want - bin_demand inc cs lopri);
  gp_grows : bin_demand inc cs lopri <= bin_demand inc cs r;
  gp_maximal : punish = false ->
    forall i, i ∈ sorted -> r !!! i <> inc -> want < bin_demand inc cs r + child_volume cs i }.

Lemma greedy_post_skip inc want cs punish i sorted lopri r :
  greedy_post inc want cs punish sorted lopri r ->
  (punish = false -> r !!! i <> inc -> want < bin_demand inc cs r + child_volume cs i) ->
  greedy_post inc want cs punish (i :: sorted) lopri r.
Proof.
  intros [Hl Hm Ho Hg Hgr Hmax] Hi. split; try done.
  - intros k Hk. apply Ho. set_solver.
  - intros Hp k [->|Hk]%elem_of_cons Hne; auto.
Qed.

Lemma greedy_post_flip inc want cs punish i sorted lopri r :
  (i < length lopri)%nat -> lopri !!! i <> inc ->
  Z.abs (want - bin_demand inc cs (<[i := inc]> lopri)) <= Z.abs (want - bin_demand inc cs lopri) ->
  bin_demand inc cs lopri <= bin_demand inc cs (<[i := inc]> lopri) ->
  greedy_post inc want cs punish sorted (<[i := inc]> lopri) r ->
  greedy_post inc want cs punish (i :: sorted) lopri r.
Proof.
  intros Hi Hne Hg' Hgr' [Hl Hm Ho Hg Hgr Hmax]. rewrite length_insert in Hl.
  assert (Hri : r !! i = Some inc) by (apply Hm; by rewrite list_lookup_insert_eq).
  split; try done; try lia.
  - intros k Hk. destruct (decide (k = i)) as [->|]; [done|].
    apply Hm. by rewrite list_lookup_insert_ne.
  - intros k Hk. rewrite Ho by set_solver. rewrite list_lookup_insert_ne; [done|set_solver].
  - intros Hp k [->|Hk]%elem_of_cons Hk'; [|by apply Hmax].
    by rewrite (list_lookup_total_correct _ _ _ Hri) in Hk'.
Qed.

Lemma greedy_post_nil inc want cs punish lopri : greedy_post inc want cs punish [] lopri lopri.
Proof. split; try done; try lia. intros _ i Hi. by apply elem_of_nil in Hi. Qed.

Lemma greedy_post_stop inc want cs sorted lopri :
  greedy_post inc want cs true sorted lopri lopri.
Proof. by split. Qed.

Lemma GreedyAssign_spec inc want cs punish : forall sorted lopri,
  greedy_input want cs -> Forall (fun i => i < length cs)%nat sorted ->
  length lopri = length cs ->
  greedy_post inc want cs punish sorted lopri
    (GreedyAssignToMinimizeGap inc want cs punish (bin_demand inc cs lopri) sorted lopri).
Proof.
  induction sorted as [|i sorted IH]; intros lopri Hin Hs Hl;
    cbn [GreedyAssignToMinimizeGap]; [apply greedy_post_nil|].
  apply Forall_cons in Hs as [Hi Hs].
  destruct (Bool.eqb (lopri !!! i) inc) eqn:Eb.
  { apply Bool.eqb_prop in Eb. apply greedy_post_skip; [by apply IH|].
    intros _ Hne. exfalso. apply Hne.
    destruct (IH lopri Hin Hs Hl) as [_ Hm _ _ _ _].
    rewrite (list_lookup_total_correct _ _ inc); [done|]. apply Hm.
    rewrite <- Eb. apply list_lookup_lookup_total_lt. lia. }
  apply Bool.eqb_false_iff in Eb.
  pose proof (child_volume_bounds want cs i Hin Hi) as Hvi.
  pose proof Hin as [Hv Ht Hw].
  pose proof (bin_demand_bounds inc cs lopri _ Hv (Z.le_refl _)) as Hb.
  pose proof (bin_demand_insert inc cs lopri i Hl Hi Eb) as Hins.
  rewrite (i64_id (_ + _)), (i64_id (2 * _)), i64_id by (unfold in_i64; lia).
  assert (Hrec : forall l, length l = length cs -> greedy_post inc want cs punish sorted l
      (GreedyAssignToMinimizeGap inc want cs punish (bin_demand inc cs l) sorted l)).
  { intros l ?. by apply IH. }
  assert (Hflip : Z.abs (want - bin_demand inc cs (<[i := inc]> lopri)) <=
                  Z.abs (want - bin_demand inc cs lopri) ->
    greedy_post inc want cs punish (i :: sorted) lopri
      (GreedyAssignToMinimizeGap inc want cs punish
         (bin_demand inc cs lopri + child_volume cs i) sorted (<[i := inc]> lopri))).
  { intros Hg. apply greedy_post_flip; [lia|done|done|lia|]. rewrite <- Hins.
    apply Hrec. by rewrite length_insert. }
  assert (Hskip : want < bin_demand inc cs lopri + child_volume cs i ->
    greedy_post inc want cs punish (i :: sorted) lopri
      (GreedyAssignToMinimizeGap inc want cs punish (bin_demand inc cs lopri) sorted lopri)).
  { intros Hlt. apply greedy_post_skip; [by apply Hrec|]. intros _ _.
    destruct (Hrec lopri Hl) as [_ _ _ _ Hgr _]. lia. }
  repeat case_if; try (apply Hflip; lia); try (apply Hskip; lia).
  - subst punish. apply greedy_post_flip; [lia|done|lia|lia|apply greedy_post_stop].
  - subst punish. apply greedy_post_stop.
Qed.

(** With [punish_only_largest] the children flipped are a prefix. *)
Lemma GreedyAssign_prefix want cs : forall sorted cur lopri,
  Forall (fun i => i < length lopri)%nat sorted -> NoDup sorted ->
  (forall i, i ∈ sorted -> lopri !!! i = false) ->
  let r := GreedyAssignToMinimizeGap true want cs true cur sorted lopri in
  exists k, (forall i, i ∈ take k sorted -> r !!! i = true) /\
            (forall i, i ∈ drop k sorted -> r !!! i = false) /\
            (forall i, i ∉ sorted -> r !!! i = lopri !!! i).
Proof.
  induction sorted as [|i sorted IH]; intros cur lopri Hlt Hnd Hf; cbn [GreedyAssignToMinimizeGap].
  { exists 0%nat. split_and!; try done; intros i Hi; by apply elem_of_nil in Hi. }
  apply Forall_cons in Hlt as [Hi Hlt]. apply NoDup_cons in Hnd as [Hni Hnd].
  rewrite (Hf i) by set_solver. cbn [Bool.eqb].
  assert (Hstop : exists k, (forall j, j ∈ take k (i :: sorted) -> lopri !!! j = true) /\
            (forall j, j ∈ drop k (i :: sorted) -> lopri !!! j = false) /\
            (forall j, j ∉ i :: sorted -> lopri !!! j = lopri !!! j)).
  { exists 0%nat. split_and!; try done. intros j Hj. by apply elem_of_nil in Hj. }
  assert (Hone : exists k, (forall j, j ∈ take k (i :: sorted) -> <[i:=true]> lopri !!! j = true) /\
            (forall j, j ∈ drop k (i :: sorted) -> <[i:=true]> lopri !!! j = false) /\
            (forall j, j ∉ i :: sorted -> <[i:=true]> lopri !!! j = lopri !!! j)).
  { exists 1%nat. cbn. rewrite take_0. split_and!.
    - intros j ->%list_elem_of_singleton. by apply list_lookup_total_insert_eq.
    - intros j Hj. rewrite list_lookup_total_insert_ne by set_solver. apply Hf. set_solver.
    - intros j Hj. apply list_lookup_total_insert_ne. set_solver. }
  set (next := i64 _). destruct (want <? next); [by destruct (negb _)|].
  destruct (IH next (<[i:=true]> lopri)) as (k & Hk1 & Hk2 & Hk3).
  - by rewrite length_insert.
  - done.
  - intros j Hj. rewrite list_lookup_total_insert_ne by set_solver. apply Hf. set_solver.
  - exists (S k). cbn. split_and!.
    + intros j [->|Hj]%elem_of_cons; [|by apply Hk1]. rewrite Hk3 by done.
      by apply list_lookup_total_insert_eq.
    + done.
    + intros j Hj. rewrite Hk3 by set_solver. apply list_lookup_total_insert_ne. set_solver.
Qed.

(** ** The order and the sums *)

#[export] Instance child_before_total cs : Total (fun l r => Is_true (child_before cs l r)).
Proof.
  intros l r. unfold child_before. rewrite (Z.eqb_sym (child_volume cs r)).
  destruct (_ =? _) eqn:E; bool_to_prop.
  - destruct (Nat.le_ge_cases r l); [left|right]; by apply Is_true_eq_left, Nat.leb_le.
  - destruct (Z.lt_ge_cases (child_volume cs r) (child_volume cs l));
      [left|right]; apply Is_true_eq_left, Z.ltb_lt; lia.
Qed.

#[export] Instance child_before_trans cs :
  Transitive (fun l r => Is_true (child_before cs l r)).
Proof.
  intros x y z Hxy%Is_true_eq_true Hyz%Is_true_eq_true. apply Is_true_eq_left.
  unfold child_before in *.
  destruct (child_volume cs x =? child_volume cs y) eqn:E1, (child_volume cs y =? child_volume cs z) eqn:E2,
    (child_volume cs x =? child_volume cs z) eqn:E3; bool_to_prop; try lia;
    rewrite ?Nat.leb_le, ?Z.ltb_lt in *; lia.
Qed.

Lemma children_sorted_perm cs : children_sorted_by_dec_demand cs ≡ₚ seq 0 (length cs).
Proof. apply merge_sort_Permutation. Qed.

Lemma children_sorted_sorted cs :
  StronglySorted (fun l r => child_volume cs r <= child_volume cs l)
    (children_sorted_by_dec_demand cs).
Proof.
  assert (H : StronglySorted (fun l r => Is_true (child_before cs l r))
                (children_sorted_by_dec_demand cs)).
  { apply StronglySorted_merge_sort; apply _. }
  clear -H. induction H as [|x l Hs IH Hx]; constructor; [done|].
  eapply Forall_impl; [exact Hx|]. cbn. intros y Hy%Is_true_eq_true.
  unfold child_before in Hy. destruct (_ =? _) eqn:E in Hy; bool_to_prop; [lia|].
  apply Z.ltb_lt in Hy. lia.
Qed.

Lemma children_sorted_range cs :
  Forall (fun i => i < length cs)%nat (children_sorted_by_dec_demand cs).
Proof.
  eapply Forall_perm; [apply children_sorted_perm|].
  apply Forall_forall. intros i Hi%elem_of_seq. lia.
Qed.

Lemma children_sorted_NoDup cs : NoDup (children_sorted_by_dec_demand cs).
Proof. rewrite children_sorted_perm. apply NoDup_seq. Qed.

Lemma children_sorted_elem cs i : i ∈ children_sorted_by_dec_demand cs <-> (i < length cs)%nat.
Proof. rewrite children_sorted_perm, elem_of_seq. lia. Qed.

Lemma foldl_i64_zsum {A} (f : A -> Z) (l : list A) acc :
  foldl (fun a c => i64 (a + f c)) (i64 acc) l = i64 (acc + zsum (map f l)).
Proof.
  revert acc. induction l as [|x l IH]; intros acc; cbn [foldl map].
  - by rewrite Z.add_0_r.
  - rewrite zsum_cons, i64_add_l, IH. f_equal. lia.
Qed.

Lemma sum_volumes_wrapped cs : sum_volumes cs = i64 (zsum (map volume_bps cs)).
Proof. unfold sum_volumes. apply (foldl_i64_zsum volume_bps cs 0). Qed.

Lemma sum_lopri_volumes_wrapped cs :
  sum_lopri_volumes cs = i64 (bin_demand true cs (map child_currently_lopri cs)).
Proof.
  assert (H : forall acc, foldl (fun acc c => if child_currently_lopri c
      then i64 (acc + volume_bps c) else acc) (i64 acc) cs =
      i64 (acc + bin_demand true cs (map child_currently_lopri cs))).
  { induction cs as [|c cs IH]; intros acc; cbn [map foldl].
    - by rewrite Z.add_0_r.
    - rewrite bin_demand_cons. destruct (child_currently_lopri c); cbn [Bool.eqb].
      + rewrite i64_add_l, IH. f_equal. lia.
      + by rewrite IH. }
  apply (H 0).
Qed.

Lemma bin_demand_split cs lopri :
  length lopri = length cs ->
  bin_demand true cs lopri + bin_demand false cs lopri = zsum (map volume_bps cs).
Proof.
  unfold bin_demand. revert lopri.
  induction cs as [|c cs IH]; intros [|b lopri] Hl; cbn in *; try lia.
  specialize (IH lopri ltac:(lia)). unfold zsum in *. destruct b; cbn; lia.
Qed.

(** ** Claims: the greedy selectors *)

(** The demand wanted in the bin that grows, as each selector computes it. *)
Definition sigcomm20_moves_to_hipri (cs : list ChildFlowInfo) (want_frac_lopri : double) : bool :=
  dgt (ddiv (dofZ (sum_lopri_volumes cs)) (dofZ (sum_volumes cs))) want_frac_lopri.

Definition sigcomm20_want (cs : list ChildFlowInfo) (want_frac_lopri : double) : Z :=
  double_to_i64 (dmul (if sigcomm20_moves_to_hipri cs want_frac_lopri
                       then dsub d1 want_frac_lopri else want_frac_lopri)
                   (dofZ (sum_volumes cs))).

(** The heyp-sigcomm-20 selector moves children in one direction only,
    from low priority to high when the measured fraction is above the wanted
    one and the other way otherwise; the bin that grows never ends further
    from its wanted demand than it started; and every child that was not
    moved would overshoot it. *)
Theorem HeypSigcomm20_moves_toward_goal cs frac :
  let inc := negb (sigcomm20_moves_to_hipri cs frac) in
  let want := sigcomm20_want cs frac in
  let before := map child_currently_lopri cs in
  let after := HeypSigcomm20_PickLOPRIChildren cs frac in
  greedy_input want cs -> 0 < zsum (map volume_bps cs) ->
  length after = length cs /\
  (forall i, before !! i = Some inc -> after !! i = Some inc) /\
  Z.abs (want - bin_demand inc cs after) <= Z.abs (want - bin_demand inc cs before) /\
  (forall i, (i < length cs)%nat -> after !!! i <> inc ->
     want < bin_demand inc cs after + child_volume cs i).
Proof.
  intros inc want before after Hin Hpos. pose proof Hin as [Hv Ht Hw].
  assert (Hb : length before = length cs) by apply length_map.
  pose proof (bin_demand_split cs before Hb) as Hsplit.
  pose proof (bin_demand_bounds true cs before _ Hv (Z.le_refl _)) as Hlo.
  assert (Htot : sum_volumes cs = zsum (map volume_bps cs)).
  { rewrite sum_volumes_wrapped. apply i64_id. unfold in_i64. lia. }
  assert (Hlop : sum_lopri_volumes cs = bin_demand true cs before).
  { rewrite sum_lopri_volumes_wrapped. apply i64_id. unfold in_i64, before in *. lia. }
  assert (Ha : after = GreedyAssignToMinimizeGap inc want cs false (bin_demand inc cs before)
                         (children_sorted_by_dec_demand cs) before).
  { unfold after, HeypSigcomm20_PickLOPRIChildren. rewrite (proj2 (Z.eqb_neq _ _)) by lia.
    subst inc want. unfold sigcomm20_want, sigcomm20_moves_to_hipri.
    destruct (dgt _ _); cbn [negb]; [|by rewrite Hlop].
    fold before. rewrite Htot, Hlop. rewrite i64_id by (unfold in_i64; lia).
    by replace (zsum (map volume_bps cs) - bin_demand true cs before)
      with (bin_demand false cs before) by lia. }
  destruct (GreedyAssign_spec inc want cs false _ before Hin (children_sorted_range cs) Hb)
    as [Hl Hm _ Hg _ Hmax].
  rewrite <- Ha in *. split_and!; [by rewrite Hl|done|done|].
  intros i Hi. by apply Hmax, children_sorted_elem.
Qed.

Definition example_children : list ChildFlowInfo :=
  [mkChild 1 100 false; mkChild 2 40 true; mkChild 3 30 false; mkChild 4 30 true].

Lemma greedy_input_dec want cs :
  forallb (fun c => 0 <=? volume_bps c) cs && (zsum (map volume_bps cs) <? 2 ^ 62) &&
  (0 <=? want) && (want <? 2 ^ 62) = true -> greedy_input want cs.
Proof.
  rewrite !andb_true_iff, forallb_forall, !Z.leb_le, !Z.ltb_lt. intros [[[H ?]?]?].
  split; try lia. intros c Hc. specialize (H c). rewrite Z.leb_le in H.
  apply H, list_elem_of_In, Hc.
Qed.

Lemma HeypSigcomm20_moves_toward_goal_witness :
  HeypSigcomm20_PickLOPRIChildren example_children half = [false; true; true; true] /\
  Z.abs (sigcomm20_want example_children half -
         bin_demand true example_children
           (HeypSigcomm20_PickLOPRIChildren example_children half)) <=
  Z.abs (100 - 70).
Proof.
  split; [vm_compute; reflexivity|].
  apply (HeypSigcomm20_moves_toward_goal example_children half).
  - apply greedy_input_dec. vm_compute. reflexivity.
  - vm_compute. reflexivity.
Defined.

(** The largest-first selector picks the children with the largest
    volumes: whoever is picked has at least the volume of whoever is not;
    starting from an empty low-priority set its demand ends no further from
    the wanted demand than zero. *)
Theorem LargestFirst_picks_largest cs frac :
  let want := double_to_i64 (dmul frac (dofZ (sum_volumes cs))) in
  let after := LargestFirst_PickLOPRIChildren cs frac in
  greedy_input want cs ->
  length after = length cs /\
  (forall i j, after !! i = Some true -> after !! j = Some false ->
     child_volume cs j <= child_volume cs i) /\
  Z.abs (want - bin_demand true cs after) <= want.
Proof.
  intros want after Hin. pose proof Hin as [Hv Ht Hw].
  assert (Hz0 : bin_demand true cs (replicate (length cs) false) = 0).
  { clear. unfold bin_demand. induction cs as [|c cs IH]; [done|]. cbn. done. }
  subst after. unfold LargestFirst_PickLOPRIChildren. case_if.
  { rewrite length_replicate, Hz0. split_and!; [done| |lia].
    intros i j Hi. apply lookup_replicate in Hi as [? _]. done. }
  set (sorted := children_sorted_by_dec_demand cs).
  set (init := replicate (length cs) false) in *.
  assert (Hli : length init = length cs) by apply length_replicate.
  destruct (GreedyAssign_spec true want cs true sorted init Hin (children_sorted_range cs) Hli)
    as [Hl _ _ Hg _ _].
  rewrite Hz0 in *. fold want. split_and!; [by rewrite Hl| |lia].
  destruct (GreedyAssign_prefix want cs sorted 0 init) as (k & Hk1 & Hk2 & _).
  { rewrite Hli. apply children_sorted_range. }
  { apply children_sorted_NoDup. }
  { intros i Hi%children_sorted_elem. by apply lookup_total_replicate_2. }
  intros i j Hi Hj.
  assert (Hei : i ∈ sorted).
  { apply children_sorted_elem. rewrite <- Hli, <- Hl. by eapply lookup_lt_Some. }
  assert (Hej : j ∈ sorted).
  { apply children_sorted_elem. rewrite <- Hli, <- Hl. by eapply lookup_lt_Some. }
  rewrite <- (take_drop k sorted), elem_of_app in Hei, Hej.
  apply list_lookup_total_correct in Hi, Hj.
  destruct Hei as [Hei|Hei%Hk2]; [|congruence]. destruct Hej as [Hej%Hk1|Hej]; [congruence|].
  pose proof (children_sorted_sorted cs) as Hs. fold sorted in Hs.
  rewrite <- (take_drop k sorted) in Hs.
  exact (StronglySorted_app_1_elem_of (fun l r => child_volume cs r <= child_volume cs l) _ _ i j Hs Hei Hej).
Qed.

Lemma LargestFirst_picks_largest_witness :
  LargestFirst_PickLOPRIChildren example_children half = [true; false; false; false] /\
  child_volume example_children 2 <= child_volume example_children 0.
Proof.
  split; [vm_compute; reflexivity|].
  apply (LargestFirst_picks_largest example_children half);
    [apply greedy_input_dec|..]; vm_compute; reflexivity.
Defined.

(** ** The mask of a diff: lemmas *)

Definition in_ids (u : UnorderedIds) (id : Z) : bool :=
  existsb (fun r => IdRange_Contains r id) (ranges u) || bool_decide (id ∈ points u).

Definition prior_decision (last_is_lopri_ : gmap Z bool) (c : ChildFlowInfo) : bool :=
  default (child_currently_lopri c) (last_is_lopri_ !! child_id c).

Lemma initial_mask_prior last cs : initial_mask last cs = map (prior_decision last) cs.
Proof. apply map_ext. intros c. unfold prior_decision. by destruct (last !! child_id c). Qed.

(** Every step below maps each child's bit by a function of its id. *)
Lemma mark_ranges_map value rs cs (f : ChildFlowInfo -> bool) :
  mark_ranges value rs cs (map f cs) =
  map (fun c => if existsb (fun r => IdRange_Contains r (child_id c)) rs then value else f c) cs.
Proof.
  unfold mark_ranges. revert f. induction rs as [|r rs IH]; intros f; cbn [foldl existsb]; [done|].
  assert (Hz : zip_with (fun l c => if IdRange_Contains r (child_id c) then value else l)
            (map f cs) cs = map (fun c => if IdRange_Contains r (child_id c) then value else f c) cs).
  { clear. induction cs as [|c cs IH]; cbn; [done|]. by f_equal. }
  rewrite Hz, IH. apply map_ext. intros c. by destruct (IdRange_Contains r (child_id c)), (existsb _ rs).
Qed.

Lemma id2index_spec cs id i :
  NoDup (map child_id cs) ->
  id2index cs !! id = Some i <-> exists c, cs !! i = Some c /\ child_id c = id.
Proof.
  intros Hnd. unfold id2index.
  assert (H : forall l (m : gmap Z nat) k, NoDup (map child_id l) ->
    foldl (fun m '(i, c) => <[child_id c := i]> m) m (imap (fun i c => ((k + i)%nat, c)) l) !! id
      = Some i <->
    (exists c, (k <= i)%nat /\ l !! (i - k)%nat = Some c /\ child_id c = id) \/
    (id ∉ map child_id l /\ m !! id = Some i)).
  { clear. induction l as [|c l IH]; intros m k Hnd.
    - cbn. split; [right; by split; [apply not_elem_of_nil|]|].
      intros [(c & _ & Hc & _)|[_ ?]]; [by rewrite lookup_nil in Hc|done].
    - cbn [map] in Hnd. apply NoDup_cons in Hnd as [Hc Hnd]. cbn [imap foldl].
      rewrite Nat.add_0_r.
      rewrite (imap_ext _ (fun i c => ((S k + i)%nat, c)))
        by (intros ?? _; cbn; f_equal; lia).
      rewrite IH by done. split.
      + intros [(c' & Hle & Hc' & Hid)|[Hni Hm]].
        * left. exists c'. split_and!; [lia| |done].
          replace (i - k)%nat with (S (i - S k)) by lia. done.
        * apply lookup_insert_Some in Hm as [[<- <-]|[? Hm]].
          -- left. exists c. by rewrite Nat.sub_diag.
          -- right. split; [|done]. cbn. set_solver.
      + intros [(c' & Hle & Hc' & Hid)|[Hni Hm]].
        * destruct (decide (i = k)) as [->|].
          -- rewrite Nat.sub_diag in Hc'. cbn in Hc'. simplify_eq. right.
             by rewrite lookup_insert_eq.
          -- left. exists c'. replace (i - k)%nat with (S (i - S k)) in Hc' by lia.
             split_and!; [lia|done|done].
        * right. cbn in Hni. split; [set_solver|]. rewrite lookup_insert_ne; [done|set_solver]. }
  specialize (H cs ∅ 0%nat Hnd). cbn in H.
  change (imap pair cs) with (imap (fun i c => (i, c)) cs). rewrite H, Nat.sub_0_r. split.
  - intros [(c & _ & ? & ?)|[_ Hm]]; [by exists c|]. by rewrite lookup_empty in Hm.
  - intros (c & ? & ?). left. exists c. split_and!; [lia|done|done].
Qed.

Lemma mark_points_map value ps cs (f : ChildFlowInfo -> bool) :
  NoDup (map child_id cs) ->
  mark_points value ps cs (map f cs) =
  map (fun c => if bool_decide (child_id c ∈ ps) then value else f c) cs.
Proof.
  intros Hnd. unfold mark_points. revert f. induction ps as [|p ps IH]; intros f; cbn [foldl].
  { apply map_ext. intros c. by rewrite bool_decide_eq_false_2 by apply not_elem_of_nil. }
  assert (Hone : match id2index cs !! p with Some i => <[i := value]> (map f cs)
                 | None => map f cs end =
                 map (fun c => if bool_decide (child_id c = p) then value else f c) cs).
  { apply list_eq. intros k. rewrite list_lookup_fmap.
    destruct (id2index cs !! p) as [i|] eqn:Ep.
    - apply id2index_spec in Ep as (c & Hc & <-); [|done].
      destruct (decide (k = i)) as [->|].
      + rewrite list_lookup_insert_eq, Hc by (rewrite length_map; by eapply lookup_lt_Some).
        cbn. by rewrite bool_decide_eq_true_2.
      + rewrite list_lookup_insert_ne by done. rewrite list_lookup_fmap.
        destruct (cs !! k) as [c'|] eqn:Hk; cbn; [|done].
        rewrite bool_decide_eq_false_2; [done|]. intros Heq.
        assert (k = i); [|done]. eapply (NoDup_lookup (map child_id cs)); [done| |].
        * rewrite list_lookup_fmap, Hk. cbn. by rewrite Heq.
        * by rewrite list_lookup_fmap, Hc.
    - rewrite list_lookup_fmap. destruct (cs !! k) as [c'|] eqn:Hk; cbn; [|done].
      rewrite bool_decide_eq_false_2; [done|]. intros Heq.
      assert (id2index cs !! p = Some k); [|congruence].
      apply id2index_spec; [done|]. by exists c'. }
  rewrite Hone, IH. apply map_ext. intros c.
  destruct (decide (child_id c ∈ ps)) as [Hin|Hni].
  - by rewrite !bool_decide_eq_true_2 by set_solver.
  - rewrite (bool_decide_eq_false_2 (child_id c ∈ ps)) by done.
    destruct (decide (child_id c = p)).
    + by rewrite !bool_decide_eq_true_2 by set_solver.
    + by rewrite !bool_decide_eq_false_2 by set_solver.
Qed.

Lemma remember_mask_lookup last cs (f : ChildFlowInfo -> bool) id :
  NoDup (map child_id cs) ->
  remember_mask last cs (map f cs) !! id =
  match list_find (fun c => child_id c = id) cs with
  | Some (_, c) => Some (f c) | None => last !! id end.
Proof.
  unfold remember_mask. revert last. induction cs as [|c cs IH]; intros last Hnd; [done|].
  cbn [map] in Hnd. apply NoDup_cons in Hnd as [Hc Hnd]. cbn [map zip_with foldl list_find].
  rewrite IH by done. destruct (decide (child_id c = id)) as [<-|].
  - destruct (list_find _ cs) as [[i c']|] eqn:Ef; [|by rewrite lookup_insert_eq].
    apply list_find_Some in Ef as (Hi & He & _). exfalso. apply Hc.
    rewrite <- He. apply list_elem_of_fmap_2. by eapply list_elem_of_lookup_2.
  - rewrite lookup_insert_ne by done. by destruct (list_find _ cs) as [[i c']|].
Qed.

(** The decision of one child after a diff. *)
Definition decision_after (last : gmap Z bool) (d : DowngradeDiff) (c : ChildFlowInfo) : bool :=
  if in_ids (to_upgrade d) (child_id c) then false
  else if in_ids (to_downgrade d) (child_id c) then true
  else prior_decision last c.

Lemma ApplyDiff_mask last d cs :
  NoDup (map child_id cs) ->
  (DiffSelector_ApplyDiff last d cs).2 = map (decision_after last d) cs.
Proof.
  intros Hnd. unfold DiffSelector_ApplyDiff. cbn [snd].
  rewrite initial_mask_prior, mark_ranges_map, mark_points_map, mark_ranges_map, mark_points_map
    by done.
  apply map_ext. intros c. unfold decision_after, in_ids.
  by repeat destruct (existsb _ _), (bool_decide _).
Qed.

Lemma ApplyDiff_last last d cs id :
  NoDup (map child_id cs) ->
  (DiffSelector_ApplyDiff last d cs).1 !! id =
  match list_find (fun c => child_id c = id) cs with
  | Some (_, c) => Some (decision_after last d c) | None => last !! id end.
Proof.
  intros Hnd. rewrite <- (remember_mask_lookup last cs (decision_after last d) id Hnd).
  rewrite <- ApplyDiff_mask by done. done.
Qed.

(** Turning a diff into a mask: with distinct child ids, a child is at low
    priority iff it is in the downgrade set or was decided so before, and is
    not in the upgrade set; the decision is remembered for exactly the
    children of the call. *)
Theorem DiffSelector_mask_spec last d cs :
  NoDup (map child_id cs) ->
  let '(last', lopri) := DiffSelector_ApplyDiff last d cs in
  length lopri = length cs /\
  (forall i c, cs !! i = Some c -> lopri !! i = Some (decision_after last d c)) /\
  (forall i c, cs !! i = Some c -> last' !! child_id c = lopri !! i) /\
  (forall id, id ∉ map child_id cs -> last' !! id = last !! id).
Proof.
  intros Hnd. pose proof (ApplyDiff_mask last d cs Hnd) as Hm.
  pose proof (fun id => ApplyDiff_last last d cs id Hnd) as Hl.
  destruct (DiffSelector_ApplyDiff last d cs) as [last' lopri]. cbn in Hm, Hl. subst lopri.
  assert (Hat : forall i c, cs !! i = Some c ->
            map (decision_after last d) cs !! i = Some (decision_after last d c)).
  { intros i c Hc. by rewrite list_lookup_fmap, Hc. }
  split_and!; [apply length_map|done| |].
  - intros i c Hc. rewrite (Hat i c Hc), Hl.
    destruct (list_find _ cs) as [[j c']|] eqn:Ef.
    + apply list_find_Some in Ef as (Hj & He & _).
      assert (j = i) as ->; [|congruence]. eapply (NoDup_lookup (map child_id cs)); [done| |].
      * rewrite list_lookup_fmap, Hj. cbn. by rewrite He.
      * by rewrite list_lookup_fmap, Hc.
    + exfalso. apply list_find_None in Ef. rewrite Forall_forall in Ef.
      apply (Ef c); [by eapply list_elem_of_lookup_2|done].
  - intros id Hni. rewrite Hl. destruct (list_find _ cs) as [[j c']|] eqn:Ef; [|done].
    apply list_find_Some in Ef as (Hj & <- & _). exfalso. apply Hni.
    apply list_elem_of_fmap_2. by eapply list_elem_of_lookup_2.
Qed.

Lemma example_children_NoDup : NoDup (map child_id example_children).
Proof. apply (bool_decide_unpack _). vm_compute. exact I. Qed.

Definition example_diff : DowngradeDiff :=
  mkDowngradeDiff (mkUnorderedIds [mkIdRange 1 3] []) (mkUnorderedIds [] [2]).

Lemma DiffSelector_mask_spec_witness :
  (DiffSelector_ApplyDiff {[4 := false]} example_diff example_children).2 =
    [true; false; true; false] /\
  length (DiffSelector_ApplyDiff {[4 := false]} example_diff example_children).2 = 4%nat.
Proof.
  split; [vm_compute; reflexivity|].
  pose proof (DiffSelector_mask_spec {[4 := false]} example_diff example_children
                example_children_NoDup) as H.
  destruct (DiffSelector_ApplyDiff _ _ _) as [l m]. apply H.
Defined.

(** Whether the decisions known about the children agree with the ring. *)
Definition agrees_with_ring (s : HashingSelector) (cs : list ChildFlowInfo) : Prop :=
  forall c, c ∈ cs -> prior_decision (hs_last_is_lopri s) c = IsLOPRI (hs_lopri s) (child_id c).

Lemma in_ids_nonempty_ranges d id :
  in_ids (mkUnorderedIds (nonempty_ranges d) []) id = RingRanges_Contains d id.
Proof.
  unfold in_ids, nonempty_ranges, RingRanges_Contains. cbn [ranges points].
  rewrite bool_decide_eq_false_2 by apply not_elem_of_nil. rewrite orb_false_r.
  assert (He : forall r, IdRange_Empty r <> false -> IdRange_Contains r id = false).
  { intros r. unfold IdRange_Empty, IdRange_Contains. destruct (hi r <? lo r) eqn:E; [|done].
    intros _. bool_to_prop. apply not_true_iff_false. rewrite andb_true_iff, !Z.leb_le. lia. }
  cbn. destruct (decide (IdRange_Empty (ring_a d) = false)) as [|Ha%He];
    destruct (decide (IdRange_Empty (ring_b d) = false)) as [|Hb%He]; cbn;
    rewrite ?Ha, ?Hb, ?orb_false_r; done.
Qed.

(** C31: the hashing selector's mask is the ring: when what is known about the
    children of the call (remembered or reported) agrees with the ring before
    it, and the update is by whole chunks, the returned mask is [IsLOPRI] of
    the updated ring, and the remembered decisions agree with it again.  By
    whole chunks: the fraction stays the same, or it grows by at least one
    chunk, or it shrinks by at least one chunk and the number of chunks of the
    difference is the difference of those of the two fractions, which rounding
    can break, as from 0.9 to 0.1 ([whole_chunks]); and a fraction is zero
    chunks only if it is zero ([ring_ok]). *)
Theorem Hashing_mask_is_ring s cs frac :
  NoDup (map child_id cs) -> (forall c, c ∈ cs -> in_u64 (child_id c)) ->
  ring_ok (hs_lopri s) -> ring_ok (UpdateFrac (hs_lopri s) frac).1 ->
  whole_chunks (hs_lopri s) frac -> agrees_with_ring s cs ->
  let '(s', lopri) := Hashing_PickLOPRIChildren s cs frac in
  lopri = map (fun c => IsLOPRI (hs_lopri s') (child_id c)) cs /\ agrees_with_ring s' cs.
Proof.
  intros Hnd Hid Hok Hok' Hch Hag. unfold Hashing_PickLOPRIChildren, Hashing_PickChildren.
  pose proof (fun id => UpdateFrac_exact (hs_lopri s) frac id Hok Hok' Hch) as Hex.
  destruct (UpdateFrac (hs_lopri s) frac) as [ring d]. cbn [fst snd] in Hex.
  set (dd := match diff_type d with kAdd => _ | kDel => _ end).
  assert (Hdec : forall c, c ∈ cs ->
    decision_after (hs_last_is_lopri s) dd c = IsLOPRI ring (child_id c)).
  { intros c Hc. specialize (Hex _ (Hid c Hc)). specialize (Hag c Hc).
    change (IsLOPRI ring (child_id c)) with (matches ring (child_id c)).
    change (IsLOPRI (hs_lopri s) (child_id c)) with (matches (hs_lopri s) (child_id c)) in Hag.
    unfold decision_after, dd. rewrite Hag.
    destruct (diff_type d); cbn [to_upgrade to_downgrade]; rewrite in_ids_nonempty_ranges, Hex;
      change (in_ids no_ids (child_id c)) with false;
      by destruct (matches _ _), (RingRanges_Contains _ _). }
  pose proof (ApplyDiff_mask (hs_last_is_lopri s) dd cs Hnd) as Hm.
  pose proof (fun id => ApplyDiff_last (hs_last_is_lopri s) dd cs id Hnd) as Hl.
  destruct (DiffSelector_ApplyDiff _ dd cs) as [last' lopri]. cbn in Hm, Hl. split.
  - subst lopri. apply map_ext_in. intros c Hc%list_elem_of_In. by apply Hdec.
  - intros c Hc. unfold prior_decision. cbn [hs_last_is_lopri hs_lopri]. rewrite Hl.
    destruct (list_find _ cs) as [[j c']|] eqn:Ef.
    + apply list_find_Some in Ef as (Hj & He & _). cbn. rewrite <- He. apply Hdec.
      by eapply list_elem_of_lookup_2.
    + exfalso. apply list_find_None in Ef. rewrite Forall_forall in Ef. by apply (Ef c).
Qed.

Definition ring_children : list ChildFlowInfo :=
  [mkChild 5 10 false; mkChild (2 ^ 63 + 5) 20 false].

Lemma Hashing_mask_is_ring_witness :
  let s := mkHashingSelector new_HashRing ∅ in
  (Hashing_PickLOPRIChildren s ring_children half).2 = [true; false] /\
  agrees_with_ring (Hashing_PickLOPRIChildren s ring_children half).1 ring_children.
Proof.
  split; [vm_compute; reflexivity|].
  apply (Hashing_mask_is_ring (mkHashingSelector new_HashRing ∅) ring_children half).
  - apply (bool_decide_unpack _). vm_compute. exact I.
  - intros c [->|[->|[]%elem_of_nil]%elem_of_cons]%elem_of_cons; split; vm_compute; congruence.
  - apply ring_ok_dec. vm_compute. reflexivity.
  - apply ring_ok_dec. vm_compute. reflexivity.
  - right. split; [vm_compute; reflexivity|left]. split_and!; vm_compute; congruence.
  - intros c [->|[->|[]%elem_of_nil]%elem_of_cons]%elem_of_cons; vm_compute; reflexivity.
Defined.

(** The agreement is lost for a child that misses a call: a child decided
    high priority, absent while the ring grows over the whole id space, comes
    back with its remembered decision although the ring contains it. *)
Theorem Hashing_absent_child_stale :
  let s0 := mkHashingSelector new_HashRing ∅ in
  let s1 := (Hashing_PickLOPRIChildren s0 ring_children d0).1 in
  let s2 := (Hashing_PickLOPRIChildren s1 [] d1).1 in
  let '(s3, mask) := Hashing_PickLOPRIChildren s2 ring_children d1 in
  mask = [false; false] /\
  map (fun c => IsLOPRI (hs_lopri s3) (child_id c)) ring_children = [true; true].
Proof. vm_compute. split; reflexivity. Qed.

(** ** The front end: lemmas and claims *)

Lemma length_Greedy inc want cs punish : forall sorted cur lopri,
  length (GreedyAssignToMinimizeGap inc want cs punish cur sorted lopri) = length lopri.
Proof.
  induction sorted as [|i sorted IH]; intros cur lopri; cbn; [done|].
  destruct (Bool.eqb _ _); [done|]. repeat destruct (_ <? _); destruct punish; cbn;
    try destruct (bool_decide _); cbn; by rewrite ?IH, ?length_insert.
Qed.

Lemma length_ApplyDiff last d cs : length (DiffSelector_ApplyDiff last d cs).2 = length cs.
Proof.
  unfold DiffSelector_ApplyDiff. cbn [snd].
  assert (Hr : forall v rs l, length l = length cs -> length (mark_ranges v rs cs l) = length cs).
  { unfold mark_ranges. intros v rs. induction rs as [|r rs IH]; intros l Hl; cbn; [done|].
    apply IH. rewrite length_zip_with. lia. }
  assert (Hp : forall v ps l, length l = length cs -> length (mark_points v ps cs l) = length cs).
  { unfold mark_points. intros v ps. induction ps as [|p ps IH]; intros l Hl; cbn; [done|].
    apply IH. destruct (id2index cs !! p); [by rewrite length_insert|done]. }
  by apply Hp, Hr, Hp, Hr; apply length_map.
Qed.

Lemma length_Hashing_mask s cs frac : length (Hashing_PickLOPRIChildren s cs frac).2 = length cs.
Proof.
  unfold Hashing_PickLOPRIChildren. destruct (Hashing_PickChildren _ _) as [ring d].
  pose proof (length_ApplyDiff (hs_last_is_lopri s) d cs) as Hl.
  by destruct (DiffSelector_ApplyDiff (hs_last_is_lopri s) d cs) as [m l].
Qed.

Lemma length_impl_mask solver impl cs frac impl' l :
  impl_PickLOPRIChildren solver impl cs frac = Some (impl', l) -> length l = length cs.
Proof.
  destruct impl as [s| |t|]; cbn -[Hashing_PickLOPRIChildren].
  - destruct (Hashing_PickLOPRIChildren s cs frac) as [s' l0] eqn:E. intros [= _ <-].
    pose proof (length_Hashing_mask s cs frac) as Hl. by rewrite E in Hl.
  - intros [= <- <-]. unfold HeypSigcomm20_PickLOPRIChildren.
    repeat case_if; rewrite ?length_Greedy, ?length_map, ?length_replicate; done.
  - unfold KnapsackSolver_PickLOPRIChildren. destruct (solver t _ _ _) as [got best].
    case_if; cbn; [|done]. intros [= <- <-]. by rewrite length_map, length_seq.
  - intros [= <- <-]. unfold LargestFirst_PickLOPRIChildren.
    repeat case_if; rewrite ?length_Greedy, ?length_replicate; done.
Qed.

(** When jobs are downgraded the front end's own checks never fail: it
    succeeds whenever the implementation does, every host gets the decision
    of its job, and hosts of one job never differ. *)
Theorem PickLOPRIChildren_jobs_uniform XXH64 solver s info frac impl' js :
  downgrade_jobs_ s = true ->
  impl_PickLOPRIChildren solver (ds_impl s)
    (job_children (JobLevelView_Create XXH64 (view_source s) info)) frac = Some (impl', js) ->
  exists sel,
    PickLOPRIChildren XXH64 solver s info frac =
      Some (mkDowngradeSelector impl' true (downgrade_usage_ s), sel) /\
    length sel = length (children info) /\
    (forall i i' h h', children info !! i = Some h -> children info !! i' = Some h' ->
       job_marker (flow h) = job_marker (flow h') -> sel !! i = sel !! i').
Proof.
  intros Hj Himpl. unfold PickLOPRIChildren. rewrite Hj, Himpl. cbn [mbind option_bind].
  pose proof (length_impl_mask _ _ _ _ _ _ Himpl) as Hljs.
  set (v := JobLevelView_Create XXH64 (view_source s) info) in *.
  pose proof (JobLevelView_index_length XXH64 (view_source s) info) as Hlen. fold v in Hlen.
  destruct (mapM_is_Some_2 (fun j => js !! j) (job_index v)) as [sel Hsel].
  { apply Forall_lookup. intros i j Hi. apply lookup_lt_is_Some_2. rewrite Hljs.
    by eapply JobLevelView_index_range. }
  rewrite Hlen, Nat.eqb_refl, Hsel. cbn [mbind option_bind].
  exists sel. split; [done|]. apply mapM_Some in Hsel.
  pose proof (Forall2_length _ _ _ Hsel) as Hls. split; [lia|].
  destruct (JobLevelView_builder XXH64 (view_source s) info) as [_ _ _ Hidx _].
  intros i i' h h' Hh Hh' Hm.
  assert (Hget : forall k hk, children info !! k = Some hk ->
    exists j, job_index v !! k = Some j /\ sel !! k = js !! j).
  { intros k hk Hk. destruct (lookup_lt_is_Some_2 (job_index v) k) as [j Hjk].
    { rewrite Hlen. by eapply lookup_lt_Some. }
    exists j. split; [done|].
    destruct (Forall2_lookup_l _ _ _ _ _ Hsel Hjk) as (b & Hb & Hjb). by rewrite Hb, Hjb. }
  destruct (Hget i h Hh) as (j & Hij & ->). destruct (Hget i' h' Hh') as (j' & Hij' & ->).
  pose proof (Hidx _ _ _ Hij Hh) as E. pose proof (Hidx _ _ _ Hij' Hh') as E'.
  rewrite Hm in E. congruence.
Qed.

Definition host (d : string) (j : string) (id usage : Z) : FlowInfo :=
  mkFlowInfo (mkFlowMarker "A" d j id "" "" UNSET 0 0 0) 0 usage 0 0 0 0 0 false None.

Definition two_jobs : AggInfo :=
  mkAggInfo empty_info [host "B" "web" 1 40; host "B" "batch" 2 70; host "B" "web" 3 50].

Lemma PickLOPRIChildren_jobs_uniform_witness :
  exists sel, PickLOPRIChildren (fun s => Z.of_nat (String.length s)) (fun _ _ _ _ => (0, fun _ => false))
    (mkDowngradeSelector ImplLargestFirst true true) two_jobs half =
    Some (mkDowngradeSelector ImplLargestFirst true true, sel) /\ sel = [true; false; true].
Proof.
  destruct (PickLOPRIChildren_jobs_uniform (fun s => Z.of_nat (String.length s))
    (fun _ _ _ _ => (0, fun _ => false)) (mkDowngradeSelector ImplLargestFirst true true)
    two_jobs half ImplLargestFirst [true; false]) as (sel & H & _); try (vm_compute; reflexivity).
  exists sel. split; [exact H|]. vm_compute in H. congruence.
Defined.
