(* ===== verification/Allocators.v ===== *)
(** * Allocators: rate limits for the hosts of one aggregate

    src/heyp/cluster-agent/per-agg-allocators/: the five allocators behind
    the virtual [AllocAgg].  Maps keyed by [EqClusterFlow] are keyed here by
    [cluster_key].  A failed check or an exit is [None]; the debug record is
    left out. *)

From S2P Require Import Prelude Doubles FlowMarker MaxMin Clock Views HashRing RateLimits Selectors.

(** ** Configuration (src/heyp/proto/config.proto) *)

Inductive HipriThrottleConditions :=
  HTC_NEVER | HTC_WHEN_ABOVE_HIPRI_LIMIT | HTC_WHEN_ASSIGNED_LOPRI | HTC_ALWAYS.

#[export] Instance HipriThrottleConditions_eq_dec : EqDecision HipriThrottleConditions.
Proof. solve_decision. Defined.

Record DowngradeSelectorConfig := mkSelectorConfig {
  sc_type : DowngradeSelectorType;
  sc_downgrade_usage : bool;
  sc_downgrade_jobs : bool;
  sc_time_limit_sec : double }.

Record FlowAllocAndCount := mkAllocAndCount { fc_alloc : FlowAlloc; fc_num_hosts : Z }.
Notation Snapshot := (list FlowAllocAndCount) (only parsing).
Record FixedClusterHostAllocs := mkFixedAllocs {
  fixed_cluster : FlowMarker; snapshots : list Snapshot }.

Inductive ClusterAllocatorType :=
  CA_NOP | CA_BWE | CA_HEYP_SIGCOMM20 | CA_SIMPLE_DOWNGRADE | CA_FIXED_HOST_PATTERN.

Record ClusterAllocatorConfig := mkAllocatorConfig {
  ca_type : ClusterAllocatorType;
  enable_burstiness : bool;
  enable_bonus : bool;
  oversub_factor : double;
  downgrade_selector : DowngradeSelectorConfig;
  downgrade_frac_controller : option DowngradeFracController;
  heyp_acceptable_measured_ratio_over_intended_ratio : double;
  heyp_probe_lopri_when_ambiguous : bool;
  simple_downgrade_throttle_hipri : HipriThrottleConditions;
  fixed_host_alloc_patterns : list FixedClusterHostAllocs }.

(** ** util.h, util.cc *)

Definition ClampFracLOPRI (frac_lopri : double) : double :=
  if negb (dge frac_lopri d0) then d0 else if negb (dle frac_lopri d1) then d1 else frac_lopri.
Definition ClampFracLOPRISilent (frac_lopri : double) : double :=
  if negb (dge frac_lopri d0) then d0 else if negb (dle frac_lopri d1) then d1 else frac_lopri.

Notation ClusterFlowMap A := (gmap FlowMarker A).

Definition ToAdmissionsMap (b : AllocBundle) : ClusterFlowMap FlowAlloc :=
  foldl (fun m a => <[cluster_key (alloc_flow a) := a]> m) ∅ (flow_allocs b).

Definition new_DowngradeSelector (c : DowngradeSelectorConfig) : option DowngradeSelector :=
  impl ← GetSelector (sc_type c) (sc_time_limit_sec c);
  Some (mkDowngradeSelector impl (sc_downgrade_jobs c) (sc_downgrade_usage c)).

Definition MakeAggDowngradeSelectors (c : DowngradeSelectorConfig)
    (admissions : ClusterFlowMap FlowAlloc) : option (ClusterFlowMap DowngradeSelector) :=
  if bool_decide (admissions = ∅) then Some ∅
  else s ← new_DowngradeSelector c; Some ((fun _ => s) <$> admissions).

(** ** Steps the allocators share *)

(** [admission * burstiness], back in an [int64_t]. *)
Definition scale_admission (admission : Z) (burstiness : double) : Z :=
  double_to_i64 (dmul (dofZ admission) burstiness).

Definition scale_limit (oversub : double) (level bonus : Z) : Z :=
  double_to_i64 (dmul oversub (dofZ (i64 (level + bonus)))).

(** The loop that separates the demands of the two priorities. *)
Fixpoint split_demands (lopri_children : list bool) (cs : list FlowInfo) : list Z * list Z :=
  match cs with
  | [] => ([], [])
  | c :: cs =>
      let '(hi, lo) := split_demands (tail lopri_children) cs in
      if default false (head lopri_children)
      then (hi, predicted_demand_bps c :: lo) else (predicted_demand_bps c :: hi, lo)
  end.

Definition sum_demand (demands : list Z) : double :=
  foldl (fun acc d => dadd acc (dofZ d)) d0 demands.

(** The rate limit of each child, in order. *)
Fixpoint child_allocs (lopri_children : list bool) (hipri_limit lopri_limit : Z)
    (cs : list FlowInfo) : list FlowAlloc :=
  match cs with
  | [] => []
  | c :: cs =>
      (if default false (head lopri_children) then mkFlowAlloc (flow c) 0 lopri_limit
       else mkFlowAlloc (flow c) hipri_limit 0)
      :: child_allocs (tail lopri_children) hipri_limit lopri_limit cs
  end.

Definition waterlevel_of (admission : Z) (demands : list Z) : Z :=
  ComputeWaterlevel default_problem_options admission demands.

Definition bonus_of (config_ : ClusterAllocatorConfig) (admission : Z) (demands : list Z) : Z :=
  if enable_bonus config_
  then EvenlyDistributeExtra admission demands (waterlevel_of admission demands) else 0.

Definition limit_of (config_ : ClusterAllocatorConfig) (admission : Z) (demands : list Z) : Z :=
  scale_limit (oversub_factor config_) (waterlevel_of admission demands)
    (bonus_of config_ admission demands).

Section Allocators.
Context `{Clock}.
Context (XXH64 : string -> Z) (solver : double -> list Z -> list Z -> Z -> Z * (nat -> bool)).

(** ** impl-bwe.cc *)

Record BweAggAllocator := mkBweAgg {
  bwe_config : ClusterAllocatorConfig;
  bwe_admissions : ClusterFlowMap FlowAlloc }.

Definition Bwe_AllocAgg (s : BweAggAllocator) (time : Time) (agg_info : AggInfo)
    : option (list FlowAlloc) :=
  match bwe_admissions s !! cluster_key (flow (parent agg_info)) with
  | None => Some []
  | Some admission =>
      if lopri_rate_limit_bps admission =? 0 then
        let cluster_admission := hipri_rate_limit_bps admission in
        let cluster_admission :=
          if enable_burstiness (bwe_config s)
          then scale_admission cluster_admission (BweBurstinessFactor agg_info)
          else cluster_admission in
        let demands := map predicted_demand_bps (children agg_info) in
        let limit := limit_of (bwe_config s) cluster_admission demands in
        Some (map (fun c => mkFlowAlloc (flow c) limit 0) (children agg_info))
      else None
  end.

(** ** impl-nop.h *)

Definition Nop_AllocAgg (time : Time) (agg_info : AggInfo) : list FlowAlloc := [].

(** ** impl-fixed-host-pattern.cc *)

Record SnapshotHostIter := mkHostIter { pair_index_ : nat; pair_remaining_ : Z }.

Definition new_SnapshotHostIter (s : Snapshot) : SnapshotHostIter :=
  mkHostIter 0 (match s with [] => 0 | p :: _ => fc_num_hosts p end).

(** The loop of [Next]; [length s - pair_index_] steps are enough. *)
Fixpoint Next_loop (fuel : nat) (s : Snapshot) (it : SnapshotHostIter)
    : SnapshotHostIter * FlowAlloc :=
  match fuel with
  | O => (it, empty_alloc)
  | S fuel =>
      match s !! pair_index_ it with
      | None => (it, empty_alloc)
      | Some p =>
          if 0 <? pair_remaining_ it
          then (mkHostIter (pair_index_ it) (pair_remaining_ it - 1), fc_alloc p)
          else
            let i := S (pair_index_ it) in
            Next_loop fuel s
              (mkHostIter i (match s !! i with Some q => fc_num_hosts q
                                             | None => pair_remaining_ it end))
      end
  end.

Definition SnapshotHostIter_Next (s : Snapshot) (it : SnapshotHostIter)
    : SnapshotHostIter * FlowAlloc := Next_loop (S (length s)) s it.

Fixpoint pattern_allocs (s : Snapshot) (it : SnapshotHostIter) (cs : list FlowInfo)
    : list FlowAlloc :=
  match cs with
  | [] => []
  | c :: cs =>
      let '(it, a) := SnapshotHostIter_Next s it in
      mkFlowAlloc (flow c) (hipri_rate_limit_bps a) (lopri_rate_limit_bps a)
      :: pattern_allocs s it cs
  end.

Record FixedHostPatternAllocator := mkFixedHost {
  alloc_patterns_ : ClusterFlowMap FixedClusterHostAllocs;
  next_ : Z }.

Definition new_FixedHostPatternAllocator (c : ClusterAllocatorConfig) : FixedHostPatternAllocator :=
  mkFixedHost (foldl (fun m p => <[cluster_key (fixed_cluster p) := p]> m) ∅
                 (fixed_host_alloc_patterns c)) 0.

Definition FixedHost_AllocAgg (s : FixedHostPatternAllocator) (time : Time) (agg_info : AggInfo)
    : FixedHostPatternAllocator * list FlowAlloc :=
  match alloc_patterns_ s !! cluster_key (flow (parent agg_info)) with
  | None => (s, [])
  | Some p =>
      match snapshots p with
      | [] => (s, [])
      | _ =>
          let snapshot_pattern :=
            snapshots p !!! Z.to_nat (Z.rem (next_ s) (Z.of_nat (length (snapshots p)))) in
          (mkFixedHost (alloc_patterns_ s) (u64 (next_ s + 1)),
           pattern_allocs snapshot_pattern (new_SnapshotHostIter snapshot_pattern)
             (children agg_info))
      end
  end.

(** ** impl-heyp-sigcomm-20.cc *)

Record HeypAggState := mkHeypAggState {
  h_single : SingleAggState;
  frac_lopri_with_probing : double }.

Record HeypSigcomm20Allocator := mkHeypAllocator {
  heyp_config : ClusterAllocatorConfig;
  demand_multiplier_ : double;
  heyp_agg_states_ : ClusterFlowMap HeypAggState;
  downgrade_selectors_ : ClusterFlowMap DowngradeSelector }.

Definition new_HeypSigcomm20Allocator (c : ClusterAllocatorConfig)
    (agg_admissions : ClusterFlowMap FlowAlloc) (demand_multiplier : double)
    : option HeypSigcomm20Allocator :=
  sels ← MakeAggDowngradeSelectors (downgrade_selector c) agg_admissions;
  Some (mkHeypAllocator c demand_multiplier
          ((fun a => mkHeypAggState (mkSingleAggState a d0 UnixEpoch 0 0) d0) <$> agg_admissions)
          sels).

(** The state after the limits were revised and the fractions computed. *)
Definition heyp_revise (config_ : ClusterAllocatorConfig) (demand_multiplier : double)
    (time : Time) (agg_info : AggInfo) (cur_state : HeypAggState) : option HeypAggState :=
  let sa := h_single cur_state in
  let p := parent agg_info in
  let lopri := HeypSigcomm20MaybeReviseLOPRIAdmission
                 (heyp_acceptable_measured_ratio_over_intended_ratio config_) time p sa in
  let alloc := mkFlowAlloc (alloc_flow (sa_alloc sa)) (hipri_rate_limit_bps (sa_alloc sa)) lopri in
  let hipri := hipri_rate_limit_bps alloc in
  let frac := FracAdmittedAtLOPRI Views.kPredictedDemand p hipri lopri in
  probing ← (if heyp_probe_lopri_when_ambiguous config_
             then FracAdmittedAtLOPRIToProbe Views.kPredictedDemand agg_info hipri lopri
                    demand_multiplier frac
             else Some frac);
  Some (mkHeypAggState
          (mkSingleAggState alloc frac time (cum_hipri_usage_bytes p) (cum_lopri_usage_bytes p))
          (ClampFracLOPRI probing)).

Definition set_frac_lopri (f : double) (s : HeypAggState) : HeypAggState :=
  let sa := h_single s in
  mkHeypAggState (mkSingleAggState (sa_alloc sa) f (sa_last_time sa)
    (sa_last_cum_hipri_usage_bytes sa) (sa_last_cum_lopri_usage_bytes sa))
    (frac_lopri_with_probing s).

Definition Heyp_AllocAgg (s : HeypSigcomm20Allocator) (time : Time) (agg_info : AggInfo)
    : option (HeypSigcomm20Allocator * list FlowAlloc) :=
  let config_ := heyp_config s in
  let key := cluster_key (flow (parent agg_info)) in
  match heyp_agg_states_ s !! key with
  | None => Some (s, [])
  | Some cur_state =>
      cur_state ← heyp_revise config_ (demand_multiplier_ s) time agg_info cur_state;
      let alloc := sa_alloc (h_single cur_state) in
      let burst a := if enable_burstiness config_
                     then scale_admission a (BweBurstinessFactor agg_info) else a in
      let hipri_admission := burst (hipri_rate_limit_bps alloc) in
      let lopri_admission := burst (lopri_rate_limit_bps alloc) in
      sel ← downgrade_selectors_ s !! key;
      '(sel, lopri_children) ← PickLOPRIChildren XXH64 solver sel agg_info
                                 (frac_lopri_with_probing cur_state);
      let '(hipri_demands, lopri_demands) := split_demands lopri_children (children agg_info) in
      let frac_lopri_post_partition :=
        ddiv (sum_demand lopri_demands)
          (dadd (sum_demand hipri_demands) (sum_demand lopri_demands)) in
      let cur_state :=
        if dlt frac_lopri_post_partition (sa_frac_lopri (h_single cur_state))
        then set_frac_lopri frac_lopri_post_partition cur_state else cur_state in
      Some (mkHeypAllocator config_ (demand_multiplier_ s)
              (<[key := cur_state]> (heyp_agg_states_ s))
              (<[key := sel]> (downgrade_selectors_ s)),
            child_allocs lopri_children (limit_of config_ hipri_admission hipri_demands)
              (limit_of config_ lopri_admission lopri_demands) (children agg_info))
  end.

(** ** impl-simple-downgrade.cc *)

Definition kMaxChildBandwidthBps : Z := 100 * Z.shiftl 1 30.

Record SimpleAggState := mkSimpleAggState {
  downgrade_frac : double;
  ewma_max_child_usage : double;
  frac_controller : option DowngradeFracController;
  selector : DowngradeSelector }.

Record SimpleDowngradeAllocator := mkSimpleAllocator {
  simple_config : ClusterAllocatorConfig;
  simple_admissions : ClusterFlowMap FlowAlloc;
  simple_agg_states_ : ClusterFlowMap SimpleAggState;
  downgrade_fv_source_ : FVSource }.

Definition new_SimpleDowngradeAllocator (c : ClusterAllocatorConfig)
    (agg_admissions : ClusterFlowMap FlowAlloc) : option SimpleDowngradeAllocator :=
  sels ← MakeAggDowngradeSelectors (downgrade_selector c) agg_admissions;
  Some (mkSimpleAllocator c agg_admissions
          ((fun s => mkSimpleAggState d0 (dneg d1) (downgrade_frac_controller c) s) <$> sels)
          (if sc_downgrade_usage (downgrade_selector c)
           then Views.kUsage else Views.kPredictedDemand)).

Definition kEwmaWeight : double := dlit 3 10.

Definition max_child_usage (cs : list FlowInfo) : double :=
  foldl (fun m c => if dgt (dofZ (ewma_usage_bps c)) m then dofZ (ewma_usage_bps c) else m) d0 cs.

(** One step of the feedback control of an aggregate. *)
Definition simple_feedback (controller : DowngradeFracController) (agg_info : AggInfo)
    (hipri_admission : Z) (st : SimpleAggState) : option SimpleAggState :=
  let m := max_child_usage (children agg_info) in
  let e := ewma_max_child_usage st in
  let e := if dlt e d0 then m else dadd (dmul kEwmaWeight m) (dmul (dsub d1 kEwmaWeight) e) in
  let p := parent agg_info in
  inc ← (if ewma_usage_bps p <? hipri_admission then Some (dneg (dlit 2 10))
         else TrafficFracToDowngrade controller (dofZ (ewma_hipri_usage_bps p))
                (dofZ (ewma_lopri_usage_bps p)) (dofZ hipri_admission) e);
  Some (mkSimpleAggState (ClampFracLOPRISilent (dadd (downgrade_frac st) inc)) e
          (frac_controller st) (selector st)).

Definition throttle_hipri (c : HipriThrottleConditions) (lopri_bps : Z) (lopri_demands : list Z)
    : bool :=
  match c with
  | HTC_NEVER => false
  | HTC_WHEN_ABOVE_HIPRI_LIMIT => 0 <? lopri_bps
  | HTC_WHEN_ASSIGNED_LOPRI => (0 <? length lopri_demands)%nat
  | HTC_ALWAYS => true
  end.

Definition Simple_AllocAgg (s : SimpleDowngradeAllocator) (time : Time) (agg_info : AggInfo)
    : option (SimpleDowngradeAllocator * list FlowAlloc) :=
  let config_ := simple_config s in
  let key := cluster_key (flow (parent agg_info)) in
  match simple_admissions s !! key with
  | None => Some (s, [])
  | Some admissions =>
      let hipri_admission := hipri_rate_limit_bps admissions in
      let lopri_admission := lopri_rate_limit_bps admissions in
      let volume := GetFlowVolume (parent agg_info) (downgrade_fv_source_ s) in
      let lopri_bps := Z.max 0 (i64 (volume - hipri_admission)) in
      st ← simple_agg_states_ s !! key;
      '(st, frac_lopri) ←
        match frac_controller st with
        | Some controller =>
            st ← simple_feedback controller agg_info hipri_admission st;
            Some (st, downgrade_frac st)
        | None => Some (st, ClampFracLOPRI (ddiv (dofZ lopri_bps) (dofZ volume)))
        end;
      let burst a := if enable_burstiness config_
                     then scale_admission a (BweBurstinessFactor agg_info) else a in
      let hipri_admission := burst hipri_admission in
      let lopri_admission := burst lopri_admission in
      '(sel, lopri_children) ← PickLOPRIChildren XXH64 solver (selector st) agg_info frac_lopri;
      let lopri_children :=
        if dle frac_lopri d0 then replicate (length (children agg_info)) false
        else lopri_children in
      let '(hipri_demands, lopri_demands) := split_demands lopri_children (children agg_info) in
      let hipri_limit :=
        if throttle_hipri (simple_downgrade_throttle_hipri config_) lopri_bps lopri_demands
        then limit_of config_ hipri_admission hipri_demands else kMaxChildBandwidthBps in
      let st := mkSimpleAggState (downgrade_frac st) (ewma_max_child_usage st)
                  (frac_controller st) sel in
      Some (mkSimpleAllocator config_ (simple_admissions s)
              (<[key := st]> (simple_agg_states_ s)) (downgrade_fv_source_ s),
            child_allocs lopri_children hipri_limit
              (limit_of config_ lopri_admission lopri_demands) (children agg_info))
  end.
End Allocators.

(** ** Shared steps: lemmas *)

(** The demands of the children whose mark is [b]. *)
Definition marked (b : bool) (mask : list bool) (cs : list FlowInfo) : list Z :=
  map (fun p => predicted_demand_bps (snd p)) (filter (fun p => fst p = b) (zip mask cs)).

Lemma split_demands_marked cs : forall mask,
  length mask = length cs ->
  split_demands mask cs = (marked false mask cs, marked true mask cs).
Proof.
  induction cs as [|c cs IH]; intros [|b mask] Hl; try done.
  cbn [split_demands tail head default]. injection Hl as Hl. rewrite IH by done.
  unfold marked. cbn [zip zip_with]. destruct b.
  - by rewrite filter_cons_False, filter_cons_True.
  - by rewrite filter_cons_True, filter_cons_False.
Qed.

Lemma marked_perm cs : forall mask,
  length mask = length cs ->
  marked false mask cs ++ marked true mask cs ≡ₚ map predicted_demand_bps cs.
Proof.
  unfold marked. induction cs as [|c cs IH]; intros [|b mask] Hl; try done.
  injection Hl as Hl. cbn [zip zip_with]. specialize (IH mask Hl). destruct b.
  - rewrite filter_cons_False, filter_cons_True by done. cbn [map snd].
    rewrite <- Permutation_middle. by constructor.
  - rewrite filter_cons_True, filter_cons_False by done. cbn [map snd app]. by constructor.
Qed.

Lemma child_allocs_lookup h l cs : forall mask i,
  length mask = length cs ->
  child_allocs mask h l cs !! i =
  (c ← cs !! i; b ← mask !! i;
   Some (if (b : bool) then mkFlowAlloc (flow c) 0 l else mkFlowAlloc (flow c) h 0)).
Proof.
  induction cs as [|c cs IH]; intros [|b mask] i Hl; try done.
  injection Hl as Hl. destruct i as [|i]; [by destruct b|]. cbn. by apply IH.
Qed.

Lemma child_allocs_flows h l cs : forall mask, map alloc_flow (child_allocs mask h l cs) = map flow cs.
Proof.
  induction cs as [|c cs IH]; intros mask; [done|]. cbn. rewrite IH. f_equal.
  by destruct (default false (head mask)).
Qed.

Lemma demands_bounded_app B l k ds :
  demands_bounded B ds -> l ++ k ≡ₚ ds -> demands_bounded B l /\ demands_bounded B k.
Proof.
  intros (Hd & HB & Hn) Hp.
  assert (Hlen : (length l + length k)%nat = length ds) by (by rewrite <- length_app, Hp).
  assert (Hin : forall x, x ∈ l ++ k -> x ∈ ds) by (intros x; by rewrite Hp).
  split; (split; [|split; [done|nia]]); intros d Hd'; apply Hd, Hin; set_solver.
Qed.

Lemma PickLOPRIChildren_length XXH64 solver s info frac s' mask :
  PickLOPRIChildren XXH64 solver s info frac = Some (s', mask) ->
  length mask = length (children info).
Proof.
  unfold PickLOPRIChildren. destruct (downgrade_jobs_ s).
  - destruct (impl_PickLOPRIChildren _ _ _ _) as [[impl js]|]; [|done]. cbn [mbind option_bind].
    case_if; [|done]. destruct (mapM _ _) as [sel|] eqn:Em; [|done]. cbn [mbind option_bind].
    intros [= _ <-]. apply mapM_Some, Forall2_length in Em. lia.
  - destruct (impl_PickLOPRIChildren _ _ _ _) as [[impl l]|] eqn:E; [|done].
    cbn [mbind option_bind]. intros [= _ <-]. apply length_impl_mask in E. rewrite E.
    unfold HostLevelView_Create. by rewrite length_map.
Qed.

Lemma ClampFracLOPRI_in_unit x :
  dle d0 (ClampFracLOPRI x) = true /\ dle (ClampFracLOPRI x) d1 = true.
Proof.
  unfold ClampFracLOPRI. destruct (dge x d0) eqn:E0; cbn [negb]; [|done].
  destruct (dle x d1) eqn:E1; cbn [negb]; [|done]. done.
Qed.

(** What a priority's children get out of its admission. *)
Record fair_share (config_ : ClusterAllocatorConfig) (admission : Z) (demands : list Z)
    (level bonus limit : Z) : Prop := {
  fs_level : is_fair_waterlevel admission demands level;
  fs_bonus : enable_bonus config_ = false -> bonus = 0;
  fs_total : demands <> [] ->
    0 <= bonus /\ zsum (map (fun d => Z.min d level + bonus) demands) <= admission;
  fs_limit : limit = scale_limit (oversub_factor config_) level bonus }.

Lemma limit_of_fair config_ B admission demands :
  demands_bounded B demands -> capacity_bounded admission ->
  Z.of_nat (length demands) <= NthElement.kScratchSize ->
  fair_share config_ admission demands (waterlevel_of admission demands)
    (bonus_of config_ admission demands) (limit_of config_ admission demands).
Proof.
  intros Hd Hc Hl. unfold waterlevel_of.
  pose proof (ComputeWaterlevel_fair default_problem_options B admission demands Hd Hc
                (or_introl Hl)) as Hfair.
  split; [done| | |done].
  - unfold bonus_of. by intros ->.
  - intros Hne. unfold bonus_of, waterlevel_of. destruct (enable_bonus config_).
    + destruct (level_plus_extra default_problem_options B admission demands) as (? & ? & _); auto.
    + destruct Hfair as (_ & Hs & _). split; [done|].
      rewrite (zsum_map_ext _ (Z.min (ComputeWaterlevel default_problem_options admission demands)));
        [exact Hs|]. intros x _. lia.
Qed.

(** ** Claims: BwE *)

(** The BwE allocator, for an aggregate with an admission, at most 512
    children with bounded demands and no burstiness: every child gets the
    same high-priority limit and no low-priority one, the limit is the
    oversubscribed sum of the fair water level and the bonus, and the
    children's capped demands plus bonuses fit in the admission. *)
Theorem Bwe_AllocAgg_fair `{Clock} s time info adm B :
  bwe_admissions s !! cluster_key (flow (parent info)) = Some adm ->
  lopri_rate_limit_bps adm = 0 -> enable_burstiness (bwe_config s) = false ->
  capacity_bounded (hipri_rate_limit_bps adm) ->
  demands_bounded B (map predicted_demand_bps (children info)) ->
  Z.of_nat (length (children info)) <= NthElement.kScratchSize ->
  exists allocs level bonus limit, Bwe_AllocAgg s time info = Some allocs /\
    allocs = map (fun c => mkFlowAlloc (flow c) limit 0) (children info) /\
    fair_share (bwe_config s) (hipri_rate_limit_bps adm)
      (map predicted_demand_bps (children info)) level bonus limit.
Proof.
  intros Ha Hl Hb Hc Hd Hn. unfold Bwe_AllocAgg. rewrite Ha, Hl, Hb. cbn [Z.eqb].
  eexists _, _, _, _. split; [done|]. split; [done|]. eapply limit_of_fair; [done|done|].
  by rewrite length_map.
Qed.

Definition example_marker (d : string) (id : Z) : FlowMarker :=
  mkFlowMarker "A" d "" id "" "" UNSET 0 0 0.
Definition example_child (id demand : Z) : FlowInfo :=
  mkFlowInfo (example_marker "B" id) demand demand demand 0 0 0 0 false None.
Definition example_agg : AggInfo :=
  mkAggInfo (example_child 0 527) [example_child 1 300; example_child 2 27; example_child 3 200].
Definition example_selector_config : DowngradeSelectorConfig :=
  mkSelectorConfig DS_LARGEST_FIRST false false (dneg d1).
Definition example_config (ty : ClusterAllocatorType) : ClusterAllocatorConfig :=
  mkAllocatorConfig ty false true d1 example_selector_config None (dlit 9 10) true HTC_ALWAYS [].
Definition example_admissions (hipri lopri : Z) : ClusterFlowMap FlowAlloc :=
  {[example_marker "B" 0 := mkFlowAlloc (example_marker "B" 0) hipri lopri]}.

Lemma example_agg_bounded : demands_bounded 300 (map predicted_demand_bps (children example_agg)).
Proof.
  split; [|split; [done|cbn; lia]]. intros d Hd. cbn in Hd.
  repeat (apply elem_of_cons in Hd as [->|Hd]; [lia|]). by apply elem_of_nil in Hd.
Qed.

Lemma Bwe_AllocAgg_fair_witness :
  exists limit, @Bwe_AllocAgg ZClock (mkBweAgg (example_config CA_BWE) (example_admissions 400 0))
    (at_seconds 1) example_agg =
    Some (map (fun c => mkFlowAlloc (flow c) limit 0) (children example_agg)).
Proof.
  destruct (@Bwe_AllocAgg_fair ZClock (mkBweAgg (example_config CA_BWE) (example_admissions 400 0))
    (at_seconds 1) example_agg (mkFlowAlloc (example_marker "B" 0) 400 0) 300)
    as (allocs & level & bonus & limit & He & -> & _).
  - apply lookup_singleton_eq.
  - reflexivity.
  - reflexivity.
  - unfold capacity_bounded. cbn. lia.
  - apply example_agg_bounded.
  - by vm_compute.
  - exists limit. exact He.
Defined.

(** ** Claims: HEYP SIGCOMM 20 *)

(** How the children of an aggregate are limited: by their mark, each
    priority sharing its own admission. *)
Record split_allocs (config_ : ClusterAllocatorConfig) (hipri_admission lopri_admission : Z)
    (cs : list FlowInfo) (mask : list bool) (allocs : list FlowAlloc) : Prop := {
  sp_mask : length mask = length cs;
  sp_allocs : exists hl hb hlim ll lb llim,
    fair_share config_ hipri_admission (marked false mask cs) hl hb hlim /\
    fair_share config_ lopri_admission (marked true mask cs) ll lb llim /\
    forall i c b, cs !! i = Some c -> mask !! i = Some b ->
      allocs !! i = Some (if (b : bool) then mkFlowAlloc (flow c) 0 llim
                          else mkFlowAlloc (flow c) hlim 0) }.

Lemma child_allocs_split config_ B hipri lopri cs mask :
  length mask = length cs -> demands_bounded B (map predicted_demand_bps cs) ->
  Z.of_nat (length cs) <= NthElement.kScratchSize ->
  capacity_bounded hipri -> capacity_bounded lopri ->
  split_allocs config_ hipri lopri cs mask
    (child_allocs mask (limit_of config_ hipri (marked false mask cs))
       (limit_of config_ lopri (marked true mask cs)) cs).
Proof.
  intros Hl Hd Hn Hh Hlo. pose proof (marked_perm cs mask Hl) as Hp.
  destruct (demands_bounded_app B _ _ _ Hd Hp) as [Hdf Hdt].
  assert (Hlen : (length (marked false mask cs) + length (marked true mask cs))%nat = length cs)
    by (by rewrite <- length_app, Hp, length_map).
  split; [done|]. eexists _, _, _, _, _, _. split_and!.
  - eapply limit_of_fair; [done|done|lia].
  - eapply limit_of_fair; [done|done|lia].
  - intros i c b Hc Hb. rewrite child_allocs_lookup by done. by rewrite Hc, Hb.
Qed.

(** C32: the SIGCOMM 20 allocator, for an aggregate with an admission, at most
    512 children ([kScratchSize], where the default solver is fair), demands
    and admissions whose sums do not overflow, and no burstiness: when it
    succeeds, only this aggregate's state changes; its
    low-priority admission never grows, its time and counters are the ones
    reported and the fraction it probes with is in [0, 1]; every child gets
    a limit in exactly one priority, and each priority's children share its
    admission fairly. *)
Theorem Heyp_AllocAgg_fair `{Clock} XXH64 solver s time info cur s' allocs B :
  heyp_agg_states_ s !! cluster_key (flow (parent info)) = Some cur ->
  enable_burstiness (heyp_config s) = false ->
  demands_bounded B (map predicted_demand_bps (children info)) ->
  Z.of_nat (length (children info)) <= NthElement.kScratchSize ->
  Heyp_AllocAgg XXH64 solver s time info = Some (s', allocs) ->
  exists cur' mask,
    heyp_agg_states_ s' = <[cluster_key (flow (parent info)) := cur']> (heyp_agg_states_ s) /\
    let a := sa_alloc (h_single cur) in let a' := sa_alloc (h_single cur') in
    hipri_rate_limit_bps a' = hipri_rate_limit_bps a /\
    lopri_rate_limit_bps a' <= lopri_rate_limit_bps a /\
    sa_last_time (h_single cur') = time /\
    sa_last_cum_hipri_usage_bytes (h_single cur') = cum_hipri_usage_bytes (parent info) /\
    sa_last_cum_lopri_usage_bytes (h_single cur') = cum_lopri_usage_bytes (parent info) /\
    dle d0 (frac_lopri_with_probing cur') = true /\ dle (frac_lopri_with_probing cur') d1 = true /\
    (capacity_bounded (hipri_rate_limit_bps a') -> capacity_bounded (lopri_rate_limit_bps a') ->
     split_allocs (heyp_config s) (hipri_rate_limit_bps a') (lopri_rate_limit_bps a')
       (children info) mask allocs).
Proof.
  intros Hcur Hb Hd Hn. unfold Heyp_AllocAgg. rewrite Hcur, Hb.
  destruct (heyp_revise _ _ _ _ _) as [c1|] eqn:Er; [|done]. cbn [mbind option_bind].
  destruct (downgrade_selectors_ s !! _) as [sel|]; [|done]. cbn [mbind option_bind].
  destruct (PickLOPRIChildren _ _ _ _ _) as [[sel' mask]|] eqn:Ep; [|done].
  cbn [mbind option_bind]. pose proof (PickLOPRIChildren_length _ _ _ _ _ _ _ Ep) as Hl.
  rewrite split_demands_marked by done. intros [= <- <-]. eexists _, mask. split; [done|].
  unfold heyp_revise in Er. destruct (if heyp_probe_lopri_when_ambiguous _ then _ else _)
    as [probing|]; [|done]. cbn [mbind option_bind] in Er. injection Er as <-.
  destruct (ClampFracLOPRI_in_unit probing) as [Hc0 Hc1].
  destruct (revised_limit_le (heyp_acceptable_measured_ratio_over_intended_ratio (heyp_config s))
    time (parent info) (h_single cur)) as [Hrev _].
  cbn zeta. destruct (dlt _ _); cbn; (split_and!; try done); intros Hch Hcl;
    eapply child_allocs_split; done.
Qed.

Definition no_solver : double -> list Z -> list Z -> Z -> Z * (nat -> bool) :=
  fun _ _ _ _ => (0, fun _ => false).

Lemma Heyp_AllocAgg_fair_witness :
  exists (s : @HeypSigcomm20Allocator ZClock) s' allocs mask,
    @Heyp_AllocAgg ZClock (fun _ => 0) no_solver s (at_seconds 1) example_agg = Some (s', allocs) /\
    split_allocs (example_config CA_HEYP_SIGCOMM20) 300 200 (children example_agg) mask allocs.
Proof.
  set (cur := @mkHeypAggState ZClock (@mkSingleAggState ZClock
    (mkFlowAlloc (example_marker "B" 0) 300 200) d0 (@UnixEpoch ZClock) 0 0) d0).
  set (s := @mkHeypAllocator ZClock (example_config CA_HEYP_SIGCOMM20) d1
    {[example_marker "B" 0 := cur]}
    {[example_marker "B" 0 := mkDowngradeSelector ImplLargestFirst false false]}).
  assert (Hlo : (p ← @Heyp_AllocAgg ZClock (fun _ => 0) no_solver s (at_seconds 1) example_agg;
    c ← @heyp_agg_states_ ZClock (fst p) !! example_marker "B" 0;
    Some (lopri_rate_limit_bps (@sa_alloc ZClock (@h_single ZClock c)))) = Some 200)
    by (vm_compute; reflexivity).
  destruct (@Heyp_AllocAgg ZClock (fun _ => 0) no_solver s (at_seconds 1) example_agg)
    as [[s' allocs]|] eqn:Hs; [|discriminate Hlo].
  destruct (@Heyp_AllocAgg_fair ZClock (fun _ => 0) no_solver s (at_seconds 1) example_agg
    cur s' allocs 300) as (cur' & mask & Hst & Hh & _ & _ & _ & _ & _ & _ & Hsplit).
  - apply lookup_singleton_eq.
  - reflexivity.
  - apply example_agg_bounded.
  - by vm_compute.
  - exact Hs.
  - exists s, s', allocs, mask. split; [exact Hs|].
    cbn [mbind option_bind fst] in Hlo. rewrite Hst in Hlo.
    change (cluster_key (flow (parent example_agg))) with (example_marker "B" 0) in Hlo.
    rewrite lookup_insert_eq in Hlo. cbn [mbind option_bind] in Hlo. injection Hlo as Hlo.
    change (hipri_rate_limit_bps (sa_alloc (h_single cur))) with 300 in Hh.
    rewrite Hh, Hlo in Hsplit. apply Hsplit; unfold capacity_bounded; lia.
Defined.

(** ** Claims: the simple downgrade allocator *)

Lemma frac_of_no_excess v :
  dle (ClampFracLOPRI (ddiv (dofZ 0) v)) d0 = true.
Proof. destruct v as [[]|[]| |[] m e]; reflexivity. Qed.

Lemma all_hipri cs :
  let m := replicate (length cs) false in
  marked true m cs = [] /\ marked false m cs = map predicted_demand_bps cs /\
  forall h l, child_allocs m h l cs = map (fun c => mkFlowAlloc (flow c) h 0) cs.
Proof.
  unfold marked. induction cs as [|c cs IH]; [done|]. destruct IH as (IH1 & IH2 & IH3).
  cbn [length replicate zip zip_with]. rewrite filter_cons_False by (cbn; done).
  rewrite filter_cons_True by done. split_and!; [exact IH1|cbn [map snd]; by rewrite IH2|].
  intros h l. cbn. by rewrite <- (IH3 h l).
Qed.

(** Without feedback control, an aggregate whose volume is within its
    high-priority admission is not downgraded: whatever the selector picks,
    every child keeps the high priority, with a limit that shares the
    admission fairly, or the fixed maximum when the configuration does not
    throttle the high priority. *)
Theorem Simple_AllocAgg_no_excess_no_downgrade `{Clock} XXH64 solver s time info adm st s' allocs B :
  simple_admissions s !! cluster_key (flow (parent info)) = Some adm ->
  simple_agg_states_ s !! cluster_key (flow (parent info)) = Some st ->
  frac_controller st = None -> enable_burstiness (simple_config s) = false ->
  GetFlowVolume (parent info) (downgrade_fv_source_ s) <= hipri_rate_limit_bps adm ->
  in_i64 (GetFlowVolume (parent info) (downgrade_fv_source_ s) - hipri_rate_limit_bps adm) ->
  capacity_bounded (hipri_rate_limit_bps adm) ->
  demands_bounded B (map predicted_demand_bps (children info)) ->
  Z.of_nat (length (children info)) <= NthElement.kScratchSize ->
  Simple_AllocAgg XXH64 solver s time info = Some (s', allocs) ->
  exists limit, allocs = map (fun c => mkFlowAlloc (flow c) limit 0) (children info) /\
    if decide (simple_downgrade_throttle_hipri (simple_config s) = HTC_ALWAYS)
    then exists level bonus, fair_share (simple_config s) (hipri_rate_limit_bps adm)
           (map predicted_demand_bps (children info)) level bonus limit
    else limit = 107374182400.
Proof.
  intros Ha Hst Hfc Hb Hv Hr Hc Hd Hn. unfold Simple_AllocAgg. rewrite Ha, Hst.
  cbn [mbind option_bind]. rewrite Hfc, Hb. rewrite i64_id, Z.max_l by (done || lia).
  cbn [mbind option_bind].
  destruct (PickLOPRIChildren _ _ _ _ _) as [[sel' mask]|] eqn:Ep; [|done].
  cbn [mbind option_bind]. rewrite frac_of_no_excess.
  rewrite split_demands_marked by apply length_replicate.
  set (m := replicate _ _). intros [= <- <-].
  destruct (all_hipri (children info)) as (Hnone & Hall & Hmap). fold m in Hnone, Hall, Hmap.
  rewrite Hnone, Hall.
  rewrite Hmap. eexists. split; [done|].
  destruct (simple_downgrade_throttle_hipri (simple_config s)); cbn; try done.
  eexists _, _. eapply limit_of_fair; [done|done|]. by rewrite length_map.
Qed.

Lemma Simple_AllocAgg_no_excess_no_downgrade_witness :
  exists s' allocs limit,
    @Simple_AllocAgg ZClock (fun _ => 0) no_solver
      (mkSimpleAllocator (example_config CA_SIMPLE_DOWNGRADE) (example_admissions 600 100)
        {[example_marker "B" 0 := mkSimpleAggState d0 (dneg d1) None
            (mkDowngradeSelector ImplLargestFirst false false)]} Views.kPredictedDemand)
      (at_seconds 1) example_agg = Some (s', allocs) /\
    allocs = map (fun c => mkFlowAlloc (flow c) limit 0) (children example_agg).
Proof.
  set (st := mkSimpleAggState d0 (dneg d1) None (mkDowngradeSelector ImplLargestFirst false false)).
  set (s := mkSimpleAllocator _ _ _ _).
  assert (Hsome : bool_decide (is_Some (@Simple_AllocAgg ZClock (fun _ => 0) no_solver s
    (at_seconds 1) example_agg)) = true) by (vm_compute; reflexivity).
  destruct (@Simple_AllocAgg ZClock (fun _ => 0) no_solver s (at_seconds 1) example_agg)
    as [[s' allocs]|] eqn:Hs; [|discriminate Hsome].
  destruct (@Simple_AllocAgg_no_excess_no_downgrade ZClock (fun _ => 0) no_solver s (at_seconds 1)
    example_agg (mkFlowAlloc (example_marker "B" 0) 600 100) st s' allocs 300) as (limit & Hl & _).
  - apply lookup_singleton_eq.
  - apply lookup_singleton_eq.
  - reflexivity.
  - reflexivity.
  - cbn. lia.
  - unfold in_i64. cbn. lia.
  - unfold capacity_bounded. cbn. lia.
  - apply example_agg_bounded.
  - by vm_compute.
  - exact Hs.
  - exists s', allocs, limit. split; [reflexivity|exact Hl].
Defined.

(** The feedback control keeps the fraction to downgrade in [0, 1]. *)
Lemma simple_feedback_in_unit controller info admission st st' :
  simple_feedback controller info admission st = Some st' ->
  dle d0 (downgrade_frac st') = true /\ dle (downgrade_frac st') d1 = true /\
  selector st' = selector st /\ frac_controller st' = frac_controller st.
Proof.
  unfold simple_feedback. cbv zeta. destruct (if _ <? _ then _ else _) as [inc|]; [|done].
  cbn [mbind option_bind]. intros Hs. apply Some_inj in Hs as <-.
  destruct (ClampFracLOPRI_in_unit (dadd (downgrade_frac st) inc)) as [? ?]. done.
Qed.

(** ** Claims: fixed host patterns *)

(** A snapshot, one allocation per host. *)
Definition expand (s : Snapshot) : list FlowAlloc :=
  concat (map (fun p => replicate (Z.to_nat (fc_num_hosts p)) (fc_alloc p)) s).

(** What an iterator still has to give. *)
Definition iter_rest (s : Snapshot) (it : SnapshotHostIter) : list FlowAlloc :=
  match s !! pair_index_ it with
  | None => []
  | Some p => replicate (Z.to_nat (pair_remaining_ it)) (fc_alloc p) ++
              expand (drop (S (pair_index_ it)) s)
  end.

Lemma expand_drop s i q :
  s !! i = Some q ->
  expand (drop i s) = replicate (Z.to_nat (fc_num_hosts q)) (fc_alloc q) ++ expand (drop (S i) s).
Proof. intros Hq. by rewrite (drop_S _ _ _ Hq). Qed.

Lemma Next_loop_rest s : forall fuel it,
  (length s - pair_index_ it < fuel)%nat ->
  match iter_rest s it with
  | [] => exists it', Next_loop fuel s it = (it', empty_alloc) /\ iter_rest s it' = []
  | a :: rest => exists it', Next_loop fuel s it = (it', a) /\ iter_rest s it' = rest
  end.
Proof.
  induction fuel as [|fuel IH]; intros it Hf; [lia|]. cbn [Next_loop].
  unfold iter_rest at 1. destruct (s !! pair_index_ it) as [p|] eqn:Ep.
  - pose proof (lookup_lt_Some _ _ _ Ep) as Hlt. case_if.
    + replace (Z.to_nat (pair_remaining_ it)) with (S (Z.to_nat (pair_remaining_ it - 1))) by lia.
      cbn [replicate app]. eexists. split; [done|]. unfold iter_rest. cbn [pair_index_ pair_remaining_].
      by rewrite Ep.
    + replace (Z.to_nat (pair_remaining_ it)) with 0%nat by lia. cbn [replicate app].
      set (it1 := mkHostIter _ _). specialize (IH it1 ltac:(cbn; lia)).
      assert (E : iter_rest s it1 = expand (drop (S (pair_index_ it)) s)).
      { unfold iter_rest, it1. cbn [pair_index_ pair_remaining_].
        destruct (s !! S (pair_index_ it)) as [q|] eqn:Eq.
        - by rewrite (expand_drop _ _ _ Eq).
        - apply lookup_ge_None_1 in Eq. by rewrite drop_ge. }
      by rewrite E in IH.
  - eexists. split; [done|]. unfold iter_rest. by rewrite Ep.
Qed.

(** Enough padding is enough. *)
Lemma zip_with_padding {A B C} (f : A -> B -> C) x l : forall k n m,
  (length l <= length k + n)%nat -> (length l <= length k + m)%nat ->
  zip_with f l (k ++ replicate n x) = zip_with f l (k ++ replicate m x).
Proof.
  induction l as [|a l IH]; intros [|b k] n m Hn Hm; cbn in *; try done.
  - destruct n as [|n], m as [|m]; try lia. cbn. f_equal. apply (IH [] n m); cbn; lia.
  - f_equal. apply IH; lia.
Qed.

(** The limits of the snapshot for the hosts in order, then no bandwidth. *)
Lemma pattern_allocs_rest s cs : forall it,
  pattern_allocs s it cs =
  zip_with (fun c a => mkFlowAlloc (flow c) (hipri_rate_limit_bps a) (lopri_rate_limit_bps a))
    cs (iter_rest s it ++ replicate (length cs) empty_alloc).
Proof.
  induction cs as [|c cs IH]; intros it; [done|]. cbn [pattern_allocs length replicate].
  unfold SnapshotHostIter_Next.
  pose proof (Next_loop_rest s (S (length s)) it ltac:(lia)) as Hn.
  destruct (iter_rest s it) as [|a rest] eqn:Er; destruct Hn as (it' & -> & Hr);
    rewrite IH, Hr; cbn [app zip_with]; f_equal.
  apply (zip_with_padding _ _ _ rest (length cs) (S (length cs))); cbn; lia.
Qed.

(** A step of the fixed host pattern gives the children, in order, the
    limits of the current snapshot expanded to one allocation per host, and
    no bandwidth to the children beyond its last host. *)
Theorem FixedHost_AllocAgg_expands `{Clock} s time info p snap :
  alloc_patterns_ s !! cluster_key (flow (parent info)) = Some p ->
  0 <= next_ s -> snapshots p <> [] ->
  snapshots p !! Z.to_nat (Z.rem (next_ s) (Z.of_nat (length (snapshots p)))) = Some snap ->
  FixedHost_AllocAgg s time info =
  (mkFixedHost (alloc_patterns_ s) (u64 (next_ s + 1)),
   zip_with (fun c a => mkFlowAlloc (flow c) (hipri_rate_limit_bps a) (lopri_rate_limit_bps a))
     (children info) (expand snap ++ replicate (length (children info)) empty_alloc)).
Proof.
  intros Hp Hn Hne Hsnap. unfold FixedHost_AllocAgg. rewrite Hp.
  rewrite (list_lookup_total_correct _ _ _ Hsnap).
  destruct (snapshots p) as [|s0 ss]; [done|]. f_equal. rewrite pattern_allocs_rest. f_equal.
  f_equal. unfold iter_rest, new_SnapshotHostIter. cbn [pair_index_ pair_remaining_].
  destruct snap as [|q snap]; [done|]. reflexivity.
Qed.

Definition pattern_of (d : string) : FixedClusterHostAllocs :=
  mkFixedAllocs (example_marker d 0)
    [[mkAllocAndCount (mkFlowAlloc empty_marker 5 0) 2; mkAllocAndCount (mkFlowAlloc empty_marker 0 2) 1];
     [mkAllocAndCount (mkFlowAlloc empty_marker 9 0) 4]].

Definition two_patterns : FixedHostPatternAllocator :=
  mkFixedHost {[example_marker "B" 0 := pattern_of "B"; example_marker "C" 0 := pattern_of "C"]} 0.

Lemma FixedHost_AllocAgg_expands_witness :
  map hipri_rate_limit_bps (snd (@FixedHost_AllocAgg ZClock two_patterns (at_seconds 1) example_agg))
  = [5; 5; 0].
Proof.
  rewrite (@FixedHost_AllocAgg_expands ZClock two_patterns (at_seconds 1) example_agg (pattern_of "B")
    [mkAllocAndCount (mkFlowAlloc empty_marker 5 0) 2; mkAllocAndCount (mkFlowAlloc empty_marker 0 2) 1]).
  - reflexivity.
  - vm_compute. reflexivity.
  - cbn. lia.
  - discriminate.
  - reflexivity.
Defined.

Definition agg_of (d : string) : AggInfo :=
  mkAggInfo (mkFlowInfo (example_marker d 0) 0 0 0 0 0 0 0 false None)
    [mkFlowInfo (example_marker d 1) 0 0 0 0 0 0 0 false None].

Lemma two_patterns_lookup d :
  d = "B" \/ d = "C" ->
  alloc_patterns_ two_patterns !! cluster_key (flow (parent (agg_of d))) = Some (pattern_of d).
Proof. intros [-> | ->]; vm_compute; reflexivity. Qed.

(** [n] control steps with the aggregates of two FGs. *)
Fixpoint two_fg_steps `{Clock} (n : nat) (s : FixedHostPatternAllocator) (time : Time) : list (list FlowAlloc) :=
  match n with
  | O => []
  | S n => let '(s, a) := FixedHost_AllocAgg s time (agg_of "B") in
           let '(s, _) := FixedHost_AllocAgg s time (agg_of "C") in
           a :: two_fg_steps n s time
  end.

(** The step counter is shared by the FGs: with two FGs whose patterns
    alternate between two snapshots, one FG is given the first snapshot at
    every step and never the second. *)
Theorem FixedHost_two_fgs_never_alternate `{Clock} n k s time a :
  alloc_patterns_ s = alloc_patterns_ two_patterns ->
  0 <= next_ s < 2 ^ 64 -> Z.even (next_ s) = true ->
  two_fg_steps n s time !! k = Some a ->
  map hipri_rate_limit_bps a = [5].
Proof.
  revert s k. induction n as [|n IH]; intros s k Hp Hr He; [done|].
  destruct s as [pats nx]. cbn [alloc_patterns_ next_] in *. subst pats.
  cbn [two_fg_steps]. unfold FixedHost_AllocAgg at 1. cbn [alloc_patterns_ next_].
  rewrite (two_patterns_lookup "B") by auto. cbn [snapshots pattern_of].
  change (Z.of_nat (length _)) with 2. cbn zeta iota beta.
  unfold FixedHost_AllocAgg. cbn [alloc_patterns_ next_].
  rewrite (two_patterns_lookup "C") by auto. cbn [snapshots pattern_of].
  assert (Hm : Z.rem nx 2 = 0).
  { apply Z.even_spec in He as [m ->]. by rewrite Z.mul_comm, Z.rem_mul. }
  rewrite Hm. destruct k as [|k].
  - intros [= <-]. reflexivity.
  - intros Hk. eapply (IH _ k); [| | |exact Hk]; cbn [alloc_patterns_ next_]; [done|apply u64_in_range|].
    apply Z.even_spec in He as [m ->]. unfold u64. rewrite Z.add_mod_idemp_l by lia.
    apply Z.even_spec. exists ((m + 1) mod 2 ^ 63).
    replace (2 * m + 1 + 1) with (2 * (m + 1)) by lia.
    change (2 ^ 64) with (2 * 2 ^ 63). by rewrite Z.mul_mod_distr_l by lia.
Qed.

Lemma FixedHost_two_fgs_never_alternate_witness :
  exists a, @two_fg_steps ZClock 3 two_patterns (at_seconds 1) !! 2%nat = Some a /\
    map hipri_rate_limit_bps a = [5].
Proof.
  destruct (@two_fg_steps ZClock 3 two_patterns (at_seconds 1) !! 2%nat) as [a|] eqn:E.
  - exists a. split; [reflexivity|].
    apply (@FixedHost_two_fgs_never_alternate ZClock 3 2 two_patterns (at_seconds 1) a);
      [reflexivity|cbn; lia|reflexivity|exact E].
  - exfalso. apply (f_equal (fun o => bool_decide (is_Some o))) in E. vm_compute in E. discriminate E.
Defined.
