(* ===== verification/ClusterAllocator.v ===== *)
(** * ClusterAllocator: the allocations of all aggregates

    src/heyp/cluster-agent/allocator.{h,cc} and allocs.{h,cc}: one task per
    aggregate on the executor, the results collected under a lock and grouped
    by host.  The per-aggregate allocators are used through the interface
    [PerAggAllocator].  A task runs [AllocAgg] and appends its result as one
    step; the order of the tasks is the executor's choice. *)

From S2P Require Import Prelude Doubles FlowMarker Clock Views RateLimits Selectors Allocators.

(** ** allocs.cc *)

Definition AllocSet : Type := list (list FlowAlloc).

Definition add_to_host (by_host : gmap Z AllocBundle) (a : FlowAlloc) : gmap Z AllocBundle :=
  let host_id := host_id (alloc_flow a) in
  let b := default (mkAllocBundle [] 0) (by_host !! host_id) in
  <[host_id := mkAllocBundle (flow_allocs b ++ [a]) (alloc_gen b)]> by_host.

Definition BundleByHost (allocs : AllocSet) : gmap Z AllocBundle :=
  foldl (fun m partial => foldl add_to_host m partial) ∅ allocs.

(** ** The interface of an allocator *)

Section Interface.
Context `{Clock}.

Class PerAggAllocator (A : Type) :=
  AllocAgg : A -> Time -> AggInfo -> option (A * list FlowAlloc).

(** Aggregates of different FGs do not disturb each other. *)
Class PerAggIndependent (A : Type) `{!PerAggAllocator A} := {
  independent : A -> Prop;
  AllocAgg_independent (s s' : A) t i r :
    independent s -> AllocAgg s t i = Some (s', r) -> independent s';
  AllocAgg_commute (s s1 s2 : A) ta ia ra tb ib rb :
    independent s -> cluster_key (flow (parent ia)) <> cluster_key (flow (parent ib)) ->
    AllocAgg s ta ia = Some (s1, ra) -> AllocAgg s1 tb ib = Some (s2, rb) ->
    exists s1', AllocAgg s tb ib = Some (s1', rb) /\ AllocAgg s1' ta ia = Some (s2, ra) }.
End Interface.

(** ** allocator.cc *)

Section ClusterAllocator.
Context `{Clock} {A : Type} `{!PerAggAllocator A}.

Record ClusterAllocator := mkClusterAllocator {
  alloc_ : A;
  group_ : option (list (Time * AggInfo)); (* the tasks that have not run *)
  allocs_ : AllocSet }.

Definition new_ClusterAllocator (a : A) : ClusterAllocator := mkClusterAllocator a None [].

(** [None]: the previous group was not waited for. *)
Definition Reset (c : ClusterAllocator) : option ClusterAllocator :=
  match group_ c with
  | None => Some (mkClusterAllocator (alloc_ c) (Some []) [])
  | Some _ => None
  end.

Definition AddInfo (c : ClusterAllocator) (time : Time) (info : AggInfo) : option ClusterAllocator :=
  tasks ← group_ c;
  Some (mkClusterAllocator (alloc_ c) (Some (tasks ++ [(time, info)])) (allocs_ c)).

(** A worker runs task [i] of the ones that have not run. *)
Definition run_task (c : ClusterAllocator) (i : nat) : option ClusterAllocator :=
  tasks ← group_ c;
  '(time, info) ← tasks !! i;
  '(alloc, a) ← AllocAgg (alloc_ c) time info;
  Some (mkClusterAllocator alloc (Some (take i tasks ++ drop (S i) tasks)) (allocs_ c ++ [a])).

(** The workers run tasks until none is left, in the order of [sched]. *)
Fixpoint run_tasks (c : ClusterAllocator) (sched : list nat) : option ClusterAllocator :=
  match sched with
  | [] => Some c
  | i :: sched => c ← run_task c i; run_tasks c sched
  end.

(** [WaitAll] returns when every task has run. *)
Definition GetAllocs (c : ClusterAllocator) : option (ClusterAllocator * AllocSet) :=
  match group_ c with
  | Some [] => Some (mkClusterAllocator (alloc_ c) None (allocs_ c), allocs_ c)
  | _ => None
  end.

(** The tasks in the order of a list. *)
Fixpoint alloc_all (s : A) (tasks : list (Time * AggInfo)) : option (A * AllocSet) :=
  match tasks with
  | [] => Some (s, [])
  | (time, info) :: tasks =>
      '(s, a) ← AllocAgg s time info; '(s, rest) ← alloc_all s tasks; Some (s, a :: rest)
  end.
End ClusterAllocator.

(** ** Create: the allocators of the configuration *)

Section Create.
Context `{Clock}.
Context (XXH64 : string -> Z) (solver : double -> list Z -> list Z -> Z -> Z * (nat -> bool)).

Inductive AllocatorImpl :=
  | ImplNop
  | ImplBwe (s : BweAggAllocator)
  | ImplHeyp (s : HeypSigcomm20Allocator)
  | ImplSimple (s : SimpleDowngradeAllocator)
  | ImplFixed (s : FixedHostPatternAllocator).

#[export] Instance AllocatorImpl_ops : PerAggAllocator AllocatorImpl := fun s time info =>
  match s with
  | ImplNop => Some (s, Nop_AllocAgg time info)
  | ImplBwe b => a ← Bwe_AllocAgg b time info; Some (s, a)
  | ImplHeyp h => '(h, a) ← Heyp_AllocAgg XXH64 solver h time info; Some (ImplHeyp h, a)
  | ImplSimple d => '(d, a) ← Simple_AllocAgg XXH64 solver d time info; Some (ImplSimple d, a)
  | ImplFixed f => let '(f, a) := FixedHost_AllocAgg f time info in Some (ImplFixed f, a)
  end.

Definition Create (config : ClusterAllocatorConfig) (cluster_wide_allocs : AllocBundle)
    (demand_multiplier : double) : option (ClusterAllocator (A := AllocatorImpl)) :=
  let cluster_admissions := ToAdmissionsMap cluster_wide_allocs in
  match ca_type config with
  | CA_NOP => Some (new_ClusterAllocator ImplNop)
  | CA_BWE => Some (new_ClusterAllocator (ImplBwe (mkBweAgg config cluster_admissions)))
  | CA_HEYP_SIGCOMM20 =>
      h ← new_HeypSigcomm20Allocator config cluster_admissions demand_multiplier;
      Some (new_ClusterAllocator (ImplHeyp h))
  | CA_SIMPLE_DOWNGRADE =>
      d ← new_SimpleDowngradeAllocator config cluster_admissions;
      Some (new_ClusterAllocator (ImplSimple d))
  | CA_FIXED_HOST_PATTERN =>
      Some (new_ClusterAllocator (ImplFixed (new_FixedHostPatternAllocator config)))
  end.
End Create.

(** ** Grouping by host: claims *)

Lemma BundleByHost_concat allocs : BundleByHost allocs = foldl add_to_host ∅ (concat allocs).
Proof.
  unfold BundleByHost. generalize (∅ : gmap Z AllocBundle).
  induction allocs as [|p allocs IH]; intros m; [done|]. cbn. by rewrite foldl_app, IH.
Qed.

Definition allocs_of_host (h : Z) (allocs : AllocSet) : list FlowAlloc :=
  filter (fun a => host_id (alloc_flow a) = h) (concat allocs).

Lemma BundleByHost_lookup allocs h :
  BundleByHost allocs !! h =
  match allocs_of_host h allocs with
  | [] => None
  | l => Some (mkAllocBundle l 0)
  end.
Proof.
  rewrite BundleByHost_concat. unfold allocs_of_host.
  pose proof (group_fold (fun a => host_id (alloc_flow a))
    (fun b a => mkAllocBundle (flow_allocs b ++ [a]) (alloc_gen b)) (mkAllocBundle [] 0)
    (concat allocs) h ∅) as Hg.
  transitivity (match filter (fun a => host_id (alloc_flow a) = h) (concat allocs) with
    | [] => (∅ : gmap Z AllocBundle) !! h
    | l' => Some (foldl (fun b a => mkAllocBundle (flow_allocs b ++ [a]) (alloc_gen b))
              (default (mkAllocBundle [] 0) ((∅ : gmap Z AllocBundle) !! h)) l') end);
    [exact Hg|].
  rewrite lookup_empty. cbn [default]. destruct (filter _ _) as [|a l]; [done|].
  f_equal. assert (E : forall l b, foldl (fun b a => mkAllocBundle (flow_allocs b ++ [a]) (alloc_gen b))
    b l = mkAllocBundle (flow_allocs b ++ l) (alloc_gen b)).
  { clear. induction l as [|a l IH]; intros [fs g]; cbn; [by rewrite app_nil_r|].
    rewrite IH. cbn. by rewrite <- app_assoc. }
  by rewrite E.
Qed.

(** Grouping by host loses, repeats and reorders nothing: a host has a
    bundle exactly when it has an allocation, and its bundle lists its
    allocations in the order they were computed. *)
Theorem BundleByHost_partition allocs h :
  BundleByHost allocs !! h =
  match allocs_of_host h allocs with
  | [] => None
  | l => Some (mkAllocBundle l 0)
  end.
Proof. apply BundleByHost_lookup. Qed.

(** ** The state of an aggregate is its own: lemmas *)

Section Local.
Context `{Clock}.
Context (XXH64 : string -> Z) (solver : double -> list Z -> list Z -> Z -> Z * (nat -> bool)).

(** What [AllocAgg] computes from the state of one aggregate. *)
Definition heyp_one (config_ : ClusterAllocatorConfig) (mult : double) (time : Time)
    (info : AggInfo) (cur : HeypAggState) (sel : option DowngradeSelector)
    : option (HeypAggState * DowngradeSelector * list FlowAlloc) :=
  let key := cluster_key (flow (parent info)) in
  '(s, r) ← Heyp_AllocAgg XXH64 solver
     (mkHeypAllocator config_ mult {[key := cur]} (partial_alter (fun _ => sel) key ∅)) time info;
  c ← heyp_agg_states_ s !! key; d ← downgrade_selectors_ s !! key; Some (c, d, r).

Lemma Heyp_AllocAgg_local s time info :
  let key := cluster_key (flow (parent info)) in
  Heyp_AllocAgg XXH64 solver s time info =
  match heyp_agg_states_ s !! key with
  | None => Some (s, [])
  | Some cur =>
      '(c, d, r) ← heyp_one (heyp_config s) (demand_multiplier_ s) time info cur
                     (downgrade_selectors_ s !! key);
      Some (mkHeypAllocator (heyp_config s) (demand_multiplier_ s)
              (<[key := c]> (heyp_agg_states_ s)) (<[key := d]> (downgrade_selectors_ s)), r)
  end.
Proof.
  intros key. unfold heyp_one, Heyp_AllocAgg. fold key.
  cbn [heyp_agg_states_ downgrade_selectors_ heyp_config demand_multiplier_].
  destruct (heyp_agg_states_ s !! key) as [cur|]; [|done]. rewrite lookup_singleton_eq.
  destruct (heyp_revise _ _ _ _ _) as [c1|]; [|done]. cbn [mbind option_bind].
  rewrite lookup_partial_alter_eq. destruct (downgrade_selectors_ s !! key) as [sel|]; [|done].
  cbn [mbind option_bind]. destruct (PickLOPRIChildren _ _ _ _ _) as [[sel' mask]|]; [|done].
  cbn [mbind option_bind]. destruct (split_demands _ _) as [hi lo].
  cbn [mbind option_bind heyp_agg_states_ downgrade_selectors_].
  rewrite !lookup_insert_eq. done.
Qed.

Lemma Heyp_AllocAgg_commute s s1 s2 ta ia ra tb ib rb :
  cluster_key (flow (parent ia)) <> cluster_key (flow (parent ib)) ->
  Heyp_AllocAgg XXH64 solver s ta ia = Some (s1, ra) ->
  Heyp_AllocAgg XXH64 solver s1 tb ib = Some (s2, rb) ->
  exists s1', Heyp_AllocAgg XXH64 solver s tb ib = Some (s1', rb) /\
              Heyp_AllocAgg XXH64 solver s1' ta ia = Some (s2, ra).
Proof.
  intros Hne. rewrite !Heyp_AllocAgg_local.
  destruct (heyp_agg_states_ s !! cluster_key (flow (parent ia))) as [ca|] eqn:Ea.
  - destruct (heyp_one _ _ ta ia ca _) as [[[c d] r]|] eqn:Eo; [|done]. cbn [mbind option_bind].
    intros [= <- <-]. cbn [heyp_agg_states_ downgrade_selectors_ heyp_config demand_multiplier_].
    rewrite !lookup_insert_ne by done.
    destruct (heyp_agg_states_ s !! cluster_key (flow (parent ib))) as [cb|] eqn:Eb.
    + destruct (heyp_one _ _ tb ib cb _) as [[[c' d'] r']|]; [|done]. cbn [mbind option_bind].
      intros [= <- <-]. eexists. split; [done|]. rewrite Heyp_AllocAgg_local.
      cbn [heyp_agg_states_ downgrade_selectors_ heyp_config demand_multiplier_].
      rewrite !lookup_insert_ne by done. rewrite Ea, Eo. cbn [mbind option_bind].
      by rewrite !(insert_insert_ne _ (cluster_key (flow (parent ib)))) by done.
    + intros [= <- <-]. exists s. split; [done|]. rewrite Heyp_AllocAgg_local, Ea, Eo. done.
  - intros [= <- <-] H2. exists s2. split; [done|]. rewrite Heyp_AllocAgg_local.
    assert (Es : heyp_agg_states_ s2 !! cluster_key (flow (parent ia)) = None).
    { destruct (heyp_agg_states_ s !! cluster_key (flow (parent ib))) as [cb|].
      - destruct (heyp_one _ _ tb ib cb _) as [[[c' d'] r']|]; [|done]. cbn [mbind option_bind] in H2.
        injection H2 as <- _. cbn. by rewrite lookup_insert_ne.
      - by injection H2 as <- _. }
    by rewrite Es.
Qed.

Definition simple_one (s : SimpleDowngradeAllocator) (time : Time)
    (info : AggInfo) (adm : FlowAlloc) (st : option SimpleAggState)
    : option (SimpleAggState * list FlowAlloc) :=
  let key := cluster_key (flow (parent info)) in
  '(s, r) ← Simple_AllocAgg XXH64 solver
     (mkSimpleAllocator (simple_config s) {[key := adm]} (partial_alter (fun _ => st) key ∅)
        (downgrade_fv_source_ s)) time info;
  c ← simple_agg_states_ s !! key; Some (c, r).

Lemma Simple_AllocAgg_local s time info :
  let key := cluster_key (flow (parent info)) in
  Simple_AllocAgg XXH64 solver s time info =
  match simple_admissions s !! key with
  | None => Some (s, [])
  | Some adm =>
      '(c, r) ← simple_one s time info adm (simple_agg_states_ s !! key);
      Some (mkSimpleAllocator (simple_config s) (simple_admissions s)
              (<[key := c]> (simple_agg_states_ s)) (downgrade_fv_source_ s), r)
  end.
Proof.
  intros key. unfold simple_one, Simple_AllocAgg. fold key.
  cbn [simple_admissions simple_agg_states_ simple_config downgrade_fv_source_].
  destruct (simple_admissions s !! key) as [adm|]; [|done]. rewrite lookup_singleton_eq.
  rewrite lookup_partial_alter_eq. destruct (simple_agg_states_ s !! key) as [st|]; [|done].
  cbn [mbind option_bind].
  destruct (match frac_controller st with Some _ => _ | None => _ end) as [[st1 f]|]; [|done].
  cbn [mbind option_bind].
  destruct (PickLOPRIChildren _ _ _ _ _) as [[sel' mask]|]; [|done].
  cbn [mbind option_bind]. destruct (split_demands _ _) as [hi lo].
  cbn [mbind option_bind simple_agg_states_]. by rewrite lookup_insert_eq.
Qed.

Lemma Simple_AllocAgg_commute s s1 s2 ta ia ra tb ib rb :
  cluster_key (flow (parent ia)) <> cluster_key (flow (parent ib)) ->
  Simple_AllocAgg XXH64 solver s ta ia = Some (s1, ra) ->
  Simple_AllocAgg XXH64 solver s1 tb ib = Some (s2, rb) ->
  exists s1', Simple_AllocAgg XXH64 solver s tb ib = Some (s1', rb) /\
              Simple_AllocAgg XXH64 solver s1' ta ia = Some (s2, ra).
Proof.
  assert (Hone : forall s m time info adm st,
    simple_one (mkSimpleAllocator (simple_config s) (simple_admissions s) m (downgrade_fv_source_ s))
      time info adm st = simple_one s time info adm st) by done.
  intros Hne. rewrite !Simple_AllocAgg_local.
  destruct (simple_admissions s !! cluster_key (flow (parent ia))) as [aa|] eqn:Ea.
  - destruct (simple_one s ta ia aa _) as [[c r]|] eqn:Eo; [|done]. cbn [mbind option_bind].
    intros [= <- <-]. cbn [simple_admissions simple_agg_states_ simple_config downgrade_fv_source_].
    rewrite !lookup_insert_ne by done.
    destruct (simple_admissions s !! cluster_key (flow (parent ib))) as [ab|] eqn:Eb.
    + rewrite Hone. destruct (simple_one s tb ib ab _) as [[c' r']|]; [|done]. cbn [mbind option_bind].
      intros [= <- <-]. eexists. split; [done|]. rewrite Simple_AllocAgg_local.
      cbn [simple_admissions simple_agg_states_ simple_config downgrade_fv_source_].
      rewrite !lookup_insert_ne by done. rewrite Ea, Hone, Eo. cbn [mbind option_bind].
      by rewrite !(insert_insert_ne _ (cluster_key (flow (parent ib)))) by done.
    + intros [= <- <-]. exists s. split; [done|]. rewrite Simple_AllocAgg_local, Ea, Eo. done.
  - intros [= <- <-] H2. exists s2. split; [done|]. rewrite Simple_AllocAgg_local.
    assert (Es : simple_admissions s2 !! cluster_key (flow (parent ia)) = None).
    { destruct (simple_admissions s !! cluster_key (flow (parent ib))) as [cb|].
      - destruct (simple_one s tb ib cb _) as [[c' r']|]; [|done]. cbn [mbind option_bind] in H2.
        injection H2 as <- _. done.
      - by injection H2 as <- _. }
    by rewrite Es.
Qed.

(** Every allocator but the fixed pattern treats aggregates independently. *)
Definition no_pattern (a : AllocatorImpl) : Prop :=
  match a with ImplFixed _ => False | _ => True end.

Lemma AllocatorImpl_commute (s s1 s2 : AllocatorImpl) ta ia ra tb ib rb :
  no_pattern s -> cluster_key (flow (parent ia)) <> cluster_key (flow (parent ib)) ->
  AllocatorImpl_ops XXH64 solver s ta ia = Some (s1, ra) ->
  AllocatorImpl_ops XXH64 solver s1 tb ib = Some (s2, rb) ->
  exists s1', AllocatorImpl_ops XXH64 solver s tb ib = Some (s1', rb) /\
              AllocatorImpl_ops XXH64 solver s1' ta ia = Some (s2, ra).
Proof.
  unfold AllocatorImpl_ops. destruct s as [|b|h|d|f]; intros Hp Hne; [| | | |done].
  - intros [= <- <-] [= <- <-]. by exists ImplNop.
  - destruct (Bwe_AllocAgg b ta ia) as [r|] eqn:Ea; [|done]. cbn [mbind option_bind].
    intros [= <- <-]. destruct (Bwe_AllocAgg b tb ib) as [r'|] eqn:Eb; [|done].
    cbn [mbind option_bind]. intros [= <- <-]. exists (ImplBwe b). by rewrite Ea.
  - destruct (Heyp_AllocAgg _ _ h ta ia) as [[h1 r]|] eqn:Ea; [|done]. cbn [mbind option_bind].
    intros [= <- <-]. destruct (Heyp_AllocAgg _ _ h1 tb ib) as [[h2 r']|] eqn:Eb; [|done].
    cbn [mbind option_bind]. intros [= <- <-].
    destruct (Heyp_AllocAgg_commute h h1 h2 ta ia r tb ib r' Hne Ea Eb) as (h1' & -> & Hh).
    cbn [mbind option_bind]. exists (ImplHeyp h1'). by rewrite Hh.
  - destruct (Simple_AllocAgg _ _ d ta ia) as [[d1 r]|] eqn:Ea; [|done]. cbn [mbind option_bind].
    intros [= <- <-]. destruct (Simple_AllocAgg _ _ d1 tb ib) as [[d2 r']|] eqn:Eb; [|done].
    cbn [mbind option_bind]. intros [= <- <-].
    destruct (Simple_AllocAgg_commute d d1 d2 ta ia r tb ib r' Hne Ea Eb) as (d1' & -> & Hd).
    cbn [mbind option_bind]. exists (ImplSimple d1'). by rewrite Hd.
Qed.

Lemma AllocatorImpl_no_pattern (s s' : AllocatorImpl) t i r :
  no_pattern s -> AllocatorImpl_ops XXH64 solver s t i = Some (s', r) -> no_pattern s'.
Proof.
  unfold AllocatorImpl_ops. destruct s as [|b|h|d|f]; intros Hp; [| | | |done].
  - by intros [= <- _].
  - destruct (Bwe_AllocAgg b t i); [|done]. by intros [= <- _].
  - destruct (Heyp_AllocAgg _ _ h t i) as [[]|]; [|done]. by intros [= <- _].
  - destruct (Simple_AllocAgg _ _ d t i) as [[]|]; [|done]. by intros [= <- _].
Qed.

#[export] Instance AllocatorImpl_independent :
  @PerAggIndependent _ AllocatorImpl (AllocatorImpl_ops XXH64 solver) := {|
  independent := no_pattern;
  AllocAgg_independent := AllocatorImpl_no_pattern;
  AllocAgg_commute := AllocatorImpl_commute |}.
End Local.

(** ** The order of the tasks *)

Section AnyOrder.
Context `{Clock} {A : Type} `{!PerAggAllocator A} `{!PerAggIndependent A}.

Definition task_key (t : Time * AggInfo) : FlowMarker := cluster_key (flow (parent (snd t))).

Lemma alloc_all_perm (tasks tasks' : list (Time * AggInfo)) :
  tasks ≡ₚ tasks' -> forall s s' rs,
  independent s -> NoDup (map task_key tasks) -> alloc_all s tasks = Some (s', rs) ->
  exists rs', alloc_all s tasks' = Some (s', rs') /\ rs' ≡ₚ rs.
Proof.
  induction 1 as [|[t i] l l' Hp IH|[ta ia] [tb ib] l|l1 l2 l3 Hp1 IH1 Hp2 IH2];
    intros s s' rs Hi Hnd Hall.
  - by exists rs.
  - cbn [map alloc_all] in *. apply NoDup_cons in Hnd as [_ Hnd].
    destruct (AllocAgg s t i) as [[s1 a]|] eqn:Ea; [|done]. cbn [mbind option_bind] in *.
    destruct (alloc_all s1 l) as [[s2 rs0]|] eqn:El; [|done]. cbn [mbind option_bind] in *.
    injection Hall as <- <-.
    destruct (IH s1 s2 rs0) as (rs' & -> & Hrs); [by eapply AllocAgg_independent|done|done|].
    cbn [mbind option_bind]. eexists. split; [done|]. by constructor.
  - cbn [map alloc_all] in *. apply NoDup_cons in Hnd as [Hne _].
    destruct (AllocAgg s tb ib) as [[s1 rb]|] eqn:Eb; [|done]. cbn [mbind option_bind] in *.
    destruct (AllocAgg s1 ta ia) as [[s2 ra]|] eqn:Ea; [|done]. cbn [mbind option_bind] in *.
    destruct (alloc_all s2 l) as [[s3 rs0]|] eqn:El; [|done]. cbn [mbind option_bind] in *.
    injection Hall as <- <-.
    destruct (AllocAgg_commute s s1 s2 tb ib rb ta ia ra) as (s1' & E1 & E2); [done| |done|done|].
    { intros E. apply Hne. unfold task_key. cbn [snd]. rewrite E. left. }
    rewrite E1. cbn [mbind option_bind]. rewrite E2. cbn [mbind option_bind]. rewrite El.
    cbn [mbind option_bind]. eexists. split; [done|]. constructor.
  - destruct (IH1 s s' rs Hi Hnd Hall) as (rs1 & Hrs1 & Hp1').
    destruct (IH2 s s' rs1) as (rs2 & Hrs2 & Hp2'); [done| |done|].
    + by rewrite <- Hp1.
    + exists rs2. split; [done|]. by rewrite Hp2'.
Qed.

(** A schedule picks a task that has not run, until none is left. *)
Fixpoint full_schedule (n : nat) (sched : list nat) : Prop :=
  match n, sched with
  | O, [] => True
  | S n, i :: sched => (i <= n)%nat /\ full_schedule n sched
  | _, _ => False
  end.

Lemma run_tasks_all sched : forall c tasks s' rs,
  group_ c = Some tasks -> independent (alloc_ c) -> NoDup (map task_key tasks) ->
  full_schedule (length tasks) sched -> alloc_all (alloc_ c) tasks = Some (s', rs) ->
  exists sets, run_tasks c sched = Some (mkClusterAllocator s' (Some []) sets) /\
    sets ≡ₚ allocs_ c ++ rs.
Proof.
  induction sched as [|i sched IH]; intros c tasks s' rs Hg Hi Hnd Hs Hall.
  - destruct tasks; [|done]. cbn in Hall. injection Hall as <- <-. destruct c as [al g sets].
    cbn in *. subst g. exists sets. by rewrite app_nil_r.
  - destruct tasks as [|t0 tasks0]; [done|]. cbn [length full_schedule] in Hs.
    destruct Hs as [Hle Hs]. set (tasks := t0 :: tasks0) in *.
    destruct (lookup_lt_is_Some_2 tasks i) as [[t info] Hti]; [cbn; lia|].
    pose proof (take_drop_middle _ _ _ Hti) as Hmid.
    assert (Hperm : tasks ≡ₚ (t, info) :: take i tasks ++ drop (S i) tasks)
      by (rewrite <- Hmid at 1; by rewrite Permutation_middle).
    destruct (alloc_all_perm _ _ Hperm _ _ _ Hi Hnd Hall) as (rs' & Hall' & Hrs').
    cbn [alloc_all] in Hall'. destruct (AllocAgg (alloc_ c) t info) as [[s1 a]|] eqn:Ea; [|done].
    cbn [mbind option_bind] in Hall'.
    destruct (alloc_all s1 (take i tasks ++ drop (S i) tasks)) as [[s2 rs0]|] eqn:El; [|done].
    cbn [mbind option_bind] in Hall'. injection Hall' as -> <-.
    cbn [run_tasks]. unfold run_task. rewrite Hg. cbn [mbind option_bind]. rewrite Hti.
    cbn [mbind option_bind]. rewrite Ea. cbn [mbind option_bind].
    assert (Hlen : length (take i tasks ++ drop (S i) tasks) = length tasks0).
    { apply Permutation_length in Hperm. unfold tasks in Hperm at 1. cbn [length] in Hperm. lia. }
    destruct (IH (mkClusterAllocator s1 (Some (take i tasks ++ drop (S i) tasks)) (allocs_ c ++ [a]))
      (take i tasks ++ drop (S i) tasks) s' rs0) as (sets & -> & Hp); try done.
    + by eapply AllocAgg_independent.
    + rewrite Hperm in Hnd. cbn [map] in Hnd. by apply NoDup_cons in Hnd as [_ ?].
    + by rewrite Hlen.
    + exists sets. split; [done|]. rewrite Hp. cbn [allocs_]. rewrite <- app_assoc. cbn.
      by rewrite Hrs'.
Qed.
End AnyOrder.

(** Whatever order the workers run the tasks of a group in, they all run
    when running them in the order they were added does, the allocator ends
    in the same state, and [GetAllocs] returns the same partial sets up to
    their order.  The allocators are independent across aggregates, all but
    the fixed pattern, whose step counter is shared. *)
Theorem GetAllocs_any_schedule `{Clock} {A : Type} `{!PerAggAllocator A} `{!PerAggIndependent A}
    (c : ClusterAllocator (A := A)) tasks s' rs sched
  (Htasks : group_ c = Some tasks) (Hi : independent (alloc_ c))
  (Hkeys : NoDup (map task_key tasks)) (Hall : alloc_all (alloc_ c) tasks = Some (s', rs))
  (Hsched : full_schedule (length tasks) sched) :
  exists c' sets, run_tasks c sched = Some c' /\
    GetAllocs c' = Some (mkClusterAllocator s' None sets, sets) /\ sets ≡ₚ allocs_ c ++ rs.
Proof.
  destruct (run_tasks_all sched c tasks s' rs) as (sets & -> & Hp); try done.
  eexists _, sets. split; [done|]. done.
Qed.

Definition example_bwe : BweAggAllocator := mkBweAgg (example_config CA_BWE) (example_admissions 400 0).
Definition example_tasks : list (@Time ZClock * AggInfo) :=
  [(at_seconds 1, example_agg); (at_seconds 1, agg_of "C")].
Definition example_limits : list FlowAlloc :=
  map (fun c => mkFlowAlloc (flow c) 186 0) (children example_agg).

Lemma example_alloc_all :
  @alloc_all ZClock AllocatorImpl (@AllocatorImpl_ops ZClock (fun _ => 0) no_solver)
    (@ImplBwe ZClock example_bwe) example_tasks =
  Some (@ImplBwe ZClock example_bwe, [example_limits; []]).
Proof.
  assert (E1 : @Bwe_AllocAgg ZClock example_bwe (at_seconds 1) example_agg = Some example_limits)
    by (vm_compute; reflexivity).
  assert (E2 : @Bwe_AllocAgg ZClock example_bwe (at_seconds 1) (agg_of "C") = Some [])
    by (vm_compute; reflexivity).
  unfold example_tasks. cbn [alloc_all AllocAgg AllocatorImpl_ops]. rewrite E1.
  cbn [mbind option_bind AllocAgg AllocatorImpl_ops]. rewrite E2. reflexivity.
Qed.

Lemma GetAllocs_any_schedule_witness :
  exists (c' : @ClusterAllocator ZClock AllocatorImpl) sets,
    @run_tasks ZClock AllocatorImpl (@AllocatorImpl_ops ZClock (fun _ => 0) no_solver)
      (@mkClusterAllocator ZClock AllocatorImpl (@ImplBwe ZClock example_bwe)
        (Some example_tasks) []) [1; 0]%nat = Some c' /\
    sets ≡ₚ [example_limits; []].
Proof.
  destruct (@GetAllocs_any_schedule ZClock AllocatorImpl
    (@AllocatorImpl_ops ZClock (fun _ => 0) no_solver)
    (@AllocatorImpl_independent ZClock (fun _ => 0) no_solver)
    (@mkClusterAllocator ZClock AllocatorImpl (@ImplBwe ZClock example_bwe) (Some example_tasks) [])
    example_tasks (@ImplBwe ZClock example_bwe) [example_limits; []] [1; 0]%nat)
    as (c' & sets & Hrun & _ & Hp).
  - reflexivity.
  - exact I.
  - apply NoDup_cons. split; [|apply NoDup_singleton].
    intros Hin%list_elem_of_singleton. discriminate Hin.
  - apply example_alloc_all.
  - cbn. lia.
  - exists c', sets. split; [exact Hrun|exact Hp].
Defined.
