(* ===== verification/FullController.v ===== *)
(** * FullController: one control round of the cluster agent

    src/heyp/cluster-agent/full-controller.{h,cc}: reports of hosts go to the
    aggregator marked with the priority last sent to the host; a round
    allocates every aggregate, groups the limits by host and calls the
    listeners.  A callback is its listener id and a call of it is recorded;
    the locks make each method one step.  The aggregator and the allocator
    are used through their interfaces; the order in which the workers run
    the tasks is an argument. *)

From S2P Require Import Prelude Doubles FlowMarker ParMap Clock Views RateLimits.
From S2P Require Import FlowState Aggregator Selectors Allocators ClusterAllocator.

Section FullClusterController.
Context `{Clock} {M : Type} `{!IndexedMap FlowMarker BundleState M}.
Context {A : Type} `{!PerAggAllocator A}.
Context (agg_config : FlowAggregator_Config) (predictor : DemandPredictor).

Record FullClusterController := mkFullController {
  aggregator_ : @FlowAggregator _ M;
  allocator_ : @ClusterAllocator _ A;
  last_alloc_bundle_ : gmap Z AllocBundle;
  next_lis_id_ : Z;
  new_bundle_funcs_ : gmap Z (gset Z) }.

Definition new_FullClusterController (aggregator : @FlowAggregator _ M)
    (allocator : @ClusterAllocator _ A) : FullClusterController :=
  mkFullController aggregator allocator ∅ 1 ∅.

Record Listener := mkListener { lis_host_id_ : Z; lis_id_ : Z }.

Definition RegisterListener (c : FullClusterController) (host_id : Z)
    : FullClusterController * Listener :=
  let id := next_lis_id_ c in
  (mkFullController (aggregator_ c) (allocator_ c) (last_alloc_bundle_ c) (u64 (id + 1))
     (<[host_id := {[id]} ∪ default ∅ (new_bundle_funcs_ c !! host_id)]> (new_bundle_funcs_ c)),
   mkListener host_id id).

(** [~Listener]; [None]: the listener is not registered. *)
Definition destroy_Listener (c : FullClusterController) (l : Listener)
    : option FullClusterController :=
  if negb (lis_host_id_ l =? 0) then
    ids ← new_bundle_funcs_ c !! lis_host_id_ l;
    if bool_decide (lis_id_ l ∈ ids) then
      Some (mkFullController (aggregator_ c) (allocator_ c) (last_alloc_bundle_ c)
              (next_lis_id_ c)
              (<[lis_host_id_ l := ids ∖ {[lis_id_ l]}]> (new_bundle_funcs_ c)))
    else None
  else Some c.

Definition lookup_options : CompareFlowOptions := mkCompareFlowOptions true false false false false.

(** 0: high priority, 1: low priority, 2: no allocation. *)
Definition LookupAlloc (bundles : gmap Z AllocBundle) (host_id : Z) (f : FlowMarker) : Z :=
  match bundles !! host_id with
  | None => 2
  | Some b =>
      match filter (fun a => IsSameFlow (alloc_flow a) f lookup_options = true) (flow_allocs b) with
      | [] => 2
      | a :: _ => if 0 <? lopri_rate_limit_bps a then 1 else 0
      end
  end.

Definition mark_info (bundles : gmap Z AllocBundle) (host_id : Z) (fi : FlowInfo) : FlowInfo :=
  mkFlowInfo (flow fi) (predicted_demand_bps fi) (ewma_usage_bps fi) 0 0 (cum_usage_bytes fi)
    (cum_hipri_usage_bytes fi) (cum_lopri_usage_bytes fi)
    (let alloc := LookupAlloc bundles host_id (flow fi) in
     if alloc =? 0 then false else if alloc =? 1 then true else currently_lopri fi)
    (aux fi).

Definition UpdateInfo (c : FullClusterController) (bundler_id : ParID) (info : InfoBundle)
    : option FullClusterController :=
  let info' := mkInfoBundle (bundler info) (timestamp info) (gen info)
    (map (mark_info (last_alloc_bundle_ c) (host_id (bundler info))) (flow_infos info)) in
  agg ← Update agg_config (aggregator_ c) bundler_id info';
  Some (mkFullController agg (allocator_ c) (last_alloc_bundle_ c) (next_lis_id_ c)
          (new_bundle_funcs_ c)).

Definition Full_GetBundlerID (c : FullClusterController) (b : FlowMarker)
    : option (FullClusterController * ParID) :=
  '(agg, id) ← GetBundlerID (aggregator_ c) b;
  Some (mkFullController agg (allocator_ c) (last_alloc_bundle_ c) (next_lis_id_ c)
          (new_bundle_funcs_ c), id).

Fixpoint add_infos (a : @ClusterAllocator _ A) (calls : list (Time * AggInfo))
    : option (@ClusterAllocator _ A) :=
  match calls with
  | [] => Some a
  | (t, i) :: calls => a ← AddInfo a t i; add_infos a calls
  end.

(** The calls of the listeners. *)
Definition notifications (bundles : gmap Z AllocBundle) (funcs : gmap Z (gset Z))
    : list (Z * AllocBundle) :=
  concat (map (fun hb => map (fun id => (id, snd hb)) (elements (default ∅ (funcs !! fst hb))))
    (map_to_list bundles)).

Definition ComputeAndBroadcast (sched : list nat) (c : FullClusterController)
    : option (FullClusterController * list (Z * AllocBundle)) :=
  alloc ← Reset (allocator_ c);
  '(agg, calls) ← ForEachAgg agg_config predictor (aggregator_ c);
  alloc ← add_infos alloc calls;
  alloc ← run_tasks alloc sched;
  '(alloc, allocs) ← GetAllocs alloc;
  let alloc_bundles := BundleByHost allocs in
  Some (mkFullController agg alloc alloc_bundles (next_lis_id_ c) (new_bundle_funcs_ c),
        notifications alloc_bundles (new_bundle_funcs_ c)).

(** ** Listeners: lemmas *)

(** Ids that were handed out are below the next one, and unique. *)
Definition listeners_ok (c : FullClusterController) : Prop :=
  (forall h ids id, new_bundle_funcs_ c !! h = Some ids -> id ∈ ids -> 0 < id < next_lis_id_ c) /\
  (forall h h' ids ids' id, new_bundle_funcs_ c !! h = Some ids ->
     new_bundle_funcs_ c !! h' = Some ids' -> id ∈ ids -> id ∈ ids' -> h = h') /\
  0 < next_lis_id_ c.

Definition listeners_of (c : FullClusterController) (h : Z) : gset Z :=
  default ∅ (new_bundle_funcs_ c !! h).

Lemma listeners_of_elem c h id :
  id ∈ listeners_of c h <-> exists ids, new_bundle_funcs_ c !! h = Some ids /\ id ∈ ids.
Proof.
  unfold listeners_of. destruct (new_bundle_funcs_ c !! h) as [ids|]; cbn; [|set_solver].
  split; [eauto|]. by intros (? & [= <-] & ?).
Qed.

Lemma RegisterListener_spec c h c' l :
  listeners_ok c -> next_lis_id_ c + 1 < 2 ^ 64 -> RegisterListener c h = (c', l) ->
  listeners_ok c' /\ lis_host_id_ l = h /\ lis_id_ l = next_lis_id_ c /\
  (forall h', listeners_of c' h' =
     if decide (h' = h) then {[lis_id_ l]} ∪ listeners_of c h else listeners_of c h') /\
  (forall h', lis_id_ l ∉ listeners_of c h').
Proof.
  intros (Hlt & Huniq & Hpos) Hwrap [= <- <-]. cbn [lis_host_id_ lis_id_].
  assert (Hfresh : forall h', next_lis_id_ c ∉ listeners_of c h').
  { intros h' (ids & Hh & Hin)%listeners_of_elem. specialize (Hlt h' ids _ Hh Hin). lia. }
  assert (Hof : forall h' ids, <[h := {[next_lis_id_ c]} ∪ default ∅ (new_bundle_funcs_ c !! h)]>
    (new_bundle_funcs_ c) !! h' = Some ids -> forall id, id ∈ ids ->
    (id = next_lis_id_ c /\ h' = h) \/ exists ids0, new_bundle_funcs_ c !! h' = Some ids0 /\ id ∈ ids0).
  { intros h' ids Hh id Hin. apply lookup_insert_Some in Hh as [[<- <-]|[? Hh]]; [|eauto].
    apply elem_of_union in Hin as [Hin%elem_of_singleton|Hin]; [by left|].
    right. by apply listeners_of_elem. }
  split_and!; try done.
  - assert (Hn : u64 (next_lis_id_ c + 1) = next_lis_id_ c + 1) by (apply u64_id; unfold in_u64; lia).
    unfold listeners_ok. cbn [new_bundle_funcs_ next_lis_id_]. rewrite Hn. split_and!.
    + intros h' ids id Hh Hin.
      destruct (Hof h' ids Hh id Hin) as [[-> _]|(ids0 & H0 & Hin0)]; [lia|].
      specialize (Hlt _ _ _ H0 Hin0). lia.
    + intros h1 h2 ids1 ids2 id H1 H2 Hin1 Hin2.
      destruct (Hof h1 ids1 H1 id Hin1) as [[-> ->]|(i1 & E1 & I1)];
        destruct (Hof h2 ids2 H2 _ Hin2) as [[E2' ->]|(i2 & E2 & I2)]; try done.
      * exfalso. specialize (Hlt _ _ _ E2 I2). lia.
      * exfalso. subst. specialize (Hlt _ _ _ E1 I1). lia.
      * by eapply Huniq.
    + lia.
  - intros h'. unfold listeners_of. cbn [new_bundle_funcs_]. case_decide as Hd; [subst|].
    + by rewrite lookup_insert_eq.
    + by rewrite lookup_insert_ne.
Qed.
End FullClusterController.

(** ** A round: lemmas *)

Section Round.
Context `{ClockLaws} {M : Type} `{!IndexedMap FlowMarker BundleState M} {limit : Z}
  `{!IndexedMapLaws FlowMarker BundleState M new_BundleState limit}.
Context {A : Type} `{!PerAggAllocator A} `{!PerAggIndependent A}.
Context (agg_config : FlowAggregator_Config) (predictor : DemandPredictor).

Lemma add_infos_spec calls : forall (a : @ClusterAllocator _ A) tasks,
  group_ a = Some tasks ->
  add_infos a calls = Some (mkClusterAllocator (alloc_ a) (Some (tasks ++ calls)) (allocs_ a)).
Proof.
  induction calls as [|[t i] calls IH]; intros a tasks Hg; cbn [add_infos].
  - rewrite app_nil_r. destruct a as [al g s]. cbn in *. by rewrite Hg.
  - unfold AddInfo. rewrite Hg. cbn [mbind option_bind].
    rewrite (IH _ (tasks ++ [(t, i)])) by done. cbn [alloc_ allocs_]. by rewrite <- app_assoc.
Qed.

(** The aggregates of a pass have different FGs. *)
Lemma reported_keys_distinct bss states calls :
  get_agg_flow_fn agg_config = ToClusterFlow ->
  Forall2 (agg_reported agg_config bss states)
    (map fst (map_to_list (agg_wips agg_config bss))) calls ->
  NoDup (map task_key calls).
Proof.
  intros Hfn Hrep. assert (E : map task_key calls = map fst (map_to_list (agg_wips agg_config bss))).
  { assert (Hin : forall k, k ∈ map fst (map_to_list (agg_wips agg_config bss)) -> cluster_key k = k).
    { intros k ([k' w] & -> & Hw%elem_of_map_to_list)%list_elem_of_fmap. cbn [fst].
      rewrite agg_wips_lookup in Hw. destruct (agg_events agg_config k' bss) as [|ev evs] eqn:Ev; [done|].
      assert (Hev : ev ∈ agg_events agg_config k' bss) by (rewrite Ev; left).
      apply list_elem_of_filter in Hev as [<- _]. unfold event_agg. by rewrite Hfn. }
    revert Hin. induction Hrep as [|k call ks calls Hr _ IH]; intros Hin; [done|]. cbn [map].
    rewrite IH by set_solver. f_equal. unfold task_key. rewrite (ar_flow _ _ _ _ _ Hr).
    apply Hin. set_solver. }
  rewrite E. apply NoDup_fst_map_to_list.
Qed.

Lemma notifications_elem (bundles : gmap Z AllocBundle) (funcs : gmap Z (gset Z)) id b :
  (id, b) ∈ notifications bundles funcs <->
  exists h, bundles !! h = Some b /\ id ∈ default ∅ (funcs !! h).
Proof.
  unfold notifications. rewrite list_elem_of_In, in_concat. split.
  - intros (l & Hl%list_elem_of_In & Hin%list_elem_of_In).
    apply list_elem_of_fmap in Hl as ([h b'] & -> & Hb%elem_of_map_to_list).
    apply list_elem_of_fmap in Hin as (id' & [= -> ->] & Hid%elem_of_elements). by exists h.
  - intros (h & Hb & Hid). eexists. split; apply list_elem_of_In.
    + apply list_elem_of_fmap_2. by apply elem_of_map_to_list, Hb.
    + cbn [fst snd]. apply list_elem_of_fmap. exists id. split; [done|]. by apply elem_of_elements.
Qed.
End Round.

(** C9: a control round over cluster aggregates, with an allocator that is
    independent across aggregates: if allocating the aggregates one after
    the other succeeds, then for every order the workers may run the tasks
    in the round completes, keeps the invariant of the aggregator and leaves
    no task behind; the limits computed do not depend on the order; the bundle kept for a host holds
    exactly the limits of its flows, and the calls made are those of the
    listeners of the hosts that have a bundle, each with its host's bundle. *)
Theorem ComputeAndBroadcast_any_schedule `{ClockLaws} {M : Type}
    `{!IndexedMap FlowMarker BundleState M} {limit : Z}
    `{!IndexedMapLaws FlowMarker BundleState M new_BundleState limit}
    {A : Type} `{!PerAggAllocator A} `{!PerAggIndependent A} agg_config predictor
    (c : @FullClusterController _ M A)
  (Hfn : get_agg_flow_fn agg_config = ToClusterFlow)
  (Hinv : agg_inv agg_config (aggregator_ c))
  (Hsmall : small_totals agg_config (bundles (aggregator_ c)))
  (Hgroup : group_ (allocator_ c) = None) (Hi : independent (alloc_ (allocator_ c))) :
  exists agg calls, ForEachAgg agg_config predictor (aggregator_ c) = Some (agg, calls) /\
  forall s' rs sched, alloc_all (alloc_ (allocator_ c)) calls = Some (s', rs) ->
    full_schedule (length calls) sched ->
    exists c' sent allocs, ComputeAndBroadcast agg_config predictor sched c = Some (c', sent) /\
      agg_inv agg_config (aggregator_ c') /\ group_ (allocator_ c') = None /\
      alloc_ (allocator_ c') = s' /\ allocs ≡ₚ rs /\
      (forall h, last_alloc_bundle_ c' !! h =
         match allocs_of_host h allocs with [] => None | l => Some (mkAllocBundle l 0) end) /\
      (forall id b, (id, b) ∈ sent <->
         exists h, last_alloc_bundle_ c' !! h = Some b /\ id ∈ listeners_of c h).
Proof.
  destruct (ForEachAgg_inv agg_config predictor (aggregator_ c) Hinv Hsmall)
    as (agg & calls & Hrun & Hinv' & _ & Hrep).
  exists agg, calls. split; [done|]. intros s' rs sched Hall Hsched. unfold ComputeAndBroadcast, Reset.
  rewrite Hgroup. cbn [mbind option_bind]. rewrite Hrun. cbn [mbind option_bind].
  rewrite (add_infos_spec calls _ []) by done. cbn [mbind option_bind alloc_ allocs_ app].
  destruct (run_tasks_all sched (mkClusterAllocator (alloc_ (allocator_ c)) (Some calls) [])
    calls s' rs) as (sets & -> & Hp); try done.
  { by eapply reported_keys_distinct. }
  cbn [mbind option_bind GetAllocs group_ allocs_]. eexists _, _, sets. split; [done|].
  cbn [aggregator_ allocator_ last_alloc_bundle_ group_]. split_and!; try done.
  - intros h. apply BundleByHost_lookup.
  - intros id b. apply notifications_elem.
Qed.

Lemma alloc_all_nop `{Clock} XXH64 solver tasks :
  @alloc_all _ AllocatorImpl (AllocatorImpl_ops XXH64 solver) ImplNop tasks =
  Some (ImplNop, map (fun _ => []) tasks).
Proof. induction tasks as [|[t i] tasks IH]; [done|]. cbn in *. by rewrite IH. Qed.

Lemma ComputeAndBroadcast_any_schedule_witness :
  exists (c c' : @FullClusterController ZClock (@ParIndexedMap FlowMarker (@BundleState ZClock) _ _)
            (@AllocatorImpl ZClock)) sent sched,
    @ComputeAndBroadcast ZClock _ (ParIndexedMap_ops (@new_BundleState ZClock) (fun _ => true))
      _ (@AllocatorImpl_ops ZClock (fun _ => 0) no_solver)
      (@NewHostToClusterAggregator ZClock (seconds 120)) zpredictor sched c = Some (c', sent) /\
    @bundles ZClock _ (ParIndexedMap_ops (@new_BundleState ZClock) (fun _ => true)) _
      (ParIndexedMap_laws (@new_BundleState ZClock) (fun _ => true))
      (@aggregator_ ZClock _ _ c) <> [].
Proof.
  destruct example_updated as (fa & bs & Hi & Hb & Hs & Ha & Hd).
  set (c := @mkFullController ZClock _ (@AllocatorImpl ZClock) fa
    (@mkClusterAllocator ZClock _ (@ImplNop ZClock) None []) ∅ 1 ∅).
  destruct (@ComputeAndBroadcast_any_schedule ZClock ZClock_laws _
    (ParIndexedMap_ops (@new_BundleState ZClock) (fun _ => true)) _
    (ParIndexedMap_laws (@new_BundleState ZClock) (fun _ => true)) _
    (@AllocatorImpl_ops ZClock (fun _ => 0) no_solver)
    (@AllocatorImpl_independent ZClock (fun _ => 0) no_solver)
    (@NewHostToClusterAggregator ZClock (seconds 120)) zpredictor c)
    as (agg & calls & _ & Hround).
  - reflexivity.
  - exact Hi.
  - eapply example_totals; [exact Hb|exact Ha|exact Hd].
  - reflexivity.
  - exact I.
  - destruct (Hround _ _ (replicate (length calls) 0%nat) (alloc_all_nop _ _ calls))
      as (c' & sent & allocs & Hrun & _).
    { clear. induction calls; cbn; [done|]. split; [lia|done]. }
    exists c, c', sent, (replicate (length calls) 0%nat). split; [exact Hrun|].
    intros E. pose proof (eq_trans (eq_sym E) Hb) as Hc. discriminate Hc.
Defined.

(** A registered listener gets a fresh id and destroying it succeeds and
    leaves every host with the listeners it had before; except for host id
    0, the value of an unset host: the destructor leaves that callback
    registered. *)
Theorem Listener_lifetime `{Clock} {M A : Type} (c : @FullClusterController _ M A) h c1 l :
  listeners_ok c -> next_lis_id_ c + 1 < 2 ^ 64 -> RegisterListener c h = (c1, l) ->
  (forall h', lis_id_ l ∉ listeners_of c h') /\ lis_id_ l ∈ listeners_of c1 h /\
  listeners_ok c1 /\
  (h <> 0 -> exists c2, destroy_Listener c1 l = Some c2 /\
     forall h', listeners_of c2 h' = listeners_of c h') /\
  (h = 0 -> destroy_Listener c1 l = Some c1).
Proof.
  intros Hok Hwrap Hreg. destruct (RegisterListener_spec c h c1 l Hok Hwrap Hreg)
    as (Hok1 & Hh & Hid & Hof & Hfresh).
  assert (Hin : lis_id_ l ∈ listeners_of c1 h) by (rewrite Hof, decide_True by done; set_solver).
  split_and!; try done.
  - intros Hne. unfold destroy_Listener. rewrite Hh, (proj2 (Z.eqb_neq h 0)) by done. cbn [negb].
    apply listeners_of_elem in Hin as (ids & Hids & Hin). rewrite Hids. cbn [mbind option_bind].
    rewrite bool_decide_eq_true_2 by done. eexists. split; [done|]. intros h'.
    unfold listeners_of at 1. cbn [new_bundle_funcs_]. destruct (decide (h' = h)) as [->|Hne'].
    + rewrite lookup_insert_eq. specialize (Hof h). rewrite decide_True in Hof by done.
      unfold listeners_of in Hof at 1. rewrite Hids in Hof. cbn in Hof. cbn. rewrite Hof.
      specialize (Hfresh h). set_solver.
    + rewrite lookup_insert_ne by done. specialize (Hof h'). rewrite decide_False in Hof by done.
      exact Hof.
  - intros ->. unfold destroy_Listener. by rewrite Hh.
Qed.

Lemma Listener_lifetime_witness :
  exists c1 l c2, RegisterListener (@mkFullController ZClock unit unit
      (@mkFlowAggregator ZClock unit tt ∅) (@mkClusterAllocator ZClock unit tt None []) ∅ 1 ∅) 7 = (c1, l) /\
    destroy_Listener c1 l = Some c2 /\ listeners_of c2 7 = ∅.
Proof.
  set (c := @mkFullController ZClock unit unit (@mkFlowAggregator ZClock unit tt ∅)
              (@mkClusterAllocator ZClock unit tt None []) ∅ 1 ∅).
  destruct (RegisterListener c 7) as [c1 l] eqn:E.
  destruct (Listener_lifetime c 7 c1 l) as (_ & _ & _ & Hd & _).
  - split_and!; [intros h ids id Hh|intros h h' ids ids' id Hh|done];
      exfalso; cbn [new_bundle_funcs_ c] in Hh; by rewrite lookup_empty in Hh.
  - cbn. lia.
  - exact E.
  - destruct Hd as (c2 & Hc2 & Hof); [lia|]. exists c1, l, c2. split_and!; [done|exact Hc2|].
    rewrite Hof. reflexivity.
Defined.

(** A report of a host is marked with the priority last sent to it: a
    flow whose FG has an allocation in the host's last bundle is low
    priority exactly when the first such allocation has a low-priority
    limit; any other flow keeps the priority it was reported with. *)
Theorem UpdateInfo_marks_last_priority bundles h fi :
  let fg a := bool_decide (cluster_key (alloc_flow a) = cluster_key (flow fi)) in
  match bundles !! h with
  | Some b =>
      match filter (fun a => fg a = true) (flow_allocs b) with
      | a :: _ => currently_lopri (mark_info bundles h fi) = (0 <? lopri_rate_limit_bps a)
      | [] => currently_lopri (mark_info bundles h fi) = currently_lopri fi
      end
  | None => currently_lopri (mark_info bundles h fi) = currently_lopri fi
  end /\
  flow (mark_info bundles h fi) = flow fi /\
  cum_hipri_usage_bytes (mark_info bundles h fi) = cum_hipri_usage_bytes fi /\
  cum_lopri_usage_bytes (mark_info bundles h fi) = cum_lopri_usage_bytes fi /\
  ewma_usage_bps (mark_info bundles h fi) = ewma_usage_bps fi.
Proof.
  cbn zeta. split; [|done]. unfold mark_info, LookupAlloc. cbn [currently_lopri flow].
  destruct (bundles !! h) as [b|]; [|done].
  rewrite (list_filter_iff (fun a => bool_decide (cluster_key (alloc_flow a) = cluster_key (flow fi)) = true)
    (fun a => IsSameFlow (alloc_flow a) (flow fi) lookup_options = true)).
  - destruct (filter _ (flow_allocs b)) as [|a l]; [done|]. by destruct (0 <? _).
  - intros a. rewrite bool_decide_eq_true. symmetry. apply IsSameFlow_flow_key.
Qed.
