(* ===== verification/FastAggregator.v ===== *)
(** * FastAggregator: the sharded queue of host reports

    src/heyp/cluster-agent/fast-aggregator.{h,cc}.  The first part is the
    lock-free double buffer of one shard: every atomic load, compare-exchange
    and store, and every access to a buffer, is a step of a relation over the
    writers ([UpdateInfo], any number of threads) and the one collector
    ([CollectSnapshot]).  The second part is the aggregation of the
    snapshots. *)

From stdpp Require Import relations.
From S2P Require Import Prelude Doubles FlowMarker Clock Views HashRing.
From S2P Require Import RateLimits Selectors Allocators Aggregator.

(** ** Data *)

Record HostInfoGen := mkHostInfoGen { hg_host_id : Z; hg_gen : Z }.

Record Info := mkInfo {
  i_agg_id : Z;
  i_child_id : Z;
  i_volume_bps : Z;
  i_currently_lopri : bool }.

Record InfoShard := mkInfoShard { gens : list HostInfoGen; infos : list Info }.

Record FastAggInfo := mkFastAggInfo {
  fa_parent : FlowInfo;
  fa_children : list ChildFlowInfo;
  fa_info_gen : list HostInfoGen;
  fa_agg_id : Z }.

Definition kNumInfoShards : Z := 8.

(** ** UpdateInfo: what a report adds to its shard *)

Definition shard_of_host (host_id : Z) : Z := Z.rem (u32 host_id) kNumInfoShards.

Definition report_infos `{Clock} (agg_flow_to_id : gmap FlowMarker Z) (b : InfoBundle) : list Info :=
  omap (fun fi =>
    id ← agg_flow_to_id !! cluster_key (flow fi);
    Some (mkInfo id (host_id (bundler b)) (ewma_usage_bps fi) (currently_lopri fi)))
  (flow_infos b).

Definition report_gen `{Clock} (b : InfoBundle) : HostInfoGen :=
  mkHostInfoGen (host_id (bundler b)) (gen b).

(** ** The double buffer of a shard *)

(** A report: what [UpdateInfo] computed before it touches the shard. *)
Record report := mkReport { r_infos : list Info; r_gen : HostInfoGen }.

(** The program counter of a writer. *)
Inductive writer :=
  | WReady (r : report)                            (* before the load *)
  | WLoaded (cur : Z) (r : report)                 (* before the compare-exchange *)
  | WHold (cur : Z) (r : report) (rest : list Info) (* infos still to push *)
  | WRelease (cur : Z) (r : report)                (* before the final store *)
  | WDone.

Inductive collector :=
  | CReady                 (* before the load *)
  | CLoaded (cur : Z)      (* before clearing the other buffer *)
  | CCleared (cur : Z)     (* before the compare-exchange *)
  | CReading (cur : Z).    (* owns the buffer [cur] *)

Record shard_state := mkShard {
  buf0 : InfoShard;
  buf1 : InfoShard;
  active_info_shard_id : Z;
  writers : gmap nat writer;
  coll : collector;
  reports_done : list report;      (* reports in the order they were released *)
  snapshots : list InfoShard }.    (* what the collector read, in order *)

Definition empty_shard : InfoShard := mkInfoShard [] [].

Definition buf (s : shard_state) (i : Z) : InfoShard := if i =? 0 then buf0 s else buf1 s.

Definition set_buf (s : shard_state) (i : Z) (b : InfoShard) : shard_state :=
  mkShard (if i =? 0 then b else buf0 s) (if i =? 0 then buf1 s else b)
    (active_info_shard_id s) (writers s) (coll s) (reports_done s) (snapshots s).

Definition set_active_id (s : shard_state) (i : Z) : shard_state :=
  mkShard (buf0 s) (buf1 s) i (writers s) (coll s) (reports_done s) (snapshots s).
Definition set_writer (s : shard_state) (w : nat) (pc : writer) : shard_state :=
  mkShard (buf0 s) (buf1 s) (active_info_shard_id s) (<[w := pc]> (writers s)) (coll s)
    (reports_done s) (snapshots s).
Definition set_coll (s : shard_state) (c : collector) : shard_state :=
  mkShard (buf0 s) (buf1 s) (active_info_shard_id s) (writers s) c (reports_done s) (snapshots s).
Definition add_done (s : shard_state) (r : report) : shard_state :=
  mkShard (buf0 s) (buf1 s) (active_info_shard_id s) (writers s) (coll s) (reports_done s ++ [r])
    (snapshots s).
Definition add_snapshot (s : shard_state) (b : InfoShard) : shard_state :=
  mkShard (buf0 s) (buf1 s) (active_info_shard_id s) (writers s) (coll s) (reports_done s)
    (snapshots s ++ [b]).

Definition push_info (b : InfoShard) (i : Info) : InfoShard := mkInfoShard (gens b) (infos b ++ [i]).
Definition push_gen (b : InfoShard) (g : HostInfoGen) : InfoShard :=
  mkInfoShard (gens b ++ [g]) (infos b).

Definition next_id (cur : Z) : Z := Z.rem (cur + 1) 2.

Inductive shard_step (s : shard_state) : shard_state -> Prop :=
  (** a new call of [UpdateInfo] *)
  | step_call w r : writers s !! w = None -> shard_step s (set_writer s w (WReady r))
  (** the writer's loop *)
  | step_load w r : writers s !! w = Some (WReady r) -> 0 <= active_info_shard_id s ->
      shard_step s (set_writer s w (WLoaded (active_info_shard_id s) r))
  | step_cas w cur r : writers s !! w = Some (WLoaded cur r) -> active_info_shard_id s = cur ->
      shard_step s (set_active_id (set_writer s w (WHold cur r (r_infos r))) (-1))
  | step_cas_fail w cur r : writers s !! w = Some (WLoaded cur r) -> active_info_shard_id s <> cur ->
      shard_step s (set_writer s w (WReady r))
  | step_push w cur r i rest : writers s !! w = Some (WHold cur r (i :: rest)) ->
      shard_step s (set_buf (set_writer s w (WHold cur r rest)) cur (push_info (buf s cur) i))
  | step_push_gen w cur r : writers s !! w = Some (WHold cur r []) ->
      shard_step s (set_buf (set_writer s w (WRelease cur r)) cur (push_gen (buf s cur) (r_gen r)))
  | step_release w cur r : writers s !! w = Some (WRelease cur r) ->
      shard_step s (add_done (set_active_id (set_writer s w WDone) cur) r)
  (** the collector's loop *)
  | step_cload : coll s = CReady -> 0 <= active_info_shard_id s ->
      shard_step s (set_coll s (CLoaded (active_info_shard_id s)))
  | step_clear cur : coll s = CLoaded cur ->
      shard_step s (set_buf (set_coll s (CCleared cur)) (next_id cur) empty_shard)
  | step_swap cur : coll s = CCleared cur -> active_info_shard_id s = cur ->
      shard_step s (set_active_id (set_coll s (CReading cur)) (next_id cur))
  | step_swap_fail cur : coll s = CCleared cur -> active_info_shard_id s <> cur ->
      shard_step s (set_coll s CReady)
  | step_read cur : coll s = CReading cur ->
      shard_step s (set_coll (add_snapshot s (buf s cur)) CReady).

Definition shard_init : shard_state :=
  mkShard empty_shard empty_shard 0 ∅ CReady [] [].

(** ** Lemmas on the double buffer *)

(** What a sequence of whole reports leaves in a buffer. *)
Definition shard_of (rs : list report) : InfoShard :=
  mkInfoShard (map r_gen rs) (concat (map r_infos rs)).

Lemma shard_of_snoc rs r :
  shard_of (rs ++ [r]) = mkInfoShard (gens (shard_of rs) ++ [r_gen r]) (infos (shard_of rs) ++ r_infos r).
Proof.
  unfold shard_of. cbn. rewrite !map_app, concat_app. cbn. by rewrite app_nil_r.
Qed.

(** The buffer a writer holds. *)
Definition held (pc : writer) : option Z :=
  match pc with WHold cur _ _ | WRelease cur _ => Some cur | _ => None end.

Definition not_held (s : shard_state) : Prop :=
  forall w pc, writers s !! w = Some pc -> held pc = None.

(** The progress of the one writer that holds the buffer [side]. *)
Inductive holding (s : shard_state) (side : Z) (pending : list report) : Prop :=
  | holding_push w r pushed rest :
      writers s !! w = Some (WHold side r rest) -> r_infos r = pushed ++ rest ->
      buf s side = mkInfoShard (gens (shard_of pending)) (infos (shard_of pending) ++ pushed) ->
      (forall w' pc, writers s !! w' = Some pc -> held pc <> None -> w' = w) ->
      holding s side pending
  | holding_release w r :
      writers s !! w = Some (WRelease side r) -> buf s side = shard_of (pending ++ [r]) ->
      (forall w' pc, writers s !! w' = Some pc -> held pc <> None -> w' = w) ->
      holding s side pending.

Definition coll_ok (s : shard_state) (side : Z) : Prop :=
  match coll s with
  | CReady => True
  | CLoaded cur => cur = side
  | CCleared cur => cur = side /\ buf s (1 - side) = empty_shard
  | CReading cur => cur = 1 - side
  end.

(** What was read, and what the collector is about to read. *)
Definition read_shards (s : shard_state) : list InfoShard :=
  snapshots s ++ match coll s with CReading cur => [buf s cur] | _ => [] end.

Inductive shard_inv (s : shard_state) : Prop :=
  | shard_inv_intro side groups pending :
      side = 0 \/ side = 1 ->
      reports_done s = concat groups ++ pending ->
      read_shards s = map shard_of groups ->
      coll_ok s side ->
      (active_info_shard_id s = side /\ not_held s /\ buf s side = shard_of pending \/
       active_info_shard_id s = -1 /\ holding s side pending) ->
      shard_inv s.

Lemma buf_set_buf_eq s i b : buf (set_buf s i b) i = b.
Proof. unfold buf, set_buf. by destruct (i =? 0). Qed.

Lemma buf_set_buf_other s i b : i = 0 \/ i = 1 -> buf (set_buf s i b) (1 - i) = buf s (1 - i).
Proof. intros [-> | ->]; reflexivity. Qed.

Lemma held_set s w pc0 w' pc :
  <[w := pc0]> (writers s) !! w' = Some pc ->
  (w' = w /\ pc = pc0) \/ (w' <> w /\ writers s !! w' = Some pc).
Proof. intros [[<- <-]|[? ?]]%lookup_insert_Some; auto. Qed.

Lemma next_id_other side : side = 0 \/ side = 1 -> next_id side = 1 - side.
Proof. by intros [-> | ->]. Qed.

Lemma shard_inv_init : shard_inv shard_init.
Proof.
  apply (shard_inv_intro _ 0 [] []); try done; [by left|]. left. split_and!; [done| |done].
  intros w pc Hw. cbn in Hw. by rewrite lookup_empty in Hw.
Qed.

Lemma holding_ext s s' side pending :
  writers s' = writers s -> buf s' side = buf s side -> holding s side pending ->
  holding s' side pending.
Proof.
  intros Hw Hb [w r pushed rest H1 H2 H3 H4|w r H1 H2 H3].
  - eapply holding_push; rewrite ?Hw, ?Hb; eauto.
  - eapply holding_release; rewrite ?Hw, ?Hb; eauto.
Qed.

(** Steps of a writer that holds nothing before or after. *)
Lemma shard_inv_unheld s w pc :
  (forall pc0, writers s !! w = Some pc0 -> held pc0 = None) -> held pc = None ->
  shard_inv s -> shard_inv (set_writer s w pc).
Proof.
  intros Hw Hpc [side groups pending Hs Hl Hr Hc Hh].
  apply (shard_inv_intro _ side groups pending); try done.
  destruct Hh as [(Ha & Hn & Hb)|(Ha & Hh)]; [left|right]; (split; [done|]).
  - split; [|done]. intros w' pc' [[-> ->]|[_ Hw']]%held_set; [done|by eapply Hn].
  - assert (Huniq : forall w0, (forall w' pc', writers s !! w' = Some pc' -> held pc' <> None -> w' = w0) ->
      forall w' pc', writers (set_writer s w pc) !! w' = Some pc' -> held pc' <> None -> w' = w0).
    { intros w0 Hu w' pc' [[-> ->]|[_ Hw']]%held_set Hne; [done|by eapply Hu]. }
    destruct Hh as [w0 r pushed rest H1 H2 H3 H4|w0 r H1 H2 H3].
    + eapply (holding_push _ _ _ w0 r pushed rest); [|done|done|by apply Huniq].
      cbn. rewrite lookup_insert_ne; [done|]. intros ->. by apply Hw in H1.
    + eapply (holding_release _ _ _ w0 r); [|done|by apply Huniq].
      cbn. rewrite lookup_insert_ne; [done|]. intros ->. by apply Hw in H1.
Qed.

(** A step of a writer needs an active buffer nobody holds, or is its own. *)
Lemma active_not_held s :
  shard_inv s -> 0 <= active_info_shard_id s ->
  exists side groups pending, (side = 0 \/ side = 1) /\ reports_done s = concat groups ++ pending /\
    read_shards s = map shard_of groups /\ coll_ok s side /\
    active_info_shard_id s = side /\ not_held s /\ buf s side = shard_of pending.
Proof.
  intros [side groups pending Hs Hl Hr Hc [(Ha & Hn & Hb)|(Ha & Hh)]] Hpos; [|lia].
  by exists side, groups, pending.
Qed.

Lemma holder_spec s w pc cur :
  shard_inv s -> writers s !! w = Some pc -> held pc = Some cur ->
  exists groups pending, (cur = 0 \/ cur = 1) /\ reports_done s = concat groups ++ pending /\
    read_shards s = map shard_of groups /\ coll_ok s cur /\ active_info_shard_id s = -1 /\
    (forall w' pc', writers s !! w' = Some pc' -> held pc' <> None -> w' = w) /\
    match pc with
    | WHold _ r rest => exists pushed, r_infos r = pushed ++ rest /\
        buf s cur = mkInfoShard (gens (shard_of pending)) (infos (shard_of pending) ++ pushed)
    | WRelease _ r => buf s cur = shard_of (pending ++ [r])
    | _ => False
    end.
Proof.
  intros [side groups pending Hs Hl Hr Hc [(Ha & Hn & Hb)|(Ha & Hh)]] Hw Hheld.
  { by rewrite (Hn _ _ Hw) in Hheld. }
  exists groups, pending.
  destruct Hh as [w0 r pushed rest H1 H2 H3 H4|w0 r H1 H2 H3].
  - assert (w = w0) as -> by (eapply H4; [done|by rewrite Hheld]). rewrite H1 in Hw.
    injection Hw as <-. injection Hheld as <-. split_and!; try done. by exists pushed.
  - assert (w = w0) as -> by (eapply H3; [done|by rewrite Hheld]). rewrite H1 in Hw.
    injection Hw as <-. injection Hheld as <-. by split_and!.
Qed.

(** The buffer being read is not the one writers fill. *)
Lemma read_shards_set_buf s side b pc w :
  side = 0 \/ side = 1 -> coll_ok s side ->
  read_shards (set_buf (set_writer s w pc) side b) = read_shards s.
Proof.
  intros Hs Hc. unfold read_shards. cbn [coll snapshots set_buf set_writer].
  unfold coll_ok in Hc. destruct (coll s) as [|c|c|c]; try done. subst c.
  by rewrite buf_set_buf_other.
Qed.

Lemma coll_ok_set_buf s side b pc w :
  side = 0 \/ side = 1 -> coll_ok s side -> coll_ok (set_buf (set_writer s w pc) side b) side.
Proof.
  intros Hs. unfold coll_ok. cbn [coll set_buf set_writer]. destruct (coll s); try done.
  by rewrite buf_set_buf_other.
Qed.

Lemma writer_step_inv s w cur r i rest :
  shard_inv s -> writers s !! w = Some (WHold cur r (i :: rest)) ->
  shard_inv (set_buf (set_writer s w (WHold cur r rest)) cur (push_info (buf s cur) i)).
Proof.
  intros Hinv Hw.
  destruct (holder_spec s w _ cur Hinv Hw eq_refl) as (groups & pending & Hs & Hl & Hr & Hc & Ha & Hu & pushed & Hi & Hb).
  apply (shard_inv_intro _ cur groups pending); try done.
  - by rewrite read_shards_set_buf.
  - by apply coll_ok_set_buf.
  - right. split; [done|]. eapply (holding_push _ _ _ w r (pushed ++ [i]) rest).
    + cbn. by rewrite lookup_insert_eq.
    + by rewrite Hi, <- app_assoc.
    + rewrite buf_set_buf_eq. unfold push_info. rewrite Hb. cbn. by rewrite <- app_assoc.
    + intros w' pc' [[-> _]|[_ Hw']]%held_set Hne; [done|by eapply Hu].
Qed.

Lemma writer_gen_inv s w cur r :
  shard_inv s -> writers s !! w = Some (WHold cur r []) ->
  shard_inv (set_buf (set_writer s w (WRelease cur r)) cur (push_gen (buf s cur) (r_gen r))).
Proof.
  intros Hinv Hw.
  destruct (holder_spec s w _ cur Hinv Hw eq_refl) as (groups & pending & Hs & Hl & Hr & Hc & Ha & Hu & pushed & Hi & Hb).
  apply (shard_inv_intro _ cur groups pending); try done.
  - by rewrite read_shards_set_buf.
  - by apply coll_ok_set_buf.
  - right. split; [done|]. eapply (holding_release _ _ _ w r).
    + cbn. by rewrite lookup_insert_eq.
    + rewrite buf_set_buf_eq, shard_of_snoc, Hi, app_nil_r. unfold push_gen. by rewrite Hb.
    + intros w' pc' [[-> _]|[_ Hw']]%held_set Hne; [done|by eapply Hu].
Qed.

Lemma release_inv s w cur r :
  shard_inv s -> writers s !! w = Some (WRelease cur r) ->
  shard_inv (add_done (set_active_id (set_writer s w WDone) cur) r).
Proof.
  intros Hinv Hw.
  destruct (holder_spec s w _ cur Hinv Hw eq_refl) as (groups & pending & Hs & Hl & Hr & Hc & Ha & Hu & Hb).
  apply (shard_inv_intro _ cur groups (pending ++ [r])); try done.
  - cbn. by rewrite Hl, app_assoc.
  - left. split_and!; [done| |exact Hb].
    intros w' pc' [[-> ->]|[Hne Hw']]%held_set; [done|].
    destruct (held pc') eqn:E; [|done]. exfalso. apply Hne. eapply Hu; [exact Hw'|by rewrite E].
Qed.

Lemma acquire_inv s w cur r :
  shard_inv s -> writers s !! w = Some (WLoaded cur r) -> active_info_shard_id s = cur -> 0 <= cur ->
  shard_inv (set_active_id (set_writer s w (WHold cur r (r_infos r))) (-1)).
Proof.
  intros Hinv Hw Ha Hpos. rewrite <- Ha in Hpos.
  destruct (active_not_held s Hinv Hpos) as (side & groups & pending & Hs & Hl & Hr & Hc & Ha' & Hn & Hb).
  rewrite Ha in Ha'. subst cur.
  apply (shard_inv_intro _ side groups pending); try done.
  right. split; [done|]. rewrite Ha'. eapply (holding_push _ _ _ w r [] (r_infos r)).
  - cbn. by rewrite lookup_insert_eq.
  - done.
  - rewrite app_nil_r. exact Hb.
  - intros w' pc' [[-> _]|[_ Hw']]%held_set Hne; [done|]. by apply Hn in Hw'.
Qed.

(** ** Steps of the collector *)

Lemma cload_inv s :
  shard_inv s -> coll s = CReady -> 0 <= active_info_shard_id s ->
  shard_inv (set_coll s (CLoaded (active_info_shard_id s))).
Proof.
  intros Hinv Hcoll Hpos.
  destruct (active_not_held s Hinv Hpos) as (side & groups & pending & Hs & Hl & Hr & Hc & Ha & Hn & Hb).
  apply (shard_inv_intro _ side groups pending); try done.
  - unfold read_shards in *. by rewrite Hcoll in Hr.
  - left. done.
Qed.

Lemma swap_fail_inv s cur :
  shard_inv s -> coll s = CCleared cur -> shard_inv (set_coll s CReady).
Proof.
  intros [side groups pending Hs Hl Hr Hc Hh] Hcoll.
  apply (shard_inv_intro _ side groups pending); try done.
  - unfold read_shards in *. by rewrite Hcoll in Hr.
  - destruct Hh as [Hh|(Ha & Hh)]; [by left|right]. split; [done|]. by apply (holding_ext s).
Qed.

Lemma clear_inv s cur :
  shard_inv s -> coll s = CLoaded cur ->
  shard_inv (set_buf (set_coll s (CCleared cur)) (next_id cur) empty_shard).
Proof.
  intros [side groups pending Hs Hl Hr Hc Hh] Hcoll. unfold coll_ok in Hc. rewrite Hcoll in Hc. subst cur.
  rewrite next_id_other by done.
  assert (Hsame : buf (set_buf (set_coll s (CCleared side)) (1 - side) empty_shard) side = buf s side)
    by (destruct Hs as [-> | ->]; reflexivity).
  apply (shard_inv_intro _ side groups pending); try done.
  - unfold read_shards in *. rewrite Hcoll in Hr. exact Hr.
  - split; [done|]. apply buf_set_buf_eq.
  - destruct Hh as [(Ha & Hn & Hb)|(Ha & Hh)]; [left|right]; (split; [done|]).
    + split; [exact Hn|]. by rewrite Hsame.
    + by apply (holding_ext s).
Qed.

Lemma swap_inv s cur :
  shard_inv s -> coll s = CCleared cur -> active_info_shard_id s = cur ->
  shard_inv (set_active_id (set_coll s (CReading cur)) (next_id cur)).
Proof.
  intros [side groups pending Hs Hl Hr Hc Hh] Hcoll Ha. unfold coll_ok in Hc. rewrite Hcoll in Hc.
  destruct Hc as [-> Hempty].
  destruct Hh as [(_ & Hn & Hb)|(Ha' & _)]; [|exfalso; destruct Hs; lia].
  apply (shard_inv_intro _ (1 - side) (groups ++ [pending]) []); try done.
  - destruct Hs; lia.
  - rewrite concat_app. cbn. by rewrite !app_nil_r.
  - unfold read_shards in *. rewrite Hcoll, app_nil_r in Hr. cbn [coll set_active_id set_coll snapshots].
    rewrite map_app, <- Hr. cbn [map]. f_equal. f_equal. exact Hb.
  - unfold coll_ok. cbn. lia.
  - left. rewrite next_id_other by done. split_and!; [done|exact Hn|exact Hempty].
Qed.

Lemma read_inv s cur :
  shard_inv s -> coll s = CReading cur ->
  shard_inv (set_coll (add_snapshot s (buf s cur)) CReady).
Proof.
  intros [side groups pending Hs Hl Hr Hc Hh] Hcoll.
  apply (shard_inv_intro _ side groups pending); try done.
  - unfold read_shards in *. rewrite Hcoll in Hr. cbn. by rewrite app_nil_r.
  - destruct Hh as [Hh|(Ha & Hh)]; [by left|right]. split; [done|]. by apply (holding_ext s).
Qed.

Definition loaded_ok (s : shard_state) : Prop :=
  forall w cur r, writers s !! w = Some (WLoaded cur r) -> 0 <= cur.

Lemma loaded_ok_set s w pc :
  (forall cur r, pc = WLoaded cur r -> 0 <= cur) -> loaded_ok s -> loaded_ok (set_writer s w pc).
Proof. intros Hpc Hl w' cur r [[_ <-]|[_ Hw]]%held_set; [by eapply Hpc|by eapply Hl]. Qed.

Lemma shard_step_inv s s' :
  shard_step s s' -> shard_inv s /\ loaded_ok s -> shard_inv s' /\ loaded_ok s'.
Proof.
  intros Hstep [Hinv Hl]. destruct Hstep.
  - split; [apply shard_inv_unheld|apply loaded_ok_set]; try done. intros pc0. by rewrite H.
  - split; [apply shard_inv_unheld|apply loaded_ok_set]; try done.
    + intros pc0. rewrite H. by intros [= <-].
    + by intros cur r' [= <- _].
  - split; [|by apply (loaded_ok_set s w)]. apply acquire_inv; try done. by eapply Hl.
  - split; [apply shard_inv_unheld|apply loaded_ok_set]; try done.
    intros pc0. rewrite H. by intros [= <-].
  - split; [by apply writer_step_inv|by apply (loaded_ok_set s w)].
  - split; [by apply writer_gen_inv|by apply (loaded_ok_set s w)].
  - split; [by apply release_inv|by apply (loaded_ok_set s w)].
  - split; [by apply cload_inv|exact Hl].
  - split; [by apply clear_inv|exact Hl].
  - split; [by apply swap_inv|exact Hl].
  - split; [by eapply swap_fail_inv|exact Hl].
  - split; [by apply read_inv|exact Hl].
Qed.

Definition shard_reachable (s : shard_state) : Prop := rtc shard_step shard_init s.

Lemma shard_reachable_inv s : shard_reachable s -> shard_inv s /\ loaded_ok s.
Proof.
  intros Hr. eapply (rtc_ind_r (fun s => shard_inv s /\ loaded_ok s)); [| |exact Hr].
  - split; [apply shard_inv_init|]. intros w cur r Hw. cbn in Hw. by rewrite lookup_empty in Hw.
  - intros x y _ Hxy IH. by eapply shard_step_inv.
Qed.

(** C5: no report is lost, split or delivered twice: in every reachable state
    the released reports, in order, are the ones in the snapshots read so
    far, each snapshot holding whole reports, followed by the ones waiting in
    the active buffer. *)
Theorem FastAggregator_delivers_once s :
  shard_reachable s ->
  exists groups pending,
    reports_done s = concat groups ++ pending /\ read_shards s = map shard_of groups /\
    (not_held s -> buf s (active_info_shard_id s) = shard_of pending).
Proof.
  intros [[side groups pending Hs Hl Hr Hc Hh] _]%shard_reachable_inv.
  exists groups, pending. split_and!; [done|done|]. intros Hn.
  destruct Hh as [(-> & _ & Hb)|(_ & Hh)]; [done|exfalso].
  destruct Hh as [w r pushed rest Hw _ _ _|w r Hw _ _]; by apply Hn in Hw.
Qed.

(** C29: no data race on the buffers: at most one writer holds a buffer, and
    the collector never clears or reads the buffer a writer holds. *)
Theorem FastAggregator_no_race s :
  shard_reachable s ->
  (forall w w' pc pc', writers s !! w = Some pc -> writers s !! w' = Some pc' ->
     held pc <> None -> held pc' <> None -> w = w') /\
  (forall w pc b, writers s !! w = Some pc -> held pc = Some b ->
     (b = 0 \/ b = 1) /\ coll s <> CReading b /\
     forall cur, coll s = CLoaded cur -> next_id cur <> b).
Proof.
  intros [Hinv _]%shard_reachable_inv. split.
  - intros w w' pc pc' Hw Hw' Hh Hh'. destruct (held pc) as [b|] eqn:E; [|done].
    destruct (holder_spec s w pc b Hinv Hw E) as (_ & _ & _ & _ & _ & _ & _ & Hu & _).
    symmetry. by eapply Hu.
  - intros w pc b Hw Hh.
    destruct (holder_spec s w pc b Hinv Hw Hh) as (_ & _ & Hb & _ & _ & Hc & _).
    unfold coll_ok in Hc. split; [done|]. split.
    + intros E. rewrite E in Hc. lia.
    + intros cur E. rewrite E in Hc. subst cur. rewrite next_id_other by done. lia.
Qed.

Definition example_report : report :=
  mkReport [mkInfo 0 16 100 false; mkInfo 1 16 7 true] (mkHostInfoGen 16 3).

(** One report is released, then read. *)
Lemma example_run :
  exists s, shard_reachable s /\ reports_done s = [example_report] /\ not_held s /\
    snapshots s = [shard_of [example_report]] /\ coll s = CReady /\ active_info_shard_id s = 1.
Proof.
  eexists. split.
  - eapply rtc_l. { apply (step_call _ 0%nat example_report). reflexivity. }
    eapply rtc_l. { eapply (step_load _ 0%nat). reflexivity. cbn. lia. }
    eapply rtc_l. { eapply (step_cas _ 0%nat). reflexivity. reflexivity. }
    eapply rtc_l. { eapply (step_push _ 0%nat). reflexivity. }
    eapply rtc_l. { eapply (step_push _ 0%nat). reflexivity. }
    eapply rtc_l. { eapply (step_push_gen _ 0%nat). reflexivity. }
    eapply rtc_l. { eapply (step_release _ 0%nat). reflexivity. }
    eapply rtc_l. { apply step_cload. reflexivity. cbn. lia. }
    eapply rtc_l. { eapply step_clear. reflexivity. }
    eapply rtc_l. { eapply step_swap. reflexivity. reflexivity. }
    eapply rtc_l. { eapply step_read. reflexivity. }
    apply rtc_refl.
  - split_and!; [reflexivity| |reflexivity..].
    intros w pc Hw. cbn [writers set_coll add_snapshot set_active_id set_buf add_done set_writer] in Hw.
    destruct (decide (w = 0%nat)) as [->|Hne].
    + rewrite lookup_insert_eq in Hw. by injection Hw as <-.
    + rewrite !lookup_insert_ne in Hw by done. exact (False_ind _ (lookup_empty_Some _ _ Hw)).
Qed.

Lemma FastAggregator_delivers_once_witness :
  exists s, shard_reachable s /\ snapshots s = [shard_of [example_report]] /\
    buf s 1 = empty_shard.
Proof.
  destruct example_run as (s & Hr & Hd & Hn & Hs & Hc & Ha).
  destruct (FastAggregator_delivers_once s Hr) as (groups & pending & Hl & Hg & Hb).
  exists s. split_and!; [exact Hr|exact Hs|]. rewrite <- Ha, (Hb Hn).
  unfold read_shards in Hg. rewrite Hs, Hc in Hg. cbn [app] in Hg.
  destruct groups as [|g [|]]; [discriminate Hg| |discriminate Hg].
  cbn in Hg. rewrite Hd in Hl. cbn in Hl. rewrite app_nil_r in Hl.
  destruct pending as [|r pending]; [reflexivity|exfalso].
  apply (f_equal length) in Hl. rewrite length_app in Hl. cbn in Hl.
  destruct g; [discriminate Hg|]. cbn in Hl. lia.
Defined.

Lemma FastAggregator_no_race_witness :
  exists s w b, shard_reachable s /\ writers s !! w = Some (WHold b example_report (r_infos example_report)) /\
    coll s = CLoaded 0 /\ next_id 0 <> b.
Proof.
  assert (Hs : exists s, shard_reachable s /\
    writers s !! 0%nat = Some (WHold 0 example_report (r_infos example_report)) /\ coll s = CLoaded 0).
  { eexists. split.
    - eapply rtc_l. { apply (step_call _ 0%nat example_report). reflexivity. }
      eapply rtc_l. { eapply (step_load _ 0%nat). reflexivity. cbn. lia. }
      eapply rtc_l. { apply step_cload. reflexivity. cbn. lia. }
      eapply rtc_l. { eapply (step_cas _ 0%nat). reflexivity. reflexivity. }
      apply rtc_refl.
    - split; reflexivity. }
  destruct Hs as (s & Hr & Hw & Hc). exists s, 0%nat, 0. split_and!; [exact Hr|exact Hw|exact Hc|].
  destruct (FastAggregator_no_race s Hr) as [_ Hrace].
  destruct (Hrace 0%nat _ 0 Hw eq_refl) as (_ & _ & Hne). by apply Hne.
Defined.

(** ** Aggregation of a snapshot *)

Section Aggregate.
Context (template : list FastAggInfo) (samplers_ : list ThresholdSampler).

Record PrioEstimators := mkPrio { est_hipri : double; est_lopri : double }.

(** One info: [None]: an index is out of range. *)
Definition aggregate_info (downgrade_selectors : list HashRing)
    (st : list FastAggInfo * list PrioEstimators) (i : Info)
    : option (list FastAggInfo * list PrioEstimators) :=
  let '(agg, volume_bps) := st in
  let id := Z.to_nat (i_agg_id i) in
  a ← agg !! id;
  v ← volume_bps !! id;
  s ← samplers_ !! id;
  sel ← downgrade_selectors !! id;
  let a := mkFastAggInfo (fa_parent a)
             (fa_children a ++ [mkChild (i_child_id i) (i_volume_bps i) (i_currently_lopri i)])
             (fa_info_gen a) (fa_agg_id a) in
  let v := if IsLOPRI sel (i_child_id i)
           then mkPrio (est_hipri v) (AggUsage_RecordSample s (est_lopri v) (dofZ (i_volume_bps i)))
           else mkPrio (AggUsage_RecordSample s (est_hipri v) (dofZ (i_volume_bps i))) (est_lopri v) in
  Some (<[id := a]> agg, <[id := v]> volume_bps).

Fixpoint aggregate_infos (downgrade_selectors : list HashRing)
    (st : list FastAggInfo * list PrioEstimators) (l : list Info)
    : option (list FastAggInfo * list PrioEstimators) :=
  match l with
  | [] => Some st
  | i :: l => st ← aggregate_info downgrade_selectors st i; aggregate_infos downgrade_selectors st l
  end.

Definition Aggregate (shard : InfoShard) (downgrade_selectors : list HashRing)
    : option (list FastAggInfo * list PrioEstimators) :=
  let n := length template in
  let agg := map (fun i => mkFastAggInfo empty_info [] [] (Z.of_nat i)) (seq 0 n) in
  '(agg, volume_bps) ← aggregate_infos downgrade_selectors (agg, replicate n (mkPrio d0 d0))
                         (infos shard);
  Some (map (fun ai => mkFastAggInfo (fa_parent ai) (fa_children ai)
                         (fa_info_gen ai ++ gens shard) (fa_agg_id ai)) agg,
        volume_bps).

Definition set_usage (sum_bps sum_hipri_bps sum_lopri_bps : Z) (p : FlowInfo) : FlowInfo :=
  mkFlowInfo (flow p) sum_bps sum_bps sum_hipri_bps sum_lopri_bps (cum_usage_bytes p)
    (cum_hipri_usage_bytes p) (cum_lopri_usage_bytes p) (currently_lopri p) (aux p).

(** Aggregate [i] of all the parts.  The copy of the first part keeps its
    list of generations. *)
Definition combine_agg (parts : list (list FastAggInfo * list PrioEstimators)) (i : nat)
    (first : FastAggInfo) : FastAggInfo :=
  let of_part p := match fst p !! i with Some ai => fa_children ai | None => [] end in
  let vol (f : PrioEstimators -> double) p :=
    match snd p !! i with Some v => double_to_i64 (f v) | None => 0 end in
  let sum_hipri_bps := foldl (fun acc p => i64 (acc + vol est_hipri p)) 0 parts in
  let sum_lopri_bps := foldl (fun acc p => i64 (acc + vol est_lopri p)) 0 parts in
  let sum_bps := foldl (fun acc p => i64 (acc + i64 (vol est_hipri p + vol est_lopri p))) 0 parts in
  mkFastAggInfo
    (set_usage sum_bps sum_hipri_bps sum_lopri_bps
       (match template !! i with Some t => fa_parent t | None => empty_info end))
    (concat (map of_part parts)) (fa_info_gen first) (fa_agg_id first).

(** From the buffers the tasks swapped out, in the order of the shards. *)
Definition CollectSnapshot (shards : list InfoShard) (downgrade_selectors : list HashRing)
    : option (list FastAggInfo) :=
  parts ← mapM (fun s => Aggregate s downgrade_selectors) shards;
  '(first, _) ← head parts;
  Some (imap (combine_agg parts) first).
End Aggregate.

(** The checks and the result of [ComputeTemplateAggInfo]. *)
Definition ComputeTemplateAggInfo (agg_flow_to_id : gmap FlowMarker Z) : option (list FastAggInfo) :=
  let n := size agg_flow_to_id in
  let infos := replicate n (mkFastAggInfo empty_info [] [] (-1)) in
  infos ← foldl (fun o p =>
            infos ← o;
            let '(m, id) := p in
            if id <? Z.of_nat n
            then Some (<[Z.to_nat id := mkFastAggInfo
                          (mkFlowInfo m 0 0 0 0 0 0 0 false None) [] [] id]> infos)
            else None) (Some infos) (map_to_list agg_flow_to_id);
  if bool_decide (map fa_agg_id infos = map Z.of_nat (seq 0 n)) then Some infos else None.

(** ** Aggregation: lemmas and claims *)

Section AggregateSpec.
Context (template : list FastAggInfo) (samplers_ : list ThresholdSampler) (selectors : list HashRing).

(** Every info is of a known aggregate. *)
Definition valid_infos (l : list Info) : Prop :=
  Forall (fun i => 0 <= i_agg_id i < Z.of_nat (length template)) l.

Definition children_of (i : nat) (l : list Info) : list ChildFlowInfo :=
  map (fun x => mkChild (i_child_id x) (i_volume_bps x) (i_currently_lopri x))
    (filter (fun x => i_agg_id x = Z.of_nat i) l).

Hypothesis Hsamplers : length samplers_ = length template.
Hypothesis Hselectors : length selectors = length template.

Lemma aggregate_infos_spec l : forall agg vol,
  valid_infos l -> length agg = length template -> length vol = length template ->
  exists agg' vol', aggregate_infos samplers_ selectors (agg, vol) l = Some (agg', vol') /\
    length agg' = length template /\ length vol' = length template /\
    forall i a, agg !! i = Some a -> agg' !! i =
      Some (mkFastAggInfo (fa_parent a) (fa_children a ++ children_of i l) (fa_info_gen a) (fa_agg_id a)).
Proof.
  induction l as [|x l IH]; intros agg vol Hv Ha Hvol.
  - exists agg, vol. split_and!; try done. intros i a Hi. unfold children_of. cbn.
    rewrite app_nil_r, Hi. by destruct a.
  - apply Forall_cons in Hv as [Hx Hv]. cbn [aggregate_infos aggregate_info].
    set (id := Z.to_nat (i_agg_id x)). assert (Hid : (id < length template)%nat) by lia.
    destruct (lookup_lt_is_Some_2 agg id) as [a Hag]; [lia|].
    destruct (lookup_lt_is_Some_2 vol id) as [v Hvo]; [lia|].
    destruct (lookup_lt_is_Some_2 samplers_ id) as [sm Hsm]; [lia|].
    destruct (lookup_lt_is_Some_2 selectors id) as [sel Hsel]; [lia|].
    rewrite Hag, Hvo, Hsm, Hsel. cbn [mbind option_bind].
    match goal with |- context [aggregate_infos _ _ (?A, ?V) l] =>
      destruct (IH A V Hv) as (agg' & vol' & -> & H1 & H2 & H3);
        [by rewrite length_insert|by rewrite length_insert|] end.
    exists agg', vol'. split_and!; try done. intros i a0 Hi. unfold children_of.
    destruct (decide (i = id)) as [->|Hne].
    + rewrite Hag in Hi. injection Hi as <-.
      erewrite H3 by (by apply list_lookup_insert_eq; lia). cbn [fa_parent fa_children fa_info_gen fa_agg_id].
      rewrite filter_cons_True by lia. cbn [map]. by rewrite <- app_assoc.
    + erewrite H3 by (rewrite list_lookup_insert_ne by done; exact Hi).
      rewrite filter_cons_False; [done|]. intros E. apply Hne. unfold id. lia.
Qed.

Lemma Aggregate_spec s :
  valid_infos (infos s) ->
  exists agg vol, Aggregate template samplers_ s selectors = Some (agg, vol) /\
    length agg = length template /\
    forall i, (i < length template)%nat -> agg !! i =
      Some (mkFastAggInfo empty_info (children_of i (infos s)) (gens s) (Z.of_nat i)).
Proof.
  intros Hv. unfold Aggregate.
  destruct (aggregate_infos_spec (infos s)
    (map (fun i => mkFastAggInfo empty_info [] [] (Z.of_nat i)) (seq 0 (length template)))
    (replicate (length template) (mkPrio d0 d0)) Hv) as (agg & vol & -> & H1 & _ & H3).
  { by rewrite length_map, length_seq. }
  { by rewrite length_replicate. }
  cbn [mbind option_bind]. eexists _, _. split; [done|]. split; [by rewrite length_map|].
  intros i Hi. rewrite list_lookup_fmap.
  rewrite (H3 i (mkFastAggInfo empty_info [] [] (Z.of_nat i))); [reflexivity|].
  rewrite list_lookup_fmap, lookup_seq_lt by done. reflexivity.
Qed.
End AggregateSpec.

Lemma foldl_i64_add {A} (f : A -> Z) l : forall acc,
  in_i64 acc -> foldl (fun a x => i64 (a + f x)) acc l = i64 (acc + zsum (map f l)).
Proof.
  induction l as [|x l IH]; intros acc Hacc; cbn [foldl map].
  - rewrite zsum_nil, Z.add_0_r. by rewrite i64_id.
  - rewrite IH by apply i64_in_range. rewrite zsum_cons, i64_add_l. f_equal. lia.
Qed.

Lemma i64_add_both a b : i64 (i64 a + i64 b) = i64 (a + b).
Proof. by rewrite i64_add_l, Z.add_comm, i64_add_l, Z.add_comm. Qed.

Lemma zsum_i64 l : i64 (zsum (map i64 l)) = i64 (zsum l).
Proof.
  induction l as [|x l IH]; [done|]. cbn [map]. rewrite !zsum_cons, i64_add_l.
  by rewrite Z.add_comm, <- i64_add_l, IH, i64_add_l, Z.add_comm.
Qed.

(** A snapshot lists, for every aggregate, the children of all shards, in
    the order of the shards and of their reports; its usage is the sum of
    the two priorities' estimates; but the generations reported are those of
    the first shard only: a host of another shard is never seen. *)
Theorem CollectSnapshot_spec template samplers_ selectors shard shards :
  length samplers_ = length template -> length selectors = length template ->
  Forall (fun s => valid_infos template (infos s)) (shard :: shards) ->
  exists res, CollectSnapshot template samplers_ (shard :: shards) selectors = Some res /\
    length res = length template /\
    forall i a, res !! i = Some a ->
      fa_agg_id a = Z.of_nat i /\
      fa_children a = concat (map (fun s => children_of i (infos s)) (shard :: shards)) /\
      fa_info_gen a = gens shard /\
      ewma_usage_bps (fa_parent a) =
        i64 (ewma_hipri_usage_bps (fa_parent a) + ewma_lopri_usage_bps (fa_parent a)) /\
      predicted_demand_bps (fa_parent a) = ewma_usage_bps (fa_parent a).
Proof.
  intros Hs Hsel Hv. unfold CollectSnapshot.
  assert (Hparts : exists parts, mapM (fun s => Aggregate template samplers_ s selectors) (shard :: shards) =
    Some parts /\ Forall2 (fun s p => length (fst p) = length template /\ forall i, (i < length template)%nat ->
      fst p !! i = Some (mkFastAggInfo empty_info (children_of i (infos s)) (gens s) (Z.of_nat i)))
      (shard :: shards) parts).
  { clear -Hs Hsel Hv. induction Hv as [|s l Hvs _ IH]; [by exists []|].
    destruct IH as (parts & E & HF). cbn [mapM].
    destruct (Aggregate_spec template samplers_ selectors Hs Hsel s Hvs) as (agg & vol & Ea & Hl & Hi).
    cbn [mbind option_bind]. rewrite Ea. cbn [mbind option_bind]. unfold mapM in *. rewrite E.
    cbn. eexists. split; [done|]. constructor; [done|exact HF]. }
  destruct Hparts as (parts & -> & HF). cbn [mbind option_bind].
  destruct parts as [|[first vol] parts]; [by apply Forall2_nil_inv_r in HF|]. cbn [head mbind option_bind].
  pose proof HF as HF'. apply Forall2_cons in HF' as [[Hlen Hfirst] _]. cbn [fst] in Hlen, Hfirst.
  eexists. split; [done|]. split; [by rewrite length_imap|].
  intros i a Ha. rewrite list_lookup_imap in Ha.
  destruct (first !! i) as [fi|] eqn:Ef; [|done]. cbn [fmap option_fmap option_map] in Ha. injection Ha as <-.
  assert (Hi : (i < length template)%nat) by (rewrite <- Hlen; by eapply lookup_lt_Some).
  rewrite Hfirst in Ef by done. injection Ef as <-. unfold combine_agg.
  cbn [fa_agg_id fa_children fa_info_gen fa_parent set_usage ewma_usage_bps ewma_hipri_usage_bps
    ewma_lopri_usage_bps predicted_demand_bps]. split_and!; try done.
  - f_equal. clear -HF Hi. induction HF as [|s p l ps [_ Hp] _ IH]; [done|]. cbn [map]. f_equal; [|exact IH].
    by rewrite Hp.
  - rewrite !foldl_i64_add by done. rewrite !Z.add_0_l, i64_add_both.
    set (pp := (first, vol) :: parts). clearbody pp. clear. rewrite <- zsum_i64, map_map.
    rewrite (map_ext _ (fun p => i64 ((fun p => match snd p !! i with Some v => double_to_i64 (est_hipri v) | None => 0 end +
      match snd p !! i with Some v => double_to_i64 (est_lopri v) | None => 0 end) p)));
      [|intros p; apply i64_i64].
    rewrite <- map_map, zsum_i64. f_equal. induction pp as [|p pp IH]; [done|].
    cbn [map]. rewrite !zsum_cons, IH. lia.
Qed.

Lemma CollectSnapshot_spec_witness :
  let t := mkFastAggInfo empty_info [] [] 0 in
  let smp := new_ThresholdSampler (dofZ 10) (dofZ 100) in
  exists a, CollectSnapshot [t] [smp]
      [mkInfoShard [mkHostInfoGen 16 3] [mkInfo 0 16 100 false];
       mkInfoShard [mkHostInfoGen 17 4] [mkInfo 0 17 50 true]] [new_HashRing] = Some [a] /\
    fa_children a = [mkChild 16 100 false; mkChild 17 50 true] /\
    fa_info_gen a = [mkHostInfoGen 16 3].
Proof.
  cbv zeta.
  destruct (CollectSnapshot_spec [mkFastAggInfo empty_info [] [] 0]
    [new_ThresholdSampler (dofZ 10) (dofZ 100)] [new_HashRing]
    (mkInfoShard [mkHostInfoGen 16 3] [mkInfo 0 16 100 false])
    [mkInfoShard [mkHostInfoGen 17 4] [mkInfo 0 17 50 true]]) as (res & Hr & Hl & Hspec).
  - reflexivity.
  - reflexivity.
  - repeat constructor; cbn; lia.
  - destruct res as [|a [|]]; [discriminate Hl| |discriminate Hl]. exists a. split; [exact Hr|].
    destruct (Hspec 0%nat a eq_refl) as (_ & Hc & Hg & _). split; [exact Hc|exact Hg].
Defined.
