(* ===== verification/FastController.v ===== *)
(** * FastController: downgrade by hashing for many hosts

    src/heyp/cluster-agent/fast-controller.{h,cc}.  The states of the hosts
    are in a map with sequential ids, used through the interface
    [IndexedMap]; [host2par_] is the controller's own copy of its ids.  The
    tasks of a step touch different aggregates and run here in the order of
    the aggregates.  A callback is its listener id.  A failed check is
    [None]. *)

From S2P Require Import Prelude Doubles FlowMarker ParMap Clock Views.
From S2P Require Import HashRing RateLimits Selectors Allocators FastAggregator.

(** ** Configuration *)

Record AggConfig := mkAggIds {
  flow2id : gmap FlowMarker Z;
  id2flow : list FlowMarker;
  approval_bps : list Z }.

Definition MakeAggConfig (b : AllocBundle) : AggConfig :=
  foldl (fun c a =>
    mkAggIds (<[cluster_key (alloc_flow a) := Z.of_nat (length (id2flow c))]> (flow2id c))
      (id2flow c ++ [ToClusterFlow (alloc_flow a)]) (approval_bps c ++ [hipri_rate_limit_bps a]))
    (mkAggIds ∅ [] []) (flow_allocs b).

(** ** State *)

Record FastAggState := mkFastAggState {
  f_downgrade_frac : double;
  f_ewma_max_child_usage : double;
  f_frac_controller : option DowngradeFracController }.

Record ChildState := mkChildState {
  agg_is_lopri : list bool;
  lis_new_bundle_funcs : gset Z;
  gen_seen : Z;
  broadcasted_latest_state : bool;
  saw_data_this_run : bool }.

Definition new_ChildState : ChildState := mkChildState [] ∅ 0 false false.

Definition key_le (a b : Z * ParID) : Prop := fst a <= fst b.
#[export] Instance key_le_dec a b : Decision (key_le a b).
Proof. unfold key_le. apply _. Defined.

Section FastClusterController.
Context {M : Type} `{!IndexedMap Z ChildState M}.

Record FastClusterController := mkFastController {
  agg_flow2id_ : gmap FlowMarker Z;
  agg_id2flow_ : list FlowMarker;
  approval_bps_ : list Z;
  template_agg_info_ : list FastAggInfo;
  fast_samplers_ : list ThresholdSampler;
  agg_states_ : list FastAggState;
  agg_selectors_ : list HashRing;
  fast_next_lis_id_ : Z;
  child_states_ : M;
  host2par_ : gmap Z ParID;
  new_host_id_pairs_ : list (Z * ParID) }.

(** [None]: an assertion of [ComputeTemplateAggInfo] fails. *)
Definition FastClusterController_Create (target_num_samples : Z)
    (controller : option DowngradeFracController) (b : AllocBundle) : option FastClusterController :=
  let c := MakeAggConfig b in
  template ← ComputeTemplateAggInfo (flow2id c);
  Some (mkFastController (flow2id c) (id2flow c) (approval_bps c) template
          (map (fun a => new_ThresholdSampler (dofZ target_num_samples) (dofZ a)) (approval_bps c))
          (map (fun _ => mkFastAggState d0 (dneg d1) controller) (approval_bps c))
          (map (fun _ => new_HashRing) (approval_bps c)) 1 im_new ∅ []).

Definition with_states (c : FastClusterController) (m : M) : FastClusterController :=
  mkFastController (agg_flow2id_ c) (agg_id2flow_ c) (approval_bps_ c) (template_agg_info_ c)
    (fast_samplers_ c) (agg_states_ c) (agg_selectors_ c) (fast_next_lis_id_ c) m (host2par_ c)
    (new_host_id_pairs_ c).

Definition with_agg (c : FastClusterController) (i : nat) (st : FastAggState) (r : HashRing)
    : FastClusterController :=
  mkFastController (agg_flow2id_ c) (agg_id2flow_ c) (approval_bps_ c) (template_agg_info_ c)
    (fast_samplers_ c) (<[i := st]> (agg_states_ c)) (<[i := r]> (agg_selectors_ c))
    (fast_next_lis_id_ c) (child_states_ c) (host2par_ c) (new_host_id_pairs_ c).

(** ** Listeners *)

Record FastListener := mkFastListener { fl_host_par_id_ : ParID; fl_lis_id_ : Z }.

Definition add_listener (id : Z) (s : ChildState) : ChildState :=
  mkChildState (agg_is_lopri s) ({[id]} ∪ lis_new_bundle_funcs s) (gen_seen s)
    (broadcasted_latest_state s) (saw_data_this_run s).

Definition Fast_RegisterListener (c : FastClusterController) (host_id : Z)
    : option (FastClusterController * FastListener) :=
  '(m, (par, just_created)) ← im_GetID (child_states_ c) host_id;
  let pairs := if (just_created : bool) then new_host_id_pairs_ c ++ [(host_id, par)]
               else new_host_id_pairs_ c in
  let lis_id := fast_next_lis_id_ c in
  m ← im_OnID m par (fun s => Some (add_listener lis_id s));
  Some (mkFastController (agg_flow2id_ c) (agg_id2flow_ c) (approval_bps_ c)
          (template_agg_info_ c) (fast_samplers_ c) (agg_states_ c) (agg_selectors_ c)
          (u64 (lis_id + 1)) m (host2par_ c) pairs,
        mkFastListener par lis_id).

Definition Fast_destroy_Listener (c : FastClusterController) (l : FastListener)
    : option FastClusterController :=
  m ← im_OnID (child_states_ c) (fl_host_par_id_ l) (fun s =>
    if bool_decide (fl_lis_id_ l ∈ lis_new_bundle_funcs s) then
      Some (mkChildState (agg_is_lopri s) (lis_new_bundle_funcs s ∖ {[fl_lis_id_ l]}) (gen_seen s)
              (broadcasted_latest_state s) (saw_data_this_run s))
    else None);
  Some (with_states c m).

(** ** Selecting hosts by id *)

(** The map in the order of its keys. *)
Definition sorted_entries (id2par : gmap Z ParID) : list (Z * ParID) :=
  merge_sort key_le (map_to_list id2par).

(** The calls of [func], in order. *)
Definition ForEachSelected (id2par : gmap Z ParID) (ids : UnorderedIds) : list (Z * ParID) :=
  concat (map (fun r => filter (fun p => lo r <= fst p /\ fst p <= hi r) (sorted_entries id2par))
    (HashRing.ranges ids)) ++
  omap (fun p => par ← id2par !! p; Some (p, par)) (points ids).

(** ** Steps of a run *)

Definition SetAggIsLOPRI (agg_id : nat) (is_lopri : bool) (l : list bool) : list bool :=
  let l := if (length l <=? agg_id)%nat
           then l ++ replicate (agg_id + 1 - length l) false else l in
  <[agg_id := is_lopri]> l.

Definition set_agg (agg_id : nat) (is_lopri : bool) (s : ChildState) : ChildState :=
  mkChildState (SetAggIsLOPRI agg_id is_lopri (agg_is_lopri s)) (lis_new_bundle_funcs s)
    (gen_seen s) false (saw_data_this_run s).

Definition saw_gen (g : Z) (s : ChildState) : ChildState :=
  mkChildState (agg_is_lopri s) (lis_new_bundle_funcs s) (Z.max g (gen_seen s))
    (broadcasted_latest_state s) true.

Definition reset_saw (s : ChildState) : ChildState :=
  mkChildState (agg_is_lopri s) (lis_new_bundle_funcs s) (gen_seen s)
    (broadcasted_latest_state s) false.

(** Apply a function to the state of each id, in order. *)
Fixpoint on_ids (m : M) (ids : list ParID) (f : ChildState -> ChildState) : option M :=
  match ids with
  | [] => Some m
  | id :: ids => m ← im_OnID m id (fun s => Some (f s)); on_ids m ids f
  end.

(** Step 2.1: the fraction to downgrade. *)
Definition fast_frac (info : FastAggInfo) (hipri_admission : Z) (st : FastAggState)
    : option (FastAggState * double) :=
  let p := fa_parent info in
  match f_frac_controller st with
  | Some controller =>
      let m := foldl (fun m c => if dgt (dofZ (volume_bps c)) m then dofZ (volume_bps c) else m)
                 d0 (fa_children info) in
      let e := f_ewma_max_child_usage st in
      let e := if dlt e d0 then m else dadd (dmul kEwmaWeight m) (dmul (dsub d1 kEwmaWeight) e) in
      inc ← (if ewma_usage_bps p <? hipri_admission then Some (dneg (dlit 2 10))
             else TrafficFracToDowngrade controller (dofZ (ewma_hipri_usage_bps p))
                    (dofZ (ewma_lopri_usage_bps p)) (dofZ hipri_admission) e);
      let f := ClampFracLOPRISilent (dadd (f_downgrade_frac st) inc) in
      Some (mkFastAggState f e (f_frac_controller st), f)
  | None =>
      let lopri_bps := Z.max 0 (i64 (ewma_usage_bps p - hipri_admission)) in
      Some (st, ClampFracLOPRI (ddiv (dofZ lopri_bps) (dofZ (ewma_usage_bps p))))
  end.

(** Step 2.3: the hosts heard from. *)
Fixpoint record_gens (m : M) (host2par : gmap Z ParID) (l : list HostInfoGen) : option M :=
  match l with
  | [] => Some m
  | hg :: l =>
      m ← match host2par !! hg_host_id hg with
          | Some par => im_OnID m par (fun s => Some (saw_gen (hg_gen hg) s))
          | None => Some m
          end;
      record_gens m host2par l
  end.

(** Step 2 for one aggregate: the controller and the ids to contact. *)
Definition update_fast_agg (c : FastClusterController) (agg_id : nat) (info : FastAggInfo)
    : option (FastClusterController * list ParID) :=
  adm ← approval_bps_ c !! agg_id;
  st ← agg_states_ c !! agg_id;
  ring ← agg_selectors_ c !! agg_id;
  '(st, frac_lopri) ← fast_frac info adm st;
  let '(ring, downgrade_diff) := Hashing_PickChildren ring frac_lopri in
  m ← record_gens (child_states_ c) (host2par_ c) (fa_info_gen info);
  let down := map snd (ForEachSelected (host2par_ c) (to_downgrade downgrade_diff)) in
  m ← on_ids m down (set_agg agg_id true);
  let up := map snd (ForEachSelected (host2par_ c) (to_upgrade downgrade_diff)) in
  m ← on_ids m up (set_agg agg_id false);
  Some (with_states (with_agg c agg_id st ring) m, down ++ up).

Fixpoint update_fast_aggs (c : FastClusterController) (agg_id : nat) (l : list FastAggInfo)
    : option (FastClusterController * list (list ParID)) :=
  match l with
  | [] => Some (c, [])
  | info :: l =>
      '(c, ids) ← update_fast_agg c agg_id info;
      '(c, rest) ← update_fast_aggs c (S agg_id) l;
      Some (c, ids :: rest)
  end.

(** ** Broadcast *)

Definition kMaxChildBandwidthBps : Z := 100 * Z.shiftl 1 30.

(** The bundle sent to a host. *)
Definition broadcast_bundle (id2flow : list FlowMarker) (s : ChildState) : AllocBundle :=
  mkAllocBundle
    (imap (fun i f => if default false (agg_is_lopri s !! i)
                      then mkFlowAlloc f 0 kMaxChildBandwidthBps
                      else mkFlowAlloc f kMaxChildBandwidthBps 0) id2flow)
    (if saw_data_this_run s then gen_seen s else 0).

(** The state after the calls, and the calls; [None]: the check on the
    number of aggregates fails. *)
Definition BroadcastStateUnconditional (id2flow : list FlowMarker) (s : ChildState)
    : option (list (Z * AllocBundle)) :=
  if (length (agg_is_lopri s) <=? length id2flow)%nat
  then Some (map (fun l => (l, broadcast_bundle id2flow s)) (elements (lis_new_bundle_funcs s)))
  else None.

Definition BroadcastStateIfUpdated (id2flow : list FlowMarker) (s : ChildState)
    : option (ChildState * list (Z * AllocBundle)) :=
  if broadcasted_latest_state s then Some (s, [])
  else
    calls ← BroadcastStateUnconditional id2flow s;
    Some (mkChildState (agg_is_lopri s) (lis_new_bundle_funcs s) (gen_seen s) true
            (saw_data_this_run s), calls).

(** The state of one id. *)
Definition child_at (m : M) (id : ParID) : option ChildState :=
  l ← im_ForEach m id (id + 1); snd <$> head l.

(** Step 3 over the ids; the calls are read off the state of each host. *)
Fixpoint broadcast_ids (id2flow : list FlowMarker) (m : M) (ids : list ParID)
    : option (M * list (Z * AllocBundle)) :=
  match ids with
  | [] => Some (m, [])
  | id :: ids =>
      s ← child_at m id;
      '(_, calls) ← BroadcastStateIfUpdated id2flow s;
      m ← im_OnID m id (fun s => fst <$> BroadcastStateIfUpdated id2flow s);
      '(m, rest) ← broadcast_ids id2flow m ids;
      Some (m, calls ++ rest)
  end.

(** ** A run *)

Definition catch_up_ids (c : FastClusterController) : FastClusterController :=
  mkFastController (agg_flow2id_ c) (agg_id2flow_ c) (approval_bps_ c) (template_agg_info_ c)
    (fast_samplers_ c) (agg_states_ c) (agg_selectors_ c) (fast_next_lis_id_ c) (child_states_ c)
    (foldl (fun m p => <[fst p := snd p]> m) (host2par_ c) (new_host_id_pairs_ c)) [].

Definition heard_from (host2par : gmap Z ParID) (l : list HostInfoGen) : list ParID :=
  omap (fun hg => host2par !! hg_host_id hg) l.

(** [shards]: what the tasks of [CollectSnapshot] swapped out. *)
Definition Fast_ComputeAndBroadcast (c : FastClusterController) (shards : list InfoShard)
    : option (FastClusterController * list (Z * AllocBundle)) :=
  snap_infos ← CollectSnapshot (template_agg_info_ c) (fast_samplers_ c) shards (agg_selectors_ c);
  let c := catch_up_ids c in
  '(c, par_ids_to_bcast) ← update_fast_aggs c 0 snap_infos;
  '(m, calls) ← broadcast_ids (agg_id2flow_ c) (child_states_ c) (concat par_ids_to_bcast);
  m ← on_ids m (concat (map (fun info => heard_from (host2par_ c) (fa_info_gen info)) snap_infos))
        reset_saw;
  Some (with_states c m, calls).
End FastClusterController.

(** ** Creating the controller: lemmas and claim *)

Definition alloc_key (a : FlowAlloc) : FlowMarker := cluster_key (alloc_flow a).

Lemma size_list_to_set_le {K} `{Countable K} (l : list K) :
  (size (list_to_set l : gset K) <= length l)%nat /\
  (size (list_to_set l : gset K) = length l -> NoDup l).
Proof.
  induction l as [|x l [IH1 IH2]]; [split; [done|constructor]|]. cbn [list_to_set length].
  destruct (decide (x ∈ (list_to_set l : gset K))) as [Hin|Hni].
  - replace ({[x]} ∪ list_to_set l : gset K) with (list_to_set l : gset K) by set_solver. lia.
  - rewrite size_union by set_solver. rewrite size_singleton. split; [lia|]. intros E.
    constructor; [by rewrite elem_of_list_to_set in Hni|apply IH2; lia].
Qed.

Record agg_config_ok (l : list FlowAlloc) (c : AggConfig) : Prop := {
  ac_dom : dom (flow2id c) = list_to_set (map alloc_key l);
  ac_flows : id2flow c = map (fun a => ToClusterFlow (alloc_flow a)) l;
  ac_approvals : approval_bps c = map hipri_rate_limit_bps l;
  ac_ids : forall k i, flow2id c !! k = Some i ->
    0 <= i < Z.of_nat (length l) /\ alloc_key <$> l !! Z.to_nat i = Some k;
  ac_last : forall a, last l = Some a -> flow2id c !! alloc_key a = Some (Z.of_nat (length l) - 1) }.

Lemma MakeAggConfig_ok b : agg_config_ok (flow_allocs b) (MakeAggConfig b).
Proof.
  unfold MakeAggConfig. induction (flow_allocs b) as [|a l IH] using rev_ind.
  - split; cbn; try done.
  - rewrite foldl_app. cbn [foldl]. destruct IH as [Hd Hf Ha Hi Hl].
    set (c := foldl _ _ l) in *. split; cbn [flow2id id2flow approval_bps].
    + rewrite dom_insert_L, Hd, map_app, list_to_set_app_L. cbn [map list_to_set].
      fold (alloc_key a). set_solver.
    + by rewrite Hf, map_app.
    + by rewrite Ha, map_app.
    + intros k i. rewrite Hf, length_map, length_app. cbn [length].
      intros [[<- <-]|[_ Hk]]%lookup_insert_Some.
      * rewrite Nat2Z.id, lookup_app_r, Nat.sub_diag by lia. cbn. split; [lia|done].
      * destruct (Hi k i Hk) as [Hr Hl0]. split; [lia|]. rewrite lookup_app_l by lia. exact Hl0.
    + intros a0. rewrite last_snoc. intros [= <-]. rewrite lookup_insert_eq, Hf, length_map, length_app.
      cbn [length]. f_equal. lia.
Qed.

Definition put_template (n : Z) (o : option (list FastAggInfo)) (p : FlowMarker * Z)
    : option (list FastAggInfo) :=
  infos ← o;
  let '(m, id) := p in
  if id <? n
  then Some (<[Z.to_nat id := mkFastAggInfo (mkFlowInfo m 0 0 0 0 0 0 0 false None) [] [] id]> infos)
  else None.

Lemma put_template_none n l : foldl (put_template n) None l = None.
Proof. induction l as [|p l IH]; [done|exact IH]. Qed.

Lemma put_template_large n m id l : forall o, (m, id) ∈ l -> n <= id -> foldl (put_template n) o l = None.
Proof.
  induction l as [|p l IH]; intros o Hin Hid; [by apply elem_of_nil in Hin|]. cbn [foldl].
  apply elem_of_cons in Hin as [<-|Hin]; [|by apply IH].
  destruct o as [is0|]; cbn; rewrite ?(proj2 (Z.ltb_ge _ _)) by done; apply put_template_none.
Qed.

Lemma put_template_all n l : forall is0,
  (forall m id, (m, id) ∈ l -> 0 <= id < n) -> Z.of_nat (length is0) = n ->
  exists is1, foldl (put_template n) (Some is0) l = Some is1 /\ length is1 = length is0 /\
    forall i, (i < length is0)%nat ->
      (exists m, (m, Z.of_nat i) ∈ l) \/ fa_agg_id <$> is0 !! i = Some (Z.of_nat i) ->
      fa_agg_id <$> is1 !! i = Some (Z.of_nat i).
Proof.
  induction l as [|[m id] l IH]; intros is0 Hall Hlen.
  - exists is0. split_and!; try done. intros i Hi [[m Hm]|?]; [by apply elem_of_nil in Hm|done].
  - cbn [foldl put_template mbind option_bind].
    assert (Hid : 0 <= id < n) by (apply (Hall m); left). rewrite (proj2 (Z.ltb_lt _ _)) by lia.
    set (is1 := <[_ := _]> is0). destruct (IH is1) as (is2 & -> & Hl2 & H2).
    { intros m' id' Hin. apply (Hall m'). by right. }
    { unfold is1. by rewrite length_insert. }
    exists is2. unfold is1 in *. rewrite length_insert in *. split_and!; try done.
    intros i Hi Hcase. apply H2; [done|]. destruct (decide (i = Z.to_nat id)) as [->|Hne].
    + right. rewrite list_lookup_insert_eq by done. cbn. f_equal. lia.
    + rewrite list_lookup_insert_ne by done. destruct Hcase as [[m' [E|Hin]%elem_of_cons]|?]; [|by left; exists m'|by right].
      injection E as -> E. lia.
Qed.

Lemma ComputeTemplateAggInfo_put f2i :
  ComputeTemplateAggInfo f2i =
  infos ← foldl (put_template (Z.of_nat (size f2i)))
            (Some (replicate (size f2i) (mkFastAggInfo empty_info [] [] (-1)))) (map_to_list f2i);
  if bool_decide (map fa_agg_id infos = map Z.of_nat (seq 0 (size f2i))) then Some infos else None.
Proof. done. Qed.

(** The fast controller can be created exactly when no two cluster-wide
    allocations are of the same FG: with a repeated FG the assertions on the
    ids of the aggregates stop the process. *)
Theorem FastClusterController_Create_iff {M} `{!IndexedMap Z ChildState M} target controller b :
  is_Some (FastClusterController_Create (M := M) target controller b) <->
  NoDup (map (fun a => cluster_key (alloc_flow a)) (flow_allocs b)).
Proof.
  pose proof (MakeAggConfig_ok b) as [Hd Hf Ha Hi Hl].
  change (map (fun a => cluster_key (alloc_flow a)) (flow_allocs b)) with (map alloc_key (flow_allocs b)).
  assert (Hsize : size (flow2id (MakeAggConfig b)) =
                  size (list_to_set (map alloc_key (flow_allocs b)) : gset FlowMarker))
    by (by rewrite <- Hd, size_dom).
  destruct (size_list_to_set_le (map alloc_key (flow_allocs b))) as [Hle Hnd].
  rewrite <- Hsize, length_map in *.
  unfold FastClusterController_Create. rewrite ComputeTemplateAggInfo_put.
  set (f2i := flow2id (MakeAggConfig b)) in *. set (n := size f2i) in *.
  split.
  - intros [c Hc]. apply Hnd. destruct (decide (n = length (flow_allocs b))) as [|Hne]; [done|exfalso].
    destruct (last (flow_allocs b)) as [a|] eqn:Elast.
    + specialize (Hl a eq_refl). apply elem_of_map_to_list in Hl.
      rewrite (put_template_large (Z.of_nat n) _ _ _ _ Hl) in Hc by lia. done.
    + apply last_None in Elast. rewrite Elast in Hle, Hne. cbn in *. lia.
  - intros Hnodup. assert (Hn : n = length (flow_allocs b)).
    { rewrite Hsize, size_list_to_set by done. by rewrite length_map. }
    destruct (put_template_all (Z.of_nat n) (map_to_list f2i)
      (replicate n (mkFastAggInfo empty_info [] [] (-1)))) as (is1 & -> & Hl1 & H1).
    { intros m id Hin%elem_of_map_to_list. destruct (Hi m id Hin) as [? _]. lia. }
    { by rewrite length_replicate. }
    cbn [mbind option_bind]. rewrite length_replicate in *. rewrite bool_decide_eq_true_2; [by eexists|].
    apply list_eq. intros i. destruct (decide (i < n)%nat) as [Hlt|Hge].
    + rewrite (list_lookup_fmap Z.of_nat), lookup_seq_lt by done. cbn [fmap option_fmap option_map].
      rewrite list_lookup_fmap. apply H1; [done|]. left.
      destruct (lookup_lt_is_Some_2 (flow_allocs b) i) as [a Hai]; [lia|]. exists (alloc_key a).
      apply elem_of_map_to_list. assert (Hin : alloc_key a ∈ dom f2i).
      { rewrite Hd. apply elem_of_list_to_set, list_elem_of_fmap_2. by eapply list_elem_of_lookup_2. }
      apply elem_of_dom in Hin as [j Hj]. destruct (Hi _ _ Hj) as [Hr Hk].
      assert (Z.to_nat j = i) as <-.
      { eapply (NoDup_lookup (map alloc_key (flow_allocs b))); [done| |].
        - rewrite list_lookup_fmap. exact Hk.
        - by rewrite list_lookup_fmap, Hai. }
      rewrite Hj. f_equal. lia.
    + rewrite !lookup_ge_None_2; [done| |]; rewrite length_map, ?length_seq; lia.
Qed.

(** ** The hosts follow the ring *)

(** The priority a host has been given for an aggregate. *)
Definition flag (agg_id : nat) (s : ChildState) : bool := default false (agg_is_lopri s !! agg_id).

Lemma SetAggIsLOPRI_lookup a b l a' :
  default false (SetAggIsLOPRI a b l !! a') = if decide (a' = a) then b else default false (l !! a').
Proof.
  unfold SetAggIsLOPRI. set (l' := if (length l <=? a)%nat then _ else _).
  assert (Hl : (a < length l')%nat /\ forall i, default false (l' !! i) = default false (l !! i)).
  { unfold l'. destruct (length l <=? a)%nat eqn:E; [|split; [by apply Nat.leb_gt|done]].
    apply Nat.leb_le in E. rewrite length_app, length_replicate. split; [lia|]. intros i.
    destruct (decide (i < length l)%nat); [by rewrite lookup_app_l|].
    rewrite lookup_app_r, (lookup_ge_None_2 l) by lia.
    destruct (replicate _ _ !! _) eqn:Er; [|done]. by apply lookup_replicate in Er as [-> _]. }
  destruct Hl as [Hl He]. destruct (decide (a' = a)) as [->|Hne].
  - by rewrite list_lookup_insert_eq.
  - rewrite list_lookup_insert_ne by done. apply He.
Qed.

Lemma flag_set_agg a b s a' :
  flag a' (set_agg a b s) = if decide (a' = a) then b else flag a' s.
Proof. apply SetAggIsLOPRI_lookup. Qed.

Lemma elem_of_ForEachSelected id2par ids h p :
  (h, p) ∈ ForEachSelected id2par ids <-> id2par !! h = Some p /\ in_ids ids h = true.
Proof.
  unfold ForEachSelected, in_ids, IdRange_Contains.
  rewrite elem_of_app, list_elem_of_omap, orb_true_iff, bool_decide_eq_true, existsb_exists.
  assert (Hr : (h, p) ∈ concat (map (fun r => filter (fun q : Z * ParID => lo r <= fst q /\ fst q <= hi r)
                  (sorted_entries id2par)) (HashRing.ranges ids)) <->
    id2par !! h = Some p /\ exists r, In r (HashRing.ranges ids) /\ (lo r <=? h) && (h <=? hi r) = true).
  { rewrite list_elem_of_In, in_concat. split.
    - intros (l & Hl & Hin). apply in_map_iff in Hl as (r & <- & Hr).
      apply list_elem_of_In, list_elem_of_filter in Hin as [Hlh Hin]. cbn in Hlh.
      unfold sorted_entries in Hin. rewrite merge_sort_Permutation, elem_of_map_to_list in Hin.
      split; [done|]. exists r. split; [done|]. rewrite andb_true_iff, !Z.leb_le. done.
    - intros [Hh (r & Hr & Hlh)]. rewrite andb_true_iff, !Z.leb_le in Hlh.
      eexists. split; [by apply in_map|]. apply list_elem_of_In, list_elem_of_filter.
      split; [done|]. unfold sorted_entries. by rewrite merge_sort_Permutation, elem_of_map_to_list. }
  rewrite Hr. split.
  - intros [[Hh He]|(x & Hx & Hp)]; [by auto|].
    destruct (id2par !! x) eqn:Ex; cbn in Hp; [|done]. injection Hp as -> ->. by auto.
  - intros [Hh [He|Hp]]; [by auto|]. right. exists h. split; [done|]. by rewrite Hh.
Qed.

Lemma elem_of_selected_ids id2par ids p :
  p ∈ map snd (ForEachSelected id2par ids) <-> exists h, id2par !! h = Some p /\ in_ids ids h = true.
Proof.
  rewrite list_elem_of_fmap. split.
  - intros ([h q] & -> & Hin). exists h. by apply elem_of_ForEachSelected.
  - intros (h & Hin). exists (h, p). split; [done|]. by apply elem_of_ForEachSelected.
Qed.

Section Follow.
Context {M : Type} `{!IndexedMap Z ChildState M} {limit : Z}
  `{!IndexedMapLaws Z ChildState M new_ChildState limit}.

(** The state of the host with an id. *)
Definition state_of (m : M) (p : ParID) : option ChildState := im_contents m !! Z.to_nat p.

Lemma state_of_known m h p : im_ok m -> im_ids m !! h = Some p -> is_Some (state_of m p).
Proof.
  intros Hok Hp. pose proof (im_ids_range m h p Hok Hp) as Hr. rewrite im_num in Hr by done.
  apply lookup_lt_is_Some_2. lia.
Qed.

(** Steps on one id after the other keep a relation between the states. *)
Record evolves (R : ChildState -> ChildState -> Prop) (m m' : M) : Prop := {
  ev_ok : im_ok m';
  ev_ids : im_ids m' = im_ids m;
  ev_state : forall p s, 0 <= p -> state_of m p = Some s -> exists s', state_of m' p = Some s' /\ R s s' }.

Lemma OnID_at m h p s s' f :
  im_ok m -> im_ids m !! h = Some p -> state_of m p = Some s -> f s = Some s' ->
  exists m', im_OnID m p f = Some m' /\ im_ok m' /\ im_ids m' = im_ids m /\
    forall q, 0 <= q -> state_of m' q = if decide (q = p) then Some s' else state_of m q.
Proof.
  intros Hok Hp Hs Hf. pose proof (im_ids_range m h p Hok Hp) as Hr.
  pose proof (im_OnID_spec m p s f Hok ltac:(lia) Hs) as Hspec. rewrite Hf in Hspec.
  destruct Hspec as (m' & Hm & Hok' & Hc & Hi).
  assert (Hlt : (Z.to_nat p < length (im_contents m))%nat) by by eapply lookup_lt_Some.
  exists m'. split_and!; try done. intros q Hq. unfold state_of in *. rewrite Hc.
  destruct (decide (q = p)) as [->|Hne].
  - by rewrite list_lookup_insert_eq.
  - rewrite list_lookup_insert_ne; [done|lia].
Qed.

Lemma OnID_step m h p f :
  im_ok m -> im_ids m !! h = Some p ->
  exists m', im_OnID m p (fun s => Some (f s)) = Some m' /\ im_ok m' /\ im_ids m' = im_ids m /\
    forall q, 0 <= q -> state_of m' q = if decide (q = p) then f <$> state_of m q else state_of m q.
Proof.
  intros Hok Hp. destruct (state_of_known m h p Hok Hp) as [s Hs].
  destruct (OnID_at m h p s (f s) (fun s => Some (f s)) Hok Hp Hs eq_refl) as (m' & ? & ? & ? & Hq).
  exists m'. split_and!; try done. intros q Hq0. rewrite Hq by done. case_decide; [subst; by rewrite Hs|done].
Qed.

Lemma OnID_evolves R m h p f :
  im_ok m -> im_ids m !! h = Some p -> (forall s, R s s) -> (forall s, R s (f s)) ->
  exists m', im_OnID m p (fun s => Some (f s)) = Some m' /\ evolves R m m' /\
    forall q, 0 <= q -> state_of m' q = if decide (q = p) then f <$> state_of m q else state_of m q.
Proof.
  intros Hok Hp Hrefl HR. destruct (OnID_step m h p f Hok Hp) as (m' & Hm & Hok' & Hi & Hq).
  exists m'. split; [done|]. split; [split; [done..|]|done]. intros q s Hq0 Hs. rewrite Hq, Hs by done.
  case_decide; cbn; eauto.
Qed.

Lemma evolves_refl (R : ChildState -> ChildState -> Prop) m :
  im_ok m -> (forall s, R s s) -> evolves R m m.
Proof. intros. split; [done..|]. by eauto. Qed.

Lemma evolves_trans (R : ChildState -> ChildState -> Prop) m1 m2 m3 :
  (forall a b c, R a b -> R b c -> R a c) -> evolves R m1 m2 -> evolves R m2 m3 -> evolves R m1 m3.
Proof.
  intros HT [_ I1 S1] [O2 I2 S2]. split; [done|congruence|]. intros p s Hp Hs.
  destruct (S1 p s Hp Hs) as (s2 & Hs2 & R12). destruct (S2 p s2 Hp Hs2) as (s3 & Hs3 & R23). by eauto.
Qed.

(** What recording a generation leaves alone. *)
Definition same_flags (s s' : ChildState) : Prop :=
  agg_is_lopri s' = agg_is_lopri s /\ lis_new_bundle_funcs s' = lis_new_bundle_funcs s /\
  broadcasted_latest_state s' = broadcasted_latest_state s.

Lemma record_gens_evolves h2p l : forall m,
  im_ok m -> h2p ⊆ im_ids m -> exists m', record_gens m h2p l = Some m' /\ evolves same_flags m m'.
Proof.
  induction l as [|hg l IH]; intros m Hok Hsub; cbn [record_gens].
  - exists m. split; [done|]. by apply evolves_refl.
  - destruct (h2p !! hg_host_id hg) as [p|] eqn:Ep; cbn [mbind option_bind].
    + destruct (OnID_evolves same_flags m (hg_host_id hg) p (saw_gen (hg_gen hg)))
        as (m1 & -> & E1 & _); try done; [by eapply lookup_weaken|]. cbn [mbind option_bind].
      destruct (IH m1) as (m2 & -> & E2); [apply E1|by rewrite (ev_ids _ _ _ E1)|].
      exists m2. split; [done|]. eapply evolves_trans; [|done..].
      intros a b c (? & ? & ?) (? & ? & ?). split_and!; congruence.
    + apply IH; done.
Qed.

(** What giving a priority for one aggregate leaves alone. *)
Definition same_others (a : nat) (s s' : ChildState) : Prop :=
  (forall a', a' <> a -> flag a' s' = flag a' s) /\
  lis_new_bundle_funcs s' = lis_new_bundle_funcs s.

Lemma set_agg_same_others a b s : same_others a s (set_agg a b s).
Proof. split; [|done]. intros a' Ha'. rewrite flag_set_agg. by rewrite decide_False. Qed.

Lemma same_others_trans a x y z : same_others a x y -> same_others a y z -> same_others a x z.
Proof. intros [Hx1 Hx2] [Hy1 Hy2]. split; [|congruence]. intros a' Ha'. by rewrite Hy1, Hx1. Qed.

Lemma on_ids_set_agg a b ids : forall m,
  im_ok m -> (forall p, p ∈ ids -> exists h, im_ids m !! h = Some p) ->
  exists m', on_ids m ids (set_agg a b) = Some m' /\ evolves (same_others a) m m' /\
    forall p s s', 0 <= p -> state_of m p = Some s -> state_of m' p = Some s' ->
      if decide (p ∈ ids) then flag a s' = b /\ broadcasted_latest_state s' = false else s' = s.
Proof.
  induction ids as [|p ids IH]; intros m Hok Hids; cbn [on_ids].
  - exists m. split; [done|]. split; [by apply evolves_refl|].
    intros p s s' _ Hs Hs'. rewrite decide_False by apply not_elem_of_nil. congruence.
  - destruct (Hids p) as [h Hh]; [left|].
    destruct (OnID_evolves (same_others a) m h p (set_agg a b)) as (m1 & -> & E1 & Hp1);
      try done; [apply set_agg_same_others|].
    cbn [mbind option_bind]. destruct (IH m1) as (m2 & -> & E2 & H2).
    { apply E1. } { intros q Hq. rewrite (ev_ids _ _ _ E1). apply Hids. by right. }
    exists m2. split; [done|]. split; [eapply evolves_trans; [apply same_others_trans|done..]|].
    intros q s s' Hq Hs Hs'. destruct (ev_state _ _ _ E1 q s Hq Hs) as (s1 & Hs1 & _).
    specialize (H2 q s1 s' Hq Hs1 Hs'). rewrite Hp1, Hs in Hs1 by done.
    destruct (decide (q = p)) as [->|Hne]; injection Hs1 as <-.
    + rewrite decide_True by left. case_decide; [done|]. subst s'. by rewrite flag_set_agg, decide_True.
    + destruct (decide (q ∈ ids)) as [Hin|Hni].
      * rewrite decide_True by by right. done.
      * rewrite decide_False; [done|]. by intros [|]%elem_of_cons.
Qed.

(** The hosts known to the controller: their copied ids are right, and their
    priorities for an aggregate are those the ring gives. *)
Definition known_hosts (c : FastClusterController) : Prop :=
  im_ok (child_states_ c) /\ host2par_ c ⊆ im_ids (child_states_ c) /\
  forall h p, host2par_ c !! h = Some p -> in_u64 h.

Definition follows_ring (c : FastClusterController) (a : nat) : Prop :=
  forall ring h p s, agg_selectors_ c !! a = Some ring -> host2par_ c !! h = Some p ->
    state_of (child_states_ c) p = Some s -> flag a s = IsLOPRI ring h.

Lemma known_id c h p : known_hosts c -> host2par_ c !! h = Some p ->
  0 <= p /\ im_ids (child_states_ c) !! h = Some p.
Proof.
  intros (Hok & Hsub & _) Hp. assert (im_ids (child_states_ c) !! h = Some p) by by eapply lookup_weaken.
  split; [|done]. by eapply im_ids_range.
Qed.

Lemma host_of_id c h h' p : known_hosts c ->
  host2par_ c !! h = Some p -> host2par_ c !! h' = Some p -> h = h'.
Proof.
  intros Hk H1 H2. destruct (known_id c h p Hk H1) as [_ ?]. destruct (known_id c h' p Hk H2) as [_ ?].
  eapply im_ids_inj; [apply Hk|done..].
Qed.

(** Selecting ids, by host. *)
Lemma selected_host c ids h p : known_hosts c -> host2par_ c !! h = Some p ->
  p ∈ map snd (ForEachSelected (host2par_ c) ids) <-> in_ids ids h = true.
Proof.
  intros Hk Hp. rewrite elem_of_selected_ids. split; [|by eauto].
  intros (h' & Hp' & Hin). by rewrite (host_of_id c h h' p).
Qed.

Lemma selected_known c (m : M) ids : known_hosts c -> im_ids m = im_ids (child_states_ c) ->
  forall p, p ∈ map snd (ForEachSelected (host2par_ c) ids) -> exists h, im_ids m !! h = Some p.
Proof.
  intros Hk Hm p (h & Hp & _)%elem_of_selected_ids. exists h. rewrite Hm. by eapply known_id.
Qed.

(** The decision for a host after the ids of a difference are applied. *)
Lemma PickChildren_decision ring frac h :
  ring_ok ring -> ring_ok (UpdateFrac ring frac).1 -> whole_chunks ring frac -> in_u64 h ->
  let '(ring', d) := Hashing_PickChildren ring frac in
  ring' = (UpdateFrac ring frac).1 /\
  IsLOPRI ring' h = (if in_ids (to_upgrade d) h then false
                     else if in_ids (to_downgrade d) h then true else IsLOPRI ring h).
Proof.
  intros Hok Hok' Hch Hh. pose proof (UpdateFrac_exact ring frac h Hok Hok' Hch Hh) as Hex.
  unfold Hashing_PickChildren. destruct (UpdateFrac ring frac) as [ring' d]. cbn [fst snd] in *.
  split; [done|]. change (IsLOPRI ring' h) with (matches ring' h).
  change (IsLOPRI ring h) with (matches ring h).
  destruct (diff_type d); cbn [to_upgrade to_downgrade]; rewrite in_ids_nonempty_ranges, Hex;
    change (in_ids no_ids h) with false; destruct (matches ring h), (RingRanges_Contains (diff d) h); done.
Qed.

(** The steps of an update on the states of the hosts. *)
Lemma apply_diff_states c a info (d : DowngradeDiff) :
  known_hosts c ->
  let down := map snd (ForEachSelected (host2par_ c) (to_downgrade d)) in
  let up := map snd (ForEachSelected (host2par_ c) (to_upgrade d)) in
  exists m1 m2 m3, record_gens (child_states_ c) (host2par_ c) (fa_info_gen info) = Some m1 /\
    on_ids m1 down (set_agg a true) = Some m2 /\ on_ids m2 up (set_agg a false) = Some m3 /\
    evolves (same_others a) (child_states_ c) m3 /\
    forall h p s s', host2par_ c !! h = Some p ->
      state_of (child_states_ c) p = Some s -> state_of m3 p = Some s' ->
      flag a s' = (if in_ids (to_upgrade d) h then false
                   else if in_ids (to_downgrade d) h then true else flag a s) /\
      (p ∈ down ++ up -> broadcasted_latest_state s' = false).
Proof.
  intros Hk down up. pose proof Hk as (Hok & Hsub & _).
  destruct (record_gens_evolves (host2par_ c) (fa_info_gen info) (child_states_ c) Hok Hsub) as (m1 & H1 & E1).
  destruct (on_ids_set_agg a true down m1) as (m2 & H2 & E2 & S2).
  { apply E1. } { apply (selected_known c); [done|by rewrite (ev_ids _ _ _ E1)]. }
  destruct (on_ids_set_agg a false up m2) as (m3 & H3 & E3 & S3).
  { apply E2. } { apply (selected_known c); [done|by rewrite (ev_ids _ _ _ E2), (ev_ids _ _ _ E1)]. }
  exists m1, m2, m3. split_and!; try done.
  - assert (E1' : evolves (same_others a) (child_states_ c) m1).
    { split; try apply E1. intros p s Hp Hs. destruct (ev_state _ _ _ E1 p s Hp Hs) as (s' & ? & Hf & Hl & _).
      exists s'. split; [done|]. split; [|done]. intros a' _. unfold flag. by rewrite Hf. }
    eapply evolves_trans; [apply same_others_trans| |exact E3].
    eapply evolves_trans; [apply same_others_trans|exact E1'|exact E2].
  - intros h p s s3 Hp Hs Hs3. destruct (known_id c h p Hk Hp) as [Hp0 _].
    destruct (ev_state _ _ _ E1 p s Hp0 Hs) as (s1 & Hs1 & Hf1 & _).
    destruct (ev_state _ _ _ E2 p s1 Hp0 Hs1) as (s2 & Hs2 & _).
    specialize (S2 p s1 s2 Hp0 Hs1 Hs2). specialize (S3 p s2 s3 Hp0 Hs2 Hs3).
    pose proof (selected_host c (to_downgrade d) h p Hk Hp) as Hd.
    pose proof (selected_host c (to_upgrade d) h p Hk Hp) as Hu.
    fold down in Hd. fold up in Hu. rewrite elem_of_app, Hd, Hu.
    assert (Hfs : flag a s1 = flag a s) by (unfold flag; by rewrite Hf1).
    destruct (decide (p ∈ down)) as [Hid|Hid], (decide (p ∈ up)) as [Hiu|Hiu];
      rewrite Hd in Hid; rewrite Hu in Hiu; rewrite ?not_true_iff_false in Hid; rewrite ?not_true_iff_false in Hiu;
      rewrite ?Hid, ?Hiu; destruct_and?; subst; (split; [congruence|intuition congruence]).
Qed.


(** A host that registers after the ring came to give it low priority is
    not told: while the fraction stays the same, an update contacts nobody,
    and the host keeps the high priority it starts with although the ring,
    and so the controller's estimate, has it at low priority. *)
Theorem update_fast_agg_late_host_not_told c a info adm st st' ring frac h p s :
  known_hosts c -> host2par_ c !! h = Some p -> state_of (child_states_ c) p = Some s ->
  flag a s = false -> IsLOPRI ring h = true ->
  approval_bps_ c !! a = Some adm -> agg_states_ c !! a = Some st ->
  agg_selectors_ c !! a = Some ring -> fast_frac info adm st = Some (st', frac) ->
  clamp_frac frac = frac_ ring -> deq (frac_ ring) (frac_ ring) = true ->
  dlt (frac_ ring) (frac_ ring) = false ->
  exists c' s', update_fast_agg c a info = Some (c', []) /\ agg_selectors_ c' !! a = Some ring /\
    state_of (child_states_ c') p = Some s' /\ flag a s' = false.
Proof.
  intros Hk Hp Hs Hfl Hl Hadm Hst Hring Hfrac Hcl He Hlt. unfold update_fast_agg.
  rewrite Hadm, Hst, Hring. cbn [mbind option_bind]. rewrite Hfrac. cbn [mbind option_bind].
  assert (Hd : Hashing_PickChildren ring frac = (ring, mkDowngradeDiff no_ids no_ids)).
  { unfold Hashing_PickChildren, UpdateFrac, ComputeRangeDiff, dgt. rewrite Hcl, Hlt, He. by destruct ring. }
  rewrite Hd. destruct (apply_diff_states c a info (mkDowngradeDiff no_ids no_ids) Hk)
    as (m1 & m2 & m3 & H1 & H2 & H3 & E & HS). cbn [to_downgrade to_upgrade] in *.
  rewrite H1. cbn [mbind option_bind]. rewrite H2. cbn [mbind option_bind]. rewrite H3.
  cbn [mbind option_bind].
  destruct (known_id c h p Hk Hp) as [Hp0 _]. destruct (ev_state _ _ _ E p s Hp0 Hs) as (s' & Hs' & _).
  destruct (HS h p s s' Hp Hs Hs') as [Hf' _]. change (in_ids no_ids h) with false in Hf'.
  eexists _, s'. split; [reflexivity|]. cbn. split; [|split; [done|by rewrite Hf']].
  apply list_lookup_insert_eq. by eapply lookup_lt_Some.
Qed.

(** ** Telling the hosts *)

Lemma child_at_state m h p : im_ok m -> im_ids m !! h = Some p -> child_at m p = state_of m p.
Proof.
  intros Hok Hp. pose proof (im_ids_range m h p Hok Hp) as Hr. unfold child_at, state_of.
  rewrite im_ForEach_range by (try done; lia). cbn [mbind option_bind].
  replace (p + 1 - p) with 1 by lia. change (Z.to_nat 1) with 1%nat.
  set (l := imap _ _). assert (Hl : l !! Z.to_nat p = (fun s => (p, s)) <$> im_contents m !! Z.to_nat p).
  { unfold l. rewrite list_lookup_imap. destruct (im_contents m !! _); [|done]. cbn. by rewrite Z2Nat.id by lia. }
  destruct (im_contents m !! Z.to_nat p) as [s|] eqn:Es; cbn in Hl.
  - by rewrite (drop_S _ _ _ Hl).
  - rewrite drop_ge; [done|]. by apply lookup_ge_None.
Qed.

(** Is the state of the id yet to be sent, and the calls that sends it. *)
Definition unsent (m : M) (p : ParID) : Prop :=
  exists s, state_of m p = Some s /\ broadcasted_latest_state s = false.

#[export] Instance unsent_dec m p : Decision (unsent m p).
Proof.
  unfold unsent. destruct (state_of m p) as [s|].
  - destruct (broadcasted_latest_state s) eqn:E; [right|left; by exists s]. intros (s' & [= <-] & ?). congruence.
  - right. by intros (s' & ? & _).
Defined.

Definition calls_for (id2flow : list FlowMarker) (m : M) (p : ParID) : list (Z * AllocBundle) :=
  match state_of m p with
  | Some s => map (fun l => (l, broadcast_bundle id2flow s)) (elements (lis_new_bundle_funcs s))
  | None => []
  end.

Definition due (m : M) (ids : list ParID) : list ParID :=
  filter (unsent m) (remove_dups ids).

Lemma elem_of_due m ids p : p ∈ due m ids <-> unsent m p /\ p ∈ ids.
Proof. unfold due. by rewrite list_elem_of_filter, elem_of_remove_dups. Qed.

Lemma NoDup_due m ids : NoDup (due m ids).
Proof. apply NoDup_filter, NoDup_remove_dups. Qed.

Definition mark_sent (s : ChildState) : ChildState :=
  mkChildState (agg_is_lopri s) (lis_new_bundle_funcs s) (gen_seen s) true (saw_data_this_run s).

Lemma BroadcastStateIfUpdated_ok id2flow s :
  (length (agg_is_lopri s) <= length id2flow)%nat ->
  BroadcastStateIfUpdated id2flow s =
    Some (mark_sent s, if broadcasted_latest_state s then []
                       else map (fun l => (l, broadcast_bundle id2flow s)) (elements (lis_new_bundle_funcs s))).
Proof.
  intros Hl. unfold BroadcastStateIfUpdated, BroadcastStateUnconditional.
  rewrite (proj2 (Nat.leb_le _ _) Hl). destruct s as [? ? ? [] ?]; done.
Qed.

(** One id: the map after it, and what is due after it. *)
Lemma broadcast_one id2flow m h p s :
  im_ok m -> im_ids m !! h = Some p -> state_of m p = Some s ->
  (length (agg_is_lopri s) <= length id2flow)%nat ->
  exists m', im_OnID m p (fun s => fst <$> BroadcastStateIfUpdated id2flow s) = Some m' /\
    im_ok m' /\ im_ids m' = im_ids m /\
    forall q, 0 <= q -> state_of m' q = if decide (q = p) then Some (mark_sent s) else state_of m q.
Proof.
  intros Hok Hp Hs Hl. apply (OnID_at m h p s (mark_sent s)); try done.
  by rewrite BroadcastStateIfUpdated_ok.
Qed.

Lemma due_cons (m m' : M) p s ids :
  0 <= p -> (forall q, q ∈ ids -> 0 <= q) -> state_of m p = Some s ->
  (forall q, 0 <= q -> state_of m' q = if decide (q = p) then Some (mark_sent s) else state_of m q) ->
  due m (p :: ids) ≡ₚ (if broadcasted_latest_state s then due m' ids else p :: due m' ids) /\
  forall id2flow q, q ∈ due m' ids -> calls_for id2flow m' q = calls_for id2flow m q.
Proof.
  intros Hp Hids Hs Hm'.
  assert (Hun : forall q, 0 <= q -> unsent m' q <-> unsent m q /\ q <> p).
  { intros q Hq. unfold unsent. rewrite Hm' by done. case_decide; [subst|by intuition].
    split; [by intros (? & [= <-] & ?)|by intros [_ []]]. }
  assert (Hup : unsent m p <-> broadcasted_latest_state s = false).
  { unfold unsent. rewrite Hs. split; [by intros (? & [= <-] & ?)|by exists s]. }
  split.
  - assert (Hpd : p ∉ due m' ids) by (rewrite elem_of_due, Hun by done; tauto).
    apply list.NoDup_Permutation; [apply NoDup_due|case_match; [|constructor; [done|]]; apply NoDup_due|].
    intros q. rewrite elem_of_due, elem_of_cons.
    destruct (broadcasted_latest_state s) eqn:Eb; rewrite ?elem_of_cons, elem_of_due.
    + split.
      * intros [Hu [->|Hin]]; [by apply Hup in Hu|]. rewrite Hun by auto. split; [|done].
        split; [done|]. intros ->. by apply Hup in Hu.
      * intros [Hu Hin]. rewrite Hun in Hu by auto. tauto.
    + split.
      * intros [Hu [->|Hin]]; [by left|]. destruct (decide (q = p)) as [->|]; [by left|].
        right. rewrite Hun by auto. tauto.
      * intros [->|[Hu Hin]]; [split; [by apply Hup|by left]|]. rewrite Hun in Hu by auto. tauto.
  - intros id2flow q [Hu Hin]%elem_of_due. rewrite Hun in Hu by auto. destruct Hu. unfold calls_for.
    rewrite Hm' by auto. by rewrite decide_False.
Qed.

(** C33: step 3 calls each listener of each contacted host whose state is not
    yet sent exactly once, with the bundle of that state, and no other
    listener, however often the host is listed; after it no listed host is
    unsent, and no other host has become so. *)
Theorem broadcast_ids_tells_once id2flow ids : forall m,
  im_ok m -> (forall p, p ∈ ids -> exists h, im_ids m !! h = Some p) ->
  (forall p s, 0 <= p -> state_of m p = Some s -> (length (agg_is_lopri s) <= length id2flow)%nat) ->
  exists m' calls, broadcast_ids id2flow m ids = Some (m', calls) /\
    calls ≡ₚ concat (map (calls_for id2flow m) (due m ids)) /\
    im_ok m' /\ forall p, 0 <= p -> p ∈ ids \/ ~ unsent m p -> ~ unsent m' p.
Proof.
  induction ids as [|p ids IH]; intros m Hok Hids Hlen.
  - exists m, []. split_and!; try done. by intros p _ [Hp%elem_of_nil|Hp].
  - destruct (Hids p) as [h Hh]; [left|]. destruct (state_of_known m h p Hok Hh) as [s Hs].
    assert (Hpos : forall q, q ∈ p :: ids -> 0 <= q).
    { intros q [h' Hq]%Hids. by eapply im_ids_range. }
    assert (Hp : 0 <= p) by (apply Hpos; left).
    destruct (broadcast_one id2flow m h p s Hok Hh Hs (Hlen p s Hp Hs)) as (m1 & Hm1 & Hok1 & Hi1 & Hq1).
    destruct (due_cons m m1 p s ids) as [Hdue Hcalls]; try done; [intros; apply Hpos; by right|].
    destruct (IH m1 Hok1) as (m2 & calls & Hb & Hperm & Hok2 & Hun).
    { intros q Hq. rewrite Hi1. apply Hids. by right. }
    { intros q t Hq. rewrite Hq1 by done. case_decide; [|by apply Hlen].
      intros [= <-]. exact (Hlen p s Hp Hs). }
    cbn [broadcast_ids]. rewrite (child_at_state m h p Hok Hh), Hs. cbn [mbind option_bind].
    rewrite BroadcastStateIfUpdated_ok by exact (Hlen p s Hp Hs). cbn [mbind option_bind].
    rewrite Hm1. cbn [mbind option_bind]. rewrite Hb. cbn [mbind option_bind].
    eexists _, _. split; [reflexivity|]. split_and!; [|done|].
    + rewrite Hdue, Hperm. erewrite (map_ext_in (calls_for id2flow m1)); cycle 1.
      { intros q Hq%list_elem_of_In. by apply Hcalls. }
      destruct (broadcasted_latest_state s); [done|]. cbn [map concat].
      assert (Hp' : calls_for id2flow m p = map (fun l => (l, broadcast_bundle id2flow s))
        (elements (lis_new_bundle_funcs s))) by (unfold calls_for; by rewrite Hs).
      by rewrite Hp'.
    + intros q Hq Hor. apply Hun; [done|]. rewrite elem_of_cons in Hor.
      destruct (decide (q = p)) as [->|Hne].
      * right. intros (t & Ht & Hb'). rewrite Hq1, decide_True in Ht by done. by injection Ht as <-.
      * destruct Hor as [[|]|Hn]; [done|by left|right]. intros (t & Ht & Hb').
        rewrite Hq1, decide_False in Ht by done. apply Hn. by exists t.
Qed.
End Follow.

Section Example.
Let Hosts := @ParIndexedMap Z ChildState _ _.
#[local] Instance example_ops : IndexedMap Z ChildState Hosts :=
  ParIndexedMap_ops new_ChildState (fun _ => true).
#[local] Instance example_laws : IndexedMapLaws Z ChildState Hosts new_ChildState
    (kSpanSize * kSpanSize) := ParIndexedMap_laws new_ChildState (fun _ => true).
Let fg : FlowMarker := cluster_key (mkFlowMarker "a" "b" "" 0 "" "" UNSET 0 0 0).
Let info : FastAggInfo := mkFastAggInfo (mkFlowInfo fg 0 100 100 0 0 0 0 false None) [] [] 0.
Let st : FastAggState := mkFastAggState d0 (dneg d1) None.

(** A controller with one FG, approved for 50 bps, and host 5. *)
Let ctrl (m : Hosts) : FastClusterController :=
  mkFastController {[fg := 0]} [fg] [50] [info] [] [st] [new_HashRing] 1 m {[5 := 0]} [].

Lemma example_host (P : Prop) :
  (forall m : Hosts, im_ok m -> im_ids m = {[5 := 0]} ->
     (forall p s, state_of m p = Some s -> s = new_ChildState) ->
     state_of m 0 = Some new_ChildState -> P) -> P.
Proof.
  intros H. destruct (im_new_ok (M := Hosts)) as (Hok & Hc & Hi).
  destruct (im_GetID_new (M := Hosts) im_new 5 Hok) as (m & _ & Hok' & Hc' & Hi').
  { rewrite Hi. apply lookup_empty. } { rewrite im_num, Hc by done. done. }
  rewrite Hc in Hc'. apply (H m); [done| | |unfold state_of; by rewrite Hc'].
  - by rewrite Hi', Hi, im_num, Hc, insert_empty.
  - intros p s. unfold state_of. rewrite Hc'. by intros [_ <-]%list_lookup_singleton_Some.
Qed.



(** The ring holds half of the ids when host 5 comes. *)
Let grown (m : Hosts) : FastClusterController :=
  mkFastController {[fg := 0]} [fg] [50] [info] [] [st] [mkHashRing 0 half] 1 m {[5 := 0]} [].

Lemma update_fast_agg_late_host_not_told_witness :
  exists (m : Hosts) (c' : @FastClusterController Hosts) s',
    update_fast_agg (grown m) 0 info = Some (c', []) /\ IsLOPRI (mkHashRing 0 half) 5 = true /\
    state_of (child_states_ c') 0 = Some s' /\ flag 0 s' = false.
Proof.
  apply example_host. intros m Hok Hi _ Hs.
  assert (Hk : known_hosts (grown m)).
  { split_and!; [done|change ({[5 := 0]} ⊆ im_ids m); by rewrite Hi|].
    cbn. intros h p [<- <-]%lookup_singleton_Some. done. }
  assert (Hl : IsLOPRI (mkHashRing 0 half) 5 = true) by by vm_compute.
  destruct (update_fast_agg_late_host_not_told (grown m) 0 info 50 st st (mkHashRing 0 half) half 5 0
    new_ChildState) as (c' & s' & Hu & _ & Hs' & Hf);
    [exact Hk|reflexivity|exact Hs|reflexivity|exact Hl|reflexivity|reflexivity|reflexivity| | | | |].
  1-4: vm_compute; reflexivity.
  exists m, c', s'. split_and!; [exact Hu|exact Hl|exact Hs'|exact Hf].
Defined.

(** Host 5 has one listener, 9, and is contacted for two aggregates. *)
Lemma broadcast_ids_tells_once_witness :
  exists (m m' : Hosts), broadcast_ids [fg] m [0; 0] =
    Some (m', [(9, mkAllocBundle [mkFlowAlloc fg kMaxChildBandwidthBps 0] 0)]).
Proof.
  apply example_host. intros m0 Hok0 Hi0 Hall Hs0.
  destruct (OnID_step m0 5 0 (add_listener 9) Hok0) as (m & _ & Hok & Hi & Hq); [by rewrite Hi0|].
  assert (Hs : state_of m 0 = Some (add_listener 9 new_ChildState)) by (rewrite Hq by done; by rewrite Hs0).
  exists m. destruct (broadcast_ids_tells_once [fg] [0; 0] m) as (m' & calls & Hb & Hp & _); try done.
  - intros p Hp. exists 5. rewrite Hi, Hi0. apply list_elem_of_In in Hp as [<-|[<-|[]]]; done.
  - intros p s Hp0. rewrite Hq by done. destruct (decide (p = 0)) as [->|].
    + rewrite Hs0. intros [= <-]. cbn. lia.
    + intros ->%Hall. cbn. lia.
  - exists m'. rewrite Hb. f_equal. f_equal. apply Permutation_length_1_inv. rewrite Hp.
    assert (Hd : due m [0; 0] = [0]).
    { unfold due. change (remove_dups [0; 0]) with [0]. rewrite filter_cons_True; [done|]. by eexists. }
    rewrite Hd. cbn [map concat]. unfold calls_for. rewrite Hs. reflexivity.
Defined.
End Example.
