(* ===== verification/Server.v ===== *)
(** * Server: the reactor of a host's connection

    src/heyp/cluster-agent/server.cc.  [HostReactor] reacts to the completions
    of the stream's operations and to new bundles of the controller.  Each
    callback is a function from the state and its arguments to the state and
    the calls it makes, in order; a callback that holds [mu_] throughout is
    one step.  The two bundles are the fields [b1_] and [b2_], and the two
    pointers to them one boolean.  The answers of the controller are
    arguments.  The time carried along for debugging is left out. *)

From S2P Require Import Prelude FlowMarker Clock Aggregator.

Section HostReactor.
Context `{Clock}.

Record HostReactor := mkHostReactor {
  b1_ : AllocBundle;
  b2_ : AllocBundle;
  staged_is_b1 : bool;
  wip_write_ : bool;
  has_staged_ : bool;
  finished_ : bool;
  reactor_lis_ : option Z;
  bundler_id_ : Z }.

(** What the reactor calls; a call of the controller with its answer. *)
Inductive call :=
  | StartRead
  | StartWrite (b : AllocBundle)
  | Finish (ok : bool)
  | CallRegisterListener (host_id lis : Z)
  | CallGetBundlerID (bundler : FlowMarker) (id : Z)
  | CallUpdateInfo (bundler_id : Z) (info : InfoBundle)
  | DestroyListener (lis : Z).

Definition staged_alloc_ (r : HostReactor) : AllocBundle := if staged_is_b1 r then b1_ r else b2_ r.
Definition wip_write_alloc_ (r : HostReactor) : AllocBundle := if staged_is_b1 r then b2_ r else b1_ r.

Definition new_HostReactor : HostReactor * list call :=
  (mkHostReactor (mkAllocBundle [] 0) (mkAllocBundle [] 0) true false false false None (-1), [StartRead]).

Definition destroy_lis (r : HostReactor) : list call :=
  match reactor_lis_ r with Some l => [DestroyListener l] | None => [] end.

Definition SendAlloc (r : HostReactor) : HostReactor * list call :=
  let r := mkHostReactor (b1_ r) (b2_ r) (negb (staged_is_b1 r)) true (has_staged_ r) (finished_ r)
             (reactor_lis_ r) (bundler_id_ r) in
  (r, [StartWrite (wip_write_alloc_ r)]).

Definition stage (b : AllocBundle) (r : HostReactor) : HostReactor :=
  mkHostReactor (if staged_is_b1 r then b else b1_ r) (if staged_is_b1 r then b2_ r else b)
    (staged_is_b1 r) (wip_write_ r) (has_staged_ r) (finished_ r) (reactor_lis_ r) (bundler_id_ r).

Definition set_has_staged (v : bool) (r : HostReactor) : HostReactor :=
  mkHostReactor (b1_ r) (b2_ r) (staged_is_b1 r) (wip_write_ r) v (finished_ r) (reactor_lis_ r)
    (bundler_id_ r).

Definition set_wip_write (v : bool) (r : HostReactor) : HostReactor :=
  mkHostReactor (b1_ r) (b2_ r) (staged_is_b1 r) v (has_staged_ r) (finished_ r) (reactor_lis_ r)
    (bundler_id_ r).

Definition set_finished (r : HostReactor) : HostReactor :=
  mkHostReactor (b1_ r) (b2_ r) (staged_is_b1 r) (wip_write_ r) (has_staged_ r) true (reactor_lis_ r)
    (bundler_id_ r).

Definition set_listener (l : option Z) (id : Z) (r : HostReactor) : HostReactor :=
  mkHostReactor (b1_ r) (b2_ r) (staged_is_b1 r) (wip_write_ r) (has_staged_ r) (finished_ r) l id.

Definition UpdateAlloc (alloc : AllocBundle) (r : HostReactor) : HostReactor * list call :=
  let r := stage alloc r in
  if negb (wip_write_ r) && negb (finished_ r) then SendAlloc r else (set_has_staged true r, []).

(** [lis] and [id]: what the controller answers when it is asked. *)
Definition OnReadDone (ok : bool) (info : InfoBundle) (lis id : Z) (r : HostReactor)
    : HostReactor * list call :=
  if finished_ r then (r, [])
  else if negb ok then (set_finished r, [Finish true])
  else
    let '(r, calls) :=
      match reactor_lis_ r with
      | Some _ => (r, [])
      | None => (set_listener (Some lis) id r,
                 [CallRegisterListener (host_id (bundler info)) lis; CallGetBundlerID (bundler info) id])
      end in
    (r, calls ++ [CallUpdateInfo (bundler_id_ r) info; StartRead]).

(** The failure path does not hold [mu_]: it reads [finished_] and then
    finishes the stream. *)
Definition write_failed (was_finished : bool) (r : HostReactor) : HostReactor * list call :=
  (set_listener None (bundler_id_ r) (set_finished r),
   (if was_finished then [] else [Finish false]) ++ destroy_lis r).

Definition OnWriteDone (ok : bool) (r : HostReactor) : HostReactor * list call :=
  if negb ok then write_failed (finished_ r) r
  else
    let r := set_wip_write false r in
    if has_staged_ r && negb (finished_ r) then SendAlloc (set_has_staged false r) else (r, []).

(** The reactor is deleted, and its listener with it. *)
Definition OnDone (r : HostReactor) : list call := destroy_lis r.

(** ** Specification: a mailbox

    What the reactor promises of the bundles: at most one is in flight, and
    of those that come meanwhile the last one waits. *)

Record mailbox := mkMailbox {
  waiting : option AllocBundle;
  in_flight : option AllocBundle;
  closed : bool }.

Definition mb_put (b : AllocBundle) (m : mailbox) : mailbox * list call :=
  match in_flight m, closed m with
  | None, false => (mkMailbox (waiting m) (Some b) false, [StartWrite b])
  | _, _ => (mkMailbox (Some b) (in_flight m) (closed m), [])
  end.

Definition mb_sent (m : mailbox) : mailbox * list call :=
  match waiting m, closed m with
  | Some b, false => (mkMailbox None (Some b) false, [StartWrite b])
  | _, _ => (mkMailbox (waiting m) None (closed m), [])
  end.

Definition mb_close (m : mailbox) : mailbox := mkMailbox (waiting m) (in_flight m) true.

Definition mailbox_of (r : HostReactor) : mailbox :=
  mkMailbox (if has_staged_ r then Some (staged_alloc_ r) else None)
    (if wip_write_ r then Some (wip_write_alloc_ r) else None) (finished_ r).

(** Only a busy or finished reactor has a bundle waiting. *)
Definition reactor_ok (r : HostReactor) : Prop :=
  has_staged_ r = true -> wip_write_ r = true \/ finished_ r = true.

Definition is_write (c : call) : bool := match c with StartWrite _ => true | _ => false end.
Definition writes (l : list call) : list call := filter (fun c => is_write c = true) l.

(** C7: the double buffer is a mailbox: every callback of the reactor keeps its
    invariant and does to the bundles exactly what the mailbox does, so a
    write in flight is never overwritten, and it is the last staged bundle
    that is written next. *)
Theorem HostReactor_refines_mailbox r :
  reactor_ok r ->
  (forall b, let '(r', calls) := UpdateAlloc b r in
     reactor_ok r' /\ (mailbox_of r', calls) = mb_put b (mailbox_of r)) /\
  (wip_write_ r = true -> let '(r', calls) := OnWriteDone true r in
     reactor_ok r' /\ (mailbox_of r', calls) = mb_sent (mailbox_of r)) /\
  (let '(r', calls) := OnWriteDone false r in
     reactor_ok r' /\ mailbox_of r' = mb_close (mailbox_of r) /\ writes calls = []) /\
  (forall ok info lis id, let '(r', calls) := OnReadDone ok info lis id r in
     reactor_ok r' /\ writes calls = [] /\
     mailbox_of r' = if ok then mailbox_of r else mb_close (mailbox_of r)).
Proof.
  destruct r as [b1 b2 st wip has fin lis bid]. unfold reactor_ok. cbn. intros Hok.
  split; [|split; [|split]].
  - intros b. destruct wip, fin, has, st; cbn in *; intuition congruence.
  - intros ->. destruct has, fin, st; cbn; intuition congruence.
  - split; [by right|]. split; [done|]. by destruct fin, lis.
  - intros ok info l id. unfold OnReadDone, mailbox_of, mb_close. cbn.
    destruct fin; cbn; [by destruct ok|]. destruct ok; cbn; [|split; [by right|done]].
    by destruct lis.
Qed.

(** ** The connection

    The reactor and what happened so far: the callbacks and, after each, the
    calls it made.  The stream completes an operation only after it was
    started. *)

Inductive act :=
  | AUpdateAlloc (b : AllocBundle)
  | AReadDone (ok : bool) (info : InfoBundle) (lis id : Z)
  | AWriteDone (ok : bool).

Record connection := mkConnection { reactor : HostReactor; log : list (act + call) }.

Definition react (a : act) (r : HostReactor) : HostReactor * list call :=
  match a with
  | AUpdateAlloc b => UpdateAlloc b r
  | AReadDone ok info lis id => OnReadDone ok info lis id r
  | AWriteDone ok => OnWriteDone ok r
  end.

Definition count_items (p : act + call -> bool) (l : list (act + call)) : nat :=
  length (List.filter p l).

Definition is_start_read (i : act + call) : bool := match i with inr StartRead => true | _ => false end.
Definition is_read_done (i : act + call) : bool := match i with inl (AReadDone _ _ _ _) => true | _ => false end.
Definition is_start_write (i : act + call) : bool := match i with inr (StartWrite _) => true | _ => false end.
Definition is_write_done (i : act + call) : bool := match i with inl (AWriteDone _) => true | _ => false end.

Definition open_reads (l : list (act + call)) : Z :=
  Z.of_nat (count_items is_start_read l) - Z.of_nat (count_items is_read_done l).
Definition open_writes (l : list (act + call)) : Z :=
  Z.of_nat (count_items is_start_write l) - Z.of_nat (count_items is_write_done l).

Definition enabled (a : act) (l : list (act + call)) : Prop :=
  match a with
  | AUpdateAlloc _ => True
  | AReadDone _ _ _ _ => 0 < open_reads l
  | AWriteDone _ => 0 < open_writes l
  end.

Definition connect : connection :=
  let '(r, calls) := new_HostReactor in mkConnection r (map inr calls).

Inductive connection_step (c : connection) : connection -> Prop :=
  | do_act a : enabled a (log c) ->
      connection_step c (mkConnection (fst (react a (reactor c)))
        (log c ++ inl a :: map inr (snd (react a (reactor c))))).

Definition open_connection (c : connection) : Prop := rtc connection_step connect c.

(** The bundles the controller sent to the reactor, and those it wrote. *)
Definition updates (l : list (act + call)) : list AllocBundle :=
  omap (fun i => match i with inl (AUpdateAlloc b) => Some b | _ => None end) l.
Definition sent (l : list (act + call)) : list AllocBundle :=
  omap (fun i => match i with inr (StartWrite b) => Some b | _ => None end) l.

(** Nothing is started, and the stream is not finished again, once it is
    finished. *)
Fixpoint polite (finished : bool) (l : list (act + call)) : bool :=
  match l with
  | [] => true
  | inr (Finish _) :: l => negb finished && polite true l
  | inr StartRead :: l => negb finished && polite finished l
  | inr (StartWrite _) :: l => negb finished && polite finished l
  | _ :: l => polite finished l
  end.

Definition finishes (l : list (act + call)) : bool :=
  existsb (fun i => match i with inr (Finish _) => true | _ => false end) l.

Lemma polite_app l1 l2 : forall f, polite f (l1 ++ l2) = polite f l1 && polite (f || finishes l1) l2.
Proof.
  induction l1 as [|i l1 IH]; intros f; [by rewrite orb_false_r|].
  destruct i as [a|[]]; cbn; rewrite ?IH; destruct f; cbn; rewrite ?andb_true_l; done.
Qed.

Lemma count_items_app p l1 l2 : count_items p (l1 ++ l2) = (count_items p l1 + count_items p l2)%nat.
Proof. unfold count_items. by rewrite List.filter_app, length_app. Qed.

Lemma finishes_app l1 l2 : finishes (l1 ++ l2) = finishes l1 || finishes l2.
Proof. apply existsb_app. Qed.

Lemma updates_app l1 l2 : updates (l1 ++ l2) = updates l1 ++ updates l2.
Proof. apply omap_app. Qed.

Lemma sent_app l1 l2 : sent (l1 ++ l2) = sent l1 ++ sent l2.
Proof. apply omap_app. Qed.

Lemma open_reads_app l1 l2 : open_reads (l1 ++ l2) = open_reads l1 + open_reads l2.
Proof. unfold open_reads. rewrite !count_items_app. lia. Qed.

Lemma open_writes_app l1 l2 : open_writes (l1 ++ l2) = open_writes l1 + open_writes l2.
Proof. unfold open_writes. rewrite !count_items_app. lia. Qed.

(** The invariant: the reactor against the open reads and writes, whether the
    stream is finished, and the bundles written and sent by the controller. *)
Record conn_ok (r : HostReactor) (nr nw : Z) (fin : bool) (snt upd : list AllocBundle) : Prop := {
  co_reactor : reactor_ok r;
  co_reads : nr = 0 \/ nr = 1;
  co_writes : nw = 0 /\ (wip_write_ r = true -> finished_ r = true) \/
              nw = 1 /\ wip_write_ r = true /\ last snt = Some (wip_write_alloc_ r);
  co_finished : fin = finished_ r;
  co_sent : sublist (snt ++ if has_staged_ r then [staged_alloc_ r] else []) upd;
  co_last : last upd = if has_staged_ r then Some (staged_alloc_ r) else last snt }.

Definition connection_ok (c : connection) : Prop :=
  conn_ok (reactor c) (open_reads (log c)) (open_writes (log c)) (finishes (log c)) (sent (log c))
    (updates (log c)) /\
  polite false (log c) = true.

Lemma connect_ok : connection_ok connect.
Proof. split; [|done]. split; cbn; try done; [by right|by left]. Qed.

(** One callback, on what the log says. *)
Definition callback_ok (a : act) : Prop :=
  forall r nr nw fin snt upd, conn_ok r nr nw fin snt upd ->
    match a with AUpdateAlloc _ => True | AReadDone _ _ _ _ => 0 < nr | AWriteDone _ => 0 < nw end ->
    let new := inl a :: map inr (snd (react a r)) in
    conn_ok (fst (react a r)) (nr + open_reads new) (nw + open_writes new) (fin || finishes new)
      (snt ++ sent new) (upd ++ updates new) /\
    polite fin new = true.

Lemma sublist_snoc {A} (l1 l2 : list A) (x : A) o : sublist (l1 ++ o) l2 -> sublist (l1 ++ [x]) (l2 ++ [x]).
Proof.
  intros Hs. apply sublist_app; [|done]. etrans; [|exact Hs]. by apply sublist_inserts_r.
Qed.

(** A callback, by cases of the state: counts first, lists last. *)
Ltac callback_cases :=
  split; [split|]; unfold open_reads, open_writes, reactor_ok; cbn; rewrite ?app_nil_r, ?last_snoc in *;
  try done; try (intuition (try done; try lia; try congruence); fail).

Lemma AUpdateAlloc_ok b : callback_ok (AUpdateAlloc b).
Proof.
  intros r nr nw fin snt upd [Hr Hrd Hw -> Hs Hl] _. pose proof (sublist_snoc _ _ b _ Hs) as Hs'.
  destruct r as [b1 b2 st wip has fin lis bid]. unfold reactor_ok in Hr. cbn in *.
  unfold UpdateAlloc; destruct wip, fin, st, has; cbn; try (by destruct Hr); callback_cases.
Qed.

Lemma AReadDone_ok ok info lis id : callback_ok (AReadDone ok info lis id).
Proof.
  intros r nr nw fin snt upd [Hr Hrd Hw -> Hs Hl] Hpos.
  destruct r as [b1 b2 st wip has fin l bid]. unfold reactor_ok in Hr. cbn in *.
  unfold OnReadDone; destruct fin, ok, l; cbn; callback_cases.
Qed.

Lemma AWriteDone_ok ok : callback_ok (AWriteDone ok).
Proof.
  intros r nr nw fin snt upd [Hr Hrd Hw -> Hs Hl] Hpos.
  destruct r as [b1 b2 st wip has fin l bid]. unfold reactor_ok in Hr. cbn in *.
  unfold OnWriteDone, write_failed, destroy_lis.
  destruct Hw as [[? _]|(-> & -> & Hlast)]; [lia|].
  destruct ok, has, fin, st, l; cbn; callback_cases.
Qed.

Lemma connection_reachable_ok c : open_connection c -> connection_ok c.
Proof.
  unfold open_connection. intros Hc. assert (Hi : connection_ok connect) by apply connect_ok.
  induction Hc as [c|c c1 c2 [a He] _ IH]; [done|]. apply IH. clear IH. destruct Hi as [Hok Hp].
  assert (Hcb : callback_ok a) by
    (destruct a; [apply AUpdateAlloc_ok|apply AReadDone_ok|apply AWriteDone_ok]).
  specialize (Hcb _ _ _ _ _ _ Hok He). destruct Hcb as [Hok' Hp'].
  split; cbn [reactor log].
  - by rewrite open_reads_app, open_writes_app, finishes_app, sent_app, updates_app.
  - by rewrite polite_app, Hp.
Qed.

(** Over the life of a connection, if the stream completes only what was
    started: there is one read and one write in progress at most, the buffer
    of a write in progress still holds the bundle it was given, the bundles
    written are a subsequence of the controller's, and whenever the reactor
    is idle the last one was written; nothing is started after the stream is
    finished, and it is finished at most once. *)
Theorem HostReactor_connection_safe c :
  open_connection c ->
  0 <= open_reads (log c) <= 1 /\ 0 <= open_writes (log c) <= 1 /\
  (open_writes (log c) = 1 -> last (sent (log c)) = Some (wip_write_alloc_ (reactor c))) /\
  sublist (sent (log c)) (updates (log c)) /\
  (wip_write_ (reactor c) = false -> finished_ (reactor c) = false ->
     last (sent (log c)) = last (updates (log c))) /\
  polite false (log c) = true.
Proof.
  intros [[Hr Hrd Hw Hf Hs Hl] Hp]%connection_reachable_ok. split_and!; try lia; try done.
  - by destruct Hw as [[? _]|(_ & _ & ?)]; [lia|].
  - etrans; [|exact Hs]. by apply sublist_inserts_r.
  - intros Hw0 Hf0. rewrite Hl. destruct (has_staged_ (reactor c)) eqn:E; [|done].
    destruct (Hr E); congruence.
Qed.

(** *** The calls on the controller *)

Definition listener_calls (l : list (act + call)) : list call :=
  omap (fun i => match i with
                 | inr (CallRegisterListener h n) => Some (CallRegisterListener h n)
                 | inr (DestroyListener n) => Some (DestroyListener n)
                 | _ => None end) l.

Definition ids_got (l : list (act + call)) : list Z :=
  omap (fun i => match i with inr (CallGetBundlerID _ id) => Some id | _ => None end) l.
Definition ids_used (l : list (act + call)) : list Z :=
  omap (fun i => match i with inr (CallUpdateInfo id _) => Some id | _ => None end) l.

Definition lifecycle (r : HostReactor) (lc : list call) (got used : list Z) : Prop :=
  match reactor_lis_ r with
  | Some n => exists h, lc = [CallRegisterListener h n] /\ got = [bundler_id_ r]
  | None => lc = [] /\ got = [] /\ used = [] \/
            finished_ r = true /\ exists h n, lc = [CallRegisterListener h n; DestroyListener n] /\
              got = [bundler_id_ r]
  end /\ Forall (fun id => id = bundler_id_ r) used.

Lemma react_lifecycle a r lc got used :
  lifecycle r lc got used ->
  let new := inl a :: map inr (snd (react a r)) in
  lifecycle (fst (react a r)) (lc ++ listener_calls new) (got ++ ids_got new) (used ++ ids_used new).
Proof.
  destruct r as [b1 b2 st wip has fin l bid]. unfold lifecycle. cbn. intros [Hl Hu].
  assert (Hn : forall f, Forall (fun id : Z => id = f) (used ++ []) <-> Forall (fun id => id = f) used)
    by (intros; by rewrite app_nil_r).
  destruct a as [b|ok info lis id|ok]; cbn.
  - unfold UpdateAlloc; destruct wip, fin; cbn; by rewrite !app_nil_r.
  - unfold OnReadDone. destruct fin, ok, l; cbn; rewrite ?app_nil_r, ?Forall_app, ?Forall_singleton;
      naive_solver.
  - unfold OnWriteDone, write_failed, destroy_lis.
    destruct ok, has, fin, l; cbn; rewrite ?app_nil_r; try done; naive_solver.
Qed.

Lemma connection_lifecycle c :
  open_connection c ->
  lifecycle (reactor c) (listener_calls (log c)) (ids_got (log c)) (ids_used (log c)).
Proof.
  unfold open_connection. intros Hc.
  assert (Hi : lifecycle (reactor connect) (listener_calls (log connect)) (ids_got (log connect))
                 (ids_used (log connect))) by (split; [by left|constructor]).
  induction Hc as [c|c c1 c2 [a He] _ IH]; [done|]. apply IH. cbn [reactor log].
  unfold listener_calls, ids_got, ids_used. rewrite !omap_app. by apply react_lifecycle.
Qed.

(** Over a whole connection, up to the deletion of the reactor, a listener
    is registered at most once, exactly that listener is destroyed, once, and
    every report goes to the controller with the id it gave for the bundler. *)
Theorem HostReactor_listener_lifetime c :
  open_connection c ->
  let all := log c ++ map inr (OnDone (reactor c)) in
  (listener_calls all = [] /\ ids_used all = [] \/
   exists h n, listener_calls all = [CallRegisterListener h n; DestroyListener n]) /\
  exists id, Forall (fun used => used = id) (ids_used all) /\ (ids_used all <> [] -> ids_got all = [id]).
Proof.
  intros Hc%connection_lifecycle all. unfold all, listener_calls, ids_got, ids_used in *.
  rewrite !omap_app. destruct Hc as [Hl Hu]. unfold OnDone, destroy_lis.
  destruct (reactor_lis_ (reactor c)) as [n|]; cbn; rewrite ?app_nil_r.
  - destruct Hl as (h & -> & ->). split; [right; by exists h, n|]. by exists (bundler_id_ (reactor c)).
  - destruct Hl as [(-> & _ & ->)|(_ & h & n & -> & ->)].
    + split; [by left|]. by exists 0.
    + split; [right; by exists h, n|]. by exists (bundler_id_ (reactor c)).
Qed.

(** The failure path of [OnWriteDone] reads [finished_] without the lock: when
    the read of the stream fails between that and the rest of the path, the
    stream is finished twice. *)
Lemma failed_write_finishes_twice r info lis id :
  finished_ r = false ->
  let '(r', calls) := OnReadDone false info lis id r in
  polite false (map inr (calls ++ snd (write_failed (finished_ r) r'))) = false.
Proof. intros Hf. unfold OnReadDone. rewrite Hf. by destruct (destroy_lis r). Qed.
End HostReactor.

Section ReactorExample.
Let info : @InfoBundle ZClock :=
  mkInfoBundle (mkFlowMarker "a" "b" "j" 7 "" "" UNSET 0 0 0) (at_seconds 5) 1 [].
Let b (g : Z) : AllocBundle := mkAllocBundle [] g.

(** A host reports, the controller sends three bundles, and the first write
    completes: the third bundle is written, the second is dropped. *)
Let acts : list (@act ZClock) :=
  [AReadDone true info 1 0; AUpdateAlloc (b 1); AUpdateAlloc (b 2); AUpdateAlloc (b 3); AWriteDone true].
Let c_end : @connection ZClock :=
  foldl (fun c a => mkConnection (fst (react a (reactor c)))
                      (log c ++ inl a :: map inr (snd (react a (reactor c))))) connect acts.

Lemma c_end_open : open_connection c_end.
Proof.
  unfold open_connection, c_end, acts. cbn [foldl].
  do 5 (eapply rtc_r; [|apply do_act; done]). apply rtc_refl.
Qed.

Lemma HostReactor_connection_safe_witness :
  sent (log c_end) = [b 1; b 3] /\ sublist [b 1; b 3] [b 1; b 2; b 3] /\ open_writes (log c_end) <= 1.
Proof.
  destruct (HostReactor_connection_safe c_end c_end_open) as (_ & Hw & _ & Hs & _).
  split; [reflexivity|]. split; [exact Hs|apply Hw].
Defined.

Lemma HostReactor_listener_lifetime_witness :
  exists h n, listener_calls (log c_end ++ map inr (OnDone (reactor c_end))) =
    [CallRegisterListener h n; DestroyListener n].
Proof.
  destruct (HostReactor_listener_lifetime c_end c_end_open) as [[[Hn _]|H] _]; [by cbn in Hn|exact H].
Defined.

Lemma HostReactor_refines_mailbox_witness :
  let r := fst (@new_HostReactor ZClock) in
  (mailbox_of (fst (@UpdateAlloc ZClock (b 1) r)), snd (@UpdateAlloc ZClock (b 1) r)) = @mb_put ZClock (b 1) (mailbox_of r).
Proof.
  destruct (@HostReactor_refines_mailbox ZClock (fst (@new_HostReactor ZClock))) as [H _]; [done|].
  apply (H (b 1)).
Defined.
End ReactorExample.
