(* ===== verification/AgentChannel.v ===== *)
(** * AgentChannel: the host's stream to the cluster agent

    src/heyp/host-agent/cluster-agent-channel.{h,cc}.  A call of [Write],
    [WritesDone] or [Read] is a critical section ([OpBegin]), an operation of
    the stream without the lock, and a second critical section ([OpEnd]);
    the second part of the file lets a writing and a reading thread, as the
    daemon has them, interleave at these points.  A stream is its number; the
    answers of gRPC are arguments.  A status is [OK], the error [Finish]
    returned, or the UNKNOWN error of the channel itself. *)

From S2P Require Import Prelude.

Section ClusterAgentChannel.
Context {W R : Type}.

(** A weak pointer of [all_streams_] is the stream's number. *)
Record ClusterAgentChannel := mkChannel {
  stream_ : option nat;
  all_streams_ : list nat;
  read_failed_ : bool;
  write_failed_ : bool;
  writes_done_ : bool }.

Inductive op := Write (bundle : W) | WritesDone | Read (out : R).
Inductive status := OK | FinishError | UnknownError.

(** The calls made on gRPC, and the statuses returned to the caller. *)
Inductive call :=
  | RegisterHost (s : nat)
  | StartOp (s : nat) (o : op)
  | EndOp (s : nat) (o : op) (failed : bool)
  | Finish (s : nat)
  | CancelContext (s : nat)
  | Return (o : op) (st : status).

Definition new_ClusterAgentChannel : ClusterAgentChannel := mkChannel None [] false false false.

Definition CreateStreamIfNeeded (c : ClusterAgentChannel) : ClusterAgentChannel * nat * list call :=
  match stream_ c with
  | Some s => (c, s, [])
  | None =>
      let s := length (all_streams_ c) in
      (mkChannel (Some s) (all_streams_ c ++ [s]) (read_failed_ c) (write_failed_ c) (writes_done_ c), s,
       [RegisterHost s])
  end.

(** [finish_ok]: the status that [Finish] returns is OK. *)
Definition CheckFinishAndResetStream (finish_ok : bool) (c : ClusterAgentChannel)
    : ClusterAgentChannel * bool * list call :=
  match stream_ c with
  | Some s =>
      if read_failed_ c && (write_failed_ c || writes_done_ c)
      then (mkChannel None (all_streams_ c) false false false, finish_ok, [Finish s])
      else (c, true, [])
  | None => (c, true, [])
  end.

(** [do_write] and [do_read]. *)
Definition do_op (o : op) (c : ClusterAgentChannel) : bool :=
  match o with
  | Read _ => negb (read_failed_ c)
  | Write _ | WritesDone => negb (write_failed_ c) && negb (writes_done_ c)
  end.

Definition OpBegin (o : op) (c : ClusterAgentChannel) : ClusterAgentChannel * (nat * bool) * list call :=
  let d := do_op o c in
  let '(c, s, calls) := CreateStreamIfNeeded c in (c, (s, d), calls).

Definition note_result (o : op) (failed : bool) (c : ClusterAgentChannel) : ClusterAgentChannel :=
  match o with
  | Write _ =>
      mkChannel (stream_ c) (all_streams_ c) (read_failed_ c) (write_failed_ c || failed) (writes_done_ c)
  | WritesDone =>
      mkChannel (stream_ c) (all_streams_ c) (read_failed_ c) (write_failed_ c || failed) true
  | Read _ =>
      mkChannel (stream_ c) (all_streams_ c) (read_failed_ c || failed) (write_failed_ c) (writes_done_ c)
  end.

Definition side_ended (o : op) (c : ClusterAgentChannel) : bool :=
  match o with
  | Read _ => read_failed_ c
  | Write _ | WritesDone => write_failed_ c || writes_done_ c
  end.

Definition OpEnd (o : op) (failed finish_ok : bool) (c : ClusterAgentChannel)
    : ClusterAgentChannel * status * list call :=
  let c := note_result o failed c in
  if side_ended o c then
    let '(c, st_ok, calls) := CheckFinishAndResetStream finish_ok c in
    (c, if st_ok then UnknownError else FinishError, calls)
  else (c, OK, []).

(** [lock] of a weak pointer: the stream is still referred to by the channel
    or by a call in progress. *)
Definition TryCancel (in_calls : list nat) (c : ClusterAgentChannel) : list call :=
  map CancelContext
    (filter (fun s => stream_ c = Some s \/ s ∈ in_calls) (all_streams_ c)).

(** ** A writing and a reading thread *)

Inductive thread := Writer | Reader.

#[global] Instance thread_eq_dec : EqDecision thread.
Proof. solve_decision. Defined.

Inductive phase := Ready | Called | Returned (failed : bool).

Record pending := mkPending { p_op : op; p_stream : nat; p_do : bool; p_phase : phase }.

Record world := mkWorld {
  chan : ClusterAgentChannel;
  writer : option pending;
  reader : option pending;
  calls_made : list call }.

Definition pend (t : thread) (w : world) : option pending :=
  match t with Writer => writer w | Reader => reader w end.

Definition upd (t : thread) (p : option pending) (c : ClusterAgentChannel) (calls : list call) (w : world)
    : world :=
  match t with
  | Writer => mkWorld c p (reader w) (calls_made w ++ calls)
  | Reader => mkWorld c (writer w) p (calls_made w ++ calls)
  end.

Definition belongs (t : thread) (o : op) : Prop :=
  match t, o with
  | Writer, (Write _ | WritesDone) | Reader, Read _ => True
  | _, _ => False
  end.

(** The bundle a read fills in. *)
Definition fill (r : R) (o : op) : op := match o with Read _ => Read r | _ => o end.

Definition in_calls (w : world) : list nat :=
  (if writer w is Some p then [p_stream p] else []) ++ (if reader w is Some p then [p_stream p] else []).

Inductive step (w : world) : world -> Prop :=
  | do_begin t o : pend t w = None -> belongs t o ->
      step w (let '(c, (s, d), calls) := OpBegin o (chan w) in
              upd t (Some (mkPending o s d Ready)) c calls w)
  | do_call t o s : pend t w = Some (mkPending o s true Ready) ->
      step w (upd t (Some (mkPending o s true Called)) (chan w) [StartOp s o] w)
  | do_return t o s r failed : pend t w = Some (mkPending o s true Called) ->
      step w (upd t (Some (mkPending (fill r o) s true (Returned failed))) (chan w)
                [EndOp s (fill r o) failed] w)
  | do_end t p failed finish_ok : pend t w = Some p ->
      (if p_do p then p_phase p = Returned failed else failed = false) ->
      step w (let '(c, st, calls) := OpEnd (p_op p) failed finish_ok (chan w) in
              upd t None c (calls ++ [Return (p_op p) st]) w)
  | do_cancel : pend Writer w = None ->
      step w (upd Writer None (chan w) (TryCancel (in_calls w) (chan w)) w).

Definition new_world : world := mkWorld new_ClusterAgentChannel None None [].
Definition reachable (w : world) : Prop := rtc step new_world w.

(** ** Specification: the protocol of one synchronous gRPC stream

    One write and one read at a time; none after the side failed, no write
    after [WritesDone]; [Finish] once, when a read has found the server's side
    ended and nothing is in progress (it declares the end of ours); nothing
    afterwards. *)

Record stream_state := mkStream {
  opened : bool; writing : bool; reading : bool;
  wfailed : bool; rfailed : bool; wdone : bool; finished : bool }.

Definition fresh_stream : stream_state := mkStream false false false false false false false.

Definition accepts (st : stream_state) (c : call) : option stream_state :=
  let '(mkStream o wr rd wf rf wd fin) := st in
  match c with
  | RegisterHost _ => if o then None else Some (mkStream true wr rd wf rf wd fin)
  | StartOp _ (Read _) => if o && negb rd && negb rf && negb fin then Some (mkStream o wr true wf rf wd fin) else None
  | StartOp _ _ => if o && negb wr && negb wf && negb wd && negb fin then Some (mkStream o true rd wf rf wd fin) else None
  | EndOp _ (Read _) failed => if rd then Some (mkStream o wr false wf failed wd fin) else None
  | EndOp _ (Write _) failed => if wr then Some (mkStream o false rd failed rf wd fin) else None
  | EndOp _ WritesDone failed => if wr then Some (mkStream o false rd failed rf true fin) else None
  | Finish _ =>
      if o && negb wr && negb rd && rf && negb fin then Some (mkStream o wr rd wf rf wd true) else None
  | CancelContext _ => if o then Some st else None
  | Return _ _ => Some st
  end.

Definition call_stream (c : call) : option nat :=
  match c with
  | RegisterHost s | StartOp s _ | EndOp s _ _ | Finish s | CancelContext s => Some s
  | Return _ _ => None
  end.

Definition run_stream (s : nat) (st : stream_state) (l : list call) : option stream_state :=
  foldl (fun st c => st ← st; if decide (call_stream c = Some s) then accepts st c else Some st)
    (Some st) l.

(** ** The channel keeps the protocol *)

Lemma run_stream_app s st l1 l2 :
  run_stream s st (l1 ++ l2) = (st ← run_stream s st l1; run_stream s st l2).
Proof.
  unfold run_stream. rewrite foldl_app. destruct (foldl _ (Some st) l1) as [st'|]; cbn; [done|].
  induction l2 as [|c l2 IH]; [done|exact IH].
Qed.

Lemma run_stream_one s st c :
  run_stream s st [c] = if decide (call_stream c = Some s) then accepts st c else Some st.
Proof. done. Qed.

Definition called (p : option pending) : bool :=
  match p with Some p => if p_phase p is Called then true else false | None => false end.
Definition returned_failed (p : option pending) : bool :=
  match p with Some p => if p_phase p is Returned true then true else false | None => false end.
Definition returned_done (p : option pending) : bool :=
  match p with
  | Some p => match p_phase p, p_op p with Returned _, WritesDone => true | _, _ => false end
  | None => false
  end.

(** The stream in use, as the channel and the two threads see it; a late
    [WritesDone] may have marked the channel for an earlier stream. *)
Definition current_stream (w : world) (st : stream_state) : Prop :=
  exists wd,
    st = mkStream true (called (writer w)) (called (reader w))
           (write_failed_ (chan w) || returned_failed (writer w))
           (read_failed_ (chan w) || returned_failed (reader w)) wd false /\
    (wd = true -> writes_done_ (chan w) = true \/ returned_done (writer w) = true).

Definition stream_as (w : world) (s : nat) (st : stream_state) : Prop :=
  if decide (stream_ (chan w) = Some s) then current_stream w st
  else if decide (s < length (all_streams_ (chan w)))%nat then opened st = true /\ finished st = true
  else st = fresh_stream.

Record pending_ok (t : thread) (c : ClusterAgentChannel) (p : pending) : Prop := {
  po_belongs : belongs t (p_op p);
  po_do : p_do p = true -> stream_ c = Some (p_stream p) /\ do_op (p_op p) c = true;
  po_idle : p_do p = false -> p_phase p = Ready;
  po_stream : (p_stream p < length (all_streams_ c))%nat;
  po_skip : p_do p = false -> stream_ c = Some (p_stream p) -> side_ended (p_op p) c = true }.

Record world_ok (w : world) : Prop := {
  wo_all : all_streams_ (chan w) = seq 0 (length (all_streams_ (chan w)));
  wo_stream : forall s, stream_ (chan w) = Some s -> (s < length (all_streams_ (chan w)))%nat;
  wo_flags : stream_ (chan w) = None ->
    read_failed_ (chan w) = false /\ write_failed_ (chan w) = false;
  wo_pending : forall t p, pend t w = Some p -> pending_ok t (chan w) p;
  wo_streams : forall s, exists st,
    run_stream s fresh_stream (calls_made w) = Some st /\ stream_as w s st }.

Lemma new_world_ok : world_ok new_world.
Proof. split; try done. - by intros []. - intros s. exists fresh_stream. by split. Qed.

(** The streams after a step, from what the step's own calls do to each. *)
Lemma streams_step w w' calls :
  world_ok w -> calls_made w' = calls_made w ++ calls ->
  (forall s st, stream_as w s st -> exists st', run_stream s st calls = Some st' /\ stream_as w' s st') ->
  forall s, exists st, run_stream s fresh_stream (calls_made w') = Some st /\ stream_as w' s st.
Proof.
  intros Hw Hc Hstep s. destruct (wo_streams w Hw s) as (st & Hr & Has).
  destruct (Hstep s st Has) as (st' & Hr' & Has'). exists st'. split; [|done].
  by rewrite Hc, run_stream_app, Hr.
Qed.

Lemma pend_upd t t' p c calls w :
  pend t' (upd t p c calls w) = if decide (t = t') then p else pend t' w.
Proof. by destruct t, t'. Qed.
Lemma chan_upd t p c calls w : chan (upd t p c calls w) = c.
Proof. by destruct t. Qed.
Lemma calls_upd t p c calls w : calls_made (upd t p c calls w) = calls_made w ++ calls.
Proof. by destruct t. Qed.

(** What a step leaves of the channel for the calls in progress: a stream
    in use was in use before, and a side that ended stays ended. *)
Record chan_le (c c' : ClusterAgentChannel) : Prop := {
  cl_length : (length (all_streams_ c) <= length (all_streams_ c'))%nat;
  cl_stream : forall s, (s < length (all_streams_ c))%nat -> stream_ c' = Some s ->
    stream_ c = Some s /\ forall o, side_ended o c = true -> side_ended o c' = true }.

Lemma chan_le_refl c : chan_le c c.
Proof. by split. Qed.

Lemma pending_ok_mono t c c' p :
  pending_ok t c p -> chan_le c c' ->
  (p_do p = true -> stream_ c' = stream_ c /\ do_op (p_op p) c' = do_op (p_op p) c) ->
  pending_ok t c' p.
Proof.
  intros [Hb Hd Hi Hs Hk] [Hl Hc] Heq. split; try done.
  - intros E. destruct (Heq E) as [-> ->]. by apply Hd.
  - lia.
  - intros E E'. destruct (Hc _ Hs E') as [E0 Hle]. by apply Hle, Hk.
Qed.

(** A step leaves the pending operation of the other thread as it was. *)
Lemma pending_step t p c calls w :
  world_ok w -> chan_le (chan w) c ->
  (forall p', p = Some p' -> pending_ok t c p') ->
  (forall t' p', t' <> t -> pend t' w = Some p' -> p_do p' = true ->
     stream_ c = stream_ (chan w) /\ do_op (p_op p') c = do_op (p_op p') (chan w)) ->
  forall t' p', pend t' (upd t p c calls w) = Some p' -> pending_ok t' c p'.
Proof.
  intros Hw Hl Hp Ho t' p'. rewrite pend_upd. case_decide as E; [subst; by apply Hp|].
  intros Hp'. apply pending_ok_mono with (chan w); [by apply (wo_pending w Hw)|done|]. intros Hd. eauto.
Qed.

Lemma ready_flags (p : option pending) :
  (forall p', p = Some p' -> p_phase p' = Ready) -> called p = false /\ returned_failed p = false.
Proof. destruct p as [p'|]; [|done]. intros H. cbn. by rewrite (H p'). Qed.

Lemma skipped_side_ended o c : do_op o c = false -> side_ended o c = true.
Proof. by destruct o, c as [? ? [] [] []]. Qed.

Lemma begin_ok w t o :
  world_ok w -> pend t w = None -> belongs t o ->
  world_ok (let '(c, (s, d), calls) := OpBegin o (chan w) in
            upd t (Some (mkPending o s d Ready)) c calls w).
Proof.
  intros Hw Hp Hb. unfold OpBegin, CreateStreamIfNeeded.
  pose proof (wo_all w Hw) as Hall. pose proof (wo_stream w Hw) as Hs.
  destruct (stream_ (chan w)) as [s|] eqn:E.
  - split; rewrite ?chan_upd; try done; rewrite ?E; try done.
    + apply pending_step; [done|apply chan_le_refl| |done]. intros p' [= <-].
      split; cbn; try done; [by apply Hs|]. intros Hd _. by apply skipped_side_ended.
    + eapply streams_step; [done|apply calls_upd|]. intros s' st Hst. exists st. split; [done|].
      unfold stream_as in *. rewrite chan_upd, E in *. case_decide; [|done].
      unfold current_stream in *. destruct t; cbn in *; rewrite Hp in Hst; exact Hst.
  - destruct (wo_flags w Hw E) as [Hr Hwf].
    set (n := length (all_streams_ (chan w))) in *.
    split; rewrite ?chan_upd; cbn [stream_ all_streams_ read_failed_ write_failed_].
    + rewrite length_app. cbn [length]. rewrite Nat.add_1_r, seq_S. fold n. by rewrite <-Hall.
    + intros s [= <-]. rewrite length_app. cbn. lia.
    + done.
    + apply pending_step; [done| | |].
      * split; cbn; [rewrite length_app; lia|]. intros s Hlt [= <-]. unfold n in Hlt. lia.
      * intros p' [= <-]. split; cbn; try done; [rewrite length_app; cbn; lia|].
        intros Hd%skipped_side_ended _. by destruct o.
      * intros t' p' Ht' Hp' Hd. destruct (wo_pending w Hw t' p' Hp') as [_ Hdo _ _ _].
        destruct (Hdo Hd) as [Hx _]. congruence.
    + eapply streams_step; [done|apply calls_upd|]. intros s st Hst.
      rewrite run_stream_one. cbn [call_stream]. unfold stream_as in *. rewrite chan_upd, E in *.
      cbn [stream_ all_streams_]. rewrite length_app. cbn [length].
      destruct (decide (Some n = Some s)) as [[= <-]|Hne].
      * rewrite decide_False in Hst by done. rewrite decide_False in Hst by (unfold n; lia). subst st.
        eexists. split; [done|]. 
        assert (Hq : forall t p, pend t w = Some p -> p_phase p = Ready).
        { intros t' p' Hp'. destruct (wo_pending w Hw t' p' Hp') as [_ Hdo Hi _ _].
          apply Hi. destruct (p_do p'); [|done]. destruct Hdo; congruence. }
        destruct (ready_flags _ (Hq Writer)) as [Hw1 Hw2], (ready_flags _ (Hq Reader)) as [Hr1 Hr2].
        exists false. destruct t; cbn in *; by rewrite Hr, Hwf, ?Hw1, ?Hw2, ?Hr1, ?Hr2.
      * rewrite decide_False in Hst by done. exists st.
        assert (s <> n) by congruence. split; [done|]. unfold n in *. case_decide; case_decide; [done|lia|lia|done].
Qed.

(** A call of an operation, or its return, on the stream in use. *)
Lemma stream_call_ok w t p p' c :
  world_ok w -> pend t w = Some p -> p_do p = true -> call_stream c = Some (p_stream p) ->
  p_do p' = true -> p_stream p' = p_stream p -> belongs t (p_op p') ->
  do_op (p_op p') (chan w) = do_op (p_op p) (chan w) ->
  (forall st, current_stream w st -> exists st', accepts st c = Some st' /\
     current_stream (upd t (Some p') (chan w) [c] w) st') ->
  world_ok (upd t (Some p') (chan w) [c] w).
Proof.
  intros Hw Hp Hd Hc Hd' Hs' Hb Hdo Hacc. destruct (wo_pending w Hw t p Hp) as [_ Hcur _ Hlt _].
  destruct (Hcur Hd) as [E Hdt]. split; rewrite ?chan_upd; try by destruct Hw.
  - apply pending_step; [done|apply chan_le_refl| |done]. intros p0 [= <-].
    split; [done| |congruence|by rewrite Hs'|congruence]. intros _. by rewrite Hs', Hdo.
  - eapply streams_step; [exact Hw|apply calls_upd|]. intros s st Has. rewrite run_stream_one, Hc.
    unfold stream_as in *. rewrite chan_upd, E in *.
    destruct (decide (Some (p_stream p) = Some s)); [by apply Hacc|]. eauto.
Qed.

Lemma call_ok w t o s :
  world_ok w -> pend t w = Some (mkPending o s true Ready) ->
  world_ok (upd t (Some (mkPending o s true Called)) (chan w) [StartOp s o] w).
Proof.
  intros Hw Hp. destruct (wo_pending w Hw t _ Hp) as [Hb Hdo _ _ _]. destruct Hdo as [E Hd]; [done|].
  eapply stream_call_ok; try done. intros st (wd & -> & Hwd). unfold current_stream. cbn in *.
  destruct t, o; cbn in *; try done; rewrite Hp in *; cbn in *; bool_to_prop;
    rewrite ?H, ?H0, ?Hd in *; cbn;
    try (destruct wd; [by destruct Hwd|]); eexists; (split; [reflexivity|]); eexists; (split; [reflexivity|]); naive_solver.
Qed.

Lemma return_ok w t o s r failed :
  world_ok w -> pend t w = Some (mkPending o s true Called) ->
  world_ok (upd t (Some (mkPending (fill r o) s true (Returned failed))) (chan w)
              [EndOp s (fill r o) failed] w).
Proof.
  intros Hw Hp. destruct (wo_pending w Hw t _ Hp) as [Hb Hdo _ _ _]. destruct Hdo as [E Hd]; [done|].
  eapply stream_call_ok; try done; try (by destruct t, o). intros st (wd & -> & Hwd).
  unfold current_stream. cbn in *.
  destruct t, o; cbn in *; try done; rewrite Hp in *; cbn in *; bool_to_prop;
    rewrite ?H, ?H0, ?Hd in *; cbn; eexists; (split; [reflexivity|]); destruct failed;
    eexists; (split; [reflexivity|]); naive_solver.
Qed.

Lemma upd_upd t p1 p2 c1 c2 l1 l2 w : upd t p2 c2 l2 (upd t p1 c1 l1 w) = upd t p2 c2 (l1 ++ l2) w.
Proof. destruct t; cbn; by rewrite app_assoc. Qed.

(** Calls that concern no stream in a way its protocol restricts. *)
Lemma quiet_calls_ok t w calls :
  world_ok w -> pend t w = None ->
  (forall s st, stream_as w s st -> run_stream s st calls = Some st) ->
  world_ok (upd t None (chan w) calls w).
Proof.
  intros Hw Hp Hq. split; rewrite ?chan_upd; try by destruct Hw.
  - by apply pending_step; [|apply chan_le_refl|..].
  - eapply streams_step; [exact Hw|apply calls_upd|]. intros s st Has. exists st. split; [eauto|].
    unfold stream_as, current_stream in *. rewrite chan_upd. destruct t; cbn in *; by rewrite Hp in Has.
Qed.

(** The result of an operation is noted. *)
Lemma note_ok w t p failed :
  world_ok w -> pend t w = Some p ->
  (if p_do p then p_phase p = Returned failed else failed = false) ->
  world_ok (upd t None (note_result (p_op p) failed (chan w)) [] w).
Proof.
  intros Hw Hp Hf. destruct (wo_pending w Hw t p Hp) as [Hb Hdo Hi _ _].
  destruct Hw as [Hall Hs Hfl Hpend Hst].
  assert (Hstream : stream_ (note_result (p_op p) failed (chan w)) = stream_ (chan w)) by
    by destruct (p_op p).
  assert (Hall' : all_streams_ (note_result (p_op p) failed (chan w)) = all_streams_ (chan w)) by
    by destruct (p_op p).
  split; rewrite ?chan_upd, ?Hstream, ?Hall'; try done.
  - intros E. destruct (p_do p) eqn:Ed; [destruct Hdo; congruence|]. subst failed.
    destruct (Hfl E) as [Hr Hwf]. destruct (p_op p); cbn; by rewrite Hr, Hwf.
  - apply pending_step; [done| |done|].
    { split; [by rewrite Hall'|]. rewrite Hstream. intros s _ E. split; [done|].
      intros o Ho. clear -Ho.
      destruct (p_op p), o, failed; cbn in *;
        destruct (write_failed_ (chan w)), (writes_done_ (chan w)), (read_failed_ (chan w)); done. } intros t' p' Ht' Hp' _. split; [done|].
    pose proof (po_belongs _ _ _ (Hpend t' p' Hp')) as Hb'.
    destruct t, t', (p_op p), (p_op p'); done.
  - eapply streams_step; [done|apply calls_upd|]. intros s st Has. exists st. split; [done|].
    unfold stream_as in *. rewrite chan_upd, Hstream, Hall'. case_decide; [|done].
    destruct Has as (wd & -> & Hwd). exists wd. destruct p as [o s' d ph]. cbn in *.
    destruct d; [subst ph|rewrite Hi in * by done; subst failed];
      destruct t, o; cbn in *; try done; rewrite Hp in *; cbn in *;
      rewrite ?orb_false_r in *; (split; [|naive_solver]); try done; by destruct failed.
Qed.

Lemma finish_ok w t finish_ok :
  world_ok w -> pend t w = None ->
  let '(c, _, calls) := CheckFinishAndResetStream finish_ok (chan w) in world_ok (upd t None c calls w).
Proof.
  intros Hw Hp. unfold CheckFinishAndResetStream.
  assert (Hnone : world_ok (upd t None (chan w) [] w)) by by apply quiet_calls_ok.
  destruct (stream_ (chan w)) as [s|] eqn:E; [|done].
  destruct (read_failed_ _ && _) eqn:Hflags; [|done]. clear Hnone. bool_to_prop.
  assert (Hidle : forall t' p', pend t' w = Some p' -> p_do p' = false /\ p_phase p' = Ready).
  { intros t' p' Hp'. destruct (wo_pending w Hw t' p' Hp') as [Hb Hdo Hi _ _].
    destruct (p_do p') eqn:Ed; [|by split; [|apply Hi]]. destruct Hdo as [_ Hdo]; [done|].
    destruct t', (p_op p'); cbn in *; try done; rewrite ?H in Hdo; bool_to_prop; naive_solver congruence. }
  pose proof (wo_stream w Hw s E) as Hlt.
  split; rewrite ?chan_upd; cbn [stream_ all_streams_ read_failed_ write_failed_]; try by destruct Hw.
  - apply pending_step; [done|by split|done|]. intros t' p' _ Hp' Hd.
    destruct (Hidle t' p' Hp') as [Hd' _]. congruence.
  - eapply streams_step; [done|apply calls_upd|]. intros s' st Has. rewrite run_stream_one.
    unfold stream_as in *. rewrite chan_upd, E in *. cbn [call_stream stream_ all_streams_].
    destruct (decide (Some s = Some s')) as [[= <-]|]; [|eauto].
    destruct Has as (wd & -> & _).
    destruct (ready_flags (writer w)) as [-> ->]; [intros p' Hp'; by destruct (Hidle Writer p' Hp')|].
    destruct (ready_flags (reader w)) as [-> ->]; [intros p' Hp'; by destruct (Hidle Reader p' Hp')|].
    eexists. split; [cbn; rewrite H; reflexivity|]. by rewrite decide_False, decide_True by done.
Qed.

Lemma end_ok w t p failed finish :
  world_ok w -> pend t w = Some p ->
  (if p_do p then p_phase p = Returned failed else failed = false) ->
  world_ok (let '(c, st, calls) := OpEnd (p_op p) failed finish (chan w) in
            upd t None c (calls ++ [Return (p_op p) st]) w).
Proof.
  intros Hw Hp Hf. pose proof (note_ok w t p failed Hw Hp Hf) as H1. unfold OpEnd.
  set (c1 := note_result _ _ _) in *. set (w1 := upd t None c1 [] w) in *.
  assert (Hp1 : pend t w1 = None) by (unfold w1; rewrite pend_upd; by rewrite decide_True).
  assert (Hret : forall c l st, world_ok (upd t None c l w1) ->
            world_ok (upd t None c (l ++ [Return (p_op p) st]) w)).
  { intros c l st H2. unfold w1 in H2. rewrite upd_upd in H2. cbn in H2.
    set (w2 := upd t None c l w) in *.
    assert (Hc2 : chan w2 = c) by apply chan_upd.
    replace (upd t None c (l ++ [Return (p_op p) st]) w)
      with (upd t None (chan w2) [Return (p_op p) st] w2) by (unfold w2; by rewrite chan_upd, upd_upd).
    apply quiet_calls_ok; [done| |done]. unfold w2. rewrite pend_upd. by rewrite decide_True. }
  destruct (side_ended (p_op p) c1).
  - pose proof (finish_ok w1 t finish H1 Hp1) as H2. unfold w1 in H2 at 1. rewrite chan_upd in H2.
    destruct (CheckFinishAndResetStream finish c1) as [[c st_ok] calls]. by apply Hret.
  - apply (Hret _ []). replace c1 with (chan w1) by apply chan_upd. by apply quiet_calls_ok.
Qed.

Lemma cancel_ok w : world_ok w -> pend Writer w = None ->
  world_ok (upd Writer None (chan w) (TryCancel (in_calls w) (chan w)) w).
Proof.
  intros Hw Hp. apply quiet_calls_ok; [done..|]. intros s st Has. unfold TryCancel.
  assert (Hl : forall s', s' ∈ filter (fun s => stream_ (chan w) = Some s \/ s ∈ in_calls w)
                            (all_streams_ (chan w)) -> (s' < length (all_streams_ (chan w)))%nat).
  { intros s' [_ Hin]%list_elem_of_filter. rewrite (wo_all w Hw) in Hin. apply elem_of_seq in Hin. lia. }
  induction (filter _ _) as [|s' l IH]; [done|]. cbn [map].
  change (?c :: ?l) with ([c] ++ l). rewrite run_stream_app, run_stream_one. cbn [call_stream].
  assert (Hrun : (if decide (Some s' = Some s) then accepts st (CancelContext s') else Some st) = Some st).
  { case_decide as E; [|done]. injection E as ->. cbn.
    assert (Ho : opened st = true); [|by destruct st; cbn in *; subst].
    unfold stream_as in Has. case_decide; [by destruct Has as (wd & -> & _)|].
    rewrite decide_True in Has by (apply Hl; left). apply Has. }
  rewrite Hrun. apply IH. intros s0 Hs0. apply Hl. by right.
Qed.

Lemma world_reachable_ok w : reachable w -> world_ok w.
Proof.
  unfold reachable. intros Hr. assert (Hi : world_ok new_world) by apply new_world_ok.
  induction Hr as [w|w w1 w2 Hs _ IH]; [done|]. apply IH. clear IH. destruct Hs.
  - by apply begin_ok.
  - by apply call_ok.
  - by apply return_ok.
  - by apply end_ok.
  - by apply cancel_ok.
Qed.

(** C8: however a writing and a reading thread interleave, and whatever gRPC
    answers, every stream is used by its protocol: one write and one read at
    a time, none after a failure, [Finish] at most once and with nothing in
    progress, and nothing afterwards; and only the channel's stream can be
    open, so a stream is finished before the next one is created. *)
Theorem ClusterAgentChannel_keeps_protocol w s :
  reachable w ->
  exists st, run_stream s fresh_stream (calls_made w) = Some st /\
    (opened st = true -> finished st = false -> stream_ (chan w) = Some s).
Proof.
  intros Hw%world_reachable_ok. destruct (wo_streams w Hw s) as (st & Hr & Has). exists st. split; [done|].
  unfold stream_as in Has. case_decide; [done|]. intros Ho Hf. case_decide; [|by subst].
  destruct Has; congruence.
Qed.

(** What the returned status means: an operation that was attempted returns
    [OK] exactly when the stream carried it out ([WritesDone] never does); one
    that was skipped because its side had ended returns [OK] only if its
    stream was given up during the call. *)
Theorem ClusterAgentChannel_status w t p failed finish :
  reachable w -> pend t w = Some p ->
  (if p_do p then p_phase p = Returned failed else failed = false) ->
  let st := snd (fst (OpEnd (p_op p) failed finish (chan w))) in
  (p_do p = true -> st = OK <-> failed = false /\ p_op p <> WritesDone) /\
  (p_do p = false -> st = OK -> p_op p <> WritesDone /\ stream_ (chan w) <> Some (p_stream p)).
Proof.
  intros Hw%world_reachable_ok Hp Hf st. destruct (wo_pending w Hw t p Hp) as [Hb Hdo _ _ Hskip].
  assert (Hst : st = OK <-> side_ended (p_op p) (note_result (p_op p) failed (chan w)) = false).
  { unfold st, OpEnd. cbv zeta. destruct (side_ended (p_op p) (note_result _ _ _)); [|by split].
    by destruct (CheckFinishAndResetStream _ _) as [[? []] ?]; split. }
  split; intros Hd; rewrite Hst.
  - destruct (Hdo Hd) as [_ Hdt]. clear -Hdt. destruct (p_op p), failed; cbn in *;
      destruct (write_failed_ (chan w)), (writes_done_ (chan w)), (read_failed_ (chan w)); cbn in *;
      intuition congruence.
  - rewrite Hd in Hf. subst failed. intros Hs. split.
    + intros E. rewrite E in Hs. cbn in Hs. by rewrite orb_true_r in Hs.
    + intros E. specialize (Hskip Hd E). destruct (p_op p); cbn in *; rewrite ?orb_false_r in Hs; try congruence.
      by rewrite orb_true_r in Hs.
Qed.

(** ** One thread at a time *)

(** A whole call with nobody in between; [fails] answers for the stream. *)
Definition run_op (fails : nat -> op -> bool) (finish : bool) (o : op) (c : ClusterAgentChannel)
    : ClusterAgentChannel * status * list call :=
  let '(c, (s, d), calls1) := OpBegin o c in
  let failed := if d then fails s o else false in
  let '(c, st, calls2) := OpEnd o failed finish c in
  (c, st, calls1 ++ (if d then [StartOp s o; EndOp s o failed] else []) ++ calls2).

Definition is_read (o : op) : bool := if o is Read _ then true else false.

Definition without_stream (c : ClusterAgentChannel) : ClusterAgentChannel :=
  mkChannel None (all_streams_ c) false false false.

Definition other_side_ended (o : op) (c : ClusterAgentChannel) : bool :=
  if is_read o then write_failed_ c || writes_done_ c else read_failed_ c.

Lemma run_op_new fails finish o c :
  let n := length (all_streams_ c) in
  let '(_, st, calls) := run_op fails finish o (without_stream c) in
  take 3 calls = [RegisterHost n; StartOp n o; EndOp n o (fails n o)] /\
  (st = OK <-> fails n o = false /\ o <> WritesDone).
Proof. unfold run_op. destruct o; cbn; destruct (fails _ _); cbn; intuition congruence. Qed.

Lemma run_op_fails fails finish o c s :
  stream_ c = Some s -> (forall o, fails s o = true) ->
  let '(c1, st1, _) := run_op fails finish o c in
  st1 <> OK /\
  if other_side_ended o c then c1 = without_stream c
  else stream_ c1 = Some s /\ all_streams_ c1 = all_streams_ c /\ side_ended o c1 = true.
Proof.
  destruct c as [st all rf wf wd]. cbn. intros -> Hf.
  destruct o, rf, wf, wd; cbn; unfold run_op; cbn; rewrite ?Hf; cbn; by destruct finish.
Qed.

(** The channel recovers from a dead stream: when every operation on its
    stream fails, one operation of each side, in either order, leaves it
    without a stream and without flags, and the next operation is tried on a
    new stream. *)
Theorem ClusterAgentChannel_recovers fails finish c s o1 o2 o3 :
  stream_ c = Some s -> (forall o, fails s o = true) -> is_read o1 <> is_read o2 ->
  let '(c1, st1, _) := run_op fails finish o1 c in
  let '(c2, st2, _) := run_op fails finish o2 c1 in
  let n := length (all_streams_ c) in
  let '(_, st3, calls3) := run_op fails finish o3 (without_stream c) in
  st1 <> OK /\ (c1 = without_stream c \/ c2 = without_stream c /\ st2 <> OK) /\
  take 3 calls3 = [RegisterHost n; StartOp n o3; EndOp n o3 (fails n o3)] /\
  (st3 = OK <-> fails n o3 = false /\ o3 <> WritesDone).
Proof.
  intros E Hf Ho. pose proof (run_op_new fails finish o3 c) as H3.
  pose proof (run_op_fails fails finish o1 c s E Hf) as H1.
  destruct (run_op fails finish o1 c) as [[c1 st1] l1]. destruct H1 as [Hst1 Hc1].
  destruct (other_side_ended o1 c); [|destruct Hc1 as (E1 & Hall & Hs1)].
  - destruct (run_op fails finish o2 c1) as [[c2 st2] l2].
    destruct (run_op fails finish o3 _) as [[c3 st3] l3]. by auto.
  - pose proof (run_op_fails fails finish o2 c1 s E1 Hf) as H2.
    destruct (run_op fails finish o2 c1) as [[c2 st2] l2]. destruct H2 as [Hst2 Hc2].
    replace (other_side_ended o2 c1) with true in Hc2 by (destruct o1, o2; cbn in *; congruence).
    destruct (run_op fails finish o3 _) as [[c3 st3] l3].
    split; [done|split; [|done]]. right. split; [|done]. subst c2. unfold without_stream. by rewrite Hall.
Qed.

(** ** Interleavings of the two threads that are not as meant *)

(** A read that was skipped, because the stream's reads had ended, returns
    [OK] with the caller's bundle untouched when a failing write gives the
    stream up meanwhile. *)
Lemma Read_ok_without_reading (b : W) (out r : R) :
  exists w, reachable w /\ Return (Read out) OK ∈ calls_made w /\
    Forall (fun c => match c with EndOp _ (Read _) failed => failed = true | _ => True end) (calls_made w).
Proof.
  eexists. split; [|split].
  - unfold reachable, new_world.
    eapply rtc_l; [apply (do_begin _ Reader (Read out)); done|cbn].
    eapply rtc_l; [apply (do_call _ Reader (Read out) 0); reflexivity|cbn].
    eapply rtc_l; [apply (do_return _ Reader (Read out) 0 r true); reflexivity|cbn].
    eapply rtc_l; [apply (do_end _ Reader (mkPending (Read r) 0 true (Returned true)) true true); reflexivity|cbn].
    eapply rtc_l; [apply (do_begin _ Reader (Read out)); done|cbn].
    eapply rtc_l; [apply (do_begin _ Writer (Write b)); done|cbn].
    eapply rtc_l; [apply (do_call _ Writer (Write b) 0); reflexivity|cbn].
    eapply rtc_l; [apply (do_return _ Writer (Write b) 0 r true); reflexivity|cbn].
    eapply rtc_l; [apply (do_end _ Writer (mkPending (Write b) 0 true (Returned true)) true true); reflexivity|cbn].
    eapply rtc_l; [apply (do_end _ Reader (mkPending (Read out) 0 false Ready) false true); reflexivity|cbn].
    apply rtc_refl.
  - cbn. set_solver.
  - cbn. repeat constructor.
Qed.

(** At shutdown the writer closes its side and cancels the streams.  When the
    reader, between two reads, finds the stream gone, its next read opens
    another one that nobody will cancel: it can wait for as long as the server
    likes. *)
Lemma late_read_is_not_cancelled (out r : R) :
  exists w w', reachable w /\ Return WritesDone UnknownError ∈ calls_made w /\
    pend Writer w = None /\ TryCancel (in_calls w) (chan w) = [] /\
    rtc step (upd Writer None (chan w) [] w) w' /\
    reader w' = Some (mkPending (Read out) 1 true Called) /\ stream_ (chan w') = Some 1%nat.
Proof.
  eexists _, _. split; [|split; [|split; [|split; [|split; [|split]]]]].
  - unfold reachable, new_world.
    eapply rtc_l; [apply (do_begin _ Reader (Read out)); done|cbn].
    eapply rtc_l; [apply (do_call _ Reader (Read out) 0); reflexivity|cbn].
    eapply rtc_l; [apply (do_return _ Reader (Read out) 0 r true); reflexivity|cbn].
    eapply rtc_l; [apply (do_end _ Reader (mkPending (Read r) 0 true (Returned true)) true true); reflexivity|cbn].
    eapply rtc_l; [apply (do_begin _ Writer WritesDone); done|cbn].
    eapply rtc_l; [apply (do_call _ Writer WritesDone 0); reflexivity|cbn].
    eapply rtc_l; [apply (do_return _ Writer WritesDone 0 r false); reflexivity|cbn].
    eapply rtc_l; [apply (do_end _ Writer (mkPending WritesDone 0 true (Returned false)) false true); reflexivity|cbn].
    apply rtc_refl.
  - cbn. set_solver.
  - done.
  - done.
  - eapply rtc_l; [apply (do_begin _ Reader (Read out)); done|cbn].
    eapply rtc_l; [apply (do_call _ Reader (Read out) 1); reflexivity|cbn]. apply rtc_refl.
  - done.
  - done.
Qed.
End ClusterAgentChannel.

Section ChannelExample.
Let write (n : nat) : @op nat nat := Write n.

(** A bundle is written while a read waits. *)
Let w_end : @world nat nat :=
  mkWorld (mkChannel (Some 0%nat) [0%nat] false false false)
    (Some (mkPending (write 7) 0 true (Returned false)))
    (Some (mkPending (Read 0%nat) 0 true Called))
    [RegisterHost 0; StartOp 0 (Read 0%nat); StartOp 0 (write 7); EndOp 0 (write 7) false].

Lemma w_end_reachable : reachable w_end.
Proof.
  unfold reachable, new_world.
  eapply rtc_l; [apply (do_begin _ Reader (Read 0%nat)); done|cbn].
  eapply rtc_l; [apply (do_call _ Reader (Read 0%nat) 0); reflexivity|cbn].
  eapply rtc_l; [apply (do_begin _ Writer (write 7)); done|cbn].
  eapply rtc_l; [apply (do_call _ Writer (write 7) 0); reflexivity|cbn].
  eapply rtc_l; [apply (do_return _ Writer (write 7) 0 0%nat false); reflexivity|cbn].
  apply rtc_refl.
Qed.

Lemma ClusterAgentChannel_keeps_protocol_witness :
  exists st, run_stream 0 fresh_stream (calls_made w_end) = Some st /\ reading st = true.
Proof.
  destruct (ClusterAgentChannel_keeps_protocol w_end 0 w_end_reachable) as (st & Hst & _).
  exists st. split; [exact Hst|]. cbn in Hst. by injection Hst as <-.
Defined.

Lemma ClusterAgentChannel_status_witness : snd (fst (OpEnd (write 7) false true (chan w_end))) = OK.
Proof.
  apply (ClusterAgentChannel_status w_end Writer (mkPending (write 7) 0 true (Returned false)) false true
           w_end_reachable); try done.
Defined.

Lemma ClusterAgentChannel_recovers_witness :
  let fails (s : nat) (o : @op nat nat) := bool_decide (s = 0%nat) in
  snd (fst (run_op fails true (write 9) (without_stream (chan w_end)))) = OK.
Proof.
  intros fails.
  pose proof (ClusterAgentChannel_recovers fails true (chan w_end) 0 (write 8) (Read 0%nat) (write 9)) as H.
  cbn in H. apply H; [reflexivity|intros; reflexivity|discriminate|by split].
Defined.
End ChannelExample.
