(* ===== verification/Threads.v ===== *)
(** * Threads: the executor, its task groups, and the lossy queue

    src/heyp/threads/executor.{h,cc}, waitgroup.{h,cc} and lossy-queue.h.
    Each critical section is one step; a thread that holds no lock is at a
    program point of its own.  The step relation of the executor lets any
    number of clients and workers interleave.  A task is its group and a
    number; what a task does is not modelled here (see [ClusterAllocator] and
    [FastController] for what the tasks of a run do).  [WaitAll] has three
    steps (the wait for the count, [children_.Done], [exec_ = nullptr]) and
    the destructor two (the wait for the children, [is_dead]).  Every failed
    assertion is [None] or a stuck state that the claims exclude. *)

From S2P Require Import Prelude.

(** ** LossyQueue *)

Section LossyQueue.
Context {T : Type}.

Record LossyQueue := mkLossyQueue { data_ : option T; lq_closed_ : bool }.

Definition new_LossyQueue : LossyQueue := mkLossyQueue None false.

Definition Write (q : LossyQueue) (x : T) : LossyQueue :=
  if lq_closed_ q then q else mkLossyQueue (Some x) false.

Definition Close (q : LossyQueue) : LossyQueue := mkLossyQueue (data_ q) true.

(** [None]: the reader waits. *)
Definition Read (q : LossyQueue) : option (LossyQueue * option T) :=
  match data_ q with
  | Some x => Some (mkLossyQueue None (lq_closed_ q), Some x)
  | None => if lq_closed_ q then Some (q, None) else None
  end.

Inductive queue_op := QWrite (x : T) | QClose | QRead.

(** The queue after the operations and what the reads got. *)
Fixpoint run_queue (q : LossyQueue) (ops : list queue_op) : option (LossyQueue * list (option T)) :=
  match ops with
  | [] => Some (q, [])
  | QWrite x :: ops => run_queue (Write q x) ops
  | QClose :: ops => run_queue (Close q) ops
  | QRead :: ops => '(q, x) ← Read q; '(q, xs) ← run_queue q ops; Some (q, x :: xs)
  end.

Definition written (ops : list queue_op) : list T :=
  omap (fun o => match o with QWrite x => Some x | _ => None end) ops.

Definition pending (q : LossyQueue) : list T := match data_ q with Some x => [x] | None => [] end.

(** What is read is a subsequence of what was written, in order. *)
Lemma run_queue_sublist ops : forall q q' xs,
  run_queue q ops = Some (q', xs) ->
  sublist (omap id xs ++ pending q') (pending q ++ written ops).
Proof.
  induction ops as [|[x| |] ops IH]; intros q q' xs; cbn [run_queue].
  - intros [= <- <-]. cbn. by rewrite app_nil_r.
  - intros Hr%IH. unfold Write in Hr. destruct q as [d []]; cbn in *.
    + etrans; [exact Hr|]. destruct d; cbn; [by do 2 constructor|by constructor].
    + etrans; [exact Hr|]. destruct d; cbn; [by do 2 constructor|done].
  - intros Hr%IH. exact Hr.
  - destruct q as [[y|] c]; unfold Read; cbn [data_ mbind option_bind lq_closed_].
    + destruct (run_queue _ ops) as [[q1 ys]|] eqn:E; [|done]. cbn. intros [= <- <-]. cbn.
      apply sublist_skip. by apply (IH _ _ _ E).
    + destruct c; [|done]. cbn [mbind option_bind].
      destruct (run_queue _ ops) as [[q1 ys]|] eqn:E; [|done]. cbn. intros [= <- <-]. cbn.
      apply (IH _ _ _ E).
Qed.
End LossyQueue.

(** ** WaitGroup *)

Definition WG_Add (count n : Z) : option Z := if 0 <=? n then Some (count + n) else None.
Definition WG_Done (count n : Z) : option Z :=
  if (0 <=? n) && (n <=? count) then Some (count - n) else None.
(** Whether [Wait] returns. *)
Definition WG_Wait (count : Z) : bool := count =? 0.

(** ** Executor *)

Notation group_id := nat (only parsing).

Record task := mkTask { t_group : group_id; t_id : nat }.

#[export] Instance task_eq_dec : EqDecision task.
Proof. solve_decision. Defined.

(** A worker: waiting for a task, about to run one (with what it read of
    [is_dead]), about to count it done, or gone. *)
Inductive worker :=
  | WaitData
  | Running (is_dead : bool) (t : task)
  | Counting (is_dead : bool) (t : task)
  | Exited.

(** How far [WaitAll] has come with a group: the count was seen to be zero,
    [children_.Done] was called, [exec_] is null. *)
Inductive group_phase := GroupOpen | AllDone | Released | Detached.

Record TaskGroup := mkTaskGroup { phase : group_phase; count_ : Z }.

(** Counted in [children_]. *)
Definition is_child (tg : TaskGroup) : bool := match phase tg with GroupOpen | AllDone => true | _ => false end.

(** [pushing]: the tasks whose [AddTask] is between its two critical
    sections; [destroying]: the destructor is past [children_.Wait];
    [added] and [ran] record the history. *)
Record Executor := mkExecutor {
  tasks : list task;
  is_dead : bool;
  children_ : Z;
  destroying : bool;
  workers_ : list worker;
  groups : gmap group_id TaskGroup;
  pushing : list task;
  added : list task;
  ran : list task }.

Definition new_Executor (num_workers : nat) : Executor :=
  mkExecutor [] false 0 false (replicate num_workers WaitData) ∅ [] [] [].

Definition set_worker (e : Executor) (w : nat) (s : worker) : Executor :=
  mkExecutor (tasks e) (is_dead e) (children_ e) (destroying e) (<[w := s]> (workers_ e)) (groups e) (pushing e)
    (added e) (ran e).

Definition set_group (e : Executor) (g : group_id) (tg : TaskGroup) : Executor :=
  mkExecutor (tasks e) (is_dead e) (children_ e) (destroying e) (workers_ e) (<[g := tg]> (groups e)) (pushing e)
    (added e) (ran e).

Definition set_children (e : Executor) (n : Z) : Executor :=
  mkExecutor (tasks e) (is_dead e) n (destroying e) (workers_ e) (groups e) (pushing e) (added e) (ran e).

Definition set_tasks (e : Executor) (l : list task) : Executor :=
  mkExecutor l (is_dead e) (children_ e) (destroying e) (workers_ e) (groups e) (pushing e) (added e) (ran e).

Definition start_push (e : Executor) (t : task) : Executor :=
  mkExecutor (tasks e) (is_dead e) (children_ e) (destroying e) (workers_ e) (groups e) (t :: pushing e)
    (added e ++ [t]) (ran e).

Definition end_push (e : Executor) (before after : list task) : Executor :=
  mkExecutor (tasks e) (is_dead e) (children_ e) (destroying e) (workers_ e) (groups e) (before ++ after)
    (added e) (ran e).

Definition record_run (e : Executor) (t : task) : Executor :=
  mkExecutor (tasks e) (is_dead e) (children_ e) (destroying e) (workers_ e) (groups e) (pushing e)
    (added e) (ran e ++ [t]).

Definition start_destroy (e : Executor) : Executor :=
  mkExecutor (tasks e) (is_dead e) (children_ e) true (workers_ e) (groups e) (pushing e) (added e) (ran e).

Definition die (e : Executor) : Executor :=
  mkExecutor (tasks e) true (children_ e) (destroying e) (workers_ e) (groups e) (pushing e) (added e) (ran e).

(** What a worker does when it gets the lock: it takes the last task, if any. *)
Definition take_task (e : Executor) (w : nat) : Executor :=
  match last (tasks e) with
  | Some t => set_tasks (set_worker e w (Running (is_dead e) t)) (removelast (tasks e))
  | None => set_worker e w Exited
  end.

Definition count_down (e : Executor) (w : nat) (dead : bool) (t : task) (tg : TaskGroup) : Executor :=
  set_group (set_worker e w (if dead then Exited else WaitData)) (t_group t)
    (mkTaskGroup (phase tg) (count_ tg - 1)).

(** Clients neither add tasks to a group after its [WaitAll] saw the end, nor
    make groups of an executor that is being destroyed. *)
Inductive executor_step (e : Executor) : Executor -> Prop :=
  (** clients *)
  | step_new_group g : groups e !! g = None -> destroying e = false ->
      executor_step e (set_children (set_group e g (mkTaskGroup GroupOpen 0)) (children_ e + 1))
  | step_add_count g n tg : groups e !! g = Some tg -> phase tg = GroupOpen ->
      mkTask g n ∉ added e ->
      executor_step e (start_push (set_group e g (mkTaskGroup GroupOpen (count_ tg + 1))) (mkTask g n))
  | step_add_push t before after : pushing e = before ++ t :: after ->
      executor_step e (set_tasks (end_push e before after) (tasks e ++ [t]))
  | step_wait_all g tg : groups e !! g = Some tg -> phase tg = GroupOpen -> count_ tg = 0 ->
      executor_step e (set_group e g (mkTaskGroup AllDone (count_ tg)))
  | step_release g tg n : groups e !! g = Some tg -> phase tg = AllDone -> WG_Done (children_ e) 1 = Some n ->
      executor_step e (set_children (set_group e g (mkTaskGroup Released (count_ tg))) n)
  | step_detach g tg : groups e !! g = Some tg -> phase tg = Released ->
      executor_step e (set_group e g (mkTaskGroup Detached (count_ tg)))
  | step_destroy : WG_Wait (children_ e) = true -> executor_step e (start_destroy e)
  | step_die : destroying e = true -> executor_step e (die e)
  (** workers *)
  | step_take w : workers_ e !! w = Some WaitData -> tasks e <> [] \/ is_dead e = true ->
      executor_step e (take_task e w)
  | step_run w d t : workers_ e !! w = Some (Running d t) ->
      executor_step e (set_worker (record_run e t) w (Counting d t))
  | step_count w d t tg : workers_ e !! w = Some (Counting d t) ->
      groups e !! t_group t = Some tg ->
      executor_step e (count_down e w d t tg).

Definition executor_reachable (n : nat) (e : Executor) : Prop := rtc executor_step (new_Executor n) e.

(** *** Where the tasks are *)

Definition worker_task (s : worker) : option task :=
  match s with Running _ t | Counting _ t => Some t | _ => None end.
Definition worker_unrun (s : worker) : option task :=
  match s with Running _ t => Some t | _ => None end.

Definition in_flight (e : Executor) : list task := pushing e ++ tasks e ++ omap worker_task (workers_ e).
Definition unrun (e : Executor) : list task := pushing e ++ tasks e ++ omap worker_unrun (workers_ e).
Definition of_group (g : group_id) (l : list task) : nat :=
  length (filter (fun t => t_group t = g) l).
Definition open_groups (e : Executor) : gset group_id :=
  dom (filter (fun p => is_child (snd p) = true) (groups e)).

(** Whether a worker saw [is_dead]. *)
Definition saw_dead (s : worker) : bool :=
  match s with WaitData => false | Running d _ | Counting d _ => d | Exited => true end.

Record executor_ok (e : Executor) : Prop := {
  ex_added : added e ≡ₚ unrun e ++ ran e;
  ex_nodup : NoDup (added e);
  ex_count : forall g tg, groups e !! g = Some tg -> count_ tg = Z.of_nat (of_group g (in_flight e));
  ex_open : forall t, t ∈ in_flight e ->
    exists tg, groups e !! t_group t = Some tg /\ phase tg = GroupOpen;
  ex_children : children_ e = Z.of_nat (size (open_groups e));
  ex_destroying : destroying e = true -> children_ e = 0;
  ex_dead : is_dead e = true -> destroying e = true;
  ex_saw : forall s, s ∈ workers_ e -> saw_dead s = true -> is_dead e = true }.

#[local] Arguments of_group : simpl never.

Lemma of_group_perm g l1 l2 : l1 ≡ₚ l2 -> of_group g l1 = of_group g l2.
Proof. intros Hp. unfold of_group. by rewrite Hp. Qed.

Lemma of_group_cons g t l :
  of_group g (t :: l) = ((if decide (t_group t = g) then 1 else 0) + of_group g l)%nat.
Proof. unfold of_group. rewrite filter_cons. by case_decide. Qed.

Lemma of_group_0 g l : of_group g l = 0%nat <-> forall t, t ∈ l -> t_group t <> g.
Proof.
  induction l as [|t l IH].
  - split; [|done]. intros _ t Ht. by apply elem_of_nil in Ht.
  - rewrite of_group_cons. split.
    + intros H0. destruct (decide _) as [|Hne]; [lia|].
      intros t' [->|Ht]%elem_of_cons; [done|]. by apply IH.
    + intros H. rewrite decide_False by (apply H; by left). apply IH. intros t' Ht. apply H. by right.
Qed.

Lemma delete_insert_list {A} (x : A) : forall (l : list A) i, delete i (<[i := x]> l) = delete i l.
Proof. induction l as [|y l IH]; intros [|i]; cbn; try done. f_equal. apply IH. Qed.

Lemma omap_insert_perm {A B} (f : A -> option B) (l : list A) i x y :
  l !! i = Some x ->
  omap f l ≡ₚ option_list (f x) ++ omap f (delete i l) /\
  omap f (<[i := y]> l) ≡ₚ option_list (f y) ++ omap f (delete i l).
Proof.
  intros Hi. assert (Hc : forall z l', omap f (z :: l') = option_list (f z) ++ omap f l')
    by (intros z l'; cbn; by destruct (f z)).
  split; rewrite <- Hc; apply omap_Permutation.
  - by apply delete_Permutation.
  - assert (Hy : <[i := y]> l !! i = Some y)
      by (apply list_lookup_insert_eq; by eapply lookup_lt_Some).
    rewrite (delete_Permutation _ _ _ Hy). by rewrite delete_insert_list.
Qed.

Lemma open_groups_empty e t : executor_ok e -> t ∈ in_flight e -> children_ e <> 0.
Proof.
  intros Hok Ht. destruct (ex_open e Hok t Ht) as (tg & Hg & Hx). rewrite (ex_children e Hok).
  assert (t_group t ∈ open_groups e).
  { unfold open_groups. apply elem_of_dom. exists tg. apply map_lookup_filter_Some. split; [done|]. unfold is_child. cbn. by rewrite Hx. }
  assert (size (open_groups e) <> 0%nat) by (apply size_non_empty_iff; set_solver). lia.
Qed.

Lemma new_Executor_ok n : executor_ok (new_Executor n).
Proof.
  assert (Hw : forall {B} (f : worker -> option B), f WaitData = None -> omap f (replicate n WaitData) = []).
  { intros B f Hf. induction n as [|k IH]; [done|]. cbn. by rewrite Hf. }
  split; unfold in_flight, unrun; cbn; rewrite ?Hw by done; try done.
  - by constructor.
  - intros t Ht. by apply elem_of_nil in Ht.
  - intros s Hs. apply elem_of_replicate in Hs as [-> _]. done.
Qed.

(** *** Preservation *)

(** A step of a worker that moves its task from place to place. *)
Lemma worker_step_lists e w s s' :
  workers_ e !! w = Some s ->
  omap worker_task (workers_ e) ≡ₚ option_list (worker_task s) ++ omap worker_task (delete w (workers_ e)) /\
  omap worker_task (<[w := s']> (workers_ e)) ≡ₚ
    option_list (worker_task s') ++ omap worker_task (delete w (workers_ e)) /\
  omap worker_unrun (workers_ e) ≡ₚ option_list (worker_unrun s) ++ omap worker_unrun (delete w (workers_ e)) /\
  omap worker_unrun (<[w := s']> (workers_ e)) ≡ₚ
    option_list (worker_unrun s') ++ omap worker_unrun (delete w (workers_ e)).
Proof.
  intros Hw. destruct (omap_insert_perm worker_task _ w s s' Hw).
  by destruct (omap_insert_perm worker_unrun _ w s s' Hw).
Qed.

(** Nothing but the order of the tasks in flight changes. *)
Lemma executor_ok_perm e e' :
  executor_ok e ->
  added e' = added e -> unrun e' ++ ran e' ≡ₚ unrun e ++ ran e -> in_flight e' ≡ₚ in_flight e ->
  groups e' = groups e -> children_ e' = children_ e -> destroying e' = destroying e -> (is_dead e' = true -> is_dead e = true) ->
  (forall s, s ∈ workers_ e' -> saw_dead s = true -> is_dead e' = true) ->
  executor_ok e'.
Proof.
  intros [Ha Hn Hc Ho Hch Hd Hdd Hs] Ea Eu Ei Eg Ech Eds Ed Es. split; try done.
  - rewrite Ea, Eu. exact Ha.
  - by rewrite Ea.
  - intros g tg. rewrite Eg, (of_group_perm g _ _ Ei). apply Hc.
  - intros t. rewrite Ei, Eg. apply Ho.
  - unfold open_groups. by rewrite Ech, Eg.
  - rewrite Ech, Eds. auto.
  - rewrite Eds. auto.
Qed.

Lemma worker_saw e w s' :
  executor_ok e -> (saw_dead s' = true -> is_dead e = true) ->
  forall s, s ∈ <[w := s']> (workers_ e) -> saw_dead s = true -> is_dead e = true.
Proof.
  intros Hok Hs' s Hs. apply list_elem_of_lookup in Hs as [i Hi].
  apply list_lookup_insert_Some in Hi as [(-> & <- & _)|[_ Hi]]; [done|].
  apply (ex_saw e Hok). by eapply list_elem_of_lookup_2.
Qed.

Lemma take_task_ok e w :
  executor_ok e -> workers_ e !! w = Some WaitData -> tasks e <> [] \/ is_dead e = true ->
  executor_ok (take_task e w).
Proof.
  intros Hok Hw Hne. unfold take_task. destruct (last (tasks e)) as [t|] eqn:El.
  - apply last_Some in El as [l El]. rewrite El, removelast_last.
    destruct (worker_step_lists e w WaitData (Running (is_dead e) t) Hw) as (H1 & H2 & H3 & H4).
    apply (executor_ok_perm e); try done; unfold unrun, in_flight; cbn.
    + rewrite El, H3, H4. cbn. solve_Permutation.
    + rewrite El, H1, H2. cbn. solve_Permutation.
    + apply worker_saw; auto.
  - apply last_None in El. destruct Hne as [|Hd]; [done|].
    destruct (worker_step_lists e w WaitData Exited Hw) as (H1 & H2 & H3 & H4).
    apply (executor_ok_perm e); try done; unfold unrun, in_flight; cbn.
    + by rewrite H3, H4.
    + by rewrite H1, H2.
Qed.

Lemma run_ok e w d t :
  executor_ok e -> workers_ e !! w = Some (Running d t) ->
  executor_ok (set_worker (record_run e t) w (Counting d t)).
Proof.
  intros Hok Hw. destruct (worker_step_lists e w _ (Counting d t) Hw) as (H1 & H2 & H3 & H4).
  apply (executor_ok_perm e); try done; unfold unrun, in_flight; cbn.
  - rewrite H3, H4. cbn. solve_Permutation.
  - by rewrite H1, H2.
  - apply worker_saw; [done|]. apply (ex_saw e Hok (Running d t)). by eapply list_elem_of_lookup_2.
Qed.

Lemma new_group_ok e g :
  executor_ok e -> groups e !! g = None -> destroying e = false ->
  executor_ok (set_children (set_group e g (mkTaskGroup GroupOpen 0)) (children_ e + 1)).
Proof.
  intros [Ha Hn Hc Ho Hch Hd Hdd Hs] Hg Hdead.
  assert (Hfree : forall t, t ∈ in_flight e -> t_group t <> g).
  { intros t (tg & Ht & _)%Ho <-. congruence. }
  split; try done; cbn.
  - intros g' tg [[<- <-]|[Hne Hl]]%lookup_insert_Some; [|by apply Hc].
    symmetry. apply (f_equal Z.of_nat (y := 0%nat)), of_group_0, Hfree.
  - intros t Ht. destruct (Ho t Ht) as (tg & Hl & Hx). exists tg.
    rewrite lookup_insert_ne; [done|]. intros ->. by apply (Hfree t).
  - unfold open_groups. cbn. rewrite map_filter_insert_True by done.
    rewrite dom_insert_L, size_union, size_singleton.
    + unfold open_groups in Hch. lia.
    + apply disjoint_singleton_l. rewrite elem_of_dom. intros [x Hx].
      apply map_lookup_filter_Some in Hx as [Hx _]. congruence.
  - congruence.
Qed.

Lemma open_groups_update e g tg tg' :
  groups e !! g = Some tg -> is_child tg = true -> is_child tg' = true ->
  open_groups (set_group e g tg') = open_groups e.
Proof.
  intros Hg Hx Hx'. unfold open_groups. cbn. rewrite map_filter_insert_True by done.
  rewrite dom_insert_L. apply subseteq_union_1_L, singleton_subseteq_l, elem_of_dom.
  exists tg. by apply map_lookup_filter_Some.
Qed.

Lemma add_count_ok e g n tg :
  executor_ok e -> groups e !! g = Some tg -> phase tg = GroupOpen -> mkTask g n ∉ added e ->
  executor_ok (start_push (set_group e g (mkTaskGroup GroupOpen (count_ tg + 1))) (mkTask g n)).
Proof.
  intros [Ha Hn Hc Ho Hch Hd Hdd Hs] Hg Hx Hni. split; try done; cbn.
  - rewrite Ha. unfold unrun. cbn. solve_Permutation.
  - rewrite NoDup_app. split_and!; [done| |apply NoDup_singleton].
    intros t Ht ->%list_elem_of_singleton. done.
  - intros g' tg'. unfold in_flight. cbn. rewrite of_group_cons. cbn.
    intros [[<- <-]|[Hne Hl]]%lookup_insert_Some.
    + rewrite decide_True by done. cbn. specialize (Hc g tg Hg). unfold in_flight in Hc. lia.
    + rewrite decide_False by done. by apply Hc.
  - intros t. unfold in_flight. cbn. intros [->|Ht]%elem_of_cons.
    + exists (mkTaskGroup GroupOpen (count_ tg + 1)). cbn. by rewrite lookup_insert_eq.
    + destruct (Ho t Ht) as (tg' & Hl & Hx'). destruct (decide (t_group t = g)) as [->|Hne].
      * exists (mkTaskGroup GroupOpen (count_ tg + 1)). by rewrite lookup_insert_eq.
      * exists tg'. by rewrite lookup_insert_ne.
  - change (open_groups (start_push ?e' _)) with (open_groups e').
    by rewrite (open_groups_update e g tg) by (unfold is_child; by rewrite ?Hx).
Qed.

Lemma add_push_ok e t before after :
  executor_ok e -> pushing e = before ++ t :: after ->
  executor_ok (set_tasks (end_push e before after) (tasks e ++ [t])).
Proof.
  intros Hok Hp. apply (executor_ok_perm e); try done; unfold unrun, in_flight; cbn.
  - rewrite Hp. solve_Permutation.
  - rewrite Hp. solve_Permutation.
  - apply (ex_saw e Hok).
Qed.

(** A group that has no task in flight comes to another phase. *)
Lemma set_phase_ok e g tg p n :
  executor_ok e -> groups e !! g = Some tg -> (forall t, t ∈ in_flight e -> t_group t <> g) ->
  n = Z.of_nat (size (open_groups (set_group e g (mkTaskGroup p (count_ tg))))) -> (destroying e = true -> n = 0) ->
  executor_ok (set_children (set_group e g (mkTaskGroup p (count_ tg))) n).
Proof.
  intros [Ha Hn Hc Ho Hch Hd Hdd Hs] Hg Hfree En Hds. split; try done; cbn.
  - intros g' tg' [[<- <-]|[Hne Hl]]%lookup_insert_Some; [by apply (Hc g tg)|by apply Hc].
  - intros t Ht. destruct (Ho t Ht) as (tg' & Hl & Hx'). exists tg'.
    rewrite lookup_insert_ne; [done|]. intros ->. by apply (Hfree t).
Qed.

Lemma wait_all_ok e g tg :
  executor_ok e -> groups e !! g = Some tg -> phase tg = GroupOpen -> count_ tg = 0 ->
  executor_ok (set_group e g (mkTaskGroup AllDone (count_ tg))).
Proof.
  intros Hok Hg Hx H0. apply (set_phase_ok e g tg AllDone (children_ e)); [done|done| | |apply (ex_destroying e Hok)].
  - apply of_group_0. pose proof (ex_count e Hok _ tg Hg). lia.
  - rewrite (open_groups_update e g tg) by (unfold is_child; by rewrite ?Hx). apply (ex_children e Hok).
Qed.

(** No task of a group is in flight once [WaitAll] has seen that. *)
Lemma not_open_free e g tg : executor_ok e -> groups e !! g = Some tg -> phase tg <> GroupOpen ->
  forall t, t ∈ in_flight e -> t_group t <> g.
Proof. intros Hok Hg Hx t Ht <-. destruct (ex_open e Hok t Ht) as (tg' & Hl & Hp). congruence. Qed.

Lemma release_ok e g tg n :
  executor_ok e -> groups e !! g = Some tg -> phase tg = AllDone -> WG_Done (children_ e) 1 = Some n ->
  executor_ok (set_children (set_group e g (mkTaskGroup Released (count_ tg))) n).
Proof.
  intros Hok Hg Hx. unfold WG_Done. destruct (_ && _); [|done]. intros [= <-].
  assert (Hin : g ∈ open_groups e).
  { apply elem_of_dom. exists tg. apply map_lookup_filter_Some. split; [done|]. unfold is_child. cbn. by rewrite Hx. }
  assert (Hsz : size (open_groups e) = S (size (open_groups e ∖ {[g]}))).
  { rewrite size_difference by set_solver. rewrite size_singleton.
    assert (size (open_groups e) <> 0%nat) by (apply size_non_empty_iff; set_solver). lia. }
  pose proof (ex_children e Hok) as Hch. apply set_phase_ok; [done|done|by apply (not_open_free e g tg); [..|rewrite Hx]| |].
  - unfold open_groups in *. cbn. rewrite map_filter_insert_False by (by cbn).
    rewrite map_filter_delete, dom_delete_L. lia.
  - intros Hds. pose proof (ex_destroying e Hok Hds). lia.
Qed.

Lemma detach_ok e g tg :
  executor_ok e -> groups e !! g = Some tg -> phase tg = Released ->
  executor_ok (set_group e g (mkTaskGroup Detached (count_ tg))).
Proof.
  intros Hok Hg Hx. apply (set_phase_ok e g tg Detached (children_ e)); [done|done| | |apply (ex_destroying e Hok)].
  - apply (not_open_free e g tg); [done..|by rewrite Hx].
  - rewrite (ex_children e Hok). unfold open_groups. cbn. rewrite map_filter_insert_False by (by cbn).
    rewrite map_filter_delete, delete_id; [done|]. apply map_lookup_filter_None. right. intros x Hl. unfold is_child. cbn.
    replace x with tg by congruence. by rewrite Hx.
Qed.

Lemma destroy_ok e : executor_ok e -> children_ e = 0 -> executor_ok (start_destroy e).
Proof. intros [Ha Hn Hc Ho Hch Hd Hdd Hs] H0. split; try done. Qed.

Lemma die_ok e : executor_ok e -> destroying e = true -> executor_ok (die e).
Proof. intros [Ha Hn Hc Ho Hch Hd Hdd Hs] H0. split; try done. Qed.

Lemma count_down_ok e w d t tg :
  executor_ok e -> workers_ e !! w = Some (Counting d t) -> groups e !! t_group t = Some tg ->
  executor_ok (count_down e w d t tg).
Proof.
  intros Hok Hw Hg. set (s' := if d then Exited else WaitData).
  destruct (worker_step_lists e w _ s' Hw) as (H1 & H2 & H3 & H4).
  assert (Et : worker_task s' = None /\ worker_unrun s' = None) by (unfold s'; by destruct d).
  destruct Et as [Et Eu]. rewrite Et in H2. rewrite Eu in H4. cbn [worker_task worker_unrun option_list] in *.
  assert (Hfl : in_flight e ≡ₚ t :: in_flight (count_down e w d t tg)).
  { unfold in_flight. cbn. fold s'. rewrite H1, H2. cbn. solve_Permutation. }
  assert (Hsaw : forall s, s ∈ <[w := s']> (workers_ e) -> saw_dead s = true -> is_dead e = true).
  { apply worker_saw; [done|]. unfold s'. destruct d; [|done]. intros _.
    apply (ex_saw e Hok (Counting true t)); [by eapply list_elem_of_lookup_2|done]. }
  destruct Hok as [Ha Hn Hc Ho Hch Hd Hdd Hs].
  destruct (Ho t) as (tg' & Hg' & Hx); [rewrite Hfl; by left|].
  assert (tg' = tg) as -> by congruence.
  split; try done.
  - cbn. rewrite Ha. unfold unrun. cbn. fold s'. rewrite H3, H4. done.
  - intros g' tg2. cbn [count_down set_group groups set_worker].
    intros [[<- <-]|[Hne Hl]]%lookup_insert_Some.
    + specialize (Hc _ tg Hg). rewrite (of_group_perm _ _ _ Hfl), of_group_cons, decide_True in Hc by done.
      cbn [count_]. lia.
    + rewrite (Hc g' tg2 Hl), (of_group_perm _ _ _ Hfl), of_group_cons, decide_False by done. done.
  - intros t' Ht'. destruct (Ho t') as (tg2 & Hl & Hx2); [rewrite Hfl; by right|].
    cbn [count_down set_group groups set_worker]. destruct (decide (t_group t' = t_group t)) as [->|Hne].
    + eexists. rewrite lookup_insert_eq. split; [done|]. exact Hx.
    + exists tg2. by rewrite lookup_insert_ne.
  - cbn. rewrite Hch. f_equal. f_equal. unfold count_down. rewrite Hx.
    symmetry. apply (open_groups_update e (t_group t) tg); unfold is_child; cbn; by rewrite ?Hx.
Qed.

Lemma executor_reachable_ok n e : executor_reachable n e -> executor_ok e.
Proof.
  unfold executor_reachable. intros Hr. pose proof (new_Executor_ok n) as Hi.
  induction Hr as [e|e e1 e2 Hs _ IH]; [done|]. apply IH. clear IH. destruct Hs.
  - by apply new_group_ok.
  - by apply add_count_ok.
  - by apply add_push_ok.
  - by apply wait_all_ok.
  - by apply release_ok.
  - by apply (detach_ok e g tg).
  - apply destroy_ok; [done|]. by apply Z.eqb_eq.
  - by apply die_ok.
  - by apply take_task_ok.
  - by apply run_ok.
  - by apply count_down_ok.
Qed.

(** Between [WaitAll]'s wait and its [Done], and before, the group is one of
    the children. *)
Lemma child_counted e g tg : executor_ok e -> groups e !! g = Some tg -> is_child tg = true -> 0 < children_ e.
Proof.
  intros Hok Hg Hx. assert (g ∈ open_groups e) by (apply elem_of_dom; exists tg; by apply map_lookup_filter_Some).
  assert (size (open_groups e) <> 0%nat) by (apply size_non_empty_iff; set_solver). rewrite (ex_children e Hok). lia.
Qed.

Lemma dead_done e : executor_ok e -> destroying e = true -> in_flight e = [].
Proof.
  intros Hok Hd. destruct (in_flight e) as [|t l] eqn:E; [done|]. exfalso.
  apply (open_groups_empty e t Hok); [rewrite E; by left|by apply (ex_destroying e Hok)].
Qed.

Lemma unrun_in_flight e t : t ∈ unrun e -> t ∈ in_flight e.
Proof.
  unfold unrun, in_flight. rewrite !elem_of_app. intros [?|[?|Hw]]; [tauto..|].
  right; right. apply list_elem_of_omap in Hw as (s & Hs' & Ht). apply list_elem_of_omap.
  exists s. split; [done|]. by destruct s.
Qed.

(** C25: the executor runs every task at most once and loses none: the tasks
    that were added are, each once, those that have run, those that wait in
    the queue, those a worker took and has not run, and those whose [AddTask]
    is in progress; so when a group's count is zero, where [WaitAll] returns,
    each task of the group has run, and after the executor is destroyed every
    task has.  No assertion fails: a task is never pushed to a dead executor,
    a counted task's group is there with a positive count, and the wait group
    covers the groups whose [WaitAll] has not released it.  Clients add no
    task to a group whose [WaitAll] has seen the end. *)
Theorem Executor_runs_each_task_once n e :
  executor_reachable n e ->
  added e ≡ₚ pushing e ++ tasks e ++ omap worker_unrun (workers_ e) ++ ran e /\
  NoDup (ran e) /\ (forall t, t ∈ ran e -> t ∈ added e) /\
  (forall g tg t, groups e !! g = Some tg -> count_ tg = 0 -> t ∈ added e -> t_group t = g -> t ∈ ran e) /\
  (forall g tg t, groups e !! g = Some tg -> phase tg <> GroupOpen -> t ∈ added e -> t_group t = g -> t ∈ ran e) /\
  (is_dead e = true -> added e ≡ₚ ran e) /\
  (pushing e <> [] -> is_dead e = false) /\
  (forall w d t, workers_ e !! w = Some (Counting d t) ->
     exists tg, groups e !! t_group t = Some tg /\ 0 < count_ tg) /\
  (forall g tg, groups e !! g = Some tg -> is_child tg = true -> is_Some (WG_Done (children_ e) 1)).
Proof.
  intros Hok%executor_reachable_ok. pose proof Hok as [Ha Hn Hc Ho Hch Hd Hdd Hs].
  assert (Hdone : forall g t, (forall t, t ∈ in_flight e -> t_group t <> g) -> t ∈ added e -> t_group t = g -> t ∈ ran e).
  { intros g t Hfree Hadd Hgt. rewrite Ha in Hadd. apply elem_of_app in Hadd as [Hu|]; [|done].
    by apply unrun_in_flight, Hfree in Hu. }
  rewrite Ha in Hn. apply NoDup_app in Hn as (_ & _ & Hran).
  split_and!; try done.
  - rewrite Ha. unfold unrun. by rewrite <- !app_assoc.
  - intros t Ht. rewrite Ha. apply elem_of_app. by right.
  - intros g tg t Hg H0. apply Hdone, of_group_0. specialize (Hc g tg Hg). lia.
  - intros g tg t Hg Hx. apply Hdone. by apply (not_open_free e g tg).
  - intros Hdead. rewrite Ha. destruct (unrun e) as [|t l] eqn:E; [done|].
    assert (Ht : t ∈ in_flight e) by (apply unrun_in_flight; rewrite E; by left).
    rewrite (dead_done e Hok (Hdd Hdead)) in Ht. by apply elem_of_nil in Ht.
  - intros Hp. destruct (is_dead e); [|done]. pose proof (dead_done e Hok (Hdd eq_refl)) as Hf.
    unfold in_flight in Hf. apply app_eq_nil in Hf as [Hf _]. by destruct Hp.
  - intros w d t Hw. assert (Ht : t ∈ in_flight e).
    { unfold in_flight. rewrite !elem_of_app, list_elem_of_omap. right; right.
      exists (Counting d t). split; [by eapply list_elem_of_lookup_2|done]. }
    destruct (Ho t Ht) as (tg & Hg & _). exists tg. split; [done|]. rewrite (Hc _ tg Hg).
    destruct (of_group (t_group t) (in_flight e)) eqn:E; [|lia].
    by apply (proj1 (of_group_0 _ _) E) in Ht.
  - intros g tg Hg Hx. pose proof (child_counted e g tg Hok Hg Hx).
    unfold WG_Done. rewrite (proj2 (Z.leb_le 1 (children_ e))) by lia. by eexists.
Qed.

Lemma executor_step_workers e e' : executor_step e e' -> length (workers_ e') = length (workers_ e).
Proof.
  intros []; try done; cbn; rewrite ?length_insert; try done.
  unfold take_task. destruct (last (tasks e)); cbn; by rewrite length_insert.
Qed.

Lemma executor_reachable_workers n e : executor_reachable n e -> length (workers_ e) = n.
Proof.
  unfold executor_reachable. intros Hr.
  assert (Hi : length (workers_ (new_Executor n)) = n) by apply length_replicate.
  induction Hr as [|e0 e1 e2 Hs _ IH]; [done|]. apply IH. by rewrite (executor_step_workers _ _ Hs).
Qed.

(** A worker that is not gone, and has a task to take if it waits. *)
Lemma worker_can_step e w s :
  executor_ok e -> workers_ e !! w = Some s -> s <> Exited -> (s = WaitData -> tasks e <> []) ->
  exists e', executor_step e e' /\ workers_ e' !! w <> workers_ e !! w.
Proof.
  intros Hok Hw Hne Htasks. pose proof (lookup_lt_Some _ _ _ Hw) as Hlt. rewrite Hw. destruct s as [|d t|d t|].
  - exists (take_task e w). split; [apply step_take; auto|]. unfold take_task.
    destruct (last (tasks e)); cbn; by rewrite list_lookup_insert_eq.
  - eexists. split; [by eapply step_run|]. cbn. by rewrite list_lookup_insert_eq.
  - destruct (ex_open e Hok t) as (tg & Hg & _).
    { unfold in_flight. rewrite !elem_of_app, list_elem_of_omap. right; right.
      exists (Counting d t). split; [by eapply list_elem_of_lookup_2|done]. }
    eexists. split; [by eapply step_count|]. cbn. rewrite list_lookup_insert_eq by done. by destruct d.
  - done.
Qed.

(** No deadlock: while a group with no [AddTask] in progress has tasks to
    wait for, some worker of the executor can take a step. *)
Theorem Executor_no_deadlock n e g tg :
  (0 < n)%nat -> executor_reachable n e -> pushing e = [] -> groups e !! g = Some tg -> count_ tg <> 0 ->
  exists w e', executor_step e e' /\ workers_ e' !! w <> workers_ e !! w.
Proof.
  intros Hn Hr Hp Hg Hcnt. pose proof (executor_reachable_ok n e Hr) as Hok.
  destruct (in_flight e) as [|t l] eqn:Ef.
  { rewrite (ex_count e Hok g tg Hg), Ef in Hcnt. done. }
  assert (Ht : t ∈ in_flight e) by (rewrite Ef; by left).
  assert (Halive : forall s, s ∈ workers_ e -> s <> Exited).
  { intros s Hs ->. apply (open_groups_empty e t Hok Ht), (ex_destroying e Hok), (ex_dead e Hok), (ex_saw e Hok _ Hs). done. }
  unfold in_flight in Ht. rewrite Hp, elem_of_app, elem_of_app, list_elem_of_omap in Ht.
  destruct Ht as [Ht|[Ht|(s & Hs & Ht)]]; [by apply elem_of_nil in Ht| |].
  - destruct (lookup_lt_is_Some_2 (workers_ e) 0) as [s Hs].
    { by rewrite (executor_reachable_workers n e Hr). }
    destruct (worker_can_step e 0 s Hok Hs) as (e' & ? & ?); [|intros _ E; rewrite E in Ht; by apply elem_of_nil in Ht|].
    + apply Halive. by eapply list_elem_of_lookup_2.
    + by exists 0%nat, e'.
  - apply list_elem_of_lookup in Hs as [w Hw].
    destruct (worker_can_step e w s Hok Hw) as (e' & ? & ?); [| |by exists w, e'].
    + apply Halive. by eapply list_elem_of_lookup_2.
    + by intros ->.
Qed.

(** What the readers of the queue get is a subsequence of what was
    written, in order, so a value can be dropped but is never read twice;
    and a write followed by a read yields that value. *)
Theorem LossyQueue_reads_in_order {T} ops (q' : @LossyQueue T) xs :
  run_queue new_LossyQueue ops = Some (q', xs) ->
  sublist (omap id xs) (written ops) /\
  forall q (x : T), lq_closed_ q = false -> exists q1, Read (Write q x) = Some (q1, Some x) /\ data_ q1 = None.
Proof.
  intros Hr%run_queue_sublist. split.
  - etrans; [|exact Hr]. by apply sublist_inserts_r.
  - intros q x Hc. unfold Write. rewrite Hc. by eexists.
Qed.

(** *** Witnesses: one worker, one group, one task *)

Lemma one_task_waiting : exists e, executor_reachable 1 e /\ pushing e = [] /\
  groups e !! 0%nat = Some (mkTaskGroup GroupOpen 1) /\ workers_ e = [WaitData] /\ tasks e = [mkTask 0 5] /\
  added e = [mkTask 0 5].
Proof.
  eexists. split; [unfold executor_reachable|].
  - eapply rtc_l; [eapply (step_new_group _ 0%nat); reflexivity|].
    eapply rtc_l; [eapply (step_add_count _ 0%nat 5%nat); [reflexivity..|by intros ?%elem_of_nil]|].
    eapply rtc_l; [eapply (step_add_push _ (mkTask 0 5) [] []); reflexivity|]. apply rtc_refl.
  - done.
Qed.

Lemma one_task_done : exists e, executor_reachable 1 e /\
  groups e !! 0%nat = Some (mkTaskGroup GroupOpen 0) /\ added e = [mkTask 0 5].
Proof.
  destruct one_task_waiting as (e & Hr & _ & Hg & Hw & Ht & Ha).
  destruct e as [tk d ch ds wk gr pu ad ra]. cbn in *. subst tk wk ad. eexists. split.
  - unfold executor_reachable. etrans; [exact Hr|].
    eapply rtc_l; [apply (step_take _ 0%nat); [reflexivity|by left]|].
    eapply rtc_l; [apply (step_run _ 0%nat d (mkTask 0 5)); reflexivity|].
    eapply rtc_l; [eapply (step_count _ 0%nat d (mkTask 0 5)); [reflexivity|exact Hg]|apply rtc_refl].
  - cbn. by rewrite lookup_insert_eq.
Qed.

Lemma Executor_runs_each_task_once_witness : exists e, executor_reachable 1 e /\ mkTask 0 5 ∈ ran e.
Proof.
  destruct one_task_done as (e & Hr & Hg & Ha). exists e. split; [exact Hr|].
  destruct (Executor_runs_each_task_once 1 e Hr) as (_ & _ & _ & H & _).
  apply (H 0%nat (mkTaskGroup GroupOpen 0)); [exact Hg|reflexivity| |reflexivity]. rewrite Ha. by left.
Defined.

Lemma Executor_no_deadlock_witness : exists e w e', executor_reachable 1 e /\ executor_step e e' /\
  workers_ e' !! w <> workers_ e !! w.
Proof.
  destruct one_task_waiting as (e & Hr & Hp & Hg & _).
  destruct (Executor_no_deadlock 1 e 0 (mkTaskGroup GroupOpen 1)) as (w & e' & Hs & Hw);
    [lia|exact Hr|exact Hp|exact Hg|done|]. by exists e, w, e'.
Defined.

Lemma LossyQueue_reads_in_order_witness :
  exists q' xs, run_queue new_LossyQueue [QWrite 1; QWrite 2; QRead; QWrite 3; QClose; QRead; QRead] = Some (q', xs) /\
    xs = [Some 2; Some 3; None] /\ sublist [2; 3] [1; 2; 3].
Proof.
  eexists _, _. split; [reflexivity|]. split; [reflexivity|].
  apply (LossyQueue_reads_in_order [QWrite 1; QWrite 2; QRead; QWrite 3; QClose; QRead; QRead] (mkLossyQueue None true)
    [Some 2; Some 3; None]). reflexivity.
Defined.
