(* ===== verification/Iptables.v ===== *)
(** * Iptables: settings, their difference, and the rules that enforce them

    src/heyp/host-agent/linux-enforcer/iptables-controller.{h,cc} and
    small-string-set.h.  A batch of settings becomes lines for
    iptables-restore.  The command is behind the interface [RunnerIface]; what
    the controller relies on of it is in [RestoreLaws]: it reads the lines,
    runs them in order on the table, and does so completely or not at all.
    [std::sort], [std::set_difference] and [std::lower_bound] are modelled on
    the ranges they are specified for. *)

From stdpp Require Import pretty.
From S2P Require Import Prelude Text.

#[local] Open Scope string_scope.
#[local] Open Scope list_scope.
#[local] Open Scope Z_scope.

(** ** Settings *)

Record Setting := mkSetting {
  s_src_port : Z;
  s_dst_port : Z;
  s_dst_addr : string;
  s_class_id : string;
  s_dscp : string }.

#[export] Instance Setting_eq_dec : EqDecision Setting.
Proof. solve_decision. Defined.

Definition str_lt (a b : string) : bool := bool_decide (String.compare a b = Lt).

(** Field by field, as [COMPARE_FIELD] does. *)
Definition setting_lt (l r : Setting) : bool :=
  if s_src_port l <? s_src_port r then true else if s_src_port r <? s_src_port l then false else
  if s_dst_port l <? s_dst_port r then true else if s_dst_port r <? s_dst_port l then false else
  if str_lt (s_dst_addr l) (s_dst_addr r) then true else if str_lt (s_dst_addr r) (s_dst_addr l) then false else
  if str_lt (s_class_id l) (s_class_id r) then true else if str_lt (s_class_id r) (s_class_id l) then false else
  if str_lt (s_dscp l) (s_dscp r) then true else if str_lt (s_dscp r) (s_dscp l) then false else
  false.

Definition setting_le (l r : Setting) : Prop := setting_lt r l = false.

#[export] Instance setting_le_dec : RelDecision setting_le.
Proof. intros l r. unfold setting_le. apply _. Defined.

Definition std_sort (l : list Setting) : list Setting := merge_sort setting_le l.

(** [std::set_difference] of two sorted ranges. *)
Fixpoint set_difference (l : list Setting) : list Setting -> list Setting :=
  match l with
  | [] => fun _ => []
  | x :: l' =>
      fix go (r : list Setting) : list Setting :=
        match r with
        | [] => x :: l'
        | y :: r' => if setting_lt x y then x :: set_difference l' (y :: r')
                     else if setting_lt y x then go r' else set_difference l' r'
        end
  end.

(** The batches sorted, and the settings to delete and to add, appended to
    those given. *)
Definition ComputeDiff (old_batch new_batch to_del to_add : list Setting)
    : list Setting * list Setting * list Setting * list Setting :=
  let old_batch := std_sort old_batch in
  let new_batch := std_sort new_batch in
  (old_batch, new_batch, to_del ++ set_difference old_batch new_batch,
   to_add ++ set_difference new_batch old_batch).

(** ** Looking up a flow *)

(** [std::lower_bound] of a sorted range: the first element that is not
    less. *)
Definition lower_bound (batch : list Setting) (x : Setting) : option Setting :=
  head (filter (fun s => setting_lt s x = false) batch).

Definition same_match (sp dp : Z) (addr : string) (s : Setting) : bool :=
  (s_src_port s =? sp) && (s_dst_port s =? dp) && bool_decide (s_dst_addr s = addr).

Definition find_exact (batch : list Setting) (sp dp : Z) (addr : string) : option string :=
  match lower_bound batch (mkSetting sp dp addr "" "") with
  | Some s => if same_match sp dp addr s then Some (s_dscp s) else None
  | None => None
  end.

Definition SettingsFindDscp (batch : list Setting) (src_port dst_port : Z) (dst_addr default_dscp : string)
    : string :=
  match find_exact batch src_port dst_port dst_addr with
  | Some d => d
  | None =>
  match find_exact batch 0 dst_port dst_addr with
  | Some d => d
  | None =>
  match find_exact batch src_port 0 dst_addr with
  | Some d => d
  | None =>
  match find_exact batch 0 0 dst_addr with
  | Some d => d
  | None => default_dscp
  end end end end.

(** ** Rules and lines *)

Inductive chain := OUTPUT | FORWARD.
Inductive target := CLASSIFY (class_id : string) | DSCP (dscp : string) | RETURN.
Record rule := mkRule { r_sport : Z; r_dport : Z; r_addr : string; r_target : target }.
Inductive operation := OpDelete | OpInsert | OpAppend.
Record command := mkCommand { c_op : operation; c_chain : chain; c_rule : rule }.

#[export] Instance chain_eq_dec : EqDecision chain.
Proof. solve_decision. Defined.
#[export] Instance target_eq_dec : EqDecision target.
Proof. solve_decision. Defined.
#[export] Instance rule_eq_dec : EqDecision rule.
Proof. solve_decision. Defined.

Definition show_op (o : operation) : string :=
  match o with OpDelete => "-D" | OpInsert => "-I" | OpAppend => "-A" end.
Definition show_chain (c : chain) : string := match c with OUTPUT => "OUTPUT" | FORWARD => "FORWARD" end.

Definition src_port_match (p : Z) : string := if p =? 0 then "" else " --sport " +:+ pretty p.
Definition dst_port_match (p : Z) : string := if p =? 0 then "" else " --dport " +:+ pretty p.

Definition show_target (t : target) : string :=
  match t with
  | CLASSIFY c => "CLASSIFY --set-class " +:+ c
  | DSCP d => "DSCP --set-dscp-class " +:+ d
  | RETURN => "RETURN"
  end.



(** One line, as the format strings of the code give it. *)
Definition show_command (dev : string) (c : command) : string :=
  show_op (c_op c) +:+ " " +:+ show_chain (c_chain c) +:+ " -o " +:+ dev +:+ " -p tcp -m tcp -d " +:+
  r_addr (c_rule c) +:+ src_port_match (r_sport (c_rule c)) +:+ dst_port_match (r_dport (c_rule c)) +:+
  " -j " +:+ show_target (r_target (c_rule c)) +:+ newline.

Definition show_commands (dev : string) (l : list command) : string :=
  foldr String.append "" (map (show_command dev) l).

Definition rule_of (s : Setting) (t : target) : rule :=
  mkRule (s_src_port s) (s_dst_port s) (s_dst_addr s) t.

(** The same rule in both chains. *)
Definition both (o : operation) (s : Setting) (t : target) : list command :=
  [mkCommand o OUTPUT (rule_of s t); mkCommand o FORWARD (rule_of s t)].

Definition delete_commands (s : Setting) : list command :=
  both OpDelete s (CLASSIFY (s_class_id s)) ++ both OpDelete s (DSCP (s_dscp s)) ++ both OpDelete s RETURN.

Definition fine_grained (s : Setting) : bool := negb (s_src_port s =? 0) || negb (s_dst_port s =? 0).

Definition add_commands (dscps_to_ignore_class_id : list string) (s : Setting) : list command :=
  let classify o := if bool_decide (s_dscp s ∈ dscps_to_ignore_class_id) then []
                    else both o s (CLASSIFY (s_class_id s)) in
  if fine_grained s
  then both OpInsert s RETURN ++ both OpInsert s (DSCP (s_dscp s)) ++ classify OpInsert
  else classify OpAppend ++ both OpAppend s (DSCP (s_dscp s)) ++ both OpAppend s RETURN.

Definition AddRuleLinesToDelete (dev : string) (batch : list Setting) : string :=
  show_commands dev (concat (map delete_commands batch)).

Definition AddRuleLinesToAdd (dscps_to_ignore_class_id : list string) (dev : string)
    (batch : list Setting) : string :=
  show_commands dev (concat (map (add_commands dscps_to_ignore_class_id) batch)).

(** ** The runner *)

Record RestoreFlags := mkRestoreFlags { flush_tables : bool; restore_counters : bool }.

(** [Restore] of the mangle table: the new state, and whether the status is
    ok. *)
Class RunnerIface (K : Type) := { Restore : K -> string -> RestoreFlags -> K * bool }.

(** ** The controller *)

Section Controller.
Context {K : Type} `{!RunnerIface K}.

Record Controller := mkController {
  dev_ : string;
  dscps_to_ignore_class_id_ : list string;
  runner_ : K;
  staged_ : list Setting;
  applied_ : list Setting;
  to_add_ : list Setting;
  to_del_ : list Setting }.

Definition new_Controller (dev : string) (ignore : list string) (k : K) : Controller :=
  mkController dev ignore k [] [] [] [].

Definition begin_table : string := "*mangle" +:+ newline.
Definition commit_line : string := "COMMIT" +:+ newline.

Definition Clear (c : Controller) : Controller * bool :=
  let '(k, ok) := Restore (runner_ c) (begin_table +:+ commit_line) (mkRestoreFlags true false) in
  (mkController (dev_ c) (dscps_to_ignore_class_id_ c) k (staged_ c) [] (to_add_ c) (to_del_ c), ok).

Definition Stage (c : Controller) (s : Setting) : Controller :=
  mkController (dev_ c) (dscps_to_ignore_class_id_ c) (runner_ c) (staged_ c ++ [s]) (applied_ c)
    (to_add_ c) (to_del_ c).

(** The boolean is the status. *)
Definition CommitChanges (c : Controller) : Controller * bool :=
  let '(_, staged, to_del, to_add) := ComputeDiff (applied_ c) (staged_ c) (to_del_ c) (to_add_ c) in
  let mangle_table := begin_table +:+ AddRuleLinesToDelete (dev_ c) to_del +:+
    AddRuleLinesToAdd (dscps_to_ignore_class_id_ c) (dev_ c) to_add +:+ commit_line in
  let with_state k applied to_del := mkController (dev_ c) (dscps_to_ignore_class_id_ c) k [] applied [] to_del in
  if (String.length mangle_table =? String.length (begin_table +:+ commit_line))%nat
  then (with_state (runner_ c) staged [], true)
  else
    let '(k, ok) := Restore (runner_ c) mangle_table (mkRestoreFlags false false) in
    if ok then (with_state k staged [], true) else (with_state k [] (to_del ++ to_add), false).

Definition AppliedSettings (c : Controller) : list Setting := applied_ c.
End Controller.

(** ** The order of settings *)

(** A strict order whose incomparable elements are equivalent. *)
Record strict_order {A} (lt : A -> A -> bool) (eqv : A -> A -> Prop) : Prop := {
  so_trans : forall x y z, lt x y = true -> lt y z = true -> lt x z = true;
  so_asym : forall x y, lt x y = true -> lt y x = false;
  so_eqv : forall x y, eqv x y <-> lt x y = false /\ lt y x = false;
  so_eqv_l : forall x y z, eqv x y -> lt y z = lt x z;
  so_eqv_r : forall x y z, eqv x y -> lt z y = lt z x }.

Definition lex {S A} (f : S -> A) (lt : A -> A -> bool) (rest : S -> S -> bool) (l r : S) : bool :=
  if lt (f l) (f r) then true else if lt (f r) (f l) then false else rest l r.

Lemma lex_order {S A} (f : S -> A) lt rest eqv :
  strict_order lt eq -> strict_order rest eqv ->
  strict_order (lex f lt rest) (fun x y => f x = f y /\ eqv x y).
Proof.
  intros [T1 A1 E1 _ _] [T2 A2 E2 L2 R2].
  assert (Irr : forall a, lt a a = false) by (intros a; by apply E1).
  assert (Hlex : forall x y, lex f lt rest x y = true <->
            lt (f x) (f y) = true \/ f x = f y /\ rest x y = true).
  { intros x y. unfold lex. destruct (lt (f x) (f y)) eqn:Exy; [tauto|].
    destruct (lt (f y) (f x)) eqn:Eyx.
    - split; [done|]. intros [|[E _]]; [done|]. by rewrite E, Irr in Eyx.
    - assert (f x = f y) by by apply E1. intuition congruence. }
  assert (Hf : forall x y, lex f lt rest x y = false <->
            lt (f x) (f y) = false /\ (f x = f y -> rest x y = false)).
  { intros x y. rewrite <- !not_true_iff_false, Hlex. destruct (decide (rest x y = true)), (decide (lt (f x) (f y) = true));
      intuition congruence. }
  split.
  - intros x y z. rewrite !Hlex. intros [H1|[H1 H1']] [H2|[H2 H2']].
    + left. by eapply T1.
    + left. by rewrite <- H2.
    + left. by rewrite H1.
    + right. split; [congruence|by eapply T2].
  - intros x y. rewrite Hlex, Hf. intros [H1|[H1 H1']].
    + split; [by apply A1|]. intros E. by rewrite E, Irr in H1.
    + rewrite H1, Irr. split; [done|]. intros _. by apply A2.
  - intros x y. rewrite !Hf. split.
    + intros [E He]. apply E2 in He as [??]. rewrite E, Irr. done.
    + intros [[H1 H1'] [H2 H2']]. assert (f x = f y) by by apply E1. split; [done|]. apply E2. auto.
  - intros x y z [E He]. unfold lex. by rewrite E, (L2 _ _ _ He).
  - intros x y z [E He]. unfold lex. by rewrite E, (R2 _ _ _ He).
Qed.

Lemma Zltb_order : strict_order Z.ltb eq.
Proof. split; intros; subst; rewrite ?Z.ltb_lt, ?Z.ltb_ge in *; try done; lia. Qed.

Lemma str_lt_leb a b : str_lt a b = negb (String.leb b a).
Proof.
  unfold str_lt, String.leb. rewrite (String.compare_antisym a b).
  destruct (String.compare b a); cbn; by rewrite ?bool_decide_eq_true, ?bool_decide_eq_false.
Qed.

Lemma str_lt_order : strict_order str_lt eq.
Proof.
  assert (Hle : forall a b, String.leb a b = true <-> String.le a b)
    by (intros a b; unfold String.le; by destruct (String.leb a b)).
  assert (Hlt : forall a b, str_lt a b = true <-> ~ String.le b a)
    by (intros a b; rewrite str_lt_leb, negb_true_iff, <- not_true_iff_false, Hle; done).
  assert (Hge : forall a b, str_lt a b = false <-> String.le b a)
    by (intros a b; rewrite str_lt_leb, negb_false_iff; apply Hle).
  split.
  - intros x y z. rewrite !Hlt. intros Hyx Hzy Hzx. apply Hzy.
    destruct (total String.le y x) as [|Hxy]; [done|]. by etrans.
  - intros x y. rewrite Hlt, Hge. intros Hyx. by destruct (total String.le y x).
  - intros x y. rewrite !Hge. split; [intros ->; split; reflexivity|]. intros [??]. by apply (anti_symm String.le).
  - by intros x y z ->.
  - by intros x y z ->.
Qed.

Lemma last_order : strict_order (fun _ _ : Setting => false) (fun _ _ => True).
Proof. by split. Qed.

Lemma setting_order : strict_order setting_lt eq.
Proof.
  pose proof (lex_order s_src_port _ _ _ Zltb_order
    (lex_order s_dst_port _ _ _ Zltb_order
      (lex_order s_dst_addr _ _ _ str_lt_order
        (lex_order s_class_id _ _ _ str_lt_order
          (lex_order s_dscp _ _ _ str_lt_order last_order))))) as [T A E L R].
  assert (Heq : forall x y : Setting, s_src_port x = s_src_port y /\ s_dst_port x = s_dst_port y /\
    s_dst_addr x = s_dst_addr y /\ s_class_id x = s_class_id y /\ s_dscp x = s_dscp y /\ True <-> x = y).
  { intros [] []; cbn; split; [intros; destruct_and?; congruence|by intros [= -> -> -> -> ->]]. }
  change (lex s_src_port _ _) with setting_lt in *.
  split; [exact T|exact A| |by intros x y z ->|by intros x y z ->].
  intros x y. rewrite <- Heq. apply E.
Qed.

#[export] Instance setting_le_trans : Transitive setting_le.
Proof.
  unfold setting_le. intros x y z H1 H2. destruct setting_order as [T A E _ _].
  apply not_true_iff_false. intros Hzx. destruct (setting_lt z y) eqn:Ezy; [done|].
  destruct (setting_lt y z) eqn:Eyz.
  - rewrite (T y z x) in H1; done.
  - assert (y = z) by by apply E. congruence.
Qed.

#[export] Instance setting_le_total : Total setting_le.
Proof.
  intros x y. unfold setting_le. destruct (setting_lt y x) eqn:E; [|by left]. right. by apply setting_order.
Qed.

Lemma std_sort_perm l : std_sort l ≡ₚ l.
Proof. apply merge_sort_Permutation. Qed.

Lemma std_sort_sorted l : StronglySorted setting_le (std_sort l).
Proof. apply (StronglySorted_merge_sort setting_le). Qed.

(** ** The difference *)

Lemma set_difference_cons x l y r :
  set_difference (x :: l) (y :: r) =
  if setting_lt x y then x :: set_difference l (y :: r)
  else if setting_lt y x then set_difference (x :: l) r else set_difference l r.
Proof. done. Qed.

(** What two batches share. *)
Lemma set_difference_split l : forall r, exists common,
  l ≡ₚ common ++ set_difference l r /\ r ≡ₚ common ++ set_difference r l.
Proof.
  induction l as [|x l IHl].
  - intros r. exists []. split; [done|]. by destruct r.
  - induction r as [|y r IHr]; [by exists []|]. rewrite !set_difference_cons.
    destruct setting_order as [_ A E _ _].
    destruct (setting_lt x y) eqn:Exy.
    + rewrite (A _ _ Exy). destruct (IHl (y :: r)) as (c & H1 & H2). exists c. split; [|done].
      rewrite H1 at 1. solve_Permutation.
    + destruct (setting_lt y x) eqn:Eyx.
      * destruct IHr as (c & H1 & H2). exists c. split; [done|]. rewrite H2 at 1. solve_Permutation.
      * assert (x = y) as -> by by apply E. destruct (IHl r) as (c & H1 & H2). exists (y :: c). cbn.
        split; [by rewrite <- H1|by rewrite <- H2].
Qed.

Lemma elem_of_set_difference l : forall r x, x ∈ set_difference l r -> x ∈ l.
Proof.
  intros r x Hx. destruct (set_difference_split l r) as (c & H1 & _). rewrite H1, elem_of_app. by right.
Qed.

Lemma StronglySorted_head_lt x l z :
  StronglySorted setting_le (x :: l) -> setting_lt z x = true -> z ∉ x :: l.
Proof.
  intros [_ Hall]%StronglySorted_inv Hz [->|Hin]%elem_of_cons.
  - pose proof (so_asym _ _ setting_order _ _ Hz). congruence.
  - rewrite Forall_forall in Hall. specialize (Hall z Hin). unfold setting_le in Hall. congruence.
Qed.

(** In sorted batches without repetitions, the difference is that of the
    sets. *)
Lemma elem_of_set_difference_sorted l : forall r x,
  StronglySorted setting_le l -> StronglySorted setting_le r -> NoDup l ->
  x ∈ set_difference l r <-> x ∈ l /\ x ∉ r.
Proof.
  induction l as [|a l IHl].
  - intros r x _ _ _. cbn. rewrite elem_of_nil. tauto.
  - induction r as [|b r IHr]; intros x Hl Hr Hn.
    + cbn [set_difference]. split; [|tauto]. intros Hx. split; [done|]. apply not_elem_of_nil.
    + rewrite set_difference_cons. pose proof Hl as [Hl' _]%StronglySorted_inv.
      pose proof Hr as [Hr' _]%StronglySorted_inv. pose proof Hn as [Ha Hn']%NoDup_cons.
      destruct (setting_lt a b) eqn:Eab.
      * pose proof (StronglySorted_head_lt _ _ _ Hr Eab) as Hab.
        rewrite !elem_of_cons, (IHl (b :: r)), elem_of_cons by done. rewrite elem_of_cons in Hab.
        clear - Hab. naive_solver.
      * destruct (setting_lt b a) eqn:Eba.
        -- pose proof (StronglySorted_head_lt _ _ _ Hl Eba) as Hba.
           rewrite IHr, (not_elem_of_cons r) by done. split; [|tauto].
           intros [Hx Hxr]. split_and!; try done. by intros ->.
        -- assert (a = b) as -> by by apply setting_order. rewrite IHl, !elem_of_cons by done. clear - Ha. naive_solver.
Qed.

(** The difference of two batches, with repetitions: deleting [to_del] from
    the old batch leaves what adding [to_add] makes the new one; without
    repetitions [to_del] are exactly the old settings that are not new and
    [to_add] the new ones that are not old. *)
Theorem ComputeDiff_spec old new :
  let '(old', new', del, add) := ComputeDiff old new [] [] in
  old' ≡ₚ old /\ new' ≡ₚ new /\ StronglySorted setting_le old' /\ StronglySorted setting_le new' /\
  (exists common, old ≡ₚ common ++ del /\ new ≡ₚ common ++ add) /\
  (NoDup old -> forall s, s ∈ del <-> s ∈ old /\ s ∉ new) /\
  (NoDup new -> forall s, s ∈ add <-> s ∈ new /\ s ∉ old).
Proof.
  unfold ComputeDiff. rewrite !app_nil_l.
  pose proof (std_sort_perm old) as Po. pose proof (std_sort_perm new) as Pn.
  split_and!; [done..|apply std_sort_sorted|apply std_sort_sorted| | |].
  - destruct (set_difference_split (std_sort old) (std_sort new)) as (c & H1 & H2).
    exists c. split; by etrans; [symmetry|].
  - intros Hn s. rewrite elem_of_set_difference_sorted;
      [by rewrite Po, Pn|apply std_sort_sorted|apply std_sort_sorted|by rewrite Po].
  - intros Hn s. rewrite elem_of_set_difference_sorted;
      [by rewrite Po, Pn|apply std_sort_sorted|apply std_sort_sorted|by rewrite Pn].
Qed.

(** ** Looking up a flow: lemmas *)

Definition match_lt : Setting -> Setting -> bool :=
  lex s_src_port Z.ltb (lex s_dst_port Z.ltb (lex s_dst_addr str_lt (fun _ _ => false))).

Lemma match_order : strict_order match_lt (fun x y =>
  s_src_port x = s_src_port y /\ s_dst_port x = s_dst_port y /\ s_dst_addr x = s_dst_addr y /\ True).
Proof.
  apply (lex_order s_src_port _ _ _ Zltb_order), (lex_order s_dst_port _ _ _ Zltb_order),
    (lex_order s_dst_addr _ _ _ str_lt_order), last_order.
Qed.

Lemma str_lt_empty a : str_lt a "" = false.
Proof. by destruct a. Qed.

(** The key of a search compares by its match only. *)
Lemma setting_lt_key s sp dp addr :
  setting_lt s (mkSetting sp dp addr "" "") = match_lt s (mkSetting sp dp addr "" "").
Proof.
  unfold match_lt, lex, setting_lt. cbn [s_src_port s_dst_port s_dst_addr s_class_id s_dscp].
  rewrite !str_lt_empty. repeat case_match; done.
Qed.

Lemma match_lt_setting_lt x y : match_lt x y = true -> setting_lt x y = true.
Proof. unfold match_lt, lex, setting_lt. repeat case_match; done. Qed.

Lemma same_match_eqv s sp dp addr :
  same_match sp dp addr s = true <->
  s_src_port s = sp /\ s_dst_port s = dp /\ s_dst_addr s = addr /\ True.
Proof. unfold same_match. rewrite !andb_true_iff, !Z.eqb_eq, bool_decide_eq_true. tauto. Qed.

Definition first_match (batch : list Setting) (sp dp : Z) (addr : string) : option Setting :=
  head (filter (fun s => same_match sp dp addr s = true) batch).

Lemma find_exact_first batch sp dp addr :
  StronglySorted setting_le batch -> find_exact batch sp dp addr = s_dscp <$> first_match batch sp dp addr.
Proof.
  unfold find_exact, lower_bound, first_match. set (key := mkSetting sp dp addr "" "").
  destruct match_order as [_ _ E L _].
  assert (Hkey : forall s, same_match sp dp addr s = true <->
                   match_lt s key = false /\ match_lt key s = false).
  { intros s. rewrite <- E. by apply (same_match_eqv s sp dp addr). }
  induction batch as [|x l IH]; intros Hs; [done|]. rewrite !filter_cons.
  pose proof Hs as [Hl Hall]%StronglySorted_inv.
  assert (Hxk : setting_lt x key = match_lt x key) by apply setting_lt_key. rewrite Hxk.
  destruct (match_lt x key) eqn:Exk.
  - rewrite decide_False by done. rewrite (decide_False (P := same_match _ _ _ x = true)).
    + by apply IH.
    + rewrite Hkey. intros [? _]. congruence.
  - rewrite decide_True by done. cbn [head]. destruct (same_match sp dp addr x) eqn:Em.
    + by rewrite decide_True.
    + rewrite decide_False by done. rewrite <- not_true_iff_false in Em. rewrite Hkey in Em.
      destruct (match_lt key x) eqn:Ekx; [|by destruct Em].
      replace (filter _ l) with (@nil Setting); [done|]. symmetry. apply filter_none.
      intros y Hy Hym. apply Hkey, E in Hym. rewrite Forall_forall in Hall. specialize (Hall y Hy).
      unfold setting_le in Hall. rewrite match_lt_setting_lt in Hall; [done|].
      rewrite <- Ekx. symmetry. apply L. destruct_and?. done.
Qed.

(** The most specific match first. *)
Lemma FindDscp_first batch sp dp addr def :
  StronglySorted setting_le batch ->
  SettingsFindDscp batch sp dp addr def =
  from_option s_dscp def
    (head (omap (fun k => first_match batch (fst k) (snd k) addr) [(sp, dp); (0, dp); (sp, 0); (0, 0)])).
Proof.
  intros Hs. unfold SettingsFindDscp. rewrite !find_exact_first by done. cbn.
  by repeat destruct (first_match batch _ _ addr).
Qed.
