(* ===== verification/IptablesTable.v ===== *)
(** * IptablesTable: what the lines do to the table

    The lines of [Iptables] read back, the rules of the mangle table as
    iptables documents them ([-A] appends, [-I] puts first, [-D] deletes the
    first equal rule and fails without one, RETURN ends the chain), and the
    controller against a runner that keeps [RestoreLaws]: the commands run
    completely or not at all. *)

From stdpp Require Import pretty.
From S2P Require Import Prelude Text Iptables.

#[local] Open Scope string_scope.
#[local] Open Scope list_scope.
#[local] Open Scope Z_scope.

(** ** Reading the lines *)

Definition read_word (w : string) (l : list string) : option (list string) :=
  match l with
  | x :: l => if bool_decide (x = w) then Some l else None
  | [] => None
  end.

Definition read_words (ws l : list string) : option (list string) :=
  foldl (fun o w => l ← o; read_word w l) (Some l) ws.

Definition read_any (l : list string) : option (string * list string) :=
  match l with x :: l => Some (x, l) | [] => None end.

Definition read_port (flag : string) (l : list string) : option (Z * list string) :=
  match l with
  | x :: n :: l' => if bool_decide (x = flag) then p ← read_digits n; Some (p, l') else Some (0, l)
  | _ => Some (0, l)
  end.

Definition read_op (l : list string) : option (operation * list string) :=
  '(w, l) ← read_any l;
  if bool_decide (w = "-D") then Some (OpDelete, l)
  else if bool_decide (w = "-I") then Some (OpInsert, l)
  else if bool_decide (w = "-A") then Some (OpAppend, l) else None.

Definition read_chain (l : list string) : option (chain * list string) :=
  '(w, l) ← read_any l;
  if bool_decide (w = "OUTPUT") then Some (OUTPUT, l)
  else if bool_decide (w = "FORWARD") then Some (FORWARD, l) else None.

Definition read_target (l : list string) : option (target * list string) :=
  '(w, l) ← read_any l;
  if bool_decide (w = "RETURN") then Some (RETURN, l)
  else if bool_decide (w = "DSCP")
  then l ← read_word "--set-dscp-class" l; '(d, l) ← read_any l; Some (DSCP d, l)
  else if bool_decide (w = "CLASSIFY")
  then l ← read_word "--set-class" l; '(c, l) ← read_any l; Some (CLASSIFY c, l)
  else None.

Definition read_command (dev : string) (l : list string) : option (command * list string) :=
  '(op, l) ← read_op l;
  '(ch, l) ← read_chain l;
  l ← read_words ["-o"; dev; "-p"; "tcp"; "-m"; "tcp"; "-d"] l;
  '(addr, l) ← read_any l;
  '(sp, l) ← read_port "--sport" l;
  '(dp, l) ← read_port "--dport" l;
  l ← read_word "-j" l;
  '(t, l) ← read_target l;
  Some (mkCommand op ch (mkRule sp dp addr t), l).

Fixpoint read_commands (fuel : nat) (dev : string) (l : list string) : option (list command) :=
  match fuel with
  | O => None
  | S fuel =>
      match l with
      | [w] => if bool_decide (w = "COMMIT") then Some [] else None
      | _ => '(c, l) ← read_command dev l; cs ← read_commands fuel dev l; Some (c :: cs)
      end
  end.

(** The commands of an input of iptables-restore for the mangle table. *)
Definition read_input (dev data : string) : option (list command) :=
  let ws := String.words data in
  l ← read_word "*mangle" ws; read_commands (length ws) dev l.

(** ** The table *)

Record table := mkTable { t_output : list rule; t_forward : list rule }.

Fixpoint remove_first (r : rule) (l : list rule) : option (list rule) :=
  match l with
  | [] => None
  | x :: l => if bool_decide (x = r) then Some l else cons x <$> remove_first r l
  end.

Definition run_rule (o : operation) (r : rule) (l : list rule) : option (list rule) :=
  match o with
  | OpDelete => remove_first r l
  | OpInsert => Some (r :: l)
  | OpAppend => Some (l ++ [r])
  end.

Definition run_command (c : command) (t : table) : option table :=
  match c_chain c with
  | OUTPUT => l ← run_rule (c_op c) (c_rule c) (t_output t); Some (mkTable l (t_forward t))
  | FORWARD => l ← run_rule (c_op c) (c_rule c) (t_forward t); Some (mkTable (t_output t) l)
  end.

Fixpoint run_commands (l : list command) (t : table) : option table :=
  match l with
  | [] => Some t
  | c :: l => t ← run_command c t; run_commands l t
  end.

(** What the controller relies on of the runner.  The laws are of any data;
    they are used only for the lines that the controller writes. *)
Class RestoreLaws (K : Type) `{RunnerIface K} (dev : string) := {
  rules : K -> table;
  restore_ok k data k' : Restore k data (mkRestoreFlags false false) = (k', true) ->
    exists cmds, read_input dev data = Some cmds /\ run_commands cmds (rules k) = Some (rules k');
  restore_failed k data k' : Restore k data (mkRestoreFlags false false) = (k', false) ->
    rules k' = rules k \/
    exists cmds, read_input dev data = Some cmds /\ run_commands cmds (rules k) = Some (rules k');
  restore_flush k data k' : Restore k data (mkRestoreFlags true false) = (k', true) ->
    exists cmds, read_input dev data = Some cmds /\ run_commands cmds (mkTable [] []) = Some (rules k') }.

(** ** What a packet meets *)

Record packet := mkPacket { p_sport : Z; p_dport : Z; p_daddr : string }.

Definition rule_matches (p : packet) (r : rule) : bool :=
  ((r_sport r =? 0) || (r_sport r =? p_sport p)) && ((r_dport r =? 0) || (r_dport r =? p_dport p)) &&
  bool_decide (r_addr r = p_daddr p).

(** The class and the DSCP the packet leaves the chain with. *)
Fixpoint traverse (p : packet) (l : list rule) (mark : option string * option string)
    : option string * option string :=
  match l with
  | [] => mark
  | r :: l =>
      if rule_matches p r then
        match r_target r with
        | CLASSIFY c => traverse p l (Some c, snd mark)
        | DSCP d => traverse p l (fst mark, Some d)
        | RETURN => mark
        end
      else traverse p l mark
  end.

(** ** Round trip: the lines say what they mean *)

Definition port_ok (p : Z) : bool := (0 <=? p) && (p <? 2 ^ 16).

Definition clean_target (t : target) : bool :=
  match t with CLASSIFY c => clean c | DSCP d => clean d | RETURN => true end.

Definition clean_command (c : command) : bool :=
  port_ok (r_sport (c_rule c)) && port_ok (r_dport (c_rule c)) && clean (r_addr (c_rule c)) &&
  clean_target (r_target (c_rule c)).

Definition target_words (t : target) : list string :=
  match t with
  | CLASSIFY c => ["CLASSIFY"; "--set-class"; c]
  | DSCP d => ["DSCP"; "--set-dscp-class"; d]
  | RETURN => ["RETURN"]
  end.

Definition port_words (flag : string) (p : Z) : list string := if p =? 0 then [] else [flag; pretty p].

Definition command_words (dev : string) (c : command) : list string :=
  [show_op (c_op c); show_chain (c_chain c); "-o"; dev; "-p"; "tcp"; "-m"; "tcp"; "-d"; r_addr (c_rule c)] ++
  port_words "--sport" (r_sport (c_rule c)) ++ port_words "--dport" (r_dport (c_rule c)) ++
  ["-j"] ++ target_words (r_target (c_rule c)).

Lemma show_command_words dev c : show_command dev c = unwords (command_words dev c) +:+ newline.
Proof.
  unfold show_command, command_words, src_port_match, dst_port_match, port_words.
  destruct c as [op ch [sp dp addr t]]. cbn [c_op c_chain c_rule r_sport r_dport r_addr r_target].
  destruct (sp =? 0), (dp =? 0), t; cbn [app target_words unwords show_target];
    by rewrite ?append_assoc.
Qed.

Lemma port_reads p : port_ok p = true -> clean (pretty p) = true /\ read_digits (pretty p) = Some p.
Proof. unfold port_ok. rewrite andb_true_iff, Z.leb_le. intros [Hp _]. by apply pretty_reads. Qed.

Lemma command_words_clean dev c : clean dev = true -> clean_command c = true ->
  Forall (fun w => clean w = true) (command_words dev c).
Proof.
  unfold clean_command. rewrite !andb_true_iff. intros Hd [[[Hs Ht] Ha] Hg].
  destruct (port_reads _ Hs) as [Hs' _]. destruct (port_reads _ Ht) as [Ht' _].
  unfold command_words, port_words. destruct c as [op ch [sp dp addr t]]. cbn in *.
  repeat (apply Forall_cons; split; [by destruct op + by destruct ch + done|]).
  apply Forall_app; split; [by destruct (sp =? 0); repeat constructor|].
  apply Forall_app; split; [by destruct (dp =? 0); repeat constructor|].
  apply Forall_cons; split; [done|]. by destruct t; repeat constructor.
Qed.

Lemma read_port_words flag p rest :
  port_ok p = true -> (p = 0 -> head rest <> Some flag) ->
  read_port flag (port_words flag p ++ rest) = Some (p, rest).
Proof.
  intros Hp Hne. unfold port_words. destruct (p =? 0) eqn:E.
  - apply Z.eqb_eq in E as ->. cbn. destruct rest as [|x [|n l]]; [done..|]. cbn.
    rewrite bool_decide_eq_false_2; [done|]. intros ->. by apply Hne.
  - cbn. rewrite bool_decide_eq_true_2 by done. by rewrite (proj2 (port_reads p Hp)).
Qed.

Lemma read_command_words dev c rest : clean_command c = true ->
  read_command dev (command_words dev c ++ rest) = Some (c, rest).
Proof.
  unfold clean_command. rewrite !andb_true_iff. intros [[[Hs Ht] _] _].
  destruct c as [op ch [sp dp addr t]]. cbn in Hs, Ht.
  unfold read_command, command_words. cbn [c_op c_chain c_rule r_sport r_dport r_addr r_target].
  rewrite <- !app_assoc. cbn [app].
  assert (Ho : forall l, read_op (show_op op :: l) = Some (op, l)) by (intros; by destruct op).
  assert (Hc : forall l, read_chain (show_chain ch :: l) = Some (ch, l)) by (intros; by destruct ch).
  rewrite Ho. cbn [mbind option_bind]. rewrite Hc. cbn [mbind option_bind].
  assert (Hw : forall l, read_words ["-o"; dev; "-p"; "tcp"; "-m"; "tcp"; "-d"]
    ("-o" :: dev :: "-p" :: "tcp" :: "-m" :: "tcp" :: "-d" :: l) = Some l).
  { intros l. cbn. repeat (rewrite bool_decide_eq_true_2 by done; cbn). done. }
  rewrite Hw. cbn [mbind option_bind read_any].
  rewrite read_port_words; [|done|].
  - cbn [mbind option_bind]. rewrite read_port_words; [|done|done].
    cbn [mbind option_bind]. by destruct t.
  - intros _. unfold port_words. by destruct (dp =? 0).
Qed.

Lemma read_commands_words dev cs : forall fuel, (length cs < fuel)%nat ->
  forallb clean_command cs = true ->
  read_commands fuel dev (concat (map (command_words dev) cs) ++ ["COMMIT"]) = Some cs.
Proof.
  induction cs as [|c cs IH]; intros [|fuel] Hf Hcl; try (cbn in Hf; lia).
  - done.
  - cbn [forallb] in Hcl. apply andb_true_iff in Hcl as [Hc Hcs]. cbn [map concat]. rewrite <- app_assoc.
    cbn [read_commands]. rewrite read_command_words by done. cbn [mbind option_bind].
    rewrite IH by (done || (cbn in Hf; lia)). cbn.
    destruct c as [op ch [sp dp addr t]]. done.
Qed.

Lemma words_commands dev cs rest : clean dev = true -> forallb clean_command cs = true ->
  String.words_go None (show_commands dev cs +:+ rest) =
  concat (map (command_words dev) cs) ++ String.words_go None rest.
Proof.
  intros Hd. unfold show_commands. induction cs as [|c cs IH]; [done|]. cbn [forallb map foldr concat].
  rewrite andb_true_iff. intros [Hc Hcs]. rewrite append_assoc, show_command_words, append_assoc.
  rewrite words_unwords; [|done|by apply command_words_clean]. by rewrite IH, app_assoc.
Qed.

Lemma length_commands dev cs : (length cs <= length (concat (map (command_words dev) cs)))%nat.
Proof. induction cs as [|c cs IH]; [done|]. cbn [map concat]. rewrite length_app. cbn. lia. Qed.

Lemma read_input_show dev cs :
  clean dev = true -> forallb clean_command cs = true ->
  read_input dev (begin_table +:+ show_commands dev cs +:+ commit_line) = Some cs.
Proof.
  intros Hd Hcs. unfold read_input, String.words, begin_table.
  rewrite append_assoc. rewrite (words_unwords ["*mangle"]); [|done|by repeat constructor].
  rewrite words_commands by done. change (String.words_go None commit_line) with ["COMMIT"].
  cbn [app]. unfold read_word. rewrite bool_decide_eq_true_2 by done. cbn [mbind option_bind].
  apply read_commands_words; [|done]. cbn. rewrite length_app. cbn.
  pose proof (length_commands dev cs). lia.
Qed.

(** ** The rules of a setting *)

Definition block (s : Setting) : list rule :=
  [rule_of s (CLASSIFY (s_class_id s)); rule_of s (DSCP (s_dscp s)); rule_of s RETURN].
Definition blocks (l : list Setting) : list rule := concat (map block l).

(** The same rules in both chains. *)
Definition table_of (l : list rule) : table := mkTable l l.

Definition key (s : Setting) : Z * Z * string := (s_src_port s, s_dst_port s, s_dst_addr s).
Definition rule_key (r : rule) : Z * Z * string := (r_sport r, r_dport r, r_addr r).

Lemma blocks_app l1 l2 : blocks (l1 ++ l2) = blocks l1 ++ blocks l2.
Proof. unfold blocks. by rewrite map_app, concat_app. Qed.

Lemma elem_of_blocks r l : r ∈ blocks l -> exists s, s ∈ l /\ r ∈ block s.
Proof.
  unfold blocks. rewrite list_elem_of_In, in_concat. intros (b & Hb & Hr).
  apply in_map_iff in Hb as (s & <- & Hs). exists s. by rewrite !list_elem_of_In.
Qed.

Lemma block_key r s : r ∈ block s -> rule_key r = key s.
Proof. unfold block. rewrite list_elem_of_In. by intros [<-|[<-|[<-|[]]]]. Qed.

Lemma rule_of_not_in_blocks s t l : key s ∉ map key l -> rule_of s t ∉ blocks l.
Proof.
  intros Hk (s' & Hs' & Hr)%elem_of_blocks. apply Hk. apply block_key in Hr. cbn in Hr.
  change (key s = key s') in Hr. rewrite Hr. by apply list_elem_of_fmap_2.
Qed.

(** ** Running the commands of a batch *)

(** Settings with a port come before those without. *)
Definition fine_order (l : list Setting) : Prop :=
  StronglySorted (fun s s' => fine_grained s' = true -> fine_grained s = true) l.

Lemma fine_order_delete l1 s l2 : fine_order (l1 ++ s :: l2) -> fine_order (l1 ++ l2).
Proof.
  unfold fine_order. induction l1 as [|x l1 IH]; cbn; intros [Hs Hx]%StronglySorted_inv; [done|].
  constructor; [by apply IH|]. rewrite Forall_app, Forall_cons in Hx. apply Forall_app. tauto.
Qed.

Lemma fine_order_snoc l s : fine_order l -> fine_grained s = false -> fine_order (l ++ [s]).
Proof.
  unfold fine_order. intros Hl Hs. induction Hl as [|x l _ IH Hx]; cbn; [by repeat constructor|].
  constructor; [done|]. apply Forall_app. split; [done|]. constructor; [by rewrite Hs|done].
Qed.

Lemma fine_order_cons l s : fine_order l -> fine_grained s = true -> fine_order (s :: l).
Proof. intros Hl Hs. constructor; [done|]. by apply Forall_true. Qed.

Lemma run_commands_app l1 l2 : forall t,
  run_commands (l1 ++ l2) t = t' ← run_commands l1 t; run_commands l2 t'.
Proof.
  induction l1 as [|c l1 IH]; intros t; [done|]. cbn. destruct (run_command c t); [apply IH|done].
Qed.

Lemma run_both o s t l : run_commands (both o s t) (table_of l) = table_of <$> run_rule o (rule_of s t) l.
Proof. unfold both, table_of. cbn. destruct (run_rule o (rule_of s t) l) as [l'|] eqn:E; cbn; [|done]. by rewrite E. Qed.

(** One more pair of commands. *)
Ltac run_pair := rewrite ?run_commands_app, run_both; cbn [run_rule fmap option_fmap option_map mbind option_bind].

Lemma remove_first_app r l1 l2 : r ∉ l1 -> remove_first r (l1 ++ r :: l2) = Some (l1 ++ l2).
Proof.
  induction l1 as [|x l1 IH]; cbn; intros Hr.
  - by rewrite bool_decide_eq_true_2.
  - apply not_elem_of_cons in Hr as [Hx Hr]. rewrite bool_decide_eq_false_2 by congruence. by rewrite IH.
Qed.

Lemma run_delete s l1 l2 : key s ∉ map key l1 ->
  run_commands (delete_commands s) (table_of (blocks (l1 ++ s :: l2))) = Some (table_of (blocks (l1 ++ l2))).
Proof.
  intros Hk. unfold delete_commands. rewrite !blocks_app. change (blocks (s :: l2)) with (block s ++ blocks l2).
  unfold block. cbn [app]. rewrite !run_commands_app.
  assert (Hni : forall t, rule_of s t ∉ blocks l1) by (intros t; by apply rule_of_not_in_blocks).
  rewrite run_both. cbn [run_rule]. rewrite remove_first_app by done. cbn [fmap option_fmap option_map mbind option_bind].
  rewrite run_commands_app, run_both. cbn [run_rule]. rewrite remove_first_app by done.
  cbn [fmap option_fmap option_map mbind option_bind]. rewrite run_both. cbn [run_rule]. by rewrite remove_first_app.
Qed.

Lemma run_deletes d : forall l rest, l ≡ₚ d ++ rest -> NoDup (map key l) ->
  exists l', run_commands (concat (map delete_commands d)) (table_of (blocks l)) = Some (table_of (blocks l')) /\
    l' ≡ₚ rest /\ (fine_order l -> fine_order l').
Proof.
  induction d as [|s d IH]; intros l rest Hl Hn; [by exists l|].
  assert (Hs : s ∈ l) by (rewrite Hl; by left). apply list_elem_of_split in Hs as (l1 & l2 & ->).
  cbn [map concat]. rewrite run_commands_app. rewrite map_app in Hn. cbn [map] in Hn.
  apply NoDup_app in Hn as (Hn1 & Hn12 & [Hn2 Hn3]%NoDup_cons).
  rewrite run_delete by (intros Hin; apply (Hn12 _ Hin); by left). cbn [mbind option_bind].
  destruct (IH (l1 ++ l2) rest) as (l' & Hr & Hl' & Ho);
    [| |by exists l'; split_and!; [..|intros ?%fine_order_delete; auto]].
  - apply (Permutation_cons_inv (a := s)). rewrite <- Permutation_middle in Hl. by rewrite Hl.
  - rewrite map_app. apply NoDup_app. split_and!; [done| |done]. intros x Hx Hx'. apply (Hn12 x Hx). by right.
Qed.

Lemma run_add ignore s l : s_dscp s ∉ ignore ->
  exists l', run_commands (add_commands ignore s) (table_of (blocks l)) = Some (table_of (blocks l')) /\
    l' ≡ₚ s :: l /\ (fine_order l -> fine_order l').
Proof.
  intros Hi. unfold add_commands. rewrite bool_decide_eq_false_2 by done. destruct (fine_grained s) eqn:Ef.
  - exists (s :: l). split; [|split; [done|intros; by apply fine_order_cons]].
    do 3 run_pair. done.
  - exists (l ++ [s]).
    split; [|split; [by rewrite <- Permutation_cons_append|intros; by apply fine_order_snoc]].
    do 3 run_pair.
    rewrite blocks_app. by rewrite <- !app_assoc.
Qed.

Lemma run_adds ignore a : forall l, (forall s, s ∈ a -> s_dscp s ∉ ignore) ->
  exists l', run_commands (concat (map (add_commands ignore) a)) (table_of (blocks l)) = Some (table_of (blocks l')) /\
    l' ≡ₚ l ++ a /\ (fine_order l -> fine_order l').
Proof.
  induction a as [|s a IH]; intros l Hi; [exists l; by rewrite app_nil_r|]. cbn [map concat].
  rewrite run_commands_app. destruct (run_add ignore s l) as (l1 & -> & H1 & O1); [apply Hi; by left|].
  cbn [mbind option_bind]. destruct (IH l1) as (l2 & -> & H2 & O2); [intros; apply Hi; by right|].
  exists l2. split_and!; [done| |auto]. rewrite H2, H1. solve_Permutation.
Qed.

(** *** Sizes and words *)

Definition clean_setting (s : Setting) : bool :=
  port_ok (s_src_port s) && port_ok (s_dst_port s) && clean (s_dst_addr s) && clean (s_class_id s) &&
  clean (s_dscp s).

Lemma commands_clean ignore s c : clean_setting s = true ->
  c ∈ delete_commands s \/ c ∈ add_commands ignore s -> clean_command c = true.
Proof.
  unfold clean_setting. rewrite !andb_true_iff. intros [[[[H1 H2] H3] H4] H5] Hc.
  assert (Hb : forall o t, clean_target t = true -> forall c, c ∈ both o s t -> clean_command c = true).
  { intros o t Ht c0. unfold both. rewrite list_elem_of_In. unfold clean_command.
    by intros [<-|[<-|[]]]; cbn; rewrite H1, H2, H3. }
  unfold delete_commands, add_commands in Hc. destruct Hc as [Hc|Hc].
  - rewrite !elem_of_app in Hc. destruct Hc as [Hc|[Hc|Hc]]; by eapply Hb in Hc.
  - destruct (fine_grained s), (bool_decide (s_dscp s ∈ ignore)); rewrite !elem_of_app, ?elem_of_nil in Hc;
      destruct_or? Hc; try done; by eapply Hb in Hc.
Qed.

Definition batch_commands (ignore : list string) (del add : list Setting) : list command :=
  concat (map delete_commands del) ++ concat (map (add_commands ignore) add).

Lemma batch_commands_clean ignore del add :
  Forall (fun s => clean_setting s = true) (del ++ add) ->
  forallb clean_command (batch_commands ignore del add) = true.
Proof.
  rewrite Forall_forall. intros Hc. apply forallb_forall. intros c Hin. unfold batch_commands in Hin.
  rewrite in_app_iff, !in_concat in Hin. destruct Hin as [(b & Hb & Hin)|(b & Hb & Hin)];
    apply in_map_iff in Hb as (s & <- & Hs); apply (commands_clean ignore s);
    rewrite ?list_elem_of_In; try tauto; apply Hc, elem_of_app; rewrite !list_elem_of_In; tauto.
Qed.

Lemma length_show dev cs : String.length (show_commands dev cs) = 0%nat -> cs = [].
Proof.
  destruct cs as [|c cs]; [done|]. unfold show_commands. cbn [map foldr]. unfold show_command.
  rewrite !length_append. unfold newline. cbn. lia.
Qed.

Lemma show_commands_app dev l1 l2 : show_commands dev (l1 ++ l2) = show_commands dev l1 +:+ show_commands dev l2.
Proof.
  unfold show_commands. induction l1 as [|c l1 IH]; [done|]. cbn [app map foldr]. by rewrite IH, append_assoc.
Qed.

(** ** The controller *)

Section ControllerSpec.
Context {K : Type} {dev : string} `{!RunnerIface K} `{!RestoreLaws K dev}.

(** Between commits: the table holds the rules of the applied settings, in
    an order where those with ports come first. *)
Record controller_ok (c : @Controller K) : Prop := {
  ok_dev : dev_ c = dev;
  ok_add : to_add_ c = [];
  ok_del : to_del_ c = [];
  ok_keys : NoDup (map key (applied_ c));
  ok_clean : Forall (fun s => clean_setting s = true) (applied_ c);
  ok_rules : exists l, l ≡ₚ applied_ c /\ fine_order l /\ rules (runner_ c) = table_of (blocks l) }.

Definition commit_del (c : @Controller K) : list Setting :=
  to_del_ c ++ set_difference (std_sort (applied_ c)) (std_sort (staged_ c)).
Definition commit_add (c : @Controller K) : list Setting :=
  to_add_ c ++ set_difference (std_sort (staged_ c)) (std_sort (applied_ c)).
Definition commit_commands (c : @Controller K) : list command :=
  batch_commands (dscps_to_ignore_class_id_ c) (commit_del c) (commit_add c).

Definition after_commit (c : @Controller K) (k : K) (applied to_del : list Setting) : @Controller K :=
  mkController (dev_ c) (dscps_to_ignore_class_id_ c) k [] applied [] to_del.

(** What a commit gives to the runner. *)
Lemma CommitChanges_cases (c : @Controller K) :
  (commit_commands c = [] /\ CommitChanges c = (after_commit c (runner_ c) (std_sort (staged_ c)) [], true)) \/
  exists k ok, Restore (runner_ c) (begin_table +:+ show_commands (dev_ c) (commit_commands c) +:+ commit_line)
      (mkRestoreFlags false false) = (k, ok) /\
    CommitChanges c = if ok then (after_commit c k (std_sort (staged_ c)) [], true)
                      else (after_commit c k [] (commit_del c ++ commit_add c), false).
Proof.
  unfold CommitChanges, ComputeDiff. fold (commit_del c) (commit_add c).
  unfold AddRuleLinesToDelete, AddRuleLinesToAdd. rewrite <- !append_assoc.
  rewrite (append_assoc begin_table), <- show_commands_app.
  fold (batch_commands (dscps_to_ignore_class_id_ c) (commit_del c) (commit_add c)).
  fold (commit_commands c). rewrite append_assoc, !length_append.
  destruct (_ =? _)%nat eqn:E.
  - left. apply Nat.eqb_eq in E. split; [|done]. apply (length_show (dev_ c)). lia.
  - right. destruct (Restore _ _ _) as [k ok] eqn:Er. exists k, ok. split; [done|]. by destruct ok.
Qed.

Lemma commit_clean (c : @Controller K) : Forall (fun s => clean_setting s = true) (to_del_ c ++ to_add_ c ++ applied_ c ++ staged_ c) ->
  Forall (fun s => clean_setting s = true) (commit_del c ++ commit_add c).
Proof.
  rewrite !Forall_forall. intros Hc s. unfold commit_del, commit_add. rewrite !elem_of_app.
  intros [[?|Hs]|[?|Hs]]; apply Hc; rewrite !elem_of_app; try tauto;
    apply elem_of_set_difference in Hs; rewrite std_sort_perm in Hs; tauto.
Qed.

(** C37: the lines say what they mean: what [AddRuleLinesToDelete] and
    [AddRuleLinesToAdd] write, between the lines that begin and end the table,
    is read back as exactly the commands of the batches, whatever the ports,
    addresses, classes and DSCPs, as long as those are words. *)
Theorem restore_input_roundtrip ignore del add :
  clean dev = true -> Forall (fun s => clean_setting s = true) (del ++ add) ->
  read_input dev (begin_table +:+ AddRuleLinesToDelete dev del +:+ AddRuleLinesToAdd ignore dev add +:+ commit_line) =
  Some (batch_commands ignore del add).
Proof.
  intros Hd Hc. unfold AddRuleLinesToDelete, AddRuleLinesToAdd.
  rewrite <- (read_input_show dev (batch_commands ignore del add) Hd) by by apply batch_commands_clean.
  unfold batch_commands. by rewrite show_commands_app, append_assoc.
Qed.

(** *** A packet in the table *)

Definition setting_matches (p : packet) (s : Setting) : bool := rule_matches p (rule_of s RETURN).

Lemma traverse_blocks p l : forall m,
  traverse p (blocks l) m =
  from_option (fun s => (Some (s_class_id s), Some (s_dscp s))) m
    (head (filter (fun s => setting_matches p s = true) l)).
Proof.
  induction l as [|s l IH]; intros m; [done|]. rewrite filter_cons.
  change (blocks (s :: l)) with (block s ++ blocks l). unfold block. cbn [app traverse r_target].
  unfold setting_matches at 1.
  change (rule_matches p (rule_of s (CLASSIFY (s_class_id s)))) with (rule_matches p (rule_of s RETURN)).
  change (rule_matches p (rule_of s (DSCP (s_dscp s)))) with (rule_matches p (rule_of s RETURN)).
  case_decide as E; unfold setting_matches in E; [by rewrite E|]. apply not_true_iff_false in E.
  rewrite E. apply IH.
Qed.

(** C6: a commit from a good state: the commands given to iptables-restore are
    valid on the table; if it succeeds the table holds exactly the rules of
    the staged settings, which are now the applied ones, and nothing is left
    to do; if it fails what was to be added is left to be deleted. *)
Theorem CommitChanges_installs_staged (c : @Controller K) :
  clean dev = true -> controller_ok c -> NoDup (map key (staged_ c)) ->
  Forall (fun s => clean_setting s = true) (staged_ c) ->
  (forall s, s ∈ staged_ c -> s_dscp s ∉ dscps_to_ignore_class_id_ c) ->
  is_Some (run_commands (commit_commands c) (rules (runner_ c))) /\
  let '(c', ok) := CommitChanges c in
  staged_ c' = [] /\
  if ok then controller_ok c' /\ applied_ c' ≡ₚ staged_ c /\ StronglySorted setting_le (applied_ c')
  else applied_ c' = [] /\ to_del_ c' = commit_del c ++ commit_add c.
Proof.
  intros Hd [Hdev Hadd Hdel Hkeys Hcl (l & Hl & Hlo & Hr)] Hsk Hsc Hig.
  destruct (set_difference_split (std_sort (applied_ c)) (std_sort (staged_ c))) as (common & H1 & H2).
  assert (Edel : commit_del c = set_difference (std_sort (applied_ c)) (std_sort (staged_ c)))
    by (unfold commit_del; by rewrite Hdel).
  assert (Eadd : commit_add c = set_difference (std_sort (staged_ c)) (std_sort (applied_ c)))
    by (unfold commit_add; by rewrite Hadd).
  rewrite <- Edel in H1. rewrite <- Eadd in H2.
  pose proof (std_sort_perm (applied_ c)) as Pa. pose proof (std_sort_perm (staged_ c)) as Ps.
  destruct (run_deletes (commit_del c) l common) as (l1 & Hrun1 & Hl1 & Ho1).
  { rewrite Hl, <- Pa, H1. solve_Permutation. }
  { by rewrite (fmap_Permutation key l _ Hl). }
  destruct (run_adds (dscps_to_ignore_class_id_ c) (commit_add c) l1) as (l2 & Hrun2 & Hl2 & Ho2).
  { intros s Hs. apply Hig. rewrite <- Ps, H2, elem_of_app. by right. }
  assert (Hl2s : l2 ≡ₚ staged_ c) by (rewrite Hl2, Hl1, <- H2; exact Ps).
  assert (Hrun : run_commands (commit_commands c) (rules (runner_ c)) = Some (table_of (blocks l2))).
  { unfold commit_commands, batch_commands. by rewrite run_commands_app, Hr, Hrun1. }
  split; [by rewrite Hrun|].
  assert (Hok' : forall k, rules k = table_of (blocks l2) ->
    controller_ok (after_commit c k (std_sort (staged_ c)) [])).
  { intros k Hk. split; try done; cbn.
    - by rewrite (fmap_Permutation key _ _ Ps).
    - by rewrite Ps.
    - exists l2. split_and!; [by rewrite Ps|auto|done]. }
  destruct (CommitChanges_cases c) as [(Hno & ->)|(k & ok & Hres & ->)].
  - split; [done|]. split; [|split; [exact Ps|apply std_sort_sorted]]. apply Hok'.
    rewrite Hno in Hrun. by injection Hrun.
  - rewrite Hdev in Hres. pose proof (read_input_show dev (commit_commands c) Hd) as Hread.
    destruct ok; [|done]. split; [done|]. split; [|split; [exact Ps|apply std_sort_sorted]]. apply Hok'.
    apply restore_ok in Hres as (cmds & Hcm & Hrk). rewrite Hread in Hcm; [congruence|].
    apply batch_commands_clean, commit_clean. rewrite Hdel, Hadd. cbn [app]. apply Forall_app. by split.
Qed.

(** *** Looking a flow up *)

Lemma setting_matches_eqv p s : setting_matches p s = true <->
  (s_src_port s = 0 \/ s_src_port s = p_sport p) /\ (s_dst_port s = 0 \/ s_dst_port s = p_dport p) /\
  s_dst_addr s = p_daddr p.
Proof.
  unfold setting_matches, rule_matches. cbn.
  rewrite !andb_true_iff, !orb_true_iff, !Z.eqb_eq, bool_decide_eq_true. tauto.
Qed.

Lemma first_match_Some l sp dp addr s :
  first_match l sp dp addr = Some s ->
  s ∈ l /\ s_src_port s = sp /\ s_dst_port s = dp /\ s_dst_addr s = addr.
Proof.
  unfold first_match. intros H. assert (Hin : s ∈ filter (fun s => same_match sp dp addr s = true) l).
  { destruct (filter _ l); [done|]. cbn in H. injection H as ->. by left. }
  apply list_elem_of_filter in Hin as [Hm Hin]. apply same_match_eqv in Hm. tauto.
Qed.

Lemma first_match_None l sp dp addr s :
  first_match l sp dp addr = None -> s ∈ l -> s_dst_addr s = addr ->
  ~ (s_src_port s = sp /\ s_dst_port s = dp).
Proof.
  unfold first_match. intros H Hin Ha Heq.
  assert (Hf : s ∈ filter (fun s => same_match sp dp addr s = true) l).
  { apply list_elem_of_filter. split; [|done]. apply same_match_eqv. tauto. }
  destruct (filter _ l); [by apply elem_of_nil in Hf|done].
Qed.

(** The setting that decides for a packet: one with a port, if any matches. *)
Definition decides (l : list Setting) (p : packet) (o : option Setting) : Prop :=
  match o with
  | Some s => s ∈ l /\ setting_matches p s = true /\
              (fine_grained s = true \/
               forall s', s' ∈ l -> setting_matches p s' = true -> fine_grained s' = false)
  | None => forall s, s ∈ l -> setting_matches p s = false
  end.

Lemma coarse_key p s : setting_matches p s = true -> fine_grained s = false -> key s = (0, 0, p_daddr p).
Proof.
  rewrite setting_matches_eqv. unfold fine_grained, key. intros (_ & _ & ->).
  rewrite orb_false_iff, !negb_false_iff, !Z.eqb_eq. by intros [-> ->].
Qed.

Lemma decides_unique l p o o' : NoDup (map key l) ->
  (forall s s', s ∈ l -> s' ∈ l -> setting_matches p s = true -> setting_matches p s' = true ->
    fine_grained s = true -> fine_grained s' = true -> s = s') ->
  decides l p o -> decides l p o' -> o = o'.
Proof.
  intros Hn Hu. destruct o as [s|], o' as [s'|]; cbn.
  - intros (Hs & Hm & Hf) (Hs' & Hm' & Hf'). f_equal.
    destruct (fine_grained s) eqn:E, (fine_grained s') eqn:E'.
    + by apply Hu.
    + destruct Hf' as [|Hf']; [done|]. by rewrite (Hf' s) in E.
    + destruct Hf as [|Hf]; [done|]. by rewrite (Hf s') in E'.
    + apply (NoDup_map_inj key l); [done..|]. by rewrite (coarse_key p s), (coarse_key p s').
  - intros (Hs & Hm & _) Hno. by rewrite Hno in Hm.
  - intros Hno (Hs & Hm & _). by rewrite Hno in Hm.
  - done.
Qed.

Lemma not_fine s : fine_grained s = false <-> s_src_port s = 0 /\ s_dst_port s = 0.
Proof. unfold fine_grained. by rewrite orb_false_iff, !negb_false_iff, !Z.eqb_eq. Qed.

(** What the lookups that came before the hit, all misses, rule out. *)
Ltac use_misses l :=
  repeat match goal with
    | H : first_match l _ _ _ = None, H' : ?s ∈ l, Ha : s_dst_addr ?s = _ |- _ =>
        pose proof (first_match_None _ _ _ _ _ H H' Ha); clear H
    end;
  lia.

Lemma lookup_decides l p : decides l p (head (omap (fun k => first_match l (fst k) (snd k) (p_daddr p))
  [(p_sport p, p_dport p); (0, p_dport p); (p_sport p, 0); (0, 0)])).
Proof.
  cbn [omap list_omap fst snd].
  destruct (first_match l (p_sport p) (p_dport p) _) as [s|] eqn:E1;
    [|destruct (first_match l 0 (p_dport p) _) as [s|] eqn:E2;
      [|destruct (first_match l (p_sport p) 0 _) as [s|] eqn:E3;
        [|destruct (first_match l 0 0 _) as [s|] eqn:E4]]]; cbn.
  all: repeat match goal with H : first_match _ _ _ _ = Some _ |- _ =>
         apply first_match_Some in H as (Hin & Hs1 & Hs2 & Hs3) end.
  1-4: split_and!; [done|by apply setting_matches_eqv; rewrite Hs1, Hs2; auto|].
  1-4: destruct (fine_grained s) eqn:Ef; [by left|apply not_fine in Ef as [F1 F2]; right].
  1-4: intros s' Hin' (Hm1 & Hm2 & Hm3)%setting_matches_eqv; apply not_fine; use_misses l.
  intros s Hin. apply not_true_iff_false. rewrite setting_matches_eqv. intros (Hm1 & Hm2 & Hm3). use_misses l.
Qed.

Lemma traverse_decides l p : fine_order l ->
  decides l p (head (filter (fun s => setting_matches p s = true) l)).
Proof.
  unfold fine_order. induction 1 as [|s l _ IH Hs]; [by intros s ?%elem_of_nil|].
  rewrite filter_cons. case_decide as E; cbn.
  - split_and!; [by left|done|]. destruct (fine_grained s) eqn:Ef; [by left|right].
    rewrite Forall_forall in Hs. intros s' [->|Hin]%elem_of_cons Hm; [done|].
    apply not_true_iff_false. intros Hf. by discriminate (Hs s' Hin Hf).
  - apply not_true_iff_false in E. destruct (head _) as [s'|]; cbn in *.
    + destruct IH as (Hin & Hm & Hf). split_and!; [by right|done|]. destruct Hf as [|Hf]; [by left|right].
      intros s'' [->|Hin']%elem_of_cons Hm'; [congruence|auto].
    + intros s' [->|Hin]%elem_of_cons; auto.
Qed.

(** After a commit, what [SettingsFindDscp] answers for a flow is the DSCP
    that the table gives its packets (and the default when no rule matches),
    as long as at most one of the applied settings with a port matches the
    flow.  This is what the host agent's lopri test relies on. *)
Theorem SettingsFindDscp_is_the_mark (c : @Controller K) p def :
  controller_ok c -> StronglySorted setting_le (applied_ c) ->
  (forall s s', s ∈ applied_ c -> s' ∈ applied_ c -> setting_matches p s = true -> setting_matches p s' = true ->
    fine_grained s = true -> fine_grained s' = true -> s = s') ->
  SettingsFindDscp (applied_ c) (p_sport p) (p_dport p) (p_daddr p) def =
  default def (snd (traverse p (t_output (rules (runner_ c))) (None, None))).
Proof.
  intros [_ _ _ Hn _ (l & Hl & Ho & ->)] Hs Hu. cbn [t_output table_of].
  rewrite FindDscp_first, traverse_blocks by done.
  rewrite (decides_unique (applied_ c) p _ (head (filter (fun s => setting_matches p s = true) l))).
  - by destruct (head (filter _ l)).
  - done.
  - done.
  - apply lookup_decides.
  - pose proof (traverse_decides l p Ho) as Hd. unfold decides in *.
    destruct (head (filter _ l)) as [s|]; cbn in *; [|by intros s; rewrite <- Hl; auto].
    destruct Hd as (Hin & Hm & Hf). split_and!; [by rewrite <- Hl|done|]. destruct Hf as [|Hf]; [by left|right].
    intros s'. rewrite <- Hl. auto.
Qed.

(** *** After a failure *)

(** The rounds of a caller: stage the settings of a round, commit; the
    statuses. *)
Definition commit_round (c : @Controller K) (settings : list Setting) : Controller * bool :=
  CommitChanges (foldl Stage c settings).

Fixpoint commit_rounds (c : @Controller K) (rounds : list (list Setting)) : Controller * list bool :=
  match rounds with
  | [] => (c, [])
  | r :: rounds => let '(c, ok) := commit_round c r in
                   let '(c, oks) := commit_rounds c rounds in (c, ok :: oks)
  end.

Lemma foldl_Stage (c : @Controller K) l :
  foldl Stage c l = mkController (dev_ c) (dscps_to_ignore_class_id_ c) (runner_ c) (staged_ c ++ l)
                      (applied_ c) (to_add_ c) (to_del_ c).
Proof.
  revert c. induction l as [|s l IH]; intros c; cbn; [by destruct c; rewrite app_nil_r|].
  rewrite IH. cbn. by rewrite <- app_assoc.
Qed.

Definition no_key (k : Z * Z * string) (l : list rule) : Prop := forall r, r ∈ l -> rule_key r <> k.

Lemma remove_first_sub r l l' x : remove_first r l = Some l' -> x ∈ l' -> x ∈ l.
Proof.
  revert l'. induction l as [|y l IH]; intros l'; cbn; [done|].
  case_bool_decide; [intros [= ->]; by right|]. destruct (remove_first r l) as [l1|]; [|done].
  intros [= <-] [->|Hx]%elem_of_cons; [by left|]. right. by apply (IH l1).
Qed.

Lemma remove_first_absent r l : no_key (rule_key r) l -> remove_first r l = None.
Proof.
  induction l as [|y l IH]; intros Hn; [done|]. cbn. rewrite bool_decide_eq_false_2.
  - rewrite IH; [done|]. intros x Hx. apply Hn. by right.
  - intros ->. by apply (Hn r); [left|].
Qed.

(** Deleting a setting of which the chain has no rule fails, whatever is
    deleted before and done after. *)
Lemma run_deletes_absent del s : s ∈ del -> forall rest t, no_key (key s) (t_output t) ->
  run_commands (concat (map delete_commands del) ++ rest) t = None.
Proof.
  intros (d1 & d2 & ->)%list_elem_of_split rest t Hn.
  rewrite map_app, concat_app, <- app_assoc, run_commands_app.
  destruct (run_commands (concat (map delete_commands d1)) t) as [t'|] eqn:Er; [|done]. cbn [mbind option_bind].
  assert (Hn' : no_key (key s) (t_output t')).
  { assert (Hd : Forall (fun c => c_op c = OpDelete) (concat (map delete_commands d1))).
    { clear. apply Forall_concat, Forall_map, Forall_true. intros s. by repeat constructor. }
    clear - Hn Er Hd. revert t Hn Er. induction Hd as [|c l Hc _ IH]; intros t Hn; cbn.
    - by intros [= <-].
    - unfold run_command. destruct (c_chain c).
      + destruct (run_rule _ _ _) as [l'|] eqn:E; [|done]. cbn. apply IH. cbn. intros r Hr.
        unfold run_rule in E. rewrite Hc in E. apply Hn. by eapply remove_first_sub.
      + destruct (run_rule _ _ _) as [l'|]; [|done]. cbn. by apply IH. }
  cbn. unfold run_command. cbn. by rewrite remove_first_absent.
Qed.

(** A setting waits to be deleted that the table has no rule of. *)
Record doomed (c : @Controller K) : Prop := {
  d_dev : dev_ c = dev;
  d_clean : Forall (fun s => clean_setting s = true) (to_del_ c ++ to_add_ c ++ applied_ c);
  d_absent : exists s, s ∈ to_del_ c /\ no_key (key s) (t_output (rules (runner_ c))) }.

Lemma Restore_None k data flags_ok : clean dev = true ->
  (forall cmds, read_input dev data = Some cmds -> run_commands cmds (rules k) = None) ->
  Restore k data (mkRestoreFlags false false) = flags_ok ->
  snd flags_ok = false /\ rules (fst flags_ok) = rules k.
Proof.
  intros Hd Hnone Hr. destruct flags_ok as [k' []].
  - apply restore_ok in Hr as (cmds & Hi & Hc). by rewrite Hnone in Hc.
  - split; [done|]. apply restore_failed in Hr as [|(cmds & Hi & Hc)]; [done|]. by rewrite Hnone in Hc.
Qed.

Lemma doomed_commit (c : @Controller K) settings : clean dev = true -> doomed c ->
  Forall (fun s => clean_setting s = true) (staged_ c ++ settings) ->
  exists c', commit_round c settings = (c', false) /\ doomed c' /\ staged_ c' = [] /\
    rules (runner_ c') = rules (runner_ c).
Proof.
  intros Hd [Hdev Hcl (s & Hs & Hno)] Hst. unfold commit_round. rewrite foldl_Stage.
  set (c1 := mkController _ _ _ _ _ _ _). assert (Hs1 : s ∈ commit_del c1) by (apply elem_of_app; by left).
  assert (Hcl1 : Forall (fun s => clean_setting s = true) (commit_del c1 ++ commit_add c1)).
  { apply commit_clean. cbn. rewrite !Forall_app in *. tauto. }
  assert (Hnone : run_commands (commit_commands c1) (rules (runner_ c1)) = None)
    by by apply (run_deletes_absent _ s).
  assert (Hdoomed : forall k, rules k = rules (runner_ c) ->
            doomed (after_commit c1 k [] (commit_del c1 ++ commit_add c1))).
  { intros k Hk. split; [done|by cbn; rewrite !app_nil_r|]. exists s. split; [|cbn; by rewrite Hk].
    apply elem_of_app. by left. }
  destruct (CommitChanges_cases c1) as [(E & _)|(k & ok & Hr & ->)]; [by rewrite E in Hnone|].
  apply Restore_None in Hr as [Hok Hk]; [|done|].
  - cbn in Hok. rewrite Hok. eexists. split_and!; [done|by apply Hdoomed|done|done].
  - cbn [dev_ c1]. rewrite Hdev. intros cmds Hi.
    rewrite read_input_show in Hi by (done || by apply batch_commands_clean). by injection Hi as <-.
Qed.

Lemma doomed_rounds rounds : clean dev = true -> forall c : @Controller K, doomed c -> staged_ c = [] ->
  Forall (Forall (fun s => clean_setting s = true)) rounds ->
  let '(c', oks) := commit_rounds c rounds in
  rules (runner_ c') = rules (runner_ c) /\ Forall (eq false) oks.
Proof.
  intros Hd. induction rounds as [|r rounds IH]; intros c Hc Hst Hr; [done|].
  apply Forall_cons in Hr as [Hr Hrs]. cbn [commit_rounds].
  destruct (doomed_commit c r Hd Hc) as (c1 & -> & Hc1 & Hst1 & Ht1); [by rewrite Hst|].
  specialize (IH c1 Hc1 Hst1 Hrs). destruct (commit_rounds c1 rounds) as [c2 oks].
  destruct IH as [IH1 IH2]. split; [by rewrite IH1|by constructor].
Qed.

(** One failure stops the controller: when a commit that would add a
    setting with a match not applied yet fails and leaves the table as it was,
    the controller asks from then on for that setting to be deleted, so every
    later commit fails too, whatever is staged, and the table never changes. *)
Theorem CommitChanges_failure_is_final (c c1 : @Controller K) s rounds :
  clean dev = true -> controller_ok c -> Forall (fun s => clean_setting s = true) (staged_ c) ->
  s ∈ staged_ c -> key s ∉ map key (applied_ c) ->
  CommitChanges c = (c1, false) -> rules (runner_ c1) = rules (runner_ c) ->
  Forall (Forall (fun s => clean_setting s = true)) rounds ->
  let '(c', oks) := commit_rounds c1 rounds in
  rules (runner_ c') = rules (runner_ c) /\ Forall (eq false) oks.
Proof.
  intros Hd [Hdev Hadd Hdel Hkeys Hcl (l & Hl & Hlo & Hr)] Hst Hs Hnew Hcom Hsame Hrounds.
  destruct (CommitChanges_cases c) as [(_ & E)|(k & ok & _ & E)]; [congruence|].
  destruct ok; [congruence|]. rewrite E in Hcom. injection Hcom as <-. cbn in Hsame. rewrite <- Hsame.
  apply (doomed_rounds rounds Hd (after_commit c k [] (commit_del c ++ commit_add c)) ); [|done|done].
  split; [done| |].
  - cbn. rewrite !app_nil_r. apply commit_clean. rewrite Hdel, Hadd. cbn [app]. apply Forall_app. by split.
  - exists s. split.
    + cbn. apply elem_of_app. right. unfold commit_add. rewrite Hadd. cbn [app].
      destruct (set_difference_split (std_sort (applied_ c)) (std_sort (staged_ c))) as (common & H1 & H2).
      rewrite <- (std_sort_perm (staged_ c)), H2, elem_of_app in Hs. destruct Hs as [Hs|]; [|done].
      destruct Hnew. apply list_elem_of_fmap_2. rewrite <- (std_sort_perm (applied_ c)), H1, elem_of_app. by left.
    + cbn. rewrite Hsame, Hr. cbn. intros r (s' & Hs' & Hb)%elem_of_blocks Hk. apply Hnew.
      rewrite <- Hk, (block_key _ _ Hb). apply list_elem_of_fmap_2. by rewrite <- Hl.
Qed.
End ControllerSpec.

(** ** A runner *)

(** The table, and for each call whether the command fails before it does
    anything. *)
Record toy := mkToy { toy_table : table; toy_faults : list bool }.

Definition toy_restore (k : toy) (data : string) (f : RestoreFlags) : toy * bool :=
  let faults := tail (toy_faults k) in
  if default false (head (toy_faults k)) then (mkToy (toy_table k) faults, false)
  else match cmds ← read_input "eth0" data;
             run_commands cmds (if flush_tables f then mkTable [] [] else toy_table k) with
       | Some t => (mkToy t faults, true)
       | None => (mkToy (toy_table k) faults, false)
       end.

#[export] Instance toy_runner : RunnerIface toy := {| Restore := toy_restore |}.

Lemma toy_restore_ok k data f k' : toy_restore k data f = (k', true) ->
  exists cmds, read_input "eth0" data = Some cmds /\
    run_commands cmds (if flush_tables f then mkTable [] [] else toy_table k) = Some (toy_table k').
Proof.
  unfold toy_restore. destruct (default false _); [done|].
  destruct (read_input "eth0" data) as [cmds|]; [|done]. cbn.
  destruct (run_commands cmds _) as [t|] eqn:E; [|done]. intros [= <-]. by exists cmds.
Qed.

#[export] Instance toy_laws : RestoreLaws toy "eth0".
Proof.
  refine {| rules := toy_table |}; [exact (fun k d k' H => toy_restore_ok k d _ k' H)| |
    exact (fun k d k' H => toy_restore_ok k d _ k' H)].
  unfold Restore, toy_runner, toy_restore. intros k data k'. left.
  destruct (default false _); [by injection H as <-|].
  destruct (_ ≫= _) as [t|]; [done|]. by injection H as <-.
Defined.

Definition web (port : Z) (dscp : string) : Setting := mkSetting port 0 "10.0.0.7" "1:2" dscp.
Definition from_web (dscp : string) : Setting := mkSetting 0 443 "10.0.0.7" "1:3" dscp.

Definition toy_controller (faults : list bool) : @Controller toy :=
  new_Controller "eth0" [] (mkToy (mkTable [] []) faults).

(** Cleared, with one setting applied. *)
Definition toy_applied (faults : list bool) : @Controller toy :=
  fst (commit_round (fst (Clear (toy_controller faults))) [web 80 "AF21"]).

Lemma restore_input_roundtrip_witness :
  clean "eth0" = true /\ Forall (fun s => clean_setting s = true) ([web 80 "AF21"] ++ [from_web "BE"]) /\
  read_input "eth0" (begin_table +:+ AddRuleLinesToDelete "eth0" [web 80 "AF21"] +:+
    AddRuleLinesToAdd [] "eth0" [from_web "BE"] +:+ commit_line) =
  Some (batch_commands [] [web 80 "AF21"] [from_web "BE"]).
Proof.
  split; [reflexivity|]. split; [repeat constructor|].
  apply restore_input_roundtrip; [reflexivity|repeat constructor].
Defined.

Lemma toy_applied_ok : controller_ok (dev := "eth0") (toy_applied []).
Proof.
  split; [vm_compute; reflexivity..| | |].
  - replace (applied_ (toy_applied [])) with [web 80 "AF21"] by (vm_compute; reflexivity).
    apply NoDup_singleton.
  - replace (applied_ (toy_applied [])) with [web 80 "AF21"] by (vm_compute; reflexivity). repeat constructor.
  - exists [web 80 "AF21"]. replace (applied_ (toy_applied [])) with [web 80 "AF21"] by (vm_compute; reflexivity).
    split; [reflexivity|]. split; [repeat constructor|]. vm_compute. reflexivity.
Qed.

Lemma Stage_ok (c : @Controller toy) s : controller_ok (dev := "eth0") c -> controller_ok (dev := "eth0") (Stage c s).
Proof. intros []. by split. Qed.

Lemma toy_applied_settings : applied_ (toy_applied []) = [web 80 "AF21"].
Proof. vm_compute. reflexivity. Qed.

Lemma CommitChanges_installs_staged_witness :
  let c := Stage (toy_applied []) (from_web "BE") in
  controller_ok (dev := "eth0") c /\ staged_ c = [from_web "BE"] /\ applied_ c = [web 80 "AF21"] /\
  snd (CommitChanges c) = true /\
  (is_Some (run_commands (commit_commands c) (rules (dev := "eth0") (runner_ c))) /\
   let '(c', ok) := CommitChanges c in
   staged_ c' = [] /\
   if ok then controller_ok (dev := "eth0") c' /\ applied_ c' ≡ₚ staged_ c /\ StronglySorted setting_le (applied_ c')
   else applied_ c' = [] /\ to_del_ c' = commit_del c ++ commit_add c).
Proof.
  assert (Hst : staged_ (Stage (toy_applied []) (from_web "BE")) = [from_web "BE"]) by (vm_compute; reflexivity).
  split; [apply Stage_ok, toy_applied_ok|]. split; [exact Hst|]. split; [exact toy_applied_settings|].
  split; [vm_compute; reflexivity|].
  apply (CommitChanges_installs_staged (dev := "eth0") (Stage (toy_applied []) (from_web "BE"))).
  - reflexivity.
  - apply Stage_ok, toy_applied_ok.
  - rewrite Hst. apply NoDup_singleton.
  - rewrite Hst. repeat constructor.
  - intros s _. vm_compute. intros H. inversion H.
Defined.

Lemma SettingsFindDscp_is_the_mark_witness :
  SettingsFindDscp (applied_ (toy_applied [])) 80 1234 "10.0.0.7" "BE" = "AF21" /\
  SettingsFindDscp (applied_ (toy_applied [])) 80 1234 "10.0.0.7" "BE" =
  default "BE" (snd (traverse (mkPacket 80 1234 "10.0.0.7") (t_output (rules (dev := "eth0") (runner_ (toy_applied [])))) (None, None))).
Proof.
  split; [vm_compute; reflexivity|].
  apply (SettingsFindDscp_is_the_mark (dev := "eth0") (toy_applied []) (mkPacket 80 1234 "10.0.0.7") "BE").
  - apply toy_applied_ok.
  - rewrite toy_applied_settings. repeat constructor.
  - rewrite toy_applied_settings. intros s s' ->%list_elem_of_singleton ->%list_elem_of_singleton. reflexivity.
Defined.

Lemma CommitChanges_failure_is_final_witness :
  let c := Stage (mkController "eth0" [] (mkToy (toy_table (runner_ (toy_applied []))) [true]) []
                    (applied_ (toy_applied [])) [] []) (from_web "BE") in
  let c1 := fst (CommitChanges c) in
  snd (CommitChanges c) = false /\
  let '(c', oks) := commit_rounds c1 [[web 80 "AF21"]; [from_web "BE"]; []] in
  rules (dev := "eth0") (runner_ c') = rules (dev := "eth0") (runner_ c) /\ Forall (eq false) oks.
Proof.
  intros c c1. split; [vm_compute; reflexivity|].
  apply (CommitChanges_failure_is_final (dev := "eth0") c c1 (from_web "BE")).
  - reflexivity.
  - apply Stage_ok. destruct toy_applied_ok as [_ _ _ Hk Hc Hl].
    split; [reflexivity|reflexivity|reflexivity|exact Hk|exact Hc|exact Hl].
  - repeat constructor.
  - apply list_elem_of_singleton. reflexivity.
  - change (key (from_web "BE") ∉ map key (applied_ (toy_applied []))). rewrite toy_applied_settings.
    intros H%list_elem_of_singleton. discriminate H.
  - vm_compute. reflexivity.
  - vm_compute. reflexivity.
  - repeat constructor.
Defined.

(** ** Where lookup and table part *)

(** Two rules with a port, neither more specific: the lookup prefers the one
    with the destination port, the table the one added last. *)
Lemma FindDscp_differs_from_table :
  let c := fst (commit_round (fst (commit_round (fst (Clear (toy_controller []))) [from_web "AF21"]))
                  [from_web "AF21"; web 80 "BE"]) in
  SettingsFindDscp (applied_ c) 80 443 "10.0.0.7" "BE" = "AF21" /\
  traverse (mkPacket 80 443 "10.0.0.7") (t_output (toy_table (runner_ c))) (None, None) = (Some "1:2", Some "BE").
Proof. vm_compute. split; reflexivity. Qed.

(** The class rule of a setting with an ignored DSCP is never added, but it is
    deleted. *)
Lemma ignored_dscp_cannot_be_deleted :
  let c := fst (Clear (new_Controller "eth0" ["BE"] (mkToy (mkTable [] []) []))) in
  let '(c1, ok1) := commit_round c [web 80 "BE"] in
  ok1 = true /\ snd (commit_round c1 []) = false.
Proof. vm_compute. split; reflexivity. Qed.
