(* ===== verification/Wan.v ===== *)
(** * Wan: data centers, their hosts, and the simulated network between them

    src/heyp/flows/dc-mapper.cc, src/heyp/host-agent/simulated-wan-db.cc, and
    the two functions of src/heyp/host-agent/linux-enforcer/enforcer.cc that
    use them: [AllNetemConfigs] and [ExpandDestIntoHostsSinglePri].  Hash maps
    are [gmap]s; a null result is [None].  The views that the table of names
    interns are the strings themselves. *)

From S2P Require Import Prelude Doubles FlowMarker.

(** ** StaticDCMapper *)

Record Entry := mkEntry { host_addr : string; entry_dc : string }.

Record StaticDCMapper := mkStaticDCMapper {
  all_dcs_ : list string;
  host_addr_to_dc_ : gmap string string;
  dc_to_all_hosts_ : gmap string (list string) }.

Definition add_entry (m : StaticDCMapper) (e : Entry) : StaticDCMapper :=
  mkStaticDCMapper
    (if bool_decide (entry_dc e ∈ all_dcs_ m) then all_dcs_ m else all_dcs_ m ++ [entry_dc e])
    (<[host_addr e := entry_dc e]> (host_addr_to_dc_ m))
    (<[entry_dc e := default [] (dc_to_all_hosts_ m !! entry_dc e) ++ [host_addr e]]> (dc_to_all_hosts_ m)).

Definition new_StaticDCMapper (entries : list Entry) : StaticDCMapper :=
  foldl add_entry (mkStaticDCMapper [] ∅ ∅) entries.

Definition HostDC (m : StaticDCMapper) (host : string) : option string := host_addr_to_dc_ m !! host.
Definition HostsForDC (m : StaticDCMapper) (dc : string) : option (list string) := dc_to_all_hosts_ m !! dc.
Definition AllDCs (m : StaticDCMapper) : list string := all_dcs_ m.

(** ** SimulatedWanDB *)

Inductive NetemDelayDist := NETEM_NO_DIST | NETEM_NORMAL | NETEM_UNIFORM | NETEM_PARETO | NETEM_PARETONORMAL.

Record NetemConfig := mkNetemConfig {
  delay_ms : Z;
  delay_jitter_ms : Z;
  delay_correlation_pct : double;
  delay_dist : NetemDelayDist }.

Record QoSNetemConfig := mkQoSNetemConfig { q_hipri : option NetemConfig; q_lopri : option NetemConfig }.

Record Pair := mkPair {
  pair_src_dc : string;
  pair_dst_dc : string;
  netem : option NetemConfig;
  netem_lopri : option NetemConfig }.

Notation SimulatedWanDB := (gmap (string * string) QoSNetemConfig) (only parsing).

Definition pair_config (p : Pair) : QoSNetemConfig :=
  mkQoSNetemConfig (netem p) (match netem_lopri p with Some c => Some c | None => netem p end).

Definition new_SimulatedWanDB (dc_pairs : list Pair) (dc_mapper : StaticDCMapper) : SimulatedWanDB :=
  let netem_configs :=
    foldl (fun db p => <[(pair_src_dc p, pair_dst_dc p) := pair_config p]> db) ∅ dc_pairs in
  foldl (fun db src => foldl (fun db dst =>
      match db !! (src, dst) with
      | None => <[(src, dst) := mkQoSNetemConfig None None]> db
      | Some _ => db
      end) db (AllDCs dc_mapper)) netem_configs (AllDCs dc_mapper).

Definition GetNetem (db : SimulatedWanDB) (src dst : string) : option QoSNetemConfig := db !! (src, dst).

(** ** The configurations of a host's flows *)

Record FlowNetemConfig := mkFlowNetemConfig {
  c_flow : FlowMarker;
  matched_flows : list FlowMarker;
  c_netem : QoSNetemConfig }.

Definition netem_flow (my_dc : string) (my_host_id : Z) (dst : string) : FlowMarker :=
  mkFlowMarker my_dc dst "" my_host_id "" "" UNSET 0 0 0.

Definition netem_config (dc_mapper : StaticDCMapper) (simulated_wan : SimulatedWanDB)
    (my_dc : string) (my_host_id : Z) (dst : string) : option FlowNetemConfig :=
  if bool_decide (dst = my_dc) then None
  else c ← GetNetem simulated_wan my_dc dst;
       let flow := netem_flow my_dc my_host_id dst in
       Some (mkFlowNetemConfig flow (map (set_dst_addr flow) (default [] (HostsForDC dc_mapper dst))) c).

(** The hosts of a DC of [AllDCs] are there ([AllDCs_hosts]), so the pointer
    that the source follows is not null. *)
Definition AllNetemConfigs (dc_mapper : StaticDCMapper) (simulated_wan : SimulatedWanDB)
    (my_dc : string) (my_host_id : Z) : list FlowNetemConfig :=
  omap (netem_config dc_mapper simulated_wan my_dc my_host_id) (AllDCs dc_mapper).

(** ** Matching the flows of an allocation *)

Record MatchedHostFlows := mkMatchedHostFlows { m_hipri : list FlowMarker; m_lopri : list FlowMarker }.

(** [None]: the check fails.  The flow state is not used. *)
Definition ExpandDestIntoHostsSinglePri (dc_mapper : StaticDCMapper) (flow_alloc : FlowAlloc)
    : option MatchedHostFlows :=
  let flow := alloc_flow flow_alloc in
  let expanded :=
    if NONEMPTY (dst_addr flow) then [flow]
    else map (set_dst_addr flow) (default [] (HostsForDC dc_mapper (dst_dc flow))) in
  if 0 <? lopri_rate_limit_bps flow_alloc then
    if hipri_rate_limit_bps flow_alloc =? 0 then Some (mkMatchedHostFlows [] expanded) else None
  else Some (mkMatchedHostFlows expanded []).

(** ** Lemmas *)

Lemma filter_snoc {A} (P : A -> Prop) `{!forall x, Decision (P x)} (l : list A) x :
  filter P (l ++ [x]) = if decide (P x) then filter P l ++ [x] else filter P l.
Proof. rewrite filter_app, filter_cons. case_decide; [done|by rewrite app_nil_r]. Qed.

(** What a mapper knows is what the entries say. *)
Record mapper_ok (entries : list Entry) (m : StaticDCMapper) : Prop := {
  mp_nodup : NoDup (all_dcs_ m);
  mp_dcs : forall dc, dc ∈ all_dcs_ m <-> exists h, mkEntry h dc ∈ entries;
  mp_hosts : forall dc, default [] (dc_to_all_hosts_ m !! dc) =
    map host_addr (filter (fun e => entry_dc e = dc) entries);
  mp_some : forall dc, is_Some (dc_to_all_hosts_ m !! dc) <-> dc ∈ all_dcs_ m;
  mp_host : forall h, host_addr_to_dc_ m !! h = last (map entry_dc (filter (fun e => host_addr e = h) entries)) }.

Lemma add_entry_ok entries m e : mapper_ok entries m -> mapper_ok (entries ++ [e]) (add_entry m e).
Proof.
  intros [H1 H2 H3 H4 H5]. destruct e as [h d].
  assert (Hd : forall dc, dc ∈ all_dcs_ (add_entry m (mkEntry h d)) <-> dc ∈ all_dcs_ m \/ dc = d).
  { intros dc. cbn. case_bool_decide; rewrite ?elem_of_app, ?list_elem_of_singleton; [|done].
    split; [by left|]. by intros [| ->]. }
  split.
  - cbn. case_bool_decide as Hin; [done|]. apply NoDup_app. split_and!; [done| |apply NoDup_singleton].
    by intros x Hx ->%list_elem_of_singleton.
  - intros dc. rewrite Hd, H2. setoid_rewrite elem_of_app. setoid_rewrite list_elem_of_singleton. split.
    + intros [[h' ?]| ->]; [exists h'; by left|exists h; by right].
    + intros [h' [?|[= -> ->]]]; [left; by exists h'|by right].
  - intros dc. rewrite filter_snoc. cbn [add_entry dc_to_all_hosts_ entry_dc host_addr].
    destruct (decide (d = dc)) as [->|Hne].
    + by rewrite lookup_insert_eq, H3, map_app.
    + by rewrite lookup_insert_ne, H3.
  - intros dc. rewrite Hd. cbn. destruct (decide (d = dc)) as [->|Hne].
    + rewrite lookup_insert_eq. split; [by right|done].
    + rewrite lookup_insert_ne, H4 by done. split; [by left|]. by intros [| ->].
  - intros h'. rewrite filter_snoc. cbn [add_entry host_addr_to_dc_ entry_dc host_addr].
    destruct (decide (h = h')) as [->|Hne].
    + rewrite lookup_insert_eq, map_app. cbn. by rewrite last_snoc.
    + by rewrite lookup_insert_ne, H5.
Qed.

Lemma new_StaticDCMapper_ok entries : mapper_ok entries (new_StaticDCMapper entries).
Proof.
  unfold new_StaticDCMapper. induction entries as [|e entries IH] using rev_ind.
  - split; cbn; try done.
    + constructor.
    + intros dc. split; [by intros ?%elem_of_nil|]. by intros [h ?%elem_of_nil].
    + intros dc. rewrite lookup_empty. split; [by intros []|by intros ?%elem_of_nil].
  - rewrite foldl_app. by apply add_entry_ok.
Qed.

Lemma AllDCs_hosts entries dc :
  dc ∈ AllDCs (new_StaticDCMapper entries) -> is_Some (HostsForDC (new_StaticDCMapper entries) dc).
Proof. intros H. by apply (mp_some _ _ (new_StaticDCMapper_ok entries)). Qed.

Lemma last_Some_elem_of {A} (l : list A) x : last l = Some x -> x ∈ l.
Proof. intros (l' & ->)%last_Some. apply elem_of_app. right. by left. Qed.

Lemma filter_one_host entries e : NoDup (map host_addr entries) -> e ∈ entries ->
  filter (fun e' => host_addr e' = host_addr e) entries = [e].
Proof.
  induction entries as [|e' l IH]; [by intros _ ?%elem_of_nil|]. cbn [map].
  rewrite NoDup_cons. intros [Hn Hnd] [->|Hin]%elem_of_cons; rewrite filter_cons.
  - rewrite decide_True by done. f_equal. apply filter_none. intros x Hx Heq. apply Hn. rewrite <- Heq.
    by apply list_elem_of_fmap_2.
  - rewrite decide_False; [by apply IH|]. intros Heq. apply Hn. rewrite Heq. by apply list_elem_of_fmap_2.
Qed.

Lemma HostDC_entry entries h dc : NoDup (map host_addr entries) ->
  HostDC (new_StaticDCMapper entries) h = Some dc <-> mkEntry h dc ∈ entries.
Proof.
  intros Hn. unfold HostDC. rewrite (mp_host _ _ (new_StaticDCMapper_ok entries)). split.
  - intros ([h' dc'] & -> & [Heq Hin]%list_elem_of_filter)%last_Some_elem_of%list_elem_of_fmap.
    cbn in *. by subst h'.
  - intros Hin. pose proof (filter_one_host entries (mkEntry h dc) Hn Hin) as Hf. cbn [host_addr] in Hf. by rewrite Hf.
Qed.

(** ** Properties *)

(** The data centers in the order in which the entries name them first. *)
Lemma AllDCs_order entries : AllDCs (new_StaticDCMapper entries) = reverse (remove_dups (reverse (map entry_dc entries))).
Proof.
  induction entries as [|e entries IH] using rev_ind; [done|]. unfold new_StaticDCMapper in *. rewrite foldl_app, map_app. cbn [foldl].
  cbn [map]. rewrite reverse_snoc. cbn [remove_dups]. unfold AllDCs in *. cbn [add_entry all_dcs_]. rewrite IH.
  assert (Hin : entry_dc e ∈ reverse (remove_dups (reverse (map entry_dc entries))) <-> entry_dc e ∈ reverse (map entry_dc entries))
    by (by rewrite elem_of_reverse, elem_of_remove_dups).
  destruct (decide_rel elem_of (entry_dc e) (reverse (map entry_dc entries))) as [Hd|Hd].
  - by rewrite bool_decide_eq_true_2 by by apply Hin.
  - rewrite bool_decide_eq_false_2 by (by rewrite Hin). by rewrite reverse_cons.
Qed.

Lemma HostsForDC_entries entries dc : let hosts := map host_addr (filter (fun e => entry_dc e = dc) entries) in
  HostsForDC (new_StaticDCMapper entries) dc = if decide (hosts = []) then None else Some hosts.
Proof.
  intros hosts. pose proof (new_StaticDCMapper_ok entries) as Hok. pose proof (mp_hosts _ _ Hok dc) as Hh. fold hosts in Hh.
  unfold HostsForDC. destruct (dc_to_all_hosts_ _ !! dc) as [l|] eqn:E; cbn in Hh; subst hosts; rewrite <- Hh; [|done].
  rewrite decide_False; [done|]. intros ->.
  destruct (proj1 (mp_dcs _ _ Hok dc)) as [h Hin]; [apply (mp_some _ _ Hok); by eexists|].
  symmetry in Hh. apply map_eq_nil in Hh. assert (Hf : mkEntry h dc ∈ filter (fun e => entry_dc e = dc) entries)
    by (by apply list_elem_of_filter). rewrite Hh in Hf. by apply elem_of_nil in Hf.
Qed.

(** C40: the mapper answers from its entries, and its three tables agree: the
    DCs are those of the entries, each once, in the order in which they are
    first named, the hosts of a DC are those of its entries in order, and a DC
    that no entry names has none, a host is in the DC of its last entry, and a
    host of no entry in none; so a DC has hosts exactly if it is listed, the
    DC of a host lists the host, and when every host has one entry, a host's
    DC is the one DC that lists it. *)
Theorem StaticDCMapper_consistent entries :
  let m := new_StaticDCMapper entries in
  let hosts dc := map host_addr (filter (fun e => entry_dc e = dc) entries) in
  AllDCs m = reverse (remove_dups (reverse (map entry_dc entries))) /\ NoDup (AllDCs m) /\
  (forall dc, dc ∈ AllDCs m <-> exists e, e ∈ entries /\ entry_dc e = dc) /\
  (forall dc, HostsForDC m dc = if decide (hosts dc = []) then None else Some (hosts dc)) /\
  (forall h, HostDC m h = entry_dc <$> last (filter (fun e => host_addr e = h) entries)) /\
  (forall dc, is_Some (HostsForDC m dc) <-> dc ∈ AllDCs m) /\
  (forall h dc, HostDC m h = Some dc -> exists l, HostsForDC m dc = Some l /\ h ∈ l) /\
  (NoDup (map host_addr entries) ->
   forall h dc l, HostsForDC m dc = Some l -> h ∈ l -> HostDC m h = Some dc).
Proof.
  intros m hosts. pose proof (new_StaticDCMapper_ok entries) as [H1 H2 H3 H4 H5]. fold m in H1, H2, H3, H4, H5.
  assert (Hhosts : forall dc l, HostsForDC m dc = Some l -> l = hosts dc).
  { intros dc l Hl. unfold m in Hl. rewrite HostsForDC_entries in Hl. case_decide; [done|]. by injection Hl as <-. }
  split_and!; [apply AllDCs_order|exact H1| |intros dc; apply HostsForDC_entries| |exact H4| |].
  - intros dc. unfold AllDCs. rewrite H2. split; [intros [h Hh]; by exists (mkEntry h dc)|]. intros ([h d] & He & <-). by exists h.
  - intros h. unfold HostDC. by rewrite H5, fmap_last.
  - intros h dc. unfold HostDC. rewrite H5. intros Hl%last_Some_elem_of.
    apply list_elem_of_fmap in Hl as ([h' dc'] & -> & [Heq Hin]%list_elem_of_filter). cbn in *. subst h'.
    destruct (proj2 (H4 dc')) as [l Hs]; [apply H2; by exists h|]. exists l. split; [done|]. rewrite (Hhosts _ _ Hs).
    apply list_elem_of_fmap. exists (mkEntry h dc'). split; [done|]. by apply list_elem_of_filter.
  - intros Hn h dc l Hs. rewrite (Hhosts _ _ Hs). intros ([h' dc'] & -> & [Heq Hin]%list_elem_of_filter)%list_elem_of_fmap.
    cbn [entry_dc] in Heq. subst dc'. unfold HostDC. rewrite H5. by rewrite (filter_one_host entries (mkEntry h' dc)).
Qed.

Lemma set_pairs_lookup pairs k :
  foldl (fun (db : SimulatedWanDB) p => <[(pair_src_dc p, pair_dst_dc p) := pair_config p]> db) ∅ pairs !! k =
  pair_config <$> last (filter (fun p => pair_src_dc p = fst k /\ pair_dst_dc p = snd k) pairs).
Proof.
  induction pairs as [|p pairs IH] using rev_ind; [done|]. rewrite foldl_app, filter_snoc. cbn [foldl].
  destruct k as [src dst]. cbn [fst snd] in *. case_decide as E.
  - destruct E as [<- <-]. by rewrite lookup_insert_eq, last_snoc.
  - rewrite lookup_insert_ne; [done|]. intros [= <- <-]. by apply E.
Qed.

(** Pairs that have no configuration get the empty one. *)
Lemma fill_lookup (f : string -> string * string) dsts : forall (db : SimulatedWanDB) k,
  foldl (fun db dst => match db !! f dst with
                       | None => <[f dst := mkQoSNetemConfig None None]> db
                       | Some _ => db end) db dsts !! k =
  match db !! k with
  | Some c => Some c
  | None => if decide (k ∈ map f dsts) then Some (mkQoSNetemConfig None None) else None
  end.
Proof.
  induction dsts as [|d dsts IH]; intros db k; cbn [foldl map].
  - destruct (db !! k); [done|]. rewrite decide_False; [done|]. apply not_elem_of_nil.
  - rewrite IH. destruct (db !! f d) as [c|] eqn:E.
    + destruct (db !! k) eqn:Ek; [done|]. apply decide_ext. rewrite elem_of_cons. split; [by right|].
      intros [->|]; [congruence|done].
    + destruct (decide (f d = k)) as [<-|Hne].
      * rewrite lookup_insert_eq, E, decide_True; [done|by left].
      * rewrite lookup_insert_ne by done. destruct (db !! k); [done|]. apply decide_ext.
        rewrite elem_of_cons. split; [by right|]. by intros [->|].
Qed.

Lemma fill_all_lookup dsts srcs : forall (db : SimulatedWanDB) src dst,
  foldl (fun db src => foldl (fun db dst =>
      match db !! (src, dst) with
      | None => <[(src, dst) := mkQoSNetemConfig None None]> db
      | Some _ => db
      end) db dsts) db srcs !! (src, dst) =
  match db !! (src, dst) with
  | Some c => Some c
  | None => if decide (src ∈ srcs /\ dst ∈ dsts) then Some (mkQoSNetemConfig None None) else None
  end.
Proof.
  induction srcs as [|s srcs IH]; intros db src dst; cbn [foldl].
  - destruct (db !! _); [done|]. rewrite decide_False; [done|]. intros [?%elem_of_nil _]. done.
  - rewrite IH, (fill_lookup (pair s)). destruct (db !! (src, dst)); [done|].
    assert (Hin : (src, dst) ∈ map (pair s) dsts <-> src = s /\ dst ∈ dsts).
    { rewrite list_elem_of_fmap. split; [by intros (d & [= -> ->] & ?)|]. intros [-> ?]. by exists dst. }
    repeat case_decide; try done; exfalso; rewrite ?elem_of_cons in *; tauto.
Qed.

(** The network covers the data centers: every pair of listed DCs has a
    configuration, the last pair of the input decides, low priority is as high
    priority unless it is given, and a pair that the input does not have is
    configured as without delay. *)
Theorem SimulatedWanDB_total pairs entries src dst :
  let m := new_StaticDCMapper entries in
  let db := new_SimulatedWanDB pairs m in
  GetNetem db src dst =
  match last (filter (fun p => pair_src_dc p = src /\ pair_dst_dc p = dst) pairs) with
  | Some p => Some (pair_config p)
  | None => if decide (src ∈ AllDCs m /\ dst ∈ AllDCs m) then Some (mkQoSNetemConfig None None) else None
  end.
Proof.
  cbn. unfold new_SimulatedWanDB, GetNetem. rewrite fill_all_lookup, set_pairs_lookup.
  by destruct (last (filter _ pairs)).
Qed.

(** A host gets one network configuration for every DC but its own: for the
    flows from its own DC to that DC, matched by the addresses of the hosts
    there, in the order of the DCs. *)
Theorem AllNetemConfigs_spec pairs entries my_dc my_host_id :
  let m := new_StaticDCMapper entries in
  let db := new_SimulatedWanDB pairs m in
  my_dc ∈ AllDCs m ->
  map (fun c => dst_dc (c_flow c)) (AllNetemConfigs m db my_dc my_host_id) = filter (fun d => d <> my_dc) (AllDCs m) /\
  Forall (fun c => c_flow c = netem_flow my_dc my_host_id (dst_dc (c_flow c)) /\
      GetNetem db my_dc (dst_dc (c_flow c)) = Some (c_netem c) /\
      matched_flows c = map (fun e => set_dst_addr (c_flow c) (host_addr e))
        (filter (fun e => entry_dc e = dst_dc (c_flow c)) entries))
    (AllNetemConfigs m db my_dc my_host_id).
Proof.
  intros m db Hmy. unfold AllNetemConfigs.
  assert (Hc : forall dst, dst ∈ AllDCs m -> netem_config m db my_dc my_host_id dst =
    if decide (dst <> my_dc)
    then c ← GetNetem db my_dc dst;
         Some (mkFlowNetemConfig (netem_flow my_dc my_host_id dst)
           (map (fun e => set_dst_addr (netem_flow my_dc my_host_id dst) (host_addr e))
              (filter (fun e => entry_dc e = dst) entries)) c)
    else None).
  { intros dst Hd. unfold netem_config. case_bool_decide; case_decide; try done.
    unfold HostsForDC, m. by rewrite (mp_hosts _ _ (new_StaticDCMapper_ok entries)), map_map. }
  assert (Hg : forall dst, dst ∈ AllDCs m -> is_Some (GetNetem db my_dc dst)).
  { intros dst Hd. unfold db, m, new_SimulatedWanDB, GetNetem. rewrite fill_all_lookup.
    destruct (_ !! _); [done|]. by rewrite decide_True. }
  clearbody db. induction (AllDCs m) as [|d dcs IH] in Hc, Hg |- *; [by split|]. cbn [omap list_omap].
  destruct IH as [IH1 IH2]; [by intros; apply Hc; right|by intros; apply Hg; right|].
  rewrite (Hc d) by left. rewrite filter_cons. case_decide; [|done].
  destruct (Hg d) as [c Hd]; [by left|]. rewrite Hd. cbn [mbind option_bind map c_flow netem_flow dst_dc].
  split; [by rewrite <- IH1|]. by constructor.
Qed.

(** A flow is matched to one priority: with only a low priority limit, to
    low priority, and otherwise to high priority, by its own address or, if it
    has none, by the addresses of the hosts of its destination; limits for both
    priorities are the one case that fails. *)
Theorem ExpandDestIntoHostsSinglePri_spec entries a :
  let m := new_StaticDCMapper entries in
  0 <= hipri_rate_limit_bps a -> 0 <= lopri_rate_limit_bps a ->
  match ExpandDestIntoHostsSinglePri m a with
  | None => 0 < hipri_rate_limit_bps a /\ 0 < lopri_rate_limit_bps a
  | Some matched =>
      exists flows, matched = (if 0 <? lopri_rate_limit_bps a then mkMatchedHostFlows [] flows
                               else mkMatchedHostFlows flows []) /\
        (0 < lopri_rate_limit_bps a -> hipri_rate_limit_bps a = 0) /\
        (forall f, f ∈ flows -> set_dst_addr f (dst_addr (alloc_flow a)) = alloc_flow a) /\
        map dst_addr flows =
          if NONEMPTY (dst_addr (alloc_flow a)) then [dst_addr (alloc_flow a)]
          else map host_addr (filter (fun e => entry_dc e = dst_dc (alloc_flow a)) entries)
  end.
Proof.
  intros m Hh Hl. unfold ExpandDestIntoHostsSinglePri, HostsForDC, m.
  rewrite (mp_hosts _ _ (new_StaticDCMapper_ok entries)). set (flows := if NONEMPTY _ then _ else _).
  assert (Hf : (forall f, f ∈ flows -> set_dst_addr f (dst_addr (alloc_flow a)) = alloc_flow a) /\
    map dst_addr flows = if NONEMPTY (dst_addr (alloc_flow a)) then [dst_addr (alloc_flow a)]
          else map host_addr (filter (fun e => entry_dc e = dst_dc (alloc_flow a)) entries)).
  { subst flows. destruct (NONEMPTY _).
    - split; [|done]. intros f ->%list_elem_of_singleton. by destruct (alloc_flow a).
    - split; [|by rewrite map_map, map_id]. intros f (h & -> & _)%list_elem_of_fmap. by destruct (alloc_flow a). }
  destruct (0 <? _) eqn:El; [|exists flows; rewrite Z.ltb_ge in El; split_and!; [done|lia|apply Hf|apply Hf]].
  destruct (_ =? 0) eqn:Eh; [|apply Z.eqb_neq in Eh; apply Z.ltb_lt in El; lia].
  apply Z.eqb_eq in Eh. exists flows. split_and!; [done|done|apply Hf|apply Hf].
Qed.

(** ** Examples *)

Definition example_entries : list Entry :=
  [mkEntry "10.0.0.1" "chicago"; mkEntry "10.0.0.2" "minneapolis"; mkEntry "10.0.0.3" "chicago"].

Definition delay (ms : Z) : NetemConfig := mkNetemConfig ms 0 d0 NETEM_NO_DIST.

Lemma AllNetemConfigs_spec_witness :
  let m := new_StaticDCMapper example_entries in
  let db := new_SimulatedWanDB [mkPair "chicago" "minneapolis" (Some (delay 20)) None] m in
  map (fun c => dst_dc (c_flow c)) (AllNetemConfigs m db "chicago" 7) = ["minneapolis"].
Proof.
  intros m db. destruct (AllNetemConfigs_spec [mkPair "chicago" "minneapolis" (Some (delay 20)) None] example_entries
    "chicago" 7) as [H _].
  - vm_compute. left.
  - exact H.
Defined.

Lemma ExpandDestIntoHostsSinglePri_spec_witness :
  let a := mkFlowAlloc (netem_flow "minneapolis" 7 "chicago") 0 1000 in
  exists flows, ExpandDestIntoHostsSinglePri (new_StaticDCMapper example_entries) a =
      Some (mkMatchedHostFlows [] flows) /\
    map dst_addr flows = ["10.0.0.1"; "10.0.0.3"].
Proof.
  intros a.
  pose proof (ExpandDestIntoHostsSinglePri_spec example_entries a ltac:(cbn; lia) ltac:(cbn; lia)) as H.
  destruct (ExpandDestIntoHostsSinglePri (new_StaticDCMapper example_entries) a) as [m|].
  - destruct H as (flows & -> & _ & _ & Hf). exists flows. split; [reflexivity|]. exact Hf.
  - exfalso. cbn in H. lia.
Defined.
