(* ===== verification/Enforcer.v ===== *)
(** * Enforcer: rate limits and QoS of a host's traffic

    [LinuxHostEnforcer] of src/heyp/host-agent/linux-enforcer/enforcer.{h,cc}:
    for every flow and priority a class of the device's queueing discipline
    with a rate, and the iptables settings that lead the flow's packets into
    the class and mark them.  The tc command is behind [TcCallerIface], the
    iptables command behind [RunnerIface].  The batch of tc commands is the
    list of its lines ([show_tc] gives the text); pointers to the state of a
    flow are its key and a priority.  [next_class_id_] is an [int32_t] in the
    source and has no bound here: a host that creates 2^31 classes is beyond
    the model.  A failed check, which ends the process,
    is [None].  What only reaches the log is left out. *)

From Stdlib Require Import Floats.SpecFloat.
From stdpp Require Import pretty.
From S2P Require Import Prelude Text Doubles FlowMarker Iptables Wan.

#[local] Open Scope string_scope.
#[local] Open Scope list_scope.
#[local] Open Scope Z_scope.

(** ** Text *)

Definition drop_char (s : string) : string := match s with EmptyString => "" | String _ s => s end.

(** [a / b] rounded to the nearest integer, ties to even. *)
Definition round_half_even (a b : Z) : Z :=
  let q := a / b in
  let r := 2 * (a mod b) in
  if (r <? b) || ((r =? b) && Z.even q) then q else q + 1.

(** A double with [%f]: six digits after the point. *)
Definition show_f (x : double) : string :=
  let show (s : bool) (n : Z) :=
    (if s then "-" else "") +:+ pretty (n / 10 ^ 6) +:+ "." +:+ drop_char (pretty (10 ^ 6 + n mod 10 ^ 6)) in
  match x with
  | S754_zero s => show s 0
  | S754_infinity s => if s then "-inf" else "inf"
  | S754_nan => "nan"
  | S754_finite s m e =>
      show s (if 0 <=? e then Zpos m * 2 ^ e * 10 ^ 6 else round_half_even (Zpos m * 10 ^ 6) (2 ^ (- e)))
  end.

(** ** State *)

Record HostEnforcerConfig := mkHostEnforcerConfig {
  limit_hipri : bool;
  limit_lopri : bool;
  pacing_burst_bytes : Z;
  min_rate_limit_bps : Z;
  dscp_hipri : string;
  dscp_lopri : string }.

Inductive qos := HIPRI | LOPRI.

#[export] Instance qos_eq_dec : EqDecision qos.
Proof. solve_decision. Defined.

Record Priority := mkPriority {
  class_id : string;
  cur_rate_limit_bps : Z;
  did_create_class : bool;
  update_after_ipt_change : bool;
  matched : list FlowMarker }.

Record FlowSys := mkFlowSys { hipri : Priority; lopri : Priority }.

Definition new_Priority : Priority := mkPriority "" 0 false false [].
Definition new_FlowSys : FlowSys := mkFlowSys new_Priority new_Priority.

Definition prio (q : qos) (s : FlowSys) : Priority := match q with HIPRI => hipri s | LOPRI => lopri s end.

Definition set_prio (q : qos) (p : Priority) (s : FlowSys) : FlowSys :=
  match q with HIPRI => mkFlowSys p (lopri s) | LOPRI => mkFlowSys (hipri s) p end.

Definition set_class_id (c : string) (p : Priority) : Priority :=
  mkPriority c (cur_rate_limit_bps p) (did_create_class p) (update_after_ipt_change p) (matched p).
Definition set_cur_rate_limit_bps (r : Z) (p : Priority) : Priority :=
  mkPriority (class_id p) r (did_create_class p) (update_after_ipt_change p) (matched p).
Definition set_did_create_class (p : Priority) : Priority :=
  mkPriority (class_id p) (cur_rate_limit_bps p) true (update_after_ipt_change p) (matched p).
Definition set_update_after_ipt_change (b : bool) (p : Priority) : Priority :=
  mkPriority (class_id p) (cur_rate_limit_bps p) (did_create_class p) b (matched p).
Definition set_matched (m : list FlowMarker) (p : Priority) : Priority :=
  mkPriority (class_id p) (cur_rate_limit_bps p) (did_create_class p) (update_after_ipt_change p) m.

Definition is_nil {A} (l : list A) : bool := match l with [] => true | _ => false end.

(** ** The tc command *)

Inductive tc_command :=
  | ClassAdd (class_id : string) (rate_bps : Z)
  | ClassChange (class_id : string) (rate_bps : Z)
  | NetemAdd (class_id : string) (c : NetemConfig).

(** The state after a call and whether its status is ok. *)
Class TcCallerIface (T : Type) := {
  Batch : T -> string -> bool -> T * bool;
  Call : T -> list string -> bool -> T * bool;
  RawOut : T -> string }.

Definition kMaxBandwidthBps : Z := 100 * Z.shiftl 1 30.

Section Enforcer.
Context {T I : Type} `{!TcCallerIface T} `{!RunnerIface I}.
Context (config_ : HostEnforcerConfig) (device_ : string).
(** [match_host_flows_fn_] on the current flow state. *)
Context (match_host_flows_fn_ : FlowAlloc -> option MatchedHostFlows).

Record LinuxHostEnforcer := mkLinuxHostEnforcer {
  sys_info_ : gmap FlowMarker FlowSys;
  next_class_id_ : Z;
  tc_caller_ : T;
  ipt_controller_ : @Controller I;
  ipt_snapshot_ : list Setting }.

Definition new_LinuxHostEnforcer (tc : T) (runner : I) : LinuxHostEnforcer :=
  mkLinuxHostEnforcer ∅ 2 tc (new_Controller device_ [] runner) [].

Definition NetemDistToString (d : NetemDelayDist) : string :=
  match d with
  | NETEM_NO_DIST => "UNKNOWN_NETEM_DIST"
  | NETEM_NORMAL => "normal"
  | NETEM_UNIFORM => "uniform"
  | NETEM_PARETO => "pareto"
  | NETEM_PARETONORMAL => "paretonormal"
  end.

Definition rate_limit_mbps (rate_bps : Z) : double := ddiv (dofZ rate_bps) (dofZ (2 ^ 20)).

Definition burst_arg : string :=
  if 0 <? pacing_burst_bytes config_ then " burst " +:+ pretty (pacing_burst_bytes config_) +:+ "b" else "".

Definition show_class (op class_id : string) (rate_bps : Z) : string :=
  "class " +:+ op +:+ " dev " +:+ device_ +:+ " parent 1: classid " +:+ class_id +:+ " htb rate " +:+
  show_f (rate_limit_mbps rate_bps) +:+ "mbit" +:+ burst_arg +:+ newline.

(** [absl::StripPrefix (id, "1:")]. *)
Definition strip_root (id : string) : string :=
  if bool_decide (String.substring 0 2 id = "1:") then String.substring 2 (String.length id) id else id.

Definition show_dist (c : NetemConfig) : string :=
  match delay_dist c with
  | NETEM_NO_DIST => ""
  | d => " " +:+ pretty (delay_jitter_ms c) +:+ "ms " +:+ show_f (delay_correlation_pct c) +:+
         "% distribution " +:+ NetemDistToString d
  end.

Definition show_tc (c : tc_command) : string :=
  match c with
  | ClassAdd id rate => show_class "add" id rate
  | ClassChange id rate => show_class "change" id rate
  | NetemAdd id c =>
      "qdisc add dev " +:+ device_ +:+ " parent " +:+ id +:+ " handle " +:+ strip_root id +:+ ":0" +:+
      " netem limit 100000 delay " +:+ pretty (delay_ms c) +:+ "ms" +:+ show_dist c +:+ newline
  end.

Definition show_tcs (l : list tc_command) : string := foldr String.append "" (map show_tc l).

(** ** Staging *)

(** The priority, the next class id, the new lines, and whether a class is to
    be created. *)
Definition StageTrafficControlForFlow (rate_limit_bps : Z) (netem_config : option NetemConfig)
    (sys : Priority) (next : Z) : Priority * Z * list tc_command * bool :=
  let rate := Z.max rate_limit_bps (min_rate_limit_bps config_) in
  let '(sys, next) := if bool_decide (class_id sys = "")
                      then (set_class_id ("1:" +:+ pretty next) sys, next + 1) else (sys, next) in
  if negb (did_create_class sys) then
    (sys, next,
     ClassAdd (class_id sys) rate ::
       match netem_config with Some c => [NetemAdd (class_id sys) c] | None => [] end, true)
  else if negb (is_nil (matched sys)) then (sys, next, [ClassChange (class_id sys) rate], false)
  else (sys, next, [], false).

Definition valid_port (p : Z) : bool := (0 <=? p) && (p <=? 2 ^ 16 - 1).

Definition StageIptablesForFlow (matched_flows : list FlowMarker) (dscp class_id : string)
    : option (list Setting) :=
  if is_nil matched_flows then Some []
  else if bool_decide (class_id = "") then None
  else mapM (fun f => if valid_port (src_port f) && valid_port (dst_port f)
                      then Some (mkSetting (src_port f) (dst_port f) (dst_addr f) class_id dscp)
                      else None) matched_flows.

(** ** EnforceAllocs, stage 1: create classes, raise rates *)

(** As [StageTrafficControlForFlow]. *)
Definition early_update (new_limit : Z) (sys : Priority) (next : Z) : Priority * Z * list tc_command * bool :=
  let must_create := bool_decide (class_id sys = "") && negb (is_nil (matched sys)) in
  let '(sys, next, lines, created) :=
    if must_create || (cur_rate_limit_bps sys <? new_limit) then
      let '(sys, next, lines, created) := StageTrafficControlForFlow new_limit None sys next in
      (set_update_after_ipt_change false sys, next, lines, created)
    else if new_limit <? cur_rate_limit_bps sys then
      (set_update_after_ipt_change true sys, next, [], false)
    else (sys, next, [], false) in
  (set_cur_rate_limit_bps new_limit sys, next, lines, created).

Definition new_limit (q : qos) (a : FlowAlloc) : Z :=
  match q with
  | HIPRI => if limit_hipri config_ then hipri_rate_limit_bps a else kMaxBandwidthBps
  | LOPRI => if limit_lopri config_ then lopri_rate_limit_bps a else kMaxBandwidthBps
  end.

Definition flow_sys_key (a : FlowAlloc) : FlowMarker := no_job_key (alloc_flow a).

(** The state of the flows, the next class id, the lines, and the classes to
    create. *)
Record stage1_state := mkStage1 {
  st_sys : gmap FlowMarker FlowSys;
  st_next : Z;
  st_lines : list tc_command;
  st_classes : list (FlowMarker * qos) }.

(** The priority [q] of a flow. *)
Definition stage1_prio (a : FlowAlloc) (q : qos) (s : stage1_state) : stage1_state :=
  let sys := default new_FlowSys (st_sys s !! flow_sys_key a) in
  let '(p, next, lines, created) := early_update (new_limit q a) (prio q sys) (st_next s) in
  mkStage1 (<[flow_sys_key a := set_prio q p sys]> (st_sys s)) next (st_lines s ++ lines)
    (st_classes s ++ if created then [(flow_sys_key a, q)] else []).

Definition stage1_matched (a : FlowAlloc) (m : MatchedHostFlows) (s : stage1_state) : stage1_state :=
  let sys := default new_FlowSys (st_sys s !! flow_sys_key a) in
  mkStage1 (<[flow_sys_key a := mkFlowSys (set_matched (m_hipri m) (hipri sys)) (set_matched (m_lopri m) (lopri sys))]>
              (st_sys s)) (st_next s) (st_lines s) (st_classes s).

Definition stage1_alloc (s : stage1_state) (a : FlowAlloc) : option stage1_state :=
  m ← match_host_flows_fn_ a;
  Some (stage1_prio a LOPRI (stage1_prio a HIPRI (stage1_matched a m s))).

Fixpoint foldM {A B} (f : B -> A -> option B) (b : B) (l : list A) : option B :=
  match l with
  | [] => Some b
  | x :: l => b ← f b x; foldM f b l
  end.

Definition stage1 (e : LinuxHostEnforcer) (bundle : AllocBundle) : option stage1_state :=
  foldM stage1_alloc (mkStage1 (sys_info_ e) (next_class_id_ e) [] []) (flow_allocs bundle).

(** The batch is run if it has lines.  When that fails, what [class show]
    prints tells the classes that exist. *)
Definition run_batch (tc : T) (lines : list tc_command) : T * bool :=
  if is_nil lines then (tc, true) else Batch tc (show_tcs lines) true.

(** The third fields of the lines; the source sorts them to search. *)
Definition found_classes (out : string) : list string :=
  omap (fun line => split_at is_blank line !! 2%nat) (split_at is_newline out).

Definition created_classes (tc : T) (ok : bool) : T * (string -> bool) :=
  if ok then (tc, fun _ => true)
  else let '(tc, ok) := Call tc ["class"; "show"; "dev"; device_] false in
       (tc, fun id => ok && bool_decide (id ∈ found_classes (RawOut tc))).

Definition mark_created (made : string -> bool) (classes : list (FlowMarker * qos))
    (info : gmap FlowMarker FlowSys) : gmap FlowMarker FlowSys :=
  foldl (fun info '(k, q) => alter (fun sys =>
      if made (class_id (prio q sys)) then set_prio q (set_did_create_class (prio q sys)) sys else sys) k info)
    info classes.

(** ** Stage 2: iptables *)

Definition stage2_alloc (info : gmap FlowMarker FlowSys) (a : FlowAlloc) : option (list Setting) :=
  sys ← info !! flow_sys_key a;
  if negb (is_nil (matched (hipri sys))) && negb (did_create_class (hipri sys)) then Some []
  else
    hi ← StageIptablesForFlow (matched (hipri sys)) (dscp_hipri config_) (class_id (hipri sys));
    if negb (is_nil (matched (lopri sys))) && negb (did_create_class (lopri sys)) then Some hi
    else
      lo ← StageIptablesForFlow (matched (lopri sys)) (dscp_lopri config_) (class_id (lopri sys));
      Some (hi ++ lo).

(** What is staged, in order. *)
Definition stage2 (info : gmap FlowMarker FlowSys) (bundle : AllocBundle) : option (list Setting) :=
  @concat Setting <$> mapM (stage2_alloc info) (flow_allocs bundle).

(** ** Stage 3: lower rates *)

Definition late_update (sys : Priority) (next : Z) : Priority * Z * list tc_command :=
  if update_after_ipt_change sys then
    let '(sys, next, lines, _) := StageTrafficControlForFlow (cur_rate_limit_bps sys) None sys next in
    (set_update_after_ipt_change false sys, next, lines)
  else (sys, next, []).

Definition stage3_prio (a : FlowAlloc) (q : qos) (s : stage1_state) : stage1_state :=
  match st_sys s !! flow_sys_key a with
  | Some sys =>
      let '(p, next, lines) := late_update (prio q sys) (st_next s) in
      mkStage1 (<[flow_sys_key a := set_prio q p sys]> (st_sys s)) next (st_lines s ++ lines) (st_classes s)
  | None => s
  end.

Definition stage3_alloc (s : stage1_state) (a : FlowAlloc) : stage1_state :=
  stage3_prio a LOPRI (stage3_prio a HIPRI s).

Definition stage3 (info : gmap FlowMarker FlowSys) (next : Z) (bundle : AllocBundle) : stage1_state :=
  foldl stage3_alloc (mkStage1 info next [] []) (flow_allocs bundle).

(** ** EnforceAllocs *)

Definition EnforceAllocs (e : LinuxHostEnforcer) (bundle : AllocBundle) : option LinuxHostEnforcer :=
  s ← stage1 e bundle;
  let '(tc, ok) := run_batch (tc_caller_ e) (st_lines s) in
  let '(tc, made) := created_classes tc ok in
  let info := mark_created made (st_classes s) (st_sys s) in
  settings ← stage2 info bundle;
  let '(ipt, ok) := CommitChanges (foldl Stage (ipt_controller_ e) settings) in
  if ok then
    let s3 := stage3 info (st_next s) bundle in
    let '(tc, _) := run_batch tc (st_lines s3) in
    Some (mkLinuxHostEnforcer (st_sys s3) (st_next s3) tc ipt (AppliedSettings ipt))
  else Some (mkLinuxHostEnforcer info (st_next s) tc ipt (ipt_snapshot_ e)).

(** ** InitSimulatedWan *)

(** The status: ok, flows that exist already, or a failed command. *)
Inductive init_status := InitOk | FlowsExist (flows : list FlowMarker) | TcFailed | IptablesFailed.

Definition init_prio (c : FlowNetemConfig) (q : qos) (s : stage1_state) : stage1_state :=
  let k := no_job_key (c_flow c) in
  let sys := default new_FlowSys (st_sys s !! k) in
  let '(p, next, lines, _) :=
    StageTrafficControlForFlow kMaxBandwidthBps (match q with HIPRI => q_hipri | LOPRI => q_lopri end (c_netem c))
      (prio q sys) (st_next s) in
  mkStage1 (<[k := set_prio q (set_cur_rate_limit_bps kMaxBandwidthBps p) sys]> (st_sys s)) next
    (st_lines s ++ lines) (st_classes s).

(** The flows that exist already are not touched. *)
Definition init_config (s : stage1_state * list FlowMarker) (c : FlowNetemConfig)
    : stage1_state * list FlowMarker :=
  let '(s, errors) := s in
  match st_sys s !! no_job_key (c_flow c) with
  | Some _ => (s, errors ++ [c_flow c])
  | None => (init_prio c LOPRI (init_prio c HIPRI s), errors)
  end.

(** Stage 2 runs over all configurations. *)
Definition init_iptables (s : gmap FlowMarker FlowSys * list Setting) (c : FlowNetemConfig)
    : option (gmap FlowMarker FlowSys * list Setting) :=
  let '(info, staged) := s in
  sys ← info !! no_job_key (c_flow c);
  let hi := set_matched (matched_flows c) (set_did_create_class (hipri sys)) in
  let sys := mkFlowSys hi (set_did_create_class (lopri sys)) in
  settings ← StageIptablesForFlow (matched hi) (dscp_hipri config_) (class_id hi);
  Some (<[no_job_key (c_flow c) := sys]> info, staged ++ settings).

Definition InitSimulatedWan (e : LinuxHostEnforcer) (configs : list FlowNetemConfig)
    : option (LinuxHostEnforcer * init_status) :=
  let '(s, errors) := foldl init_config (mkStage1 (sys_info_ e) (next_class_id_ e) [] [], []) configs in
  let '(tc, ok) := Batch (tc_caller_ e) (show_tcs (st_lines s)) true in
  if negb ok then
    Some (mkLinuxHostEnforcer (st_sys s) (st_next s) tc (ipt_controller_ e) (ipt_snapshot_ e), TcFailed)
  else
    '(info, settings) ← foldM init_iptables (st_sys s, []) configs;
    let '(ipt, ok) := CommitChanges (foldl Stage (ipt_controller_ e) settings) in
    Some (if negb ok then
            (mkLinuxHostEnforcer info (st_next s) tc ipt (ipt_snapshot_ e), IptablesFailed)
          else
            (mkLinuxHostEnforcer info (st_next s) tc ipt (AppliedSettings ipt),
             match errors with [] => InitOk | _ => FlowsExist errors end)).

(** ** ResetDeviceConfig *)

(** Deleting the root fails when there is none; that is ignored. *)
Definition ResetTrafficControl (tc : T) : T * bool :=
  let '(tc, _) := Call tc ["qdisc"; "delete"; "dev"; device_; "root"] false in
  Call tc ["qdisc"; "add"; "dev"; device_; "root"; "handle"; "1:"; "htb"; "default"; "0"] false.

Definition ResetDeviceConfig (e : LinuxHostEnforcer) : LinuxHostEnforcer * bool :=
  let '(tc, ok) := ResetTrafficControl (tc_caller_ e) in
  if negb ok then
    (mkLinuxHostEnforcer (sys_info_ e) (next_class_id_ e) tc (ipt_controller_ e) (ipt_snapshot_ e), false)
  else
    let '(ipt, ok) := Clear (ipt_controller_ e) in
    (mkLinuxHostEnforcer (sys_info_ e) (next_class_id_ e) tc ipt (ipt_snapshot_ e), ok).

(** ** GetIsLopriFunc *)

(** The ports are converted to [uint16_t]. *)
Definition GetIsLopriFunc (e : LinuxHostEnforcer) (flow : FlowMarker) : bool :=
  bool_decide (SettingsFindDscp (ipt_snapshot_ e) (src_port flow mod 2 ^ 16) (dst_port flow mod 2 ^ 16)
                 (dst_addr flow) (dscp_hipri config_) = dscp_lopri config_).
End Enforcer.
