(* ===== verification/EnforcerSpec.v ===== *)
(** * EnforcerSpec: what the enforcer does to classes and settings

    Properties of [Enforcer]: the classes of flows and priorities never
    clash, no check fails, rates are raised before and lowered after the
    change of iptables, and the low-priority test follows the allocations.
    The rates on the device are in [EnforcerRates]. *)

From stdpp Require Import pretty.
From S2P Require Import Prelude Text Doubles FlowMarker Iptables IptablesTable Wan Enforcer.

#[local] Open Scope string_scope.
#[local] Open Scope list_scope.
#[local] Open Scope Z_scope.

#[local] Arguments CommitChanges : simpl never.
#[local] Arguments run_batch : simpl never.
#[local] Arguments created_classes : simpl never.
#[local] Arguments stage1 : simpl never.
#[local] Arguments stage2 : simpl never.
#[local] Arguments stage3 : simpl never.
#[local] Arguments mark_created : simpl never.

(** ** The state as a function of flow and priority *)

Definition prio_at (info : gmap FlowMarker FlowSys) (k : FlowMarker) (q : qos) : Priority :=
  prio q (default new_FlowSys (info !! k)).

Lemma prio_set_prio q p sys q' : prio q' (set_prio q p sys) = if decide (q' = q) then p else prio q' sys.
Proof. by destruct q, q'. Qed.

Lemma prio_at_insert info k q p k' q' :
  prio_at (<[k := set_prio q p (default new_FlowSys (info !! k))]> info) k' q' =
  if decide (k' = k /\ q' = q) then p else prio_at info k' q'.
Proof.
  unfold prio_at. destruct (decide (k = k')) as [<-|Hne].
  - rewrite lookup_insert_eq. cbn. rewrite prio_set_prio. repeat case_decide; tauto || naive_solver.
  - rewrite lookup_insert_ne by done. rewrite decide_False; [done|]. by intros [-> _].
Qed.

Lemma prio_new q : prio q new_FlowSys = new_Priority.
Proof. by destruct q. Qed.

(** ** Classes *)

Definition class_name (n : Z) : string := "1:" +:+ pretty n.

Lemma class_name_inj n m : class_name n = class_name m -> n = m.
Proof. unfold class_name. intros H. injection H as H. by apply pretty_Z_inj. Qed.

(** Between the operations: classes are numbered below the next number, no
    two flows or priorities share one, and what was created has one. *)
Record classes_ok (info : gmap FlowMarker FlowSys) (next : Z) : Prop := {
  cl_next : 2 <= next;
  cl_name : forall k q, class_id (prio_at info k q) = "" \/
    exists n, class_id (prio_at info k q) = class_name n /\ 2 <= n < next;
  cl_unique : forall k q k' q', class_id (prio_at info k q) <> "" ->
    class_id (prio_at info k q) = class_id (prio_at info k' q') -> k = k' /\ q = q';
  cl_created : forall k q, did_create_class (prio_at info k q) = true -> class_id (prio_at info k q) <> "" }.

(** A step of one priority. *)
Definition prio_step (p : Priority) (next : Z) (p' : Priority) (next' : Z) : Prop :=
  (class_id p' = class_id p /\ next' = next \/
   class_id p = "" /\ class_id p' = class_name next /\ next' = next + 1) /\
  (did_create_class p' = true -> did_create_class p = true \/ class_id p' <> "").

Lemma class_name_nonempty n : class_name n <> "".
Proof. done. Qed.

Lemma classes_ok_step info next k q p' next' :
  classes_ok info next -> prio_step (prio_at info k q) next p' next' ->
  classes_ok (<[k := set_prio q p' (default new_FlowSys (info !! k))]> info) next'.
Proof.
  intros [H0 H1 H2 H3] [Hid Hdid]. set (info' := <[k := _]> info).
  assert (Hat : forall k' q', prio_at info' k' q' = if decide (k' = k /\ q' = q) then p' else prio_at info k' q')
    by (intros; apply prio_at_insert).
  assert (Hnext : next <= next' /\ 2 <= next') by (destruct Hid as [[_ ->]|(_ & _ & ->)]; lia).
  assert (Hold : forall k' q' n, class_id (prio_at info k' q') = class_name n -> n < next).
  { intros k' q' n E. destruct (H1 k' q') as [E0|(n' & E' & Hn)]; rewrite E in *; [done|].
    apply class_name_inj in E' as ->. lia. }
  split; [lia| | |].
  - intros k' q'. rewrite Hat. case_decide.
    + destruct Hid as [[-> ->]|(_ & -> & ->)].
      * apply H1.
      * right. exists next. split; [done|lia].
    + destruct (H1 k' q') as [?|(n & ? & ?)]; [by left|right]. exists n. split; [done|lia].
  - intros k1 q1 k2 q2. rewrite !Hat. destruct Hid as [[Hid _]|(Hemp & Hid & _)].
    + repeat case_decide; destruct_and?; subst; rewrite ?Hid; intros; try done; try (by apply H2).
    + repeat case_decide; destruct_and?; subst; rewrite ?Hid; intros Hne Heq; try done; try (by apply H2).
      * symmetry in Heq. apply Hold in Heq. lia.
      * apply Hold in Heq. lia.
  - intros k' q'. rewrite Hat. case_decide; [|apply H3]. intros Hd. destruct (Hdid Hd) as [Hd'|]; [|done].
    apply H3 in Hd'. destruct Hid as [[-> _]|(E & _ & _)]; [done|congruence].
Qed.

Lemma classes_ok_empty : classes_ok ∅ 2.
Proof.
  assert (Hat : forall k q, prio_at ∅ k q = new_Priority)
    by (intros; unfold prio_at; rewrite lookup_empty; apply prio_new).
  split; [lia| | |]; intros *; rewrite !Hat; cbn; [by left|done|done].
Qed.

(** ** Staging, in one equation *)

Definition named (p : Priority) (next : Z) : Priority :=
  if bool_decide (class_id p = "") then set_class_id (class_name next) p else p.
Definition next_after (p : Priority) (next : Z) : Z :=
  if bool_decide (class_id p = "") then next + 1 else next.

Lemma named_step p next f :
  (forall p, class_id (f p) = class_id p /\ did_create_class (f p) = did_create_class p) ->
  prio_step p next (f (named p next)) (next_after p next).
Proof.
  intros Hf. destruct (Hf (named p next)) as [Hc Hd]. unfold prio_step. rewrite Hc, Hd. unfold named, next_after.
  case_bool_decide; cbn; auto.
Qed.

Lemma named_nonempty p next : class_id (named p next) <> "".
Proof. unfold named. by case_bool_decide. Qed.

(** A step that names nothing. *)
Lemma same_step p next p' : class_id p' = class_id p ->
  (did_create_class p' = true -> did_create_class p = true \/ class_id p <> "") -> prio_step p next p' next.
Proof. intros Hc Hd. split; [by left|]. by rewrite Hc. Qed.

Section Spec.
Context {T I : Type} `{!TcCallerIface T} `{!RunnerIface I}.
Context (config_ : HostEnforcerConfig) (device_ : string).
Context (match_host_flows_fn_ : FlowAlloc -> option MatchedHostFlows).

Notation early_update := (early_update config_).
Notation late_update := (late_update config_).
Notation StageTraffic := (StageTrafficControlForFlow config_).
Notation stage1_prio := (stage1_prio config_).
Notation stage3_prio := (stage3_prio config_).
Notation init_prio := (init_prio config_).
Notation new_limit := (new_limit config_).
Notation EnforceAllocs := (EnforceAllocs config_ device_ match_host_flows_fn_).
Notation InitSimulatedWan := (InitSimulatedWan config_ device_).
Notation LinuxHostEnforcer := (@LinuxHostEnforcer T I).

(** The rate a class gets for a limit. *)
Definition class_rate (limit : Z) : Z := Z.max limit (min_rate_limit_bps config_).

Definition class_lines (limit : Z) (netem : option NetemConfig) (p : Priority) : list tc_command :=
  if did_create_class p then (if is_nil (matched p) then [] else [ClassChange (class_id p) (class_rate limit)])
  else ClassAdd (class_id p) (class_rate limit) ::
         match netem with Some c => [NetemAdd (class_id p) c] | None => [] end.

Lemma StageTraffic_eq limit netem p next :
  StageTraffic limit netem p next =
  (named p next, next_after p next, class_lines limit netem (named p next), negb (did_create_class p)).
Proof.
  unfold StageTrafficControlForFlow, named, next_after, class_lines.
  destruct p as [c r d u m]. cbn. case_bool_decide; cbn; destruct d, m; done.
Qed.

(** Whether stage 1 gives commands for the priority. *)
Definition raises (limit : Z) (p : Priority) : bool :=
  bool_decide (class_id p = "") && negb (is_nil (matched p)) || (cur_rate_limit_bps p <? limit).

Lemma early_update_eq limit p next :
  early_update limit p next =
  if raises limit p then
    (set_cur_rate_limit_bps limit (set_update_after_ipt_change false (named p next)), next_after p next,
     class_lines limit None (named p next), negb (did_create_class p))
  else
    (set_cur_rate_limit_bps limit
       (if limit <? cur_rate_limit_bps p then set_update_after_ipt_change true p else p), next, [], false).
Proof.
  unfold Enforcer.early_update, raises. rewrite StageTraffic_eq.
  destruct (_ || _); [done|]. by destruct (limit <? _).
Qed.

Lemma late_update_eq p next :
  late_update p next =
  if update_after_ipt_change p then
    (set_update_after_ipt_change false (named p next), next_after p next,
     class_lines (cur_rate_limit_bps p) None (named p next))
  else (p, next, []).
Proof. unfold Enforcer.late_update. rewrite StageTraffic_eq. by destruct (update_after_ipt_change p). Qed.

Lemma early_update_step limit p next :
  let '(p', next', _, _) := early_update limit p next in prio_step p next p' next'.
Proof.
  rewrite early_update_eq. destruct (raises limit p).
  - by apply (named_step p next (fun p => set_cur_rate_limit_bps limit (set_update_after_ipt_change false p))).
  - apply same_step; destruct (limit <? _); cbn; auto.
Qed.

Lemma late_update_step p next :
  let '(p', next', _) := late_update p next in prio_step p next p' next'.
Proof.
  rewrite late_update_eq. destruct (update_after_ipt_change p).
  - by apply (named_step p next (set_update_after_ipt_change false)).
  - apply same_step; auto.
Qed.

(** ** The stages keep the classes apart *)

Lemma classes_ok_same info info' next : classes_ok info next ->
  (forall k q, class_id (prio_at info' k q) = class_id (prio_at info k q) /\
     (did_create_class (prio_at info' k q) = true ->
        did_create_class (prio_at info k q) = true \/ class_id (prio_at info k q) <> "")) ->
  classes_ok info' next.
Proof.
  intros [H0 H1 H2 H3] Hs. split; [done| | |].
  - intros k q. destruct (Hs k q) as [-> _]. apply H1.
  - intros k q k' q'. destruct (Hs k q) as [-> _], (Hs k' q') as [-> _]. apply H2.
  - intros k q. destruct (Hs k q) as [-> Hd]. intros [|]%Hd; [by apply H3|done].
Qed.

(** While the stages run. *)
Record stage_ok (s : stage1_state) : Prop := {
  so_classes : classes_ok (st_sys s) (st_next s);
  so_named : forall k q, (k, q) ∈ st_classes s ->
    is_Some (st_sys s !! k) /\ class_id (prio_at (st_sys s) k q) <> "" }.

Lemma is_Some_insert (info : gmap FlowMarker FlowSys) k k' v : is_Some (info !! k') -> is_Some (<[k := v]> info !! k').
Proof. intros H. destruct (decide (k = k')) as [->|]; [by rewrite lookup_insert_eq|by rewrite lookup_insert_ne]. Qed.

Lemma prio_step_named p next p' next' : prio_step p next p' next' -> class_id p <> "" -> class_id p' <> "".
Proof. intros [[[-> _]|(_ & -> & _)] _]; done. Qed.

Lemma stage1_prio_ok a q s : stage_ok s -> stage_ok (stage1_prio a q s).
Proof.
  intros [Hc Hn]. unfold Enforcer.stage1_prio.
  set (k := flow_sys_key a). set (p := prio q (default new_FlowSys (st_sys s !! k))).
  pose proof (early_update_step (new_limit q a) p (st_next s)) as Hstep.
  pose proof (early_update_eq (new_limit q a) p (st_next s)) as Heq.
  destruct (early_update (new_limit q a) p (st_next s)) as [[[p' next'] lines] created].
  assert (Hcr : created = true -> class_id p' <> "").
  { intros ->. destruct (raises _ _); [|done]. injection Heq as -> _ _ _. apply named_nonempty. }
  split; cbn.
  - by apply (classes_ok_step (st_sys s) (st_next s)).
  - intros k' q'. rewrite elem_of_app, prio_at_insert. intros [Hin|Hin].
    + destruct (Hn _ _ Hin) as [Hs Hne]. split; [by apply is_Some_insert|].
      case_decide as E; [|done]. destruct E as [-> ->]. by apply (prio_step_named p (st_next s) p' next').
    + destruct created; [|by apply elem_of_nil in Hin]. apply list_elem_of_singleton in Hin as [= -> ->].
      rewrite lookup_insert_eq, decide_True by done. split; [done|by apply Hcr].
Qed.

Lemma prio_at_matched a m s k q :
  let s' := stage1_matched a m s in
  prio_at (st_sys s') k q =
  if decide (k = flow_sys_key a)
  then set_matched (match q with HIPRI => m_hipri m | LOPRI => m_lopri m end) (prio_at (st_sys s) k q)
  else prio_at (st_sys s) k q.
Proof.
  cbn. unfold prio_at. case_decide as E.
  - subst k. rewrite lookup_insert_eq. by destruct q.
  - by rewrite lookup_insert_ne.
Qed.

Lemma stage1_matched_ok a m s : stage_ok s -> stage_ok (stage1_matched a m s).
Proof.
  intros [Hc Hn]. pose proof (prio_at_matched a m s) as Hm. cbn in Hm. split; cbn.
  - apply (classes_ok_same (st_sys s)); [done|]. intros k q. rewrite Hm. case_decide; cbn; auto.
  - intros k q Hin. destruct (Hn k q Hin) as [Hs Hne]. split; [by apply is_Some_insert|].
    rewrite Hm. by case_decide.
Qed.

Lemma stage1_alloc_ok s a s' : stage_ok s -> stage1_alloc config_ match_host_flows_fn_ s a = Some s' -> stage_ok s'.
Proof.
  unfold stage1_alloc. destruct (match_host_flows_fn_ a) as [m|]; [|done]. intros Hs [= <-].
  by apply stage1_prio_ok, stage1_prio_ok, stage1_matched_ok.
Qed.

Lemma foldM_ind {A B} (P : B -> Prop) (f : B -> A -> option B) l : forall b b',
  (forall b a b', P b -> f b a = Some b' -> P b') -> P b -> foldM f b l = Some b' -> P b'.
Proof.
  induction l as [|a l IH]; intros b b' Hf Hb; cbn; [by intros [= <-]|].
  destruct (f b a) as [b1|] eqn:E; [|done]. cbn. apply IH; [done|by apply (Hf b a)].
Qed.

Lemma stage1_ok e bundle s : classes_ok (sys_info_ e) (next_class_id_ e) ->
  stage1 config_ match_host_flows_fn_ (e : LinuxHostEnforcer) bundle = Some s -> stage_ok s.
Proof.
  intros Hc. apply foldM_ind; [intros *; apply stage1_alloc_ok|]. split; [done|]. by intros k q ?%elem_of_nil.
Qed.

Lemma mark_created_at made classes : forall info k q, (forall k q, (k, q) ∈ classes -> is_Some (info !! k)) ->
  prio_at (mark_created made classes info) k q =
  if bool_decide ((k, q) ∈ classes) && made (class_id (prio_at info k q))
  then set_did_create_class (prio_at info k q) else prio_at info k q.
Proof.
  induction classes as [|[k1 q1] classes IH]; intros info k q Hs; [done|].
  set (g := fun sys => if made (class_id (prio q1 sys)) then set_prio q1 (set_did_create_class (prio q1 sys)) sys else sys).
  change (mark_created made ((k1, q1) :: classes) info) with (mark_created made classes (alter g k1 info)). rewrite IH.
  - destruct (Hs k1 q1) as [sys Hk1]; [by left|].
    assert (Hat : prio_at (alter g k1 info) k q =
      if bool_decide (k = k1 /\ q = q1) && made (class_id (prio_at info k q))
      then set_did_create_class (prio_at info k q) else prio_at info k q).
    { unfold prio_at. destruct (decide (k1 = k)) as [->|Hne].
      - rewrite lookup_alter_eq, Hk1. cbn. unfold g. case_bool_decide as Hq; cbn.
        + destruct Hq as [_ ->]. destruct (made _); [|done]. rewrite prio_set_prio. by rewrite decide_True.
        + destruct (made _); [|done]. rewrite prio_set_prio. rewrite decide_False; [done|]. by intros ->; apply Hq.
      - rewrite lookup_alter_ne by done. rewrite bool_decide_eq_false_2; [done|]. by intros [-> _]. }
    rewrite Hat. case_bool_decide as E; cbn.
    + destruct E as [-> ->]. rewrite (bool_decide_eq_true_2 (_ ∈ _ :: _)) by by left. cbn.
      destruct (made _) eqn:Em; cbn; rewrite ?Em, ?andb_false_r; [|done]. by destruct (bool_decide _).
    + assert (Heq : bool_decide ((k, q) ∈ (k1, q1) :: classes) = bool_decide ((k, q) ∈ classes)).
      { apply bool_decide_ext. rewrite elem_of_cons. split; [|by right]. intros [[= -> ->]|]; [by destruct E|done]. }
      by rewrite Heq.
  - intros k' q' Hin. rewrite lookup_alter_is_Some. apply (Hs k' q'). by right.
Qed.

Lemma mark_created_ok made s : stage_ok s -> classes_ok (mark_created made (st_classes s) (st_sys s)) (st_next s).
Proof.
  intros [Hc Hn]. apply (classes_ok_same (st_sys s)); [done|]. intros k q.
  rewrite mark_created_at by (intros; by eapply Hn). case_bool_decide as Hin; cbn; [|auto].
  destruct (made _); cbn; [|auto]. split; [done|]. right. by apply Hn.
Qed.

Lemma stage3_prio_ok a q s : classes_ok (st_sys s) (st_next s) ->
  classes_ok (st_sys (stage3_prio a q s)) (st_next (stage3_prio a q s)).
Proof.
  intros Hc. unfold Enforcer.stage3_prio. set (k := flow_sys_key a).
  destruct (st_sys s !! k) as [sys|] eqn:Ek; [|done].
  pose proof (late_update_step (prio q sys) (st_next s)) as Hstep.
  destruct (late_update (prio q sys) (st_next s)) as [[p' next'] lines]. cbn.
  replace sys with (default new_FlowSys (st_sys s !! k)) in Hstep |- * by by rewrite Ek.
  by apply (classes_ok_step (st_sys s) (st_next s)).
Qed.

Lemma stage3_ok info next bundle : classes_ok info next ->
  classes_ok (st_sys (stage3 config_ info next bundle)) (st_next (stage3 config_ info next bundle)).
Proof.
  unfold stage3. intros Hc. set (s := mkStage1 info next [] []).
  change info with (st_sys s) in Hc. change next with (st_next s) in Hc. clearbody s. clear - Hc.
  revert s Hc. induction (flow_allocs bundle) as [|a l IH]; intros s Hc; [done|].
  cbn [foldl]. apply IH. by apply stage3_prio_ok, stage3_prio_ok.
Qed.

Lemma EnforceAllocs_classes_ok e bundle e' : classes_ok (sys_info_ e) (next_class_id_ e) ->
  EnforceAllocs (e : LinuxHostEnforcer) bundle = Some e' -> classes_ok (sys_info_ e') (next_class_id_ e').
Proof.
  intros Hc. unfold Enforcer.EnforceAllocs. destruct (stage1 _ _ e bundle) as [s|] eqn:Es; [|done].
  apply stage1_ok in Es as Hs; [|done]. cbn.
  destruct (run_batch _ _ _ _) as [tc1 ok1]. destruct (created_classes _ _ _) as [tc2 made].
  destruct (stage2 _ _ _) as [settings|]; [|done]. cbn. pose proof (mark_created_ok made s Hs) as Hm.
  destruct (CommitChanges (foldl Stage (ipt_controller_ e) settings)) as [ipt []].
  - destruct (run_batch _ _ _ _) as [tc3 ok3]. intros [= <-]. by apply stage3_ok.
  - intros [= <-]. exact Hm.
Qed.

(** ** No check fails *)

Definition valid_flows (l : list FlowMarker) : bool :=
  forallb (fun f => valid_port (src_port f) && valid_port (dst_port f)) l.

Definition settings_of (l : list FlowMarker) (dscp class_id : string) : list Setting :=
  map (fun f => mkSetting (src_port f) (dst_port f) (dst_addr f) class_id dscp) l.

Lemma StageIptablesForFlow_eq l dscp id : valid_flows l = true -> (l <> [] -> id <> "") ->
  StageIptablesForFlow l dscp id = Some (settings_of l dscp id).
Proof.
  intros Hv Hid. unfold StageIptablesForFlow. destruct l as [|f l]; [done|]. cbn [is_nil].
  rewrite bool_decide_eq_false_2 by by apply Hid. clear Hid. revert Hv. generalize (f :: l). clear f l.
  intros l. induction l as [|f l IH]; [done|]. cbn [valid_flows forallb]. intros [Hf Hl]%andb_true_iff.
  cbn. rewrite Hf. cbn. by rewrite IH.
Qed.

(** What stage 2 stages for an allocation, by the state of its flow. *)
Definition wanted (info : gmap FlowMarker FlowSys) (a : FlowAlloc) : list Setting :=
  let hi := prio_at info (flow_sys_key a) HIPRI in
  let lo := prio_at info (flow_sys_key a) LOPRI in
  if negb (is_nil (matched hi)) && negb (did_create_class hi) then []
  else settings_of (matched hi) (dscp_hipri config_) (class_id hi) ++
       if negb (is_nil (matched lo)) && negb (did_create_class lo) then []
       else settings_of (matched lo) (dscp_lopri config_) (class_id lo).

Lemma stage2_alloc_eq info next a : classes_ok info next -> is_Some (info !! flow_sys_key a) ->
  (forall q, valid_flows (matched (prio_at info (flow_sys_key a) q)) = true) ->
  stage2_alloc config_ info a = Some (wanted info a).
Proof.
  intros Hc [sys Hs] Hv. unfold stage2_alloc, wanted. pose proof (cl_created _ _ Hc (flow_sys_key a)) as Hd.
  unfold prio_at in *. rewrite Hs in *. cbn in *.
  pose proof (Hv HIPRI) as Hh. pose proof (Hv LOPRI) as Hl. pose proof (Hd HIPRI) as Hdh. pose proof (Hd LOPRI) as Hdl.
  cbn in *. destruct (negb (is_nil (matched (hipri sys))) && negb (did_create_class (hipri sys))) eqn:Eh; [done|].
  rewrite (StageIptablesForFlow_eq (matched (hipri sys))); [cbn|done|].
  2: { intros Hne. apply Hdh. destruct (matched (hipri sys)), (did_create_class (hipri sys)); done. }
  destruct (negb (is_nil (matched (lopri sys))) && negb (did_create_class (lopri sys))) eqn:El; [by rewrite app_nil_r|].
  rewrite StageIptablesForFlow_eq; [done|done|].
  intros Hne. apply Hdl. destruct (matched (lopri sys)), (did_create_class (lopri sys)); done.
Qed.

(** ** Stage 1, flow by flow *)

Definition matched_of (q : qos) (m : MatchedHostFlows) : list FlowMarker :=
  match q with HIPRI => m_hipri m | LOPRI => m_lopri m end.

(** The priority that [early_update] works on. *)
Definition to_update (info : gmap FlowMarker FlowSys) (a : FlowAlloc) (m : MatchedHostFlows) (q : qos) : Priority :=
  set_matched (matched_of q m) (prio_at info (flow_sys_key a) q).

Definition updated (limit : Z) (p : Priority) (next : Z) : Priority := (early_update limit p next).1.1.1.
Definition update_lines (limit : Z) (p : Priority) (next : Z) : list tc_command := (early_update limit p next).1.2.
Definition update_creates (limit : Z) (p : Priority) : bool := raises limit p && negb (did_create_class p).

Lemma early_update_fields limit p next :
  early_update limit p next = (updated limit p next, (early_update limit p next).1.1.2, update_lines limit p next,
                               update_creates limit p).
Proof. unfold updated, update_lines, update_creates. rewrite early_update_eq. by destruct (raises limit p). Qed.

Lemma stage1_prio_eq a q s :
  let k := flow_sys_key a in
  let p := prio_at (st_sys s) k q in
  let s' := stage1_prio a q s in
  st_sys s' = <[k := set_prio q (updated (new_limit q a) p (st_next s)) (default new_FlowSys (st_sys s !! k))]> (st_sys s) /\
  st_lines s' = st_lines s ++ update_lines (new_limit q a) p (st_next s) /\
  st_classes s' = st_classes s ++ if update_creates (new_limit q a) p then [(k, q)] else [].
Proof.
  cbn. unfold Enforcer.stage1_prio. fold (prio_at (st_sys s) (flow_sys_key a) q).
  by rewrite early_update_fields.
Qed.

(** One allocation: the flow's priorities are updated, nothing else. *)
Lemma stage1_alloc_eq s a s' : stage1_alloc config_ match_host_flows_fn_ s a = Some s' ->
  exists m nh nl, match_host_flows_fn_ a = Some m /\
    let next q := match q with HIPRI => nh | LOPRI => nl end in
    (forall k, k <> flow_sys_key a -> st_sys s' !! k = st_sys s !! k) /\
    is_Some (st_sys s' !! flow_sys_key a) /\
    (forall q, prio_at (st_sys s') (flow_sys_key a) q = updated (new_limit q a) (to_update (st_sys s) a m q) (next q)) /\
    st_lines s' = st_lines s ++ update_lines (new_limit HIPRI a) (to_update (st_sys s) a m HIPRI) nh ++
                                update_lines (new_limit LOPRI a) (to_update (st_sys s) a m LOPRI) nl /\
    st_classes s' = st_classes s ++
      (if update_creates (new_limit HIPRI a) (to_update (st_sys s) a m HIPRI) then [(flow_sys_key a, HIPRI)] else []) ++
      (if update_creates (new_limit LOPRI a) (to_update (st_sys s) a m LOPRI) then [(flow_sys_key a, LOPRI)] else []).
Proof.
  unfold stage1_alloc. destruct (match_host_flows_fn_ a) as [m|]; [|done]. cbn. intros [= <-].
  set (s0 := stage1_matched a m s). set (s1 := stage1_prio a HIPRI s0).
  exists m, (st_next s0), (st_next s1). split; [done|].
  destruct (stage1_prio_eq a HIPRI s0) as (Hs1 & Hl1 & Hc1). destruct (stage1_prio_eq a LOPRI s1) as (Hs2 & Hl2 & Hc2).
  fold s1 in Hs1, Hl1, Hc1.
  assert (P0 : forall q, prio_at (st_sys s0) (flow_sys_key a) q = to_update (st_sys s) a m q).
  { intros q. unfold s0. rewrite prio_at_matched, decide_True by done. by destruct q. }
  assert (P1 : prio_at (st_sys s1) (flow_sys_key a) LOPRI = to_update (st_sys s) a m LOPRI).
  { rewrite Hs1, prio_at_insert, decide_False by (by intros [_ ?]). apply P0. }
  rewrite P0 in *. rewrite P1 in *. split_and!.
  - intros k Hk. rewrite Hs2, Hs1. rewrite !lookup_insert_ne by done. cbn. by rewrite lookup_insert_ne.
  - rewrite Hs2. by rewrite lookup_insert_eq.
  - intros [].
    + rewrite Hs2, prio_at_insert, decide_False by (by intros [_ ?]). rewrite Hs1, prio_at_insert, decide_True by done. done.
    + rewrite Hs2, prio_at_insert, decide_True by done. done.
  - rewrite Hl2, Hl1. cbn [st_lines s0 stage1_matched]. by rewrite <- app_assoc.
  - rewrite Hc2, Hc1. cbn [st_classes s0 stage1_matched]. by rewrite <- app_assoc.
Qed.

Lemma to_update_other info info' a m q : info' !! flow_sys_key a = info !! flow_sys_key a ->
  to_update info' a m q = to_update info a m q.
Proof. intros H. unfold to_update, prio_at. by rewrite H. Qed.

(** What stage 1 did, for a bundle that names each flow once. *)
Record stage1_did (l : list FlowAlloc) (s s' : stage1_state) : Prop := {
  d1_others : forall k, k ∉ map flow_sys_key l -> st_sys s' !! k = st_sys s !! k;
  d1_prio : forall a, a ∈ l -> is_Some (st_sys s' !! flow_sys_key a) /\
    exists m, match_host_flows_fn_ a = Some m /\ forall q, exists n,
      prio_at (st_sys s') (flow_sys_key a) q = updated (new_limit q a) (to_update (st_sys s) a m q) n;
  d1_lines : forall c, c ∈ st_lines s' -> c ∈ st_lines s \/
    exists a m q n, a ∈ l /\ match_host_flows_fn_ a = Some m /\
      c ∈ update_lines (new_limit q a) (to_update (st_sys s) a m q) n;
  d1_classes : forall k q, (k, q) ∈ st_classes s' <-> (k, q) ∈ st_classes s \/
    exists a m, a ∈ l /\ match_host_flows_fn_ a = Some m /\ k = flow_sys_key a /\
      update_creates (new_limit q a) (to_update (st_sys s) a m q) = true }.

Lemma stage1_run l : forall s s', NoDup (map flow_sys_key l) ->
  foldM (stage1_alloc config_ match_host_flows_fn_) s l = Some s' -> stage1_did l s s'.
Proof.
  induction l as [|a l IH]; intros s s' Hn; cbn [foldM].
  - intros [= <-]. split; [done| |by left|].
    + by intros a ?%elem_of_nil.
    + intros k q. split; [by left|]. by intros [|(a & m & ?%elem_of_nil & _)].
  - cbn [map] in Hn. apply NoDup_cons in Hn as [Ha Hn].
    destruct (stage1_alloc _ _ s a) as [s1|] eqn:E; [|done]. cbn [mbind option_bind]. intros Hr.
    apply stage1_alloc_eq in E as (m & nh & nl & Hm & Hoth & Hsome & Hp & Hlines & Hcls).
    destruct (IH s1 s' Hn Hr) as [D1 D2 D3 D4].
    assert (Hto : forall b q mb, b ∈ l -> to_update (st_sys s1) b mb q = to_update (st_sys s) b mb q).
    { intros b q mb Hb. apply to_update_other, Hoth. intros Hk. apply Ha. rewrite <- Hk. by apply list_elem_of_fmap_2. }
    split.
    + cbn [map]. intros k [Hka Hkl]%not_elem_of_cons. rewrite D1 by done. by apply Hoth.
    + intros b [->|Hb]%elem_of_cons.
      * unfold prio_at. rewrite D1 by done. split; [done|]. exists m. split; [done|]. intros q.
        specialize (Hp q). unfold prio_at in Hp. rewrite Hp. by eexists.
      * destruct (D2 b Hb) as [Hs2 (mb & Hmb & Hq)]. split; [done|]. exists mb. split; [done|]. intros q.
        destruct (Hq q) as [n Hqn]. exists n. by rewrite Hqn, Hto.
    + intros c Hc. destruct (D3 c Hc) as [Hc1|(b & mb & q & n & Hb & Hmb & Hc1)].
      * rewrite Hlines, !elem_of_app in Hc1. destruct Hc1 as [|[Hc1|Hc1]]; [by left|right..].
        -- exists a, m, HIPRI, nh. split_and!; [by left|done|done].
        -- exists a, m, LOPRI, nl. split_and!; [by left|done|done].
      * right. exists b, mb, q, n. rewrite Hto in Hc1 by done. split_and!; [by right|done|done].
    + intros k q. rewrite D4, Hcls, !elem_of_app. split.
      * intros [[|[Hin|Hin]]|(b & mb & Hb & Hmb & -> & Hu)]; [by left|right..].
        -- exists a, m. destruct (update_creates _ _) eqn:Eu; [|by apply elem_of_nil in Hin].
           apply list_elem_of_singleton in Hin as [= -> ->]. split_and!; [by left|done..].
        -- exists a, m. destruct (update_creates (new_limit LOPRI a) _) eqn:Eu; [|by apply elem_of_nil in Hin].
           apply list_elem_of_singleton in Hin as [= -> ->]. split_and!; [by left|done..].
        -- exists b, mb. rewrite Hto in Hu by done. split_and!; [by right|done..].
      * intros [|(b & mb & [->|Hb]%elem_of_cons & Hmb & -> & Hu)]; [by left; left|left; right|right].
        -- assert (mb = m) as -> by congruence. destruct q; rewrite Hu; [left|right]; by left.
        -- exists b, mb. by rewrite Hto.
Qed.

(** ** Stage 3, flow by flow *)

Definition lowered (p : Priority) (next : Z) : Priority := (late_update p next).1.1.
Definition lower_lines (p : Priority) (next : Z) : list tc_command := (late_update p next).2.

Lemma stage3_prio_eq a q s : is_Some (st_sys s !! flow_sys_key a) ->
  let k := flow_sys_key a in
  let p := prio_at (st_sys s) k q in
  let s' := stage3_prio a q s in
  st_sys s' = <[k := set_prio q (lowered p (st_next s)) (default new_FlowSys (st_sys s !! k))]> (st_sys s) /\
  st_lines s' = st_lines s ++ lower_lines p (st_next s).
Proof.
  intros [sys Hk]. cbn. unfold Enforcer.stage3_prio, prio_at. rewrite Hk. cbn. unfold lowered, lower_lines.
  by destruct (late_update (prio q sys) (st_next s)) as [[p' next'] lines].
Qed.

Lemma stage3_alloc_eq s a : is_Some (st_sys s !! flow_sys_key a) ->
  exists nh nl, let next q := match q with HIPRI => nh | LOPRI => nl end in
    let s' := stage3_alloc config_ s a in
    (forall k, k <> flow_sys_key a -> st_sys s' !! k = st_sys s !! k) /\
    (forall k, is_Some (st_sys s !! k) -> is_Some (st_sys s' !! k)) /\
    (forall q, prio_at (st_sys s') (flow_sys_key a) q = lowered (prio_at (st_sys s) (flow_sys_key a) q) (next q)) /\
    st_lines s' = st_lines s ++ lower_lines (prio_at (st_sys s) (flow_sys_key a) HIPRI) nh ++
                                lower_lines (prio_at (st_sys s) (flow_sys_key a) LOPRI) nl.
Proof.
  intros Hs. unfold stage3_alloc. set (s1 := stage3_prio a HIPRI s).
  destruct (stage3_prio_eq a HIPRI s Hs) as [Hs1 Hl1]. fold s1 in Hs1, Hl1.
  assert (Hs1s : is_Some (st_sys s1 !! flow_sys_key a)) by (rewrite Hs1; by rewrite lookup_insert_eq).
  destruct (stage3_prio_eq a LOPRI s1 Hs1s) as [Hs2 Hl2].
  exists (st_next s), (st_next s1). cbn zeta.
  assert (P1 : prio_at (st_sys s1) (flow_sys_key a) LOPRI = prio_at (st_sys s) (flow_sys_key a) LOPRI)
    by (rewrite Hs1, prio_at_insert, decide_False by (by intros [_ ?]); done).
  rewrite P1 in *. split_and!.
  - intros k Hk. by rewrite Hs2, Hs1, !lookup_insert_ne.
  - intros k Hk. rewrite Hs2, Hs1. by do 2 apply is_Some_insert.
  - intros [].
    + rewrite Hs2, prio_at_insert, decide_False by (by intros [_ ?]). rewrite Hs1, prio_at_insert, decide_True by done. done.
    + rewrite Hs2, prio_at_insert, decide_True by done. done.
  - by rewrite Hl2, Hl1, <- app_assoc.
Qed.

Record stage3_did (l : list FlowAlloc) (s s' : stage1_state) : Prop := {
  d3_others : forall k, k ∉ map flow_sys_key l -> st_sys s' !! k = st_sys s !! k;
  d3_prio : forall a q, a ∈ l -> exists n,
    prio_at (st_sys s') (flow_sys_key a) q = lowered (prio_at (st_sys s) (flow_sys_key a) q) n;
  d3_lines : forall c, c ∈ st_lines s' -> c ∈ st_lines s \/
    exists a q n, a ∈ l /\ c ∈ lower_lines (prio_at (st_sys s) (flow_sys_key a) q) n }.

Lemma stage3_run l : forall s, NoDup (map flow_sys_key l) -> (forall a, a ∈ l -> is_Some (st_sys s !! flow_sys_key a)) ->
  stage3_did l s (foldl (stage3_alloc config_) s l).
Proof.
  induction l as [|a l IH]; intros s Hn Hs; cbn [foldl].
  - split; [done| |by left]. by intros a q ?%elem_of_nil.
  - cbn [map] in Hn. apply NoDup_cons in Hn as [Ha Hn].
    destruct (stage3_alloc_eq s a) as (nh & nl & Hoth & Hmono & Hp & Hlines); [apply Hs; by left|].
    set (s1 := stage3_alloc config_ s a) in *.
    destruct (IH s1 Hn) as [D1 D2 D3]; [intros b Hb; apply Hmono, Hs; by right|].
    assert (Hto : forall b q, b ∈ l -> prio_at (st_sys s1) (flow_sys_key b) q = prio_at (st_sys s) (flow_sys_key b) q).
    { intros b q Hb. unfold prio_at. rewrite Hoth; [done|]. intros Hk. apply Ha. rewrite <- Hk. by apply list_elem_of_fmap_2. }
    split.
    + cbn [map]. intros k [Hka Hkl]%not_elem_of_cons. rewrite D1 by done. by apply Hoth.
    + intros b q [->|Hb]%elem_of_cons.
      * unfold prio_at. rewrite D1 by done. specialize (Hp q). unfold prio_at in Hp. rewrite Hp. by eexists.
      * destruct (D2 b q Hb) as [n Hqn]. exists n. by rewrite Hqn, Hto.
    + intros c Hc. destruct (D3 c Hc) as [Hc1|(b & q & n & Hb & Hc1)].
      * rewrite Hlines, !elem_of_app in Hc1. destruct Hc1 as [|[Hc1|Hc1]]; [by left|right..].
        -- exists a, HIPRI, nh. split; [by left|done].
        -- exists a, LOPRI, nl. split; [by left|done].
      * right. exists b, q, n. rewrite Hto in Hc1 by done. split; [by right|done].
Qed.

(** *** The fields after an update *)

Lemma named_fields p next : did_create_class (named p next) = did_create_class p /\
  matched (named p next) = matched p /\ cur_rate_limit_bps (named p next) = cur_rate_limit_bps p /\
  update_after_ipt_change (named p next) = update_after_ipt_change p /\
  (class_id p <> "" -> named p next = p).
Proof. unfold named. by case_bool_decide. Qed.

Lemma updated_fields limit p next :
  cur_rate_limit_bps (updated limit p next) = limit /\ did_create_class (updated limit p next) = did_create_class p /\
  matched (updated limit p next) = matched p /\
  (class_id p <> "" -> class_id (updated limit p next) = class_id p) /\
  (update_after_ipt_change (updated limit p next) = true ->
     raises limit p = false /\ class_id (updated limit p next) = class_id p /\ limit <= cur_rate_limit_bps p /\
     (limit < cur_rate_limit_bps p \/ update_after_ipt_change p = true)).
Proof.
  unfold updated. rewrite early_update_eq. destruct (named_fields p next) as (Hd & Hm & Hc & Hu & Hn).
  destruct (raises limit p) eqn:Er; cbn.
  - split_and!; [done..| |done]. intros ?. by rewrite Hn.
  - unfold raises in Er. apply orb_false_iff in Er as [_ Er%Z.ltb_ge].
    destruct (limit <? cur_rate_limit_bps p) eqn:El; cbn; split_and!; try done; [|tauto].
    intros _. apply Z.ltb_lt in El. split_and!; [done..|by left].
Qed.

Lemma elem_of_class_lines limit netem p c : c ∈ class_lines limit netem p ->
  match c with
  | ClassChange id r => did_create_class p = true /\ matched p <> [] /\ id = class_id p /\ r = class_rate limit
  | ClassAdd id r => did_create_class p = false /\ id = class_id p /\ r = class_rate limit
  | NetemAdd id _ => did_create_class p = false /\ id = class_id p
  end.
Proof.
  unfold class_lines. destruct (did_create_class p), (matched p), netem; cbn;
    rewrite ?elem_of_cons, ?elem_of_nil; intros; destruct_or?; subst; done.
Qed.

Lemma elem_of_update_lines limit p next c : c ∈ update_lines limit p next ->
  raises limit p = true /\ c ∈ class_lines limit None (named p next).
Proof.
  unfold update_lines. rewrite early_update_eq. destruct (raises limit p); cbn; [done|]. by intros ?%elem_of_nil.
Qed.

Lemma elem_of_lower_lines p next c : c ∈ lower_lines p next ->
  update_after_ipt_change p = true /\ c ∈ class_lines (cur_rate_limit_bps p) None (named p next).
Proof.
  unfold lower_lines. rewrite late_update_eq. destruct (update_after_ipt_change p); cbn; [done|]. by intros ?%elem_of_nil.
Qed.

(** The priorities when stage 3 begins. *)
Lemma marked_at made s k q : stage_ok s -> exists did,
  prio_at (mark_created made (st_classes s) (st_sys s)) k q =
    (if did : bool then set_did_create_class (prio_at (st_sys s) k q) else prio_at (st_sys s) k q).
Proof.
  intros Hok. rewrite mark_created_at by (intros; by eapply (so_named s Hok)). by eexists (_ && _).
Qed.

Lemma marked_present made classes k : forall info,
  is_Some (info !! k) -> is_Some (mark_created made classes info !! k).
Proof.
  induction classes as [|[k1 q1] classes IH]; intros info Hs; [done|]. apply IH. by rewrite lookup_alter_is_Some.
Qed.

(** Rates are raised before and lowered after the iptables rules change:
    every change of a rate in the first batch is to the new limit of an
    allocation and not below the rate the class was last given a limit for;
    every change in the second batch is to the new limit of an allocation and
    not above it.  New classes are only created with the rate of the new
    limit. *)
Theorem EnforceAllocs_raises_then_lowers (e : LinuxHostEnforcer) bundle s made :
  classes_ok (sys_info_ e) (next_class_id_ e) -> NoDup (map flow_sys_key (flow_allocs bundle)) ->
  stage1 config_ match_host_flows_fn_ e bundle = Some s ->
  let old a q := prio_at (sys_info_ e) (flow_sys_key a) q in
  (forall id r, ClassChange id r ∈ st_lines s -> exists a q, a ∈ flow_allocs bundle /\
     id = class_id (old a q) /\ r = class_rate (new_limit q a) /\ class_rate (cur_rate_limit_bps (old a q)) <= r) /\
  (forall id r, ClassChange id r ∈ st_lines (stage3 config_ (mark_created made (st_classes s) (st_sys s)) (st_next s) bundle) ->
     exists a q, a ∈ flow_allocs bundle /\
     id = class_id (old a q) /\ r = class_rate (new_limit q a) /\ r <= class_rate (cur_rate_limit_bps (old a q))) /\
  (forall id r, ClassAdd id r ∈ st_lines s -> exists a q, a ∈ flow_allocs bundle /\
     r = class_rate (new_limit q a) /\ did_create_class (old a q) = false).
Proof.
  intros Hc Hn Hs old. pose proof (stage1_ok e bundle s Hc Hs) as Hok.
  apply stage1_run in Hs as [D1 D2 D3 D4]; [|done]. cbn [st_sys st_lines st_classes] in *.
  split_and!.
  - intros id r Hin. destruct (D3 _ Hin) as [?%elem_of_nil|(a & m & q & n & Ha & Hm & Hl)]; [done|].
    apply elem_of_update_lines in Hl as [Hr Hl]. apply elem_of_class_lines in Hl as (Hd & _ & -> & ->).
    destruct (named_fields (to_update (sys_info_ e) a m q) n) as (Hdn & _ & _ & _ & Hnn). rewrite Hdn in Hd.
    assert (Hid : class_id (old a q) <> "") by by apply (cl_created _ _ Hc).
    rewrite Hnn by done. exists a, q. split_and!; [done..|]. unfold raises in Hr.
    rewrite bool_decide_eq_false_2 in Hr by done. apply Z.ltb_lt in Hr. unfold class_rate.
    change (cur_rate_limit_bps (old a q) < new_limit q a) in Hr. lia.
  - intros id r Hin. unfold stage3 in Hin.
    pose proof (mark_created_ok made s Hok) as Hmk. set (info := mark_created _ _ _) in *.
    assert (Hpres : forall a, a ∈ flow_allocs bundle -> is_Some (st_sys (mkStage1 info (st_next s) [] []) !! flow_sys_key a)).
    { intros a Ha. apply marked_present. by apply D2. }
    destruct (stage3_run (flow_allocs bundle) _ Hn Hpres) as [_ _ D3'].
    destruct (D3' _ Hin) as [?%elem_of_nil|(a & q & n & Ha & Hl)]; [done|]. cbn [st_sys] in Hl.
    apply elem_of_lower_lines in Hl as [Hu Hl]. apply elem_of_class_lines in Hl as (Hd & _ & -> & ->).
    destruct (named_fields (prio_at info (flow_sys_key a) q) n) as (Hdn & _ & _ & _ & Hnn). rewrite Hdn in Hd.
    rewrite Hnn by by apply (cl_created _ _ Hmk). clear Hd Hdn Hnn.
    destruct (marked_at made s (flow_sys_key a) q Hok) as [did Hmd]. fold info in Hmd.
    destruct (D2 a Ha) as [_ (m & Hm & Hq)]. destruct (Hq q) as [n' Hp]. rewrite Hp in Hmd.
    destruct (updated_fields (new_limit q a) (to_update (sys_info_ e) a m q) n') as (Hcur & _ & _ & _ & Hua).
    exists a, q. rewrite Hmd in *. destruct did; cbn [class_id cur_rate_limit_bps set_did_create_class update_after_ipt_change] in *;
      destruct (Hua Hu) as (_ & Hid & Hle & _); rewrite Hid, Hcur; (split_and!; [done..|]); unfold class_rate;
      change (new_limit q a <= cur_rate_limit_bps (old a q)) in Hle; lia.
  - intros id r Hin. destruct (D3 _ Hin) as [?%elem_of_nil|(a & m & q & n & Ha & Hm & Hl)]; [done|].
    apply elem_of_update_lines in Hl as [Hr Hl]. apply elem_of_class_lines in Hl as (Hd & _ & ->).
    destruct (named_fields (to_update (sys_info_ e) a m q) n) as (Hdn & _). rewrite Hdn in Hd. by exists a, q.
Qed.

(** ** A whole call *)

(** The flows that match the allocations have valid ports. *)
Definition valid_matches (bundle : AllocBundle) : Prop :=
  forall a, a ∈ flow_allocs bundle -> exists m, match_host_flows_fn_ a = Some m /\
    forall q, valid_flows (matched_of q m) = true.

Lemma stage1_total (e : LinuxHostEnforcer) bundle : valid_matches bundle ->
  is_Some (stage1 config_ match_host_flows_fn_ e bundle).
Proof.
  unfold valid_matches, stage1. generalize (mkStage1 (sys_info_ e) (next_class_id_ e) [] []).
  induction (flow_allocs bundle) as [|a l IH]; intros s Hv; [done|]. cbn [foldM].
  destruct (Hv a) as (m & Hm & _); [by left|]. unfold stage1_alloc at 2. rewrite Hm. cbn [mbind option_bind].
  apply IH. intros b Hb. apply Hv. by right.
Qed.

Definition all_wanted (info : gmap FlowMarker FlowSys) (bundle : AllocBundle) : list Setting :=
  concat (map (wanted info) (flow_allocs bundle)).

Lemma stage2_eq made s bundle : stage_ok s ->
  (forall a, a ∈ flow_allocs bundle -> is_Some (st_sys s !! flow_sys_key a) /\
     forall q, valid_flows (matched (prio_at (st_sys s) (flow_sys_key a) q)) = true) ->
  let info := mark_created made (st_classes s) (st_sys s) in
  stage2 config_ info bundle = Some (all_wanted info bundle).
Proof.
  intros Hok Hv info. unfold stage2, all_wanted. pose proof (mark_created_ok made s Hok) as Hmk. fold info in Hmk.
  assert (Hall : forall a, a ∈ flow_allocs bundle -> stage2_alloc config_ info a = Some (wanted info a)).
  { intros a Ha. destruct (Hv a Ha) as [Hs Hva]. apply (stage2_alloc_eq info (st_next s)); [done|by apply marked_present|].
    intros q. destruct (marked_at made s (flow_sys_key a) q Hok) as [did Hp]. fold info in Hp. rewrite Hp.
    by destruct did; apply Hva. }
  assert (Hm : mapM (stage2_alloc config_ info) (flow_allocs bundle) = Some (map (wanted info) (flow_allocs bundle))).
  { clear - Hall. induction (flow_allocs bundle) as [|a l IH]; [done|]. cbn. rewrite Hall by by left. cbn.
    rewrite IH; [done|]. intros b Hb. apply Hall. by right. }
  by rewrite Hm.
Qed.

Lemma stage1_valid (e : LinuxHostEnforcer) bundle s : NoDup (map flow_sys_key (flow_allocs bundle)) -> valid_matches bundle ->
  stage1 config_ match_host_flows_fn_ e bundle = Some s ->
  forall a, a ∈ flow_allocs bundle -> is_Some (st_sys s !! flow_sys_key a) /\
     forall q, valid_flows (matched (prio_at (st_sys s) (flow_sys_key a) q)) = true.
Proof.
  intros Hn Hv Hs a Ha. apply stage1_run in Hs as [_ D2 _ _]; [|done]. cbn [st_sys] in D2.
  destruct (D2 a Ha) as [Hsome (m & Hm & Hq)]. split; [done|]. intros q. destruct (Hq q) as [n ->].
  destruct (updated_fields (new_limit q a) (to_update (sys_info_ e) a m q) n) as (_ & _ & -> & _).
  destruct (Hv a Ha) as (m' & Hm' & Hva). assert (m' = m) as -> by congruence. apply Hva.
Qed.

(** What a call does: the first batch, the commit of what is wanted, and, if
    that succeeds, the second batch. *)
Lemma EnforceAllocs_eq (e : LinuxHostEnforcer) bundle :
  classes_ok (sys_info_ e) (next_class_id_ e) -> NoDup (map flow_sys_key (flow_allocs bundle)) -> valid_matches bundle ->
  exists s tc made, stage1 config_ match_host_flows_fn_ e bundle = Some s /\
    created_classes device_ (run_batch config_ device_ (tc_caller_ e) (st_lines s)).1
                            (run_batch config_ device_ (tc_caller_ e) (st_lines s)).2 = (tc, made) /\
    let info := mark_created made (st_classes s) (st_sys s) in
    EnforceAllocs e bundle = Some
      (let '(ipt, ok) := CommitChanges (foldl Stage (ipt_controller_ e) (all_wanted info bundle)) in
       if ok : bool then
         let s3 := stage3 config_ info (st_next s) bundle in
         mkLinuxHostEnforcer (st_sys s3) (st_next s3) (run_batch config_ device_ tc (st_lines s3)).1 ipt (AppliedSettings ipt)
       else mkLinuxHostEnforcer info (st_next s) tc ipt (ipt_snapshot_ e)).
Proof.
  intros Hc Hn Hv. destruct (stage1_total e bundle Hv) as [s Hs].
  pose proof (stage1_ok e bundle s Hc Hs) as Hok. pose proof (stage1_valid e bundle s Hn Hv Hs) as Hval.
  destruct (run_batch config_ device_ (tc_caller_ e) (st_lines s)) as [tc1 ok1] eqn:E1.
  destruct (created_classes device_ tc1 ok1) as [tc2 made] eqn:E2.
  exists s, tc2, made. cbn [fst snd]. split; [done|]. split; [by rewrite E1|]. unfold Enforcer.EnforceAllocs.
  rewrite Hs. cbn [mbind option_bind]. rewrite E1, E2. rewrite stage2_eq by done. cbn [mbind option_bind].
  destruct (CommitChanges (foldl Stage (ipt_controller_ e) _)) as [ipt []]; [|done].
  by destruct (run_batch config_ device_ tc2 _).
Qed.

(** C38: no check of [EnforceAllocs] fails and no pointer it follows is null, as
    long as the flows it is given have valid ports, each once, and the matcher
    can expand them: whatever tc and iptables answer, a class is named before settings are staged for it. *)
Theorem EnforceAllocs_never_fails (e : LinuxHostEnforcer) bundle :
  classes_ok (sys_info_ e) (next_class_id_ e) -> NoDup (map flow_sys_key (flow_allocs bundle)) -> valid_matches bundle ->
  is_Some (EnforceAllocs e bundle).
Proof. intros Hc Hn Hv. by destruct (EnforceAllocs_eq e bundle Hc Hn Hv) as (s & tc & made & _ & _ & ->). Qed.

(** ** When the commands succeed *)

(** Every class that has a name exists; without a name there is no limit. *)
Record all_created (info : gmap FlowMarker FlowSys) : Prop := {
  ac_created : forall k q, class_id (prio_at info k q) <> "" -> did_create_class (prio_at info k q) = true;
  ac_unnamed : forall k q, class_id (prio_at info k q) = "" ->
    cur_rate_limit_bps (prio_at info k q) = 0 /\ update_after_ipt_change (prio_at info k q) = false }.

Definition limits_nonneg (bundle : AllocBundle) : Prop :=
  forall a q, a ∈ flow_allocs bundle -> 0 <= new_limit q a.

Lemma updated_created limit p next : 0 <= limit ->
  (class_id p <> "" -> did_create_class p = true) ->
  (class_id p = "" -> cur_rate_limit_bps p = 0 /\ update_after_ipt_change p = false) ->
  (did_create_class p = true -> class_id p <> "") ->
  let p' := updated limit p next in
  (class_id p' <> "" -> did_create_class p' = true \/ update_creates limit p = true) /\
  (class_id p' = "" -> matched p = [] /\ cur_rate_limit_bps p' = 0 /\ update_after_ipt_change p' = false).
Proof.
  intros Hl Hn Hu Hd. cbn. unfold updated, update_creates. rewrite early_update_eq.
  destruct (named_fields p next) as (Hdn & _ & _ & _ & Hnn).
  destruct (raises limit p) eqn:Er; cbn.
  - rewrite Hdn. split; [|by intros ?%named_nonempty].
    intros _. destruct (did_create_class p); [by left|by right].
  - unfold raises in Er. apply orb_false_iff in Er as [Ec Er%Z.ltb_ge].
    destruct (limit <? cur_rate_limit_bps p) eqn:El; cbn.
    + apply Z.ltb_lt in El. split; [intros ?; left; auto|]. intros E. destruct (Hu E). lia.
    + apply Z.ltb_ge in El. split; [intros ?; left; auto|]. intros E. destruct (Hu E) as [Hc Hup].
      rewrite bool_decide_eq_true_2 in Ec by done. split_and!; [by destruct (matched p)|lia|done].
Qed.

Lemma stage1_created (e : LinuxHostEnforcer) bundle s :
  classes_ok (sys_info_ e) (next_class_id_ e) -> all_created (sys_info_ e) ->
  NoDup (map flow_sys_key (flow_allocs bundle)) -> limits_nonneg bundle ->
  stage1 config_ match_host_flows_fn_ e bundle = Some s ->
  let info := mark_created (fun _ => true) (st_classes s) (st_sys s) in
  all_created info /\
  forall a m q, a ∈ flow_allocs bundle -> match_host_flows_fn_ a = Some m ->
    matched (prio_at info (flow_sys_key a) q) = matched_of q m /\
    (matched_of q m <> [] -> did_create_class (prio_at info (flow_sys_key a) q) = true).
Proof.
  intros Hc [A1 A2] Hn Hl Hs info. pose proof (stage1_ok e bundle s Hc Hs) as Hok.
  apply stage1_run in Hs as [D1 D2 _ D4]; [|done]. cbn [st_sys st_classes] in *.
  assert (Hat : forall k q, prio_at info k q =
    if bool_decide ((k, q) ∈ st_classes s) then set_did_create_class (prio_at (st_sys s) k q) else prio_at (st_sys s) k q).
  { intros k q. unfold info. rewrite mark_created_at by (intros; by eapply (so_named s Hok)). by rewrite andb_true_r. }
  assert (Hout : forall k q, k ∉ map flow_sys_key (flow_allocs bundle) -> prio_at info k q = prio_at (sys_info_ e) k q).
  { intros k q Hk. rewrite Hat, bool_decide_eq_false_2; [unfold prio_at; by rewrite D1|].
    rewrite D4. intros [?%elem_of_nil|(a & m & Ha & _ & -> & _)]; [done|]. apply Hk. by apply list_elem_of_fmap_2. }
  assert (Hin : forall a q, a ∈ flow_allocs bundle -> exists m n, match_host_flows_fn_ a = Some m /\
    let p := to_update (sys_info_ e) a m q in
    prio_at info (flow_sys_key a) q =
      if update_creates (new_limit q a) p then set_did_create_class (updated (new_limit q a) p n)
      else updated (new_limit q a) p n).
  { intros a q Ha. destruct (D2 a Ha) as [_ (m & Hm & Hq)]. destruct (Hq q) as [n Hp]. exists m, n. split; [done|].
    cbn. rewrite Hat, Hp. destruct (update_creates _ _) eqn:Eu.
    - rewrite bool_decide_eq_true_2; [done|]. apply D4. right. by exists a, m.
    - rewrite bool_decide_eq_false_2; [done|]. rewrite D4.
      intros [?%elem_of_nil|(b & mb & Hb & Hmb & Hk & Hu)]; [done|].
      assert (a = b) as <-.
      { by apply (NoDup_map_inj flow_sys_key (flow_allocs bundle)). }
      congruence. }
  assert (Hone : forall a q, a ∈ flow_allocs bundle -> exists m, match_host_flows_fn_ a = Some m /\
    let p := prio_at info (flow_sys_key a) q in
    matched p = matched_of q m /\ (class_id p <> "" -> did_create_class p = true) /\
    (class_id p = "" -> matched_of q m = [] /\ cur_rate_limit_bps p = 0 /\ update_after_ipt_change p = false)).
  { intros a q Ha. destruct (Hin a q Ha) as (m & n & Hm & Hp). exists m. split; [done|]. cbn in *. rewrite Hp.
    destruct (updated_created (new_limit q a) (to_update (sys_info_ e) a m q) n) as [U1 U2];
      [by apply Hl|apply A1|apply A2|apply (cl_created _ _ Hc)|].
    destruct (updated_fields (new_limit q a) (to_update (sys_info_ e) a m q) n) as (_ & _ & Hma & _).
    destruct (update_creates _ _); cbn; (split_and!; [by rewrite Hma|intros Hne; by destruct (U1 Hne)|done]). }
  clear Hat D1 D2 D4 Hin. split.
  - split.
    + intros k q. destruct (decide (k ∈ map flow_sys_key (flow_allocs bundle))) as [Hk|Hk].
      * apply list_elem_of_fmap in Hk as (a & -> & Ha). by destruct (Hone a q Ha) as (m & _ & _ & ? & _).
      * rewrite Hout by done. apply A1.
    + intros k q. destruct (decide (k ∈ map flow_sys_key (flow_allocs bundle))) as [Hk|Hk].
      * apply list_elem_of_fmap in Hk as (a & -> & Ha). destruct (Hone a q Ha) as (m & _ & _ & _ & Hu). intros E. apply Hu, E.
      * rewrite Hout by done. apply A2.
  - intros a m q Ha Hm. destruct (Hone a q Ha) as (m' & Hm' & H1 & H2 & H3). assert (m' = m) as -> by congruence.
    split; [done|]. intros Hne. apply H2. intros E. apply Hne. by apply H3.
Qed.

Lemma stage3_created info next bundle : all_created info -> NoDup (map flow_sys_key (flow_allocs bundle)) ->
  (forall a, a ∈ flow_allocs bundle -> is_Some (info !! flow_sys_key a)) ->
  all_created (st_sys (stage3 config_ info next bundle)).
Proof.
  intros [A1 A2] Hn Hs. destruct (stage3_run (flow_allocs bundle) (mkStage1 info next [] []) Hn Hs) as [D1 D2 _].
  fold (stage3 config_ info next bundle) in D1, D2. cbn [st_sys] in *.
  assert (Hlow : forall k q n, class_id (lowered (prio_at info k q) n) = class_id (prio_at info k q) /\
    did_create_class (lowered (prio_at info k q) n) = did_create_class (prio_at info k q) /\
    cur_rate_limit_bps (lowered (prio_at info k q) n) = cur_rate_limit_bps (prio_at info k q) /\
    update_after_ipt_change (lowered (prio_at info k q) n) = false).
  { intros k q n. unfold lowered. rewrite late_update_eq. destruct (update_after_ipt_change _) eqn:E; cbn; [|done].
    destruct (named_fields (prio_at info k q) n) as (-> & _ & -> & _ & Hnn). rewrite Hnn; [done|].
    intros Hid. apply A2 in Hid as [_ ?]. congruence. }
  assert (Hat : forall k q, prio_at (st_sys (stage3 config_ info next bundle)) k q = prio_at info k q \/
    exists n, prio_at (st_sys (stage3 config_ info next bundle)) k q = lowered (prio_at info k q) n).
  { intros k q. destruct (decide (k ∈ map flow_sys_key (flow_allocs bundle))) as [Hk|Hk].
    - apply list_elem_of_fmap in Hk as (a & -> & Ha). right. by apply D2.
    - left. unfold prio_at. by rewrite D1. }
  split; intros k q; destruct (Hat k q) as [->|[n ->]]; [apply A1| |apply A2|];
    destruct (Hlow k q n) as (Hc & Hd & Hr & Hu); rewrite Hc; [rewrite Hd; apply A1|].
  intros E. rewrite Hr, Hu. split; [by apply A2|done].
Qed.

(** *** Looking up settings without ports *)

Lemma FindDscp_coarse batch sp dp h def :
  StronglySorted setting_le batch ->
  (forall s, s ∈ batch -> s_src_port s = 0 /\ s_dst_port s = 0) ->
  (forall s s', s ∈ batch -> s' ∈ batch -> s_dst_addr s = s_dst_addr s' -> s_dscp s = s_dscp s') ->
  (forall s, s ∈ batch -> s_dst_addr s = h -> SettingsFindDscp batch sp dp h def = s_dscp s) /\
  ((forall s, s ∈ batch -> s_dst_addr s <> h) -> SettingsFindDscp batch sp dp h def = def).
Proof.
  intros Hs Hp Hd. rewrite FindDscp_first by done.
  pose proof (lookup_decides batch (mkPacket sp dp h)) as Hdec. cbn [p_sport p_dport p_daddr] in Hdec.
  destruct (head (omap _ _)) as [s0|]; cbn in *.
  - destruct Hdec as (Hin & Hm & _). apply setting_matches_eqv in Hm as (_ & _ & Ha). cbn in Ha. split.
    + intros s Hin' Ha'. apply Hd; [done..|congruence].
    + intros Hno. by destruct (Hno s0 Hin).
  - split; [|done]. intros s Hin Ha. specialize (Hdec s Hin). apply not_true_iff_false in Hdec. destruct Hdec.
    apply setting_matches_eqv. destruct (Hp s Hin) as [-> ->]. cbn. auto.
Qed.

(** *** What an enforcer of data-center flows does *)

Lemma elem_of_settings_of s l dscp id : s ∈ settings_of l dscp id <->
  exists f, f ∈ l /\ s = mkSetting (src_port f) (dst_port f) (dst_addr f) id dscp.
Proof. unfold settings_of. rewrite list_elem_of_fmap. naive_solver. Qed.

Definition dscp_of (q : qos) : string := match q with HIPRI => dscp_hipri config_ | LOPRI => dscp_lopri config_ end.

Lemma elem_of_all_wanted info bundle s :
  (forall a m q, a ∈ flow_allocs bundle -> match_host_flows_fn_ a = Some m ->
     matched (prio_at info (flow_sys_key a) q) = matched_of q m /\
     (matched_of q m <> [] -> did_create_class (prio_at info (flow_sys_key a) q) = true)) ->
  (forall a, a ∈ flow_allocs bundle -> is_Some (match_host_flows_fn_ a)) ->
  s ∈ all_wanted info bundle <->
  exists a m q f, a ∈ flow_allocs bundle /\ match_host_flows_fn_ a = Some m /\ f ∈ matched_of q m /\
    s = mkSetting (src_port f) (dst_port f) (dst_addr f) (class_id (prio_at info (flow_sys_key a) q)) (dscp_of q).
Proof.
  intros Hi Hm. unfold all_wanted. rewrite list_elem_of_In, in_concat.
  assert (Hw : forall a m, a ∈ flow_allocs bundle -> match_host_flows_fn_ a = Some m -> wanted info a =
    settings_of (m_hipri m) (dscp_of HIPRI) (class_id (prio_at info (flow_sys_key a) HIPRI)) ++
    settings_of (m_lopri m) (dscp_of LOPRI) (class_id (prio_at info (flow_sys_key a) LOPRI))).
  { intros a m Ha Hma. unfold wanted. destruct (Hi a m HIPRI Ha Hma) as [-> Hh], (Hi a m LOPRI Ha Hma) as [-> Hl].
    cbn [matched_of] in *. destruct (m_hipri m), (m_lopri m);
      cbn [is_nil negb andb]; rewrite ?Hh, ?Hl by done; done. }
  split.
  - intros (ss & Hin & Hs). apply in_map_iff in Hin as (a & <- & Ha). apply list_elem_of_In in Ha, Hs.
    destruct (Hm a Ha) as [m Hma]. rewrite (Hw a m), elem_of_app, !elem_of_settings_of in Hs by done.
    destruct Hs as [(f & Hf & ->)|(f & Hf & ->)]; [by exists a, m, HIPRI, f|by exists a, m, LOPRI, f].
  - intros (a & m & q & f & Ha & Hma & Hf & ->). exists (wanted info a). split.
    + apply in_map_iff. exists a. split; [done|]. by apply list_elem_of_In.
    + apply list_elem_of_In. rewrite (Hw a m), elem_of_app, !elem_of_settings_of by done.
      destruct q; [left|right]; by exists f.
Qed.

(** Between calls that succeed. *)
Record healthy (e : LinuxHostEnforcer) : Prop := {
  h_classes : classes_ok (sys_info_ e) (next_class_id_ e);
  h_created : all_created (sys_info_ e);
  h_staged : staged_ (ipt_controller_ e) = [] }.

(** The commands do not fail. *)
Definition tc_works : Prop := forall (t : T) text force, (Batch t text force).2 = true.
Definition iptables_works : Prop := forall (r : I) text flags, (Restore r text flags).2 = true.

Lemma run_batch_works t lines : tc_works -> (run_batch config_ device_ t lines).2 = true.
Proof. intros Hw. unfold run_batch. destruct (is_nil lines); [done|apply Hw]. Qed.

Lemma CommitChanges_works (c : @Controller I) : iptables_works -> exists k,
  CommitChanges c = (after_commit c k (std_sort (staged_ c)) [], true).
Proof.
  intros Hw. destruct (CommitChanges_cases c) as [[_ ->]|(k & ok & Hr & ->)]; [by eexists|].
  pose proof (Hw (runner_ c) (begin_table +:+ show_commands (dev_ c) (commit_commands c) +:+ commit_line)
    (mkRestoreFlags false false)) as Hok. rewrite Hr in Hok. cbn in Hok. subst ok. by exists k.
Qed.

Lemma EnforceAllocs_succeeds (e : LinuxHostEnforcer) bundle : tc_works -> iptables_works -> healthy e ->
  NoDup (map flow_sys_key (flow_allocs bundle)) -> valid_matches bundle -> limits_nonneg bundle ->
  exists info e', EnforceAllocs e bundle = Some e' /\ healthy e' /\
    ipt_snapshot_ e' = std_sort (all_wanted info bundle) /\
    forall a m q, a ∈ flow_allocs bundle -> match_host_flows_fn_ a = Some m ->
      matched (prio_at info (flow_sys_key a) q) = matched_of q m /\
      (matched_of q m <> [] -> did_create_class (prio_at info (flow_sys_key a) q) = true).
Proof.
  intros Htc Hipt [Hc Ha Hst] Hn Hv Hl. destruct (EnforceAllocs_eq e bundle Hc Hn Hv) as (s & tc & made & Hs & Hmade & He).
  rewrite (run_batch_works _ _ Htc) in Hmade. cbn in Hmade. injection Hmade as _ <-.
  destruct (stage1_created e bundle s Hc Ha Hn Hl Hs) as [Hinfo Hm].
  pose proof (stage1_ok e bundle s Hc Hs) as Hok. pose proof (mark_created_ok (fun _ => true) s Hok) as Hmk.
  pose proof (stage1_valid e bundle s Hn Hv Hs) as Hval.
  cbn zeta in He. set (info := mark_created _ _ _) in *.
  destruct (CommitChanges_works (foldl Stage (ipt_controller_ e) (all_wanted info bundle)) Hipt) as [k Hk].
  rewrite Hk in He. rewrite foldl_Stage, Hst in He. exists info. eexists. split; [exact He|]. split; [|done].
  split; cbn.
  - by apply stage3_ok.
  - apply stage3_created; [done|done|]. intros a Hin. by apply marked_present, Hval.
  - done.
Qed.
End Spec.

(** ** A host whose flows go to data centers *)

Section Agent.
Context {T I : Type} `{!TcCallerIface T} `{!RunnerIface I}.
Context (config_ : HostEnforcerConfig) (device_ : string) (entries : list Entry).

Let mapper : StaticDCMapper := new_StaticDCMapper entries.

(** Allocations of a host agent: one per destination, at one priority. *)
Record agent_bundle (bundle : AllocBundle) : Prop := {
  ab_once : NoDup (map (fun a => dst_dc (alloc_flow a)) (flow_allocs bundle));
  ab_flow : forall a, a ∈ flow_allocs bundle ->
    dst_addr (alloc_flow a) = "" /\ src_port (alloc_flow a) = 0 /\ dst_port (alloc_flow a) = 0;
  ab_limits : forall a, a ∈ flow_allocs bundle ->
    0 <= hipri_rate_limit_bps a /\ 0 <= lopri_rate_limit_bps a /\
    (hipri_rate_limit_bps a = 0 \/ lopri_rate_limit_bps a = 0) }.

Lemma agent_matches bundle a : agent_bundle bundle -> a ∈ flow_allocs bundle ->
  exists m, ExpandDestIntoHostsSinglePri mapper a = Some m /\
  forall q f, f ∈ matched_of q m <->
    q = (if 0 <? lopri_rate_limit_bps a then LOPRI else HIPRI) /\
    exists h, mkEntry h (dst_dc (alloc_flow a)) ∈ entries /\ f = set_dst_addr (alloc_flow a) h.
Proof.
  intros [_ Hf Hl] Ha. destruct (Hf a Ha) as (Hd & _ & _), (Hl a Ha) as (_ & _ & Hor).
  unfold ExpandDestIntoHostsSinglePri, HostsForDC. rewrite (mp_hosts _ _ (new_StaticDCMapper_ok entries)).
  rewrite Hd. cbn [NONEMPTY bool_decide negb]. set (flows := map _ (map _ _)).
  assert (Hflows : forall f, f ∈ flows <-> exists h, mkEntry h (dst_dc (alloc_flow a)) ∈ entries /\ f = set_dst_addr (alloc_flow a) h).
  { intros f. unfold flows. rewrite map_map, list_elem_of_fmap. setoid_rewrite list_elem_of_filter. split.
    - intros ([h d] & -> & <- & Hin). by exists h.
    - intros (h & Hin & ->). exists (mkEntry h (dst_dc (alloc_flow a))). by split_and!. }
  change (NONEMPTY "") with false. cbn [andb].
  destruct (0 <? _) eqn:El.
  - apply Z.ltb_lt in El. rewrite (proj2 (Z.eqb_eq (hipri_rate_limit_bps a) 0)) by lia.
    eexists. split; [done|]. intros [] f; cbn; rewrite ?Hflows, ?elem_of_nil; [by split; [|intros [? _]]|naive_solver].
  - eexists. split; [done|]. intros [] f; cbn; rewrite ?Hflows, ?elem_of_nil; [naive_solver|by split; [|intros [? _]]].
Qed.

Lemma agent_keys bundle : agent_bundle bundle -> NoDup (map flow_sys_key (flow_allocs bundle)).
Proof. intros Hb. apply (NoDup_fmap_1 dst_dc). rewrite <- list_fmap_compose. apply Hb. Qed.

Lemma agent_valid bundle : agent_bundle bundle -> valid_matches (ExpandDestIntoHostsSinglePri mapper) bundle.
Proof.
  intros Hb a Ha. destruct (agent_matches bundle a Hb Ha) as (m & Hm & Hf). exists m. split; [done|]. intros q.
  apply forallb_forall. intros f Hin%list_elem_of_In. apply Hf in Hin as (_ & h & _ & ->).
  destruct (ab_flow _ Hb a Ha) as (_ & Hs & Hd). cbn. by rewrite Hs, Hd.
Qed.

Lemma agent_limits bundle : agent_bundle bundle -> limits_nonneg config_ bundle.
Proof.
  intros Hb a q Ha. destruct (ab_limits _ Hb a Ha) as (Hh & Hl & _).
  destruct q; cbn; [destruct (limit_hipri config_)|destruct (limit_lopri config_)]; done.
Qed.

(** The settings of a call, and that no two allocations share a host. *)
Lemma agent_settings bundle info s : agent_bundle bundle ->
  (forall a m q, a ∈ flow_allocs bundle -> ExpandDestIntoHostsSinglePri mapper a = Some m ->
     matched (prio_at info (flow_sys_key a) q) = matched_of q m /\
     (matched_of q m <> [] -> did_create_class (prio_at info (flow_sys_key a) q) = true)) ->
  s ∈ all_wanted config_ info bundle <-> exists a h, a ∈ flow_allocs bundle /\
    mkEntry h (dst_dc (alloc_flow a)) ∈ entries /\
    let q := if 0 <? lopri_rate_limit_bps a then LOPRI else HIPRI in
    s = mkSetting 0 0 h (class_id (prio_at info (flow_sys_key a) q)) (dscp_of config_ q).
Proof.
  intros Hb Hinfo. rewrite (elem_of_all_wanted config_ (ExpandDestIntoHostsSinglePri mapper)); [|done|].
  2: { intros a Ha. destruct (agent_matches bundle a Hb Ha) as (m & Hm & _). by exists m. }
  split.
  - intros (a & m & q & f & Ha & Hm & Hf & ->). destruct (agent_matches bundle a Hb Ha) as (m' & Hm' & Hf').
    assert (m' = m) as -> by congruence. apply Hf' in Hf as (-> & h & Hin & ->).
    destruct (ab_flow _ Hb a Ha) as (_ & Hs & Hd). exists a, h. cbn. by rewrite Hs, Hd.
  - intros (a & h & Ha & Hin & ->). destruct (agent_matches bundle a Hb Ha) as (m & Hm & Hf).
    destruct (ab_flow _ Hb a Ha) as (_ & Hs & Hd).
    eexists a, m, _, (set_dst_addr (alloc_flow a) h). split_and!; [done|done|apply Hf; split; [done|by exists h]|].
    cbn. by rewrite Hs, Hd.
Qed.

Lemma agent_hosts_apart bundle a b h : NoDup (map host_addr entries) -> agent_bundle bundle ->
  a ∈ flow_allocs bundle -> b ∈ flow_allocs bundle ->
  mkEntry h (dst_dc (alloc_flow a)) ∈ entries -> mkEntry h (dst_dc (alloc_flow b)) ∈ entries -> a = b.
Proof.
  intros Hn Hb Ha Hb' Hea%(HostDC_entry _ _ _ Hn) Heb%(HostDC_entry _ _ _ Hn).
  apply (NoDup_map_inj (fun a => dst_dc (alloc_flow a)) (flow_allocs bundle)); [apply Hb|done|done|congruence].
Qed.

(** C2: the low-priority test follows the allocations, end to end: on a host
    whose commands succeed, [EnforceAllocs] succeeds, and afterwards a flow is
    of low priority exactly if its destination address is a host of a
    destination that was allocated a low-priority limit. *)
Theorem EnforceAllocs_decides_lopri (e : @LinuxHostEnforcer T I) bundle :
  tc_works (T := T) -> iptables_works (I := I) -> healthy e -> NoDup (map host_addr entries) ->
  dscp_hipri config_ <> dscp_lopri config_ -> agent_bundle bundle ->
  exists e', EnforceAllocs config_ device_ (ExpandDestIntoHostsSinglePri mapper) e bundle = Some e' /\ healthy e' /\
    forall flow, GetIsLopriFunc config_ e' flow = true <->
      exists a, a ∈ flow_allocs bundle /\ 0 < lopri_rate_limit_bps a /\
        HostDC mapper (dst_addr flow) = Some (dst_dc (alloc_flow a)).
Proof.
  intros Htc Hipt He Hn Hdscp Hb.
  destruct (EnforceAllocs_succeeds config_ device_ (ExpandDestIntoHostsSinglePri mapper) e bundle Htc Hipt He
    (agent_keys _ Hb) (agent_valid _ Hb) (agent_limits _ Hb)) as (info & e' & Hrun & He' & Hsnap & Hinfo).
  exists e'. split; [done|]. split; [done|]. intros flow. unfold GetIsLopriFunc. rewrite Hsnap, bool_decide_eq_true.
  set (batch := std_sort _).
  assert (Hel : forall s, s ∈ batch <-> _) by (intros s; unfold batch; rewrite std_sort_perm; by apply agent_settings).
  destruct (FindDscp_coarse batch (src_port flow mod 2 ^ 16) (dst_port flow mod 2 ^ 16) (dst_addr flow) (dscp_hipri config_))
    as [Hfound Hnone].
  { apply std_sort_sorted. }
  { by intros s (a & h & _ & _ & ->)%Hel. }
  { intros s s' (a & h & Ha & Hin & ->)%Hel (b & h' & Hb' & Hin' & ->)%Hel. cbn. intros <-. by rewrite (agent_hosts_apart bundle a b h). }
  split.
  - intros Hlo. destruct (decide (Exists (fun s => s_dst_addr s = dst_addr flow) batch)) as [Hex|Hex].
    + apply Exists_exists in Hex as (s & Hs & Haddr). rewrite (Hfound s Hs Haddr) in Hlo.
      apply Hel in Hs as (a & h & Ha & Hin & ->). cbn in Haddr, Hlo. subst h. exists a. split; [done|].
      destruct (0 <? lopri_rate_limit_bps a) eqn:El; [|done].
      apply Z.ltb_lt in El. split; [done|]. by apply (HostDC_entry _ _ _ Hn).
    + rewrite Hnone in Hlo; [done|]. intros s Hs Haddr. apply Hex, Exists_exists. by exists s.
  - intros (a & Ha & Hpos & Hdc%(HostDC_entry _ _ _ Hn)). apply Z.ltb_lt in Hpos.
    erewrite Hfound; [|apply Hel; exists a, (dst_addr flow); split_and!; [done|done|reflexivity]|done].
    cbn. by rewrite Hpos.
Qed.
End Agent.
