(* ===== verification/EnforcerRates.v ===== *)
(** * EnforcerRates: the rates on the device

    What the batches of [Enforcer] do to the classes of the device: the text
    of a batch read back, a tc command that keeps [TcLaws] (a batch that
    succeeds has run every line), and how the rates of the classes follow the
    limits. *)

From stdpp Require Import pretty.
From S2P Require Import Prelude Text Doubles FlowMarker Iptables IptablesTable Wan Enforcer EnforcerSpec.

#[local] Open Scope string_scope.
#[local] Open Scope list_scope.
#[local] Open Scope Z_scope.

(** ** Reading a batch *)

(** The class and the rate that a line sets, as words. *)
Definition read_rate (line : string) : option (string * string) :=
  match String.words line with
  | "class" :: op :: "dev" :: _ :: "parent" :: "1:" :: "classid" :: id :: "htb" :: "rate" :: rate :: _ =>
      if bool_decide (op = "add") || bool_decide (op = "change") then Some (id, rate) else None
  | _ => None
  end.

Definition read_rates (text : string) : list (string * string) := omap read_rate (split_at is_newline text).

Definition set_rates (rates : gmap string string) (l : list (string * string)) : gmap string string :=
  foldl (fun rates '(id, rate) => <[id := rate]> rates) rates l.

(** What the enforcer relies on of tc. *)
Class TcLaws (T : Type) `{TcCallerIface T} := {
  tc_rates : T -> gmap string string;
  tc_batch_ok t text force t' : Batch t text force = (t', true) ->
    tc_rates t' = set_rates (tc_rates t) (read_rates text) }.

Definition rate_text (rate_bps : Z) : string := show_f (rate_limit_mbps rate_bps) +:+ "mbit".

Definition line_rate (c : tc_command) : list (string * string) :=
  match c with
  | ClassAdd id r | ClassChange id r => [(id, rate_text r)]
  | NetemAdd _ _ => []
  end.

Definition line_rates (l : list tc_command) : list (string * string) := concat (map line_rate l).

(** ** Round trip *)

Lemma no_space_drop s : no_space s = true -> no_space (drop_char s) = true.
Proof. destruct s as [|c s]; [done|]. cbn. by intros [_ ?]%andb_true_iff. Qed.

Lemma no_space_show_f x : no_space (show_f x) = true.
Proof.
  assert (Hs : forall (s : bool) n, no_space ((if s then "-" else "") +:+ pretty (n / 10 ^ 6) +:+ "." +:+
            drop_char (pretty (10 ^ 6 + n mod 10 ^ 6))) = true).
  { intros s n. rewrite !no_space_app, !no_space_pretty, no_space_drop by apply no_space_pretty. by destruct s. }
  destruct x as [s|s| |s m e]; cbn [show_f]; [apply Hs|by destruct s|done|apply Hs].
Qed.

Section RoundTrip.
Context (config_ : HostEnforcerConfig) (device_ : string).

Definition burst_words : list string :=
  if 0 <? pacing_burst_bytes config_ then ["burst"; pretty (pacing_burst_bytes config_) +:+ "b"] else [].

Definition class_words (op id : string) (rate : Z) : list string :=
  ["class"; op; "dev"; device_; "parent"; "1:"; "classid"; id; "htb"; "rate"; rate_text rate] ++ burst_words.

Definition dist_words (c : NetemConfig) : list string :=
  match delay_dist c with
  | NETEM_NO_DIST => []
  | d => [pretty (delay_jitter_ms c) +:+ "ms"; show_f (delay_correlation_pct c) +:+ "%"; "distribution"; NetemDistToString d]
  end.

Definition tc_words (c : tc_command) : list string :=
  match c with
  | ClassAdd id rate => class_words "add" id rate
  | ClassChange id rate => class_words "change" id rate
  | NetemAdd id c =>
      ["qdisc"; "add"; "dev"; device_; "parent"; id; "handle"; strip_root id +:+ ":0"; "netem"; "limit"; "100000";
       "delay"; pretty (delay_ms c) +:+ "ms"] ++ dist_words c
  end.

Lemma show_tc_words c : show_tc config_ device_ c = unwords (tc_words c) +:+ newline.
Proof.
  destruct c as [id r|id r|id [ms jit cor d]]; unfold show_tc, tc_words, show_class, class_words, burst_words, burst_arg, rate_text.
  1-2: destruct (0 <? _); cbn [app unwords]; rewrite ?append_assoc; done.
  unfold show_dist, dist_words. cbn [delay_dist delay_ms delay_jitter_ms delay_correlation_pct].
  destruct d; cbn [app unwords]; rewrite ?append_assoc; done.
Qed.

Definition class_of (c : tc_command) : string :=
  match c with ClassAdd id _ | ClassChange id _ | NetemAdd id _ => id end.

Lemma tc_words_clean c : clean device_ = true -> clean (class_of c) = true ->
  Forall (fun w => clean w = true) (tc_words c).
Proof.
  intros Hd Hid. assert (Hb : Forall (fun w => clean w = true) burst_words).
  { unfold burst_words. destruct (0 <? _); repeat constructor. apply clean_app_r; [apply no_space_pretty|done]. }
  assert (Hr : forall r, clean (rate_text r) = true) by (intros; apply clean_app_r; [apply no_space_show_f|done]).
  destruct c as [id r|id r|id [ms jit cor d]]; cbn in Hid; cbn [tc_words class_words].
  1-2: apply Forall_app; split; [by repeat constructor|done].
  apply Forall_app. split.
  - repeat (constructor; [first [done|apply clean_app_r; [|done]]|]); try constructor.
    + unfold strip_root. case_bool_decide; [apply no_space_substring|]; by apply clean_no_space.
    + apply no_space_pretty.
  - unfold dist_words. cbn. destruct d; repeat constructor; apply clean_app_r; try done;
      [apply no_space_pretty|apply no_space_show_f|apply no_space_pretty|apply no_space_show_f|
       apply no_space_pretty|apply no_space_show_f|apply no_space_pretty|apply no_space_show_f].
Qed.

Lemma read_rate_words c : clean device_ = true -> clean (class_of c) = true ->
  read_rate (unwords (tc_words c)) = head (line_rate c).
Proof.
  intros Hd Hid. unfold read_rate. rewrite words_unwords_end; [|by destruct c|by apply tc_words_clean].
  by destruct c.
Qed.

(** The rates that a batch sets are read back from its text. *)
Lemma read_rates_show lines : clean device_ = true -> Forall (fun c => clean (class_of c) = true) lines ->
  read_rates (show_tcs config_ device_ lines) = line_rates lines.
Proof.
  intros Hd. unfold read_rates, show_tcs, line_rates. induction 1 as [|c l Hc _ IH]; [done|].
  cbn [map foldr concat]. rewrite show_tc_words, append_assoc, split_line by by apply unwords_no_newline, tc_words_clean.
  cbn [omap list_omap]. rewrite read_rate_words, IH by done. by destruct c.
Qed.
End RoundTrip.

(** ** The rates follow the limits *)

Lemma set_rates_app rates l1 l2 : set_rates rates (l1 ++ l2) = set_rates (set_rates rates l1) l2.
Proof. apply foldl_app. Qed.

Lemma line_rates_app l1 l2 : line_rates (l1 ++ l2) = line_rates l1 ++ line_rates l2.
Proof. unfold line_rates. by rewrite map_app, concat_app. Qed.

Lemma set_rates_other id l : (forall p, p ∈ l -> fst p <> id) -> forall rates, set_rates rates l !! id = rates !! id.
Proof.
  induction l as [|[id' r] l IH]; intros Hl rates; [done|]. cbn. rewrite IH by (intros p Hp; apply Hl; by right).
  apply lookup_insert_ne. apply (Hl (id', r)). by left.
Qed.

Section Rates.
Context (config_ : HostEnforcerConfig) (device_ : string).
Context (match_host_flows_fn_ : FlowAlloc -> option MatchedHostFlows).

(** The rate of a class is that of the limit, unless it is about to be
    lowered. *)
Definition in_sync (rates : gmap string string) (p : Priority) : Prop :=
  class_id p <> "" -> update_after_ipt_change p = false ->
  rates !! class_id p = Some (rate_text (class_rate config_ (cur_rate_limit_bps p))).

Definition synced (rates : gmap string string) (info : gmap FlowMarker FlowSys) : Prop :=
  forall k q, in_sync rates (prio_at info k q).

(** A limit that changes does so while flows are matched. *)
Definition matched_when_changed (limit : Z) (p : Priority) : Prop :=
  class_id p = "" \/ matched p <> [] \/ (limit = cur_rate_limit_bps p /\ update_after_ipt_change p = false).

Lemma line_rates_of limit netem p r : r ∈ line_rates (class_lines config_ limit netem p) -> fst r = class_id p.
Proof.
  unfold class_lines, line_rates. destruct (did_create_class p), (matched p), netem; cbn;
    rewrite ?elem_of_cons, ?elem_of_nil; intros; destruct_or?; subst; done.
Qed.

Lemma class_lines_rate rates limit netem p : did_create_class p = false \/ matched p <> [] ->
  set_rates rates (line_rates (class_lines config_ limit netem p)) !! class_id p =
  Some (rate_text (class_rate config_ limit)).
Proof.
  unfold class_lines, line_rates. intros [->|Hne]; [|destruct (did_create_class p), (matched p); try done];
    destruct netem; cbn; by rewrite lookup_insert_eq.
Qed.

(** One priority in stage 1. *)
Lemma updated_in_sync rates limit p next :
  in_sync rates p -> matched_when_changed limit p -> (did_create_class p = true -> class_id p <> "") ->
  in_sync (set_rates rates (line_rates (update_lines config_ limit p next))) (updated config_ limit p next).
Proof.
  intros Hs Hm Hd. unfold in_sync, update_lines, updated. rewrite early_update_eq.
  destruct (named_fields p next) as (Hdn & Hmn & Hcn & Hun & Hnn).
  destruct (raises limit p) eqn:Er; cbn [fst snd class_id cur_rate_limit_bps update_after_ipt_change
    set_cur_rate_limit_bps set_update_after_ipt_change].
  - intros _ _. apply class_lines_rate. rewrite Hdn, Hmn. destruct (did_create_class p); [right|by left].
    destruct Hm as [Hm|[Hm|[-> _]]]; [by destruct Hd|done|]. unfold raises in Er.
    rewrite Z.ltb_irrefl, orb_false_r, andb_true_iff, negb_true_iff in Er. destruct Er as [_ Er]. by destruct (matched p).
  - apply orb_false_iff in Er as [_ Er%Z.ltb_ge]. destruct (limit <? _) eqn:El; [done|].
    apply Z.ltb_ge in El. assert (limit = cur_rate_limit_bps p) as -> by lia. exact Hs.
Qed.

(** One priority in stage 3. *)
Lemma lowered_in_sync rates p next :
  in_sync rates p -> (update_after_ipt_change p = true -> matched p <> []) ->
  in_sync (set_rates rates (line_rates (lower_lines config_ p next))) (lowered config_ p next).
Proof.
  intros Hs Hm. unfold in_sync, lower_lines, lowered. rewrite late_update_eq.
  destruct (named_fields p next) as (Hdn & Hmn & Hcn & _ & _).
  destruct (update_after_ipt_change p) eqn:Eu; [|exact Hs]. cbn. intros _ _. rewrite Hcn. apply class_lines_rate.
  right. rewrite Hmn. by apply Hm.
Qed.

(** One priority of one flow changes; the lines are about its class. *)
Lemma synced_step rates info next k q p' next' lines :
  classes_ok info next -> prio_step (prio_at info k q) next p' next' -> synced rates info ->
  (forall r, r ∈ line_rates lines -> fst r = class_id p') ->
  in_sync (set_rates rates (line_rates lines)) p' ->
  synced (set_rates rates (line_rates lines)) (<[k := set_prio q p' (default new_FlowSys (info !! k))]> info).
Proof.
  intros Hc Hstep Hs Hl Hp k' q'. pose proof (classes_ok_step info next k q p' next' Hc Hstep) as Hc'.
  pose proof (cl_unique _ _ Hc' k' q' k q) as Hu. rewrite !prio_at_insert in Hu. rewrite prio_at_insert.
  case_decide as E; [done|]. rewrite decide_True in Hu by done. intros Hne Hpend.
  rewrite set_rates_other; [by apply Hs|]. intros r Hr. rewrite (Hl r Hr). intros Heq.
  apply E. by apply Hu.
Qed.

Notation stage1_prio := (stage1_prio config_).
Notation stage3_prio := (stage3_prio config_).
Notation new_limit := (new_limit config_).

Definition rates_after (rates : gmap string string) (s : stage1_state) : gmap string string :=
  set_rates rates (line_rates (st_lines s)).

Definition same_limits (p p' : Priority) : Prop :=
  class_id p' = class_id p /\ cur_rate_limit_bps p' = cur_rate_limit_bps p /\
  update_after_ipt_change p' = update_after_ipt_change p.

Lemma synced_same rates info info' : (forall k q, same_limits (prio_at info k q) (prio_at info' k q)) ->
  synced rates info -> synced rates info'.
Proof. intros Hs H k q. destruct (Hs k q) as (Hc & Hr & Hu). unfold in_sync. rewrite Hc, Hr, Hu. apply H. Qed.

Lemma stage1_prio_synced rates a q s : stage_ok s -> synced (rates_after rates s) (st_sys s) ->
  matched_when_changed (new_limit q a) (prio_at (st_sys s) (flow_sys_key a) q) ->
  synced (rates_after rates (stage1_prio a q s)) (st_sys (stage1_prio a q s)).
Proof.
  intros [Hc _] Hs Hm. set (p := prio_at _ _ _) in *.
  destruct (stage1_prio_eq config_ a q s) as (-> & Hl & _). fold p in Hl |- *. unfold rates_after.
  rewrite Hl, line_rates_app, set_rates_app. fold (rates_after rates s).
  pose proof (early_update_step config_ (new_limit q a) p (st_next s)) as Hstep.
  rewrite early_update_fields in Hstep.
  apply (synced_step (rates_after rates s) (st_sys s) (st_next s) (flow_sys_key a) q _ _ _ Hc Hstep Hs).
  - intros r Hr. unfold update_lines, updated in *. rewrite early_update_eq in *.
    destruct (raises _ _); cbn in *; [|by apply elem_of_nil in Hr]. by apply line_rates_of in Hr.
  - apply updated_in_sync; [apply Hs|done|apply (cl_created _ _ Hc)].
Qed.

Lemma stage1_prio_other a q q' s : q' <> q ->
  prio_at (st_sys (stage1_prio a q s)) (flow_sys_key a) q' = prio_at (st_sys s) (flow_sys_key a) q'.
Proof.
  intros Hq. destruct (stage1_prio_eq config_ a q s) as (-> & _). rewrite prio_at_insert, decide_False; [done|].
  by intros [_ ?].
Qed.

Lemma stage1_alloc_synced rates s a s' m : stage_ok s -> synced (rates_after rates s) (st_sys s) ->
  match_host_flows_fn_ a = Some m ->
  (forall q, matched_when_changed (new_limit q a) (to_update (st_sys s) a m q)) ->
  stage1_alloc config_ match_host_flows_fn_ s a = Some s' -> synced (rates_after rates s') (st_sys s').
Proof.
  intros Hok Hs Hma Hm. unfold stage1_alloc. rewrite Hma. cbn [mbind option_bind]. intros [= <-].
  pose proof (prio_at_matched a m s) as Hat. cbn zeta in Hat.
  pose proof (stage1_matched_ok a m s Hok) as Hok0.
  assert (Hs0 : synced (rates_after rates (stage1_matched a m s)) (st_sys (stage1_matched a m s))).
  { apply (synced_same _ (st_sys s)); [|done]. intros k q. rewrite Hat. by case_decide. }
  assert (Hp : forall q, prio_at (st_sys (stage1_matched a m s)) (flow_sys_key a) q = to_update (st_sys s) a m q)
    by (intros []; by rewrite Hat, decide_True).
  apply stage1_prio_synced; [by apply stage1_prio_ok|apply stage1_prio_synced; [done|done|]|].
  - by rewrite Hp.
  - by rewrite stage1_prio_other, Hp.
Qed.

Lemma stage1_synced rates l : forall s s', NoDup (map flow_sys_key l) -> stage_ok s ->
  synced (rates_after rates s) (st_sys s) ->
  (forall a m q, a ∈ l -> match_host_flows_fn_ a = Some m ->
     matched_when_changed (new_limit q a) (to_update (st_sys s) a m q)) ->
  foldM (stage1_alloc config_ match_host_flows_fn_) s l = Some s' -> synced (rates_after rates s') (st_sys s').
Proof.
  induction l as [|a l IH]; intros s s' Hn Hok Hs Hm; cbn [foldM]; [by intros [= <-]|].
  cbn [map] in Hn. apply NoDup_cons in Hn as [Ha Hn].
  destruct (stage1_alloc _ _ s a) as [s1|] eqn:E; [|done]. cbn [mbind option_bind].
  destruct (stage1_alloc_eq config_ match_host_flows_fn_ s a s1 E) as (m & _ & _ & Hma & Hoth & _).
  apply IH; [done|by eapply stage1_alloc_ok| |].
  - apply (stage1_alloc_synced rates s a s1 m); [done|done|done|intros q; apply Hm; [by left|done]|done].
  - intros b mb q Hb Hmb. rewrite (to_update_other (st_sys s)); [apply Hm; [by right|done]|]. apply Hoth.
    intros Hk. apply Ha. rewrite <- Hk. by apply list_elem_of_fmap_2.
Qed.

Definition lowers_matched (s : stage1_state) (a : FlowAlloc) : Prop :=
  forall q, update_after_ipt_change (prio_at (st_sys s) (flow_sys_key a) q) = true ->
    matched (prio_at (st_sys s) (flow_sys_key a) q) <> [].

Lemma stage3_prio_synced rates a q s : classes_ok (st_sys s) (st_next s) -> is_Some (st_sys s !! flow_sys_key a) ->
  synced (rates_after rates s) (st_sys s) -> lowers_matched s a ->
  synced (rates_after rates (stage3_prio a q s)) (st_sys (stage3_prio a q s)).
Proof.
  intros Hc Hsome Hs Hm. specialize (Hm q). set (p := prio_at _ _ _) in *.
  destruct (stage3_prio_eq config_ a q s Hsome) as [-> Hl]. fold p in Hl |- *. unfold rates_after.
  rewrite Hl, line_rates_app, set_rates_app. fold (rates_after rates s).
  assert (Hstep : exists next', prio_step p (st_next s) (lowered config_ p (st_next s)) next').
  { pose proof (late_update_step config_ p (st_next s)) as Hstep. unfold lowered.
    destruct (late_update _ _ _) as [[p' next'] lines]. by exists next'. }
  destruct Hstep as [next' Hstep].
  apply (synced_step (rates_after rates s) (st_sys s) (st_next s) (flow_sys_key a) q _ _ _ Hc Hstep Hs).
  - intros r Hr. unfold lower_lines, lowered in *. rewrite late_update_eq in *.
    destruct (update_after_ipt_change p); cbn in *; [|by apply elem_of_nil in Hr]. by apply line_rates_of in Hr.
  - apply lowered_in_sync; [apply Hs|done].
Qed.

Lemma lowered_matched p next : matched (lowered config_ p next) = matched p.
Proof.
  unfold lowered. rewrite late_update_eq. destruct (named_fields p next) as (_ & Hm & _).
  by destruct (update_after_ipt_change p).
Qed.

Lemma stage3_prio_present a q s k : is_Some (st_sys s !! k) -> is_Some (st_sys (stage3_prio a q s) !! k).
Proof.
  unfold Enforcer.stage3_prio. destruct (st_sys s !! flow_sys_key a) as [sys|]; [|done].
  destruct (late_update _ _ _) as [[p next] lines]. apply is_Some_insert.
Qed.

(** Lowering one priority leaves the condition of the others. *)
Lemma stage3_prio_lowers a q s b : is_Some (st_sys s !! flow_sys_key a) ->
  lowers_matched s b -> lowers_matched (stage3_prio a q s) b.
Proof.
  intros Hs Hb q'. destruct (stage3_prio_eq config_ a q s Hs) as [-> _]. rewrite prio_at_insert.
  case_decide as E; [|apply Hb]. destruct E as [Hk ->]. rewrite lowered_matched. unfold lowered. rewrite late_update_eq.
  intros Hu. specialize (Hb q). rewrite Hk in Hb. destruct (update_after_ipt_change _) eqn:E; [by apply Hb|cbn in Hu; congruence].
Qed.

Lemma stage3_synced rates l : forall s, classes_ok (st_sys s) (st_next s) ->
  (forall a, a ∈ l -> is_Some (st_sys s !! flow_sys_key a)) -> synced (rates_after rates s) (st_sys s) ->
  (forall a, a ∈ l -> lowers_matched s a) ->
  synced (rates_after rates (foldl (stage3_alloc config_) s l)) (st_sys (foldl (stage3_alloc config_) s l)).
Proof.
  induction l as [|a l IH]; intros s Hc Hp Hs Hm; [done|]. cbn [foldl]. unfold stage3_alloc at 2 4.
  assert (Ha : is_Some (st_sys s !! flow_sys_key a)) by (apply Hp; by left).
  assert (Ha1 : is_Some (st_sys (stage3_prio a HIPRI s) !! flow_sys_key a)) by by apply stage3_prio_present.
  assert (Hma : lowers_matched s a) by (apply Hm; by left).
  apply IH.
  - by apply stage3_prio_ok, stage3_prio_ok.
  - intros b Hb. apply stage3_prio_present, stage3_prio_present, Hp. by right.
  - apply stage3_prio_synced; [by apply stage3_prio_ok|done|by apply stage3_prio_synced|by apply stage3_prio_lowers].
  - intros b Hb. apply stage3_prio_lowers; [done|]. apply stage3_prio_lowers; [done|]. apply Hm. by right.
Qed.
End Rates.

Section Device.
Context {T I : Type} `{!TcCallerIface T} `{!TcLaws T} `{!RunnerIface I}.
Context (config_ : HostEnforcerConfig) (device_ : string).
Context (match_host_flows_fn_ : FlowAlloc -> option MatchedHostFlows).

Notation new_limit := (new_limit config_).
Notation EnforceAllocs := (EnforceAllocs config_ device_ match_host_flows_fn_).

Lemma run_batch_rates (t : T) lines t' : clean device_ = true -> Forall (fun c => clean (class_of c) = true) lines ->
  run_batch config_ device_ t lines = (t', true) -> tc_rates t' = set_rates (tc_rates t) (line_rates lines).
Proof.
  intros Hd Hl. unfold run_batch. destruct lines as [|c lines]; cbn [is_nil]; [by intros [= <-]|].
  intros Hb%tc_batch_ok. by rewrite Hb, read_rates_show.
Qed.

Lemma class_name_clean n : clean (class_name n) = true.
Proof. apply clean_app_l; [done|apply no_space_pretty]. Qed.

Lemma named_clean info next k q n p : classes_ok info next -> class_id p = class_id (prio_at info k q) ->
  clean (class_id (named p n)) = true.
Proof.
  intros Hc Hp. unfold named. case_bool_decide; [apply class_name_clean|]. rewrite Hp in *.
  destruct (cl_name _ _ Hc k q) as [|(m & -> & _)]; [done|apply class_name_clean].
Qed.

Lemma class_lines_class limit netem p c : c ∈ class_lines config_ limit netem p -> class_of c = class_id p.
Proof. intros Hc%elem_of_class_lines. by destruct c; destruct_and?. Qed.

(** The limits of the flows when stage 3 begins. *)
Lemma marked_limits (e : @LinuxHostEnforcer T I) bundle s a q :
  healthy e -> NoDup (map flow_sys_key (flow_allocs bundle)) -> limits_nonneg config_ bundle ->
  (forall a m q, a ∈ flow_allocs bundle -> match_host_flows_fn_ a = Some m ->
     matched_when_changed (new_limit q a) (to_update (sys_info_ e) a m q)) ->
  stage1 config_ match_host_flows_fn_ e bundle = Some s -> a ∈ flow_allocs bundle ->
  let p := prio_at (mark_created (fun _ => true) (st_classes s) (st_sys s)) (flow_sys_key a) q in
  cur_rate_limit_bps p = new_limit q a /\ (update_after_ipt_change p = true -> matched p <> []).
Proof.
  intros [Hc Ha _] Hn Hl Hm Hs Hin. pose proof (stage1_ok _ _ _ _ _ Hc Hs) as Hok.
  apply stage1_run in Hs as [_ D2 _ _]; [|done]. destruct (D2 a Hin) as [_ (m & Hma & Hq)].
  destruct (Hq q) as [n Hp]. cbn [st_sys] in Hp.
  destruct (updated_fields config_ (new_limit q a) (to_update (sys_info_ e) a m q) n) as (F1 & _ & F3 & _ & F5).
  rewrite <- Hp in F1, F3, F5.
  assert (Hgoal : update_after_ipt_change (prio_at (st_sys s) (flow_sys_key a) q) = true ->
            matched (prio_at (st_sys s) (flow_sys_key a) q) <> []).
  { intros Hu. destruct (F5 Hu) as (_ & _ & _ & Hor). rewrite F3. specialize (Hl a q Hin).
    destruct (Hm a m q Hin Hma) as [E|[E|[E1 E2]]]; [|done|].
    - apply (ac_unnamed _ Ha) in E as [E1 E2]. cbn in Hor. rewrite E1, E2 in Hor. destruct Hor; [lia|done].
    - rewrite E1, E2 in Hor. destruct Hor; [lia|done]. }
  by destruct (marked_at (fun _ => true) s (flow_sys_key a) q Hok) as [[] ->].
Qed.

(** The classes in the lines are words. *)
Lemma stage1_lines_clean (e : @LinuxHostEnforcer T I) bundle s :
  classes_ok (sys_info_ e) (next_class_id_ e) -> NoDup (map flow_sys_key (flow_allocs bundle)) ->
  stage1 config_ match_host_flows_fn_ e bundle = Some s -> Forall (fun c => clean (class_of c) = true) (st_lines s).
Proof.
  intros Hc Hn Hs. apply stage1_run in Hs as [_ _ D3 _]; [|done]. apply Forall_forall. intros c Hin.
  destruct (D3 c Hin) as [?%elem_of_nil|(a & m & q & n & _ & _ & Hu)]; [done|].
  apply elem_of_update_lines in Hu as [_ Hu]. rewrite (class_lines_class _ _ _ _ Hu).
  by eapply (named_clean (sys_info_ e) (next_class_id_ e) (flow_sys_key a) q).
Qed.

Lemma stage3_lines_clean info next l s3 : classes_ok info next ->
  stage3_did config_ l (mkStage1 info next [] []) s3 -> Forall (fun c => clean (class_of c) = true) (st_lines s3).
Proof.
  intros Hc D. apply Forall_forall. intros c Hin.
  destruct (d3_lines _ _ _ _ D c Hin) as [?%elem_of_nil|(a & q & n & _ & Hu)]; [done|].
  apply elem_of_lower_lines in Hu as [_ Hu]. rewrite (class_lines_class _ _ _ _ Hu).
  by eapply (named_clean info next (flow_sys_key a) q).
Qed.

(** The state when stage 3 is done. *)
Lemma stages_synced (e : @LinuxHostEnforcer T I) bundle s rates :
  healthy e -> NoDup (map flow_sys_key (flow_allocs bundle)) -> limits_nonneg config_ bundle ->
  (forall a m q, a ∈ flow_allocs bundle -> match_host_flows_fn_ a = Some m ->
     matched_when_changed (new_limit q a) (to_update (sys_info_ e) a m q)) ->
  synced config_ rates (sys_info_ e) -> stage1 config_ match_host_flows_fn_ e bundle = Some s ->
  let info := mark_created (fun _ => true) (st_classes s) (st_sys s) in
  let s3 := stage3 config_ info (st_next s) bundle in
  synced config_ (set_rates (set_rates rates (line_rates (st_lines s))) (line_rates (st_lines s3))) (st_sys s3) /\
  Forall (fun c => clean (class_of c) = true) (st_lines s3) /\
  forall a q, a ∈ flow_allocs bundle -> cur_rate_limit_bps (prio_at (st_sys s3) (flow_sys_key a) q) = new_limit q a /\
    update_after_ipt_change (prio_at (st_sys s3) (flow_sys_key a) q) = false.
Proof.
  intros He Hn Hl Hm Hsync Hs info s3. pose proof (h_classes _ He) as Hc.
  pose proof (stage1_ok _ _ _ _ _ Hc Hs) as Hok.
  pose proof (mark_created_ok (fun _ => true) s Hok) as Hmk. fold info in Hmk.
  pose proof (stage1_synced config_ match_host_flows_fn_ rates _ _ _ Hn
    (Build_stage_ok (mkStage1 (sys_info_ e) (next_class_id_ e) [] []) Hc ltac:(by intros k q ?%elem_of_nil)) Hsync Hm Hs) as Hs1.
  pose proof (fun a q => marked_limits e bundle s a q He Hn Hl Hm Hs) as Hmid. cbn zeta in Hmid. fold info in Hmid.
  apply stage1_run in Hs as [_ D2 _ _]; [|done]. cbn [st_sys] in D2.
  assert (Hpres : forall a, a ∈ flow_allocs bundle -> is_Some (info !! flow_sys_key a))
    by (intros a Hin; by apply marked_present, D2).
  assert (D : stage3_did config_ (flow_allocs bundle) (mkStage1 info (st_next s) [] []) s3) by by apply stage3_run.
  split_and!.
  - apply (stage3_synced config_ (set_rates rates (line_rates (st_lines s))) (flow_allocs bundle)
      (mkStage1 info (st_next s) [] [])); [done|done| |].
    + apply (synced_same config_ _ (st_sys s)); [|done]. intros k q. cbn [st_sys].
      unfold info. by destruct (marked_at (fun _ => true) s k q Hok) as [[] ->].
    + intros a Hin q. by apply Hmid.
  - by apply (stage3_lines_clean info (st_next s) (flow_allocs bundle)).
  - intros a q Hin. destruct (d3_prio _ _ _ _ D a q Hin) as [n ->]. cbn [st_sys]. unfold lowered. rewrite late_update_eq.
    destruct (Hmid a q Hin) as [<- _]. destruct (named_fields (prio_at info (flow_sys_key a) q) n) as (_ & _ & Hcn & _).
    by destruct (update_after_ipt_change _) eqn:E.
Qed.

(** C3: on a host whose commands succeed, the rates of the device follow the
    limits: after [EnforceAllocs], every class of an allocated flow has the
    rate of its new limit, and every other class keeps the rate of the limit
    that is recorded for it, provided that a limit only changes in a call in
    which flows are matched at that priority. *)
Theorem EnforceAllocs_rates_follow_limits (e : @LinuxHostEnforcer T I) bundle :
  clean device_ = true -> tc_works (T := T) -> iptables_works (I := I) -> healthy e ->
  NoDup (map flow_sys_key (flow_allocs bundle)) -> valid_matches match_host_flows_fn_ bundle ->
  limits_nonneg config_ bundle ->
  (forall a m q, a ∈ flow_allocs bundle -> match_host_flows_fn_ a = Some m ->
     matched_when_changed (new_limit q a) (to_update (sys_info_ e) a m q)) ->
  synced config_ (tc_rates (tc_caller_ e)) (sys_info_ e) ->
  exists e', EnforceAllocs e bundle = Some e' /\ healthy e' /\
    synced config_ (tc_rates (tc_caller_ e')) (sys_info_ e') /\
    forall a q, a ∈ flow_allocs bundle ->
      let p := prio_at (sys_info_ e') (flow_sys_key a) q in
      cur_rate_limit_bps p = new_limit q a /\
      (class_id p <> "" -> tc_rates (tc_caller_ e') !! class_id p = Some (rate_text (class_rate config_ (new_limit q a)))).
Proof.
  intros Hd Htc Hipt He Hn Hv Hl Hm Hsync.
  destruct (EnforceAllocs_succeeds config_ device_ match_host_flows_fn_ e bundle Htc Hipt He Hn Hv Hl)
    as (_ & e' & Hrun & He' & _).
  destruct (EnforceAllocs_eq config_ device_ match_host_flows_fn_ e bundle (h_classes _ He) Hn Hv)
    as (s & tc & made & Hs & Hmade & Heq).
  exists e'. split; [done|]. split; [done|]. rewrite Heq in Hrun. clear Heq.
  pose proof (run_batch_works config_ device_ (tc_caller_ e) (st_lines s) Htc) as Hok1.
  destruct (run_batch config_ device_ (tc_caller_ e) (st_lines s)) as [tc1 ok1] eqn:E1.
  cbn [fst snd] in Hmade, Hok1. subst ok1. injection Hmade as <- <-.
  destruct (stages_synced e bundle s _ He Hn Hl Hm Hsync Hs) as (Hsy & Hcl3 & Hlim).
  apply run_batch_rates in E1; [|done|by eapply stage1_lines_clean; [apply He|..]].
  destruct (CommitChanges_works (foldl Stage (ipt_controller_ e)
    (all_wanted config_ (mark_created (fun _ => true) (st_classes s) (st_sys s)) bundle)) Hipt) as [k Hk].
  rewrite Hk in Hrun. cbn zeta in Hrun. set (s3 := stage3 _ _ _ _) in *.
  pose proof (run_batch_works config_ device_ tc1 (st_lines s3) Htc) as Hok3.
  destruct (run_batch config_ device_ tc1 (st_lines s3)) as [tc3 ok3] eqn:E3. cbn [fst snd] in Hrun, Hok3. subst ok3.
  apply run_batch_rates in E3; [|done|done]. injection Hrun as <-. cbn [tc_caller_ sys_info_].
  rewrite E3, E1. split; [done|]. intros a q Ha. destruct (Hlim a q Ha) as [Hc Hu]. split; [done|].
  intros Hid. rewrite <- Hc. by apply Hsy.
Qed.
End Device.
