(* ===== verification/EnforcerRuns.v ===== *)
(** * EnforcerRuns: the enforcer over time

    Sequences of calls of [Enforcer]: the classes of every reachable state,
    setting up a simulated network, a class whose creation failed, and runs
    against concrete commands, which also instantiate the hypotheses of
    [EnforcerSpec] and [EnforcerRates]. *)

From stdpp Require Import pretty.
From S2P Require Import Prelude Text Doubles FlowMarker Iptables IptablesTable Wan Enforcer EnforcerSpec EnforcerRates.

#[local] Open Scope string_scope.
#[local] Open Scope list_scope.
#[local] Open Scope Z_scope.

#[local] Arguments CommitChanges : simpl never.
#[local] Arguments run_batch : simpl never.
#[local] Arguments created_classes : simpl never.
#[local] Arguments stage1 : simpl never.
#[local] Arguments stage2 : simpl never.
#[local] Arguments stage3 : simpl never.
#[local] Arguments mark_created : simpl never.

Section Runs.
Context {T I : Type} `{!TcCallerIface T} `{!RunnerIface I}.
Context (config_ : HostEnforcerConfig) (device_ : string).

Notation LinuxHostEnforcer := (@LinuxHostEnforcer T I).
Notation matcher := (FlowAlloc -> option MatchedHostFlows).

(** What the host agent does, in some order: the matching depends on the flow
    state of the moment. *)
Inductive enforcer_op :=
  | OpReset
  | OpInit (configs : list FlowNetemConfig)
  | OpEnforce (match_flows : matcher) (bundle : AllocBundle).

(** [None]: a check failed. *)
Definition run_op (e : LinuxHostEnforcer) (o : enforcer_op) : option LinuxHostEnforcer :=
  match o with
  | OpReset => Some (ResetDeviceConfig device_ e).1
  | OpInit configs => fst <$> InitSimulatedWan config_ device_ e configs
  | OpEnforce m bundle => EnforceAllocs config_ device_ m e bundle
  end.

Definition run_ops (e : LinuxHostEnforcer) (ops : list enforcer_op) : option LinuxHostEnforcer := foldM run_op e ops.

(** ** A class whose creation failed *)

(** A run in which every call allocates the limit to the flow. *)
Definition same_limit (k : FlowMarker) (q : qos) (limit : Z) (o : enforcer_op) : Prop :=
  match o with
  | OpEnforce _ bundle => NoDup (map flow_sys_key (flow_allocs bundle)) /\
      exists a, a ∈ flow_allocs bundle /\ flow_sys_key a = k /\ new_limit config_ q a = limit
  | _ => False
  end.

(** Named, not created, and nothing to do. *)
Definition given_up (limit : Z) (p : Priority) : Prop :=
  class_id p <> "" /\ did_create_class p = false /\ cur_rate_limit_bps p = limit /\ update_after_ipt_change p = false.

Lemma updated_given_up limit p next : given_up limit p ->
  update_creates limit p = false /\ given_up limit (updated config_ limit p next) /\
  update_lines config_ limit p next = [].
Proof.
  intros (Hid & Hd & Hc & Hu). unfold update_creates, updated, update_lines. rewrite early_update_eq. unfold raises.
  rewrite bool_decide_eq_false_2, Hc, Z.ltb_irrefl by done. cbn. done.
Qed.

Lemma lowered_given_up limit p next : given_up limit p -> lowered config_ p next = p.
Proof. intros (_ & _ & _ & Hu). unfold lowered. by rewrite late_update_eq, Hu. Qed.

Lemma EnforceAllocs_given_up (e : LinuxHostEnforcer) k q limit o e' :
  classes_ok (sys_info_ e) (next_class_id_ e) -> given_up limit (prio_at (sys_info_ e) k q) ->
  same_limit k q limit o -> run_op e o = Some e' ->
  classes_ok (sys_info_ e') (next_class_id_ e') /\ given_up limit (prio_at (sys_info_ e') k q).
Proof.
  intros Hc Hg Ho Hr. destruct o as [| |m bundle]; [done..|]. destruct Ho as (Hn & a & Ha & Hk & Hlim). cbn in Hr.
  split; [by eapply EnforceAllocs_classes_ok|]. unfold EnforceAllocs in Hr.
  destruct (stage1 config_ m e bundle) as [s|] eqn:Es; [|done]. cbn [mbind option_bind] in Hr.
  pose proof (stage1_ok _ _ _ _ _ Hc Es) as Hok. apply stage1_run in Es as [_ D2 _ D4]; [|done]. cbn [st_sys st_classes] in *.
  destruct (D2 a Ha) as [Hsome (ma & Hma & Hq)]. destruct (Hq q) as [n Hp].
  assert (Hga : given_up (new_limit config_ q a) (to_update (sys_info_ e) a ma q)).
  { rewrite Hlim. unfold to_update. rewrite Hk. by destruct Hg as (? & ? & ? & ?). }
  destruct (updated_given_up _ _ n Hga) as (Hcr & Hgu & _). rewrite <- Hp, Hlim in Hgu.
  assert (Hmark : forall made, given_up limit (prio_at (mark_created made (st_classes s) (st_sys s)) k q)).
  { intros made. rewrite mark_created_at by (intros; by eapply (so_named s Hok)).
    rewrite bool_decide_eq_false_2; [by rewrite <- Hk|]. rewrite D4.
    intros [?%elem_of_nil|(b & mb & Hb & Hmb & Hkb & Hu)]; [done|].
    assert (a = b) as <- by (apply (NoDup_map_inj flow_sys_key (flow_allocs bundle)); congruence || done). congruence. }
  destruct (run_batch config_ device_ _ _) as [tc1 ok1]. destruct (created_classes _ _ _) as [tc2 made]. specialize (Hmark made).
  destruct (stage2 _ _ _) as [settings|]; [|done]. cbn [mbind option_bind] in Hr.
  destruct (CommitChanges (foldl Stage (ipt_controller_ e) settings)) as [ipt []]; [|by injection Hr as <-].
  destruct (run_batch config_ device_ tc2 _) as [tc3 ok3]. injection Hr as <-. cbn [sys_info_].
  destruct (stage3_run config_ (flow_allocs bundle) (mkStage1 (mark_created made (st_classes s) (st_sys s)) (st_next s) [] []) Hn)
    as [_ D3 _]; [intros b Hb; by apply marked_present, D2|].
  destruct (D3 a q Ha) as [n3 Hp3]. rewrite Hk in Hp3. cbn [st_sys] in Hp3.
  unfold stage3. rewrite Hp3, (lowered_given_up limit) by done. done.
Qed.

(** A class that tc failed to create is not created again: once a class has
    its name but was not created, and its limit is recorded, every later call
    that allocates the same limit leaves it so, whatever tc and iptables
    answer. *)
Theorem EnforceAllocs_failed_class_stays (e : LinuxHostEnforcer) k q limit ops e' :
  classes_ok (sys_info_ e) (next_class_id_ e) -> given_up limit (prio_at (sys_info_ e) k q) ->
  Forall (same_limit k q limit) ops -> run_ops e ops = Some e' ->
  did_create_class (prio_at (sys_info_ e') k q) = false /\
  cur_rate_limit_bps (prio_at (sys_info_ e') k q) = limit.
Proof.
  unfold run_ops. intros Hc Hg Hops. revert e Hc Hg. induction Hops as [|o ops Ho _ IH]; intros e Hc Hg; cbn [foldM].
  - intros [= <-]. by destruct Hg as (_ & ? & ? & _).
  - destruct (run_op e o) as [e1|] eqn:E; [|done]. cbn [mbind option_bind].
    destruct (EnforceAllocs_given_up e k q limit o e1 Hc Hg Ho E) as [Hc1 Hg1]. by apply IH.
Qed.

(** ** Setting up the simulated network *)

Definition config_key (c : FlowNetemConfig) : FlowMarker := no_job_key (c_flow c).

Lemma init_prio_eq c q s : exists lines,
  init_prio config_ c q s =
  mkStage1 (<[config_key c := set_prio q (set_cur_rate_limit_bps kMaxBandwidthBps (named (prio_at (st_sys s) (config_key c) q) (st_next s)))
               (default new_FlowSys (st_sys s !! config_key c))]> (st_sys s))
    (next_after (prio_at (st_sys s) (config_key c) q) (st_next s)) (st_lines s ++ lines) (st_classes s).
Proof.
  unfold init_prio. fold (config_key c). fold (prio_at (st_sys s) (config_key c) q). rewrite StageTraffic_eq. by eexists.
Qed.

Lemma init_prio_ok c q s : classes_ok (st_sys s) (st_next s) ->
  classes_ok (st_sys (init_prio config_ c q s)) (st_next (init_prio config_ c q s)).
Proof.
  intros Hc. destruct (init_prio_eq c q s) as [lines ->]. cbn [st_sys st_next].
  apply (classes_ok_step (st_sys s) (st_next s)); [done|].
  by apply (named_step _ _ (set_cur_rate_limit_bps kMaxBandwidthBps)).
Qed.

(** What stage 1 did to flows that were not there. *)
Record init_did (l : list FlowNetemConfig) (s s' : stage1_state) : Prop := {
  id_classes : classes_ok (st_sys s') (st_next s');
  id_others : forall k, k ∉ map config_key l -> st_sys s' !! k = st_sys s !! k;
  id_new : forall c, c ∈ l -> is_Some (st_sys s' !! config_key c) /\ forall q, exists n,
    prio_at (st_sys s') (config_key c) q = set_cur_rate_limit_bps kMaxBandwidthBps (named new_Priority n) }.

Lemma init_new_config c s errors : st_sys s !! config_key c = None -> classes_ok (st_sys s) (st_next s) ->
  exists s', init_config config_ (s, errors) c = (s', errors) /\ init_did [c] s s'.
Proof.
  intros Hnone Hc. unfold init_config. fold (config_key c). rewrite Hnone. eexists. split; [reflexivity|].
  pose proof (init_prio_ok c HIPRI s Hc) as Hc1. pose proof (init_prio_ok c LOPRI _ Hc1) as Hc2.
  assert (Hp : forall q, prio_at (st_sys s) (config_key c) q = new_Priority)
    by (intros q; unfold prio_at; rewrite Hnone; apply prio_new).
  destruct (init_prio_eq c HIPRI s) as [l1 E1]. rewrite E1 in *.
  match goal with |- context [init_prio config_ c LOPRI ?s1] => destruct (init_prio_eq c LOPRI s1) as [l2 E2] end.
  rewrite E2 in *. cbn [st_sys st_next] in *. split; cbn [st_sys]; [done| |].
  - intros k Hk. assert (k <> config_key c) by (intros ->; apply Hk; by left). by rewrite !lookup_insert_ne.
  - intros c' ->%list_elem_of_singleton. rewrite lookup_insert_eq. split; [done|]. intros q. rewrite !prio_at_insert.
    case_decide as E; [|case_decide as E'].
    + rewrite decide_False by (by intros [_ ?]). rewrite Hp. by eexists.
    + rewrite Hp. by eexists.
    + destruct q; naive_solver.
Qed.

Lemma init_config_run l : forall s errors, NoDup (map config_key l) ->
  (forall c, c ∈ l -> st_sys s !! config_key c = None) -> classes_ok (st_sys s) (st_next s) ->
  exists s', foldl (init_config config_) (s, errors) l = (s', errors) /\ init_did l s s'.
Proof.
  induction l as [|c l IH]; intros s errors Hn Hnone Hc; cbn [foldl].
  - exists s. split; [done|]. split; [done|done|]. by intros c ?%elem_of_nil.
  - cbn [map] in Hn. apply NoDup_cons in Hn as [Hk Hn].
    destruct (init_new_config c s errors) as (s1 & -> & [C1 O1 N1]); [apply Hnone; by left|done|].
    cbn [map] in O1. destruct (IH s1 errors Hn) as (s' & -> & [C2 O2 N2]); [|done|].
    + intros b Hb. rewrite O1; [apply Hnone; by right|]. intros Hin%list_elem_of_singleton. apply Hk. rewrite <- Hin.
      by apply list_elem_of_fmap_2.
    + exists s'. split; [done|]. split; [done| |].
      * cbn [map]. intros k [Hkc Hkl]%not_elem_of_cons. rewrite O2 by done. apply O1.
        by intros ?%list_elem_of_singleton.
      * intros b [->|Hb]%elem_of_cons; [|by apply N2]. unfold prio_at. rewrite O2 by done. apply N1. by left.
Qed.

(** What stage 2 makes of a priority. *)
Definition set_up (c : FlowNetemConfig) (q : qos) (p : Priority) : Priority :=
  match q with
  | HIPRI => set_matched (matched_flows c) (set_did_create_class p)
  | LOPRI => set_did_create_class p
  end.

Definition init_settings (info : gmap FlowMarker FlowSys) (c : FlowNetemConfig) : list Setting :=
  settings_of (matched_flows c) (dscp_hipri config_) (class_id (prio_at info (config_key c) HIPRI)).

Record init2_did (l : list FlowNetemConfig) (info info' : gmap FlowMarker FlowSys) (next : Z) : Prop := {
  i2_classes : classes_ok info' next;
  i2_others : forall k, k ∉ map config_key l -> info' !! k = info !! k;
  i2_set_up : forall c q, c ∈ l -> prio_at info' (config_key c) q = set_up c q (prio_at info (config_key c) q) }.

Lemma init_iptables_one info acc c sys : info !! config_key c = Some sys ->
  valid_flows (matched_flows c) = true -> class_id (hipri sys) <> "" ->
  init_iptables config_ (info, acc) c =
  Some (<[config_key c := mkFlowSys (set_up c HIPRI (hipri sys)) (set_up c LOPRI (lopri sys))]> info,
        acc ++ settings_of (matched_flows c) (dscp_hipri config_) (class_id (hipri sys))).
Proof.
  intros Hs Hv Hid. unfold init_iptables. fold (config_key c). rewrite Hs. cbn [mbind option_bind].
  by rewrite StageIptablesForFlow_eq.
Qed.

Lemma init_iptables_run l next : forall info acc, NoDup (map config_key l) -> classes_ok info next ->
  (forall c, c ∈ l -> valid_flows (matched_flows c) = true /\ is_Some (info !! config_key c) /\
     forall q, class_id (prio_at info (config_key c) q) <> "") ->
  exists info', foldM (init_iptables config_) (info, acc) l = Some (info', acc ++ concat (map (init_settings info) l)) /\
    init2_did l info info' next.
Proof.
  induction l as [|c l IH]; intros info acc Hn Hc Hl; cbn [foldM].
  - exists info. split; [by rewrite app_nil_r|]. split; [done|done|]. by intros c q ?%elem_of_nil.
  - cbn [map] in Hn. apply NoDup_cons in Hn as [Hk Hn]. destruct (Hl c) as (Hv & [sys Hs] & Hid); [by left|].
    assert (Hsys : forall q, prio_at info (config_key c) q = prio q sys) by (intros; unfold prio_at; by rewrite Hs).
    rewrite (init_iptables_one info acc c sys Hs Hv) by (specialize (Hid HIPRI); by rewrite Hsys in Hid). cbn [mbind option_bind].
    set (info1 := <[config_key c := _]> info).
    assert (Hat : forall k q, prio_at info1 k q = if decide (k = config_key c) then set_up c q (prio_at info k q) else prio_at info k q).
    { intros k q. unfold info1. case_decide as E.
      - subst k. rewrite Hsys. unfold prio_at. rewrite lookup_insert_eq. by destruct q.
      - unfold prio_at. by rewrite lookup_insert_ne. }
    assert (Hc1 : classes_ok info1 next).
    { apply (classes_ok_same info); [done|]. intros k q. rewrite Hat. case_decide as E; [|auto]. subst k.
      specialize (Hid q). destruct q; cbn; auto. }
    assert (Hother : forall b q, b ∈ l -> prio_at info1 (config_key b) q = prio_at info (config_key b) q).
    { intros b q Hb. rewrite Hat, decide_False; [done|]. intros E. apply Hk. rewrite <- E. by apply list_elem_of_fmap_2. }
    destruct (IH info1 (acc ++ settings_of (matched_flows c) (dscp_hipri config_) (class_id (hipri sys))) Hn Hc1)
      as (info' & Hrun & [C2 O2 S2]).
    { intros b Hb. destruct (Hl b) as (Hvb & Hsb & Hidb); [by right|]. split_and!; [done|by apply is_Some_insert|].
      intros q. by rewrite Hother. }
    exists info'. split.
    + assert (Hmap : map (init_settings info1) l = map (init_settings info) l).
      { apply map_ext_in. intros b Hb%list_elem_of_In. unfold init_settings. by rewrite Hother. }
      assert (Hhd : init_settings info c = settings_of (matched_flows c) (dscp_hipri config_) (class_id (hipri sys)))
        by (unfold init_settings; by rewrite Hsys).
      rewrite Hrun, Hmap. cbn [map concat]. by rewrite Hhd, <- app_assoc.
    + split; [done| |].
      * cbn [map]. intros k [Hkc Hkl]%not_elem_of_cons. rewrite O2 by done. by apply lookup_insert_ne.
      * intros b q [->|Hb]%elem_of_cons.
        -- unfold prio_at at 1. rewrite O2 by done. fold (prio_at info1 (config_key c) q). by rewrite Hat, decide_True.
        -- rewrite S2, Hother by done. done.
Qed.

(** The configurations are of flows that the enforcer does not have yet. *)
Definition new_configs (e : LinuxHostEnforcer) (configs : list FlowNetemConfig) : Prop :=
  NoDup (map config_key configs) /\
  forall c, c ∈ configs -> sys_info_ e !! config_key c = None /\ valid_flows (matched_flows c) = true.

(** The two stages together. *)
Lemma InitSimulatedWan_eq (e : LinuxHostEnforcer) configs :
  classes_ok (sys_info_ e) (next_class_id_ e) -> new_configs e configs ->
  exists s info, init_did configs (mkStage1 (sys_info_ e) (next_class_id_ e) [] []) s /\
    init2_did configs (st_sys s) info (st_next s) /\
    InitSimulatedWan config_ device_ e configs = Some (
      let '(tc, ok) := Batch (tc_caller_ e) (show_tcs config_ device_ (st_lines s)) true in
      if negb ok then
        (mkLinuxHostEnforcer (st_sys s) (st_next s) tc (ipt_controller_ e) (ipt_snapshot_ e), TcFailed)
      else
        let '(ipt, ok) := CommitChanges (foldl Stage (ipt_controller_ e) (concat (map (init_settings (st_sys s)) configs))) in
        if negb ok then (mkLinuxHostEnforcer info (st_next s) tc ipt (ipt_snapshot_ e), IptablesFailed)
        else (mkLinuxHostEnforcer info (st_next s) tc ipt (AppliedSettings ipt), InitOk)).
Proof.
  intros Hc [Hn Hnew]. destruct (init_config_run configs (mkStage1 (sys_info_ e) (next_class_id_ e) [] []) [] Hn)
    as (s & Hrun & Hdid); [intros c Hin; by apply Hnew|done|]. pose proof Hdid as [C1 O1 N1].
  destruct (init_iptables_run configs (st_next s) (st_sys s) [] Hn C1) as (info & Hrun2 & Hdid2).
  { intros c Hin. destruct (Hnew c Hin) as [_ Hv], (N1 c Hin) as [Hs Hq]. split_and!; [done|done|].
    intros q. destruct (Hq q) as [n ->]. apply named_nonempty. }
  exists s, info. split; [done|]. split; [done|]. unfold InitSimulatedWan. rewrite Hrun.
  destruct (Batch _ _ _) as [tc []]; [|done]. cbn [negb]. rewrite Hrun2. cbn [mbind option_bind]. rewrite app_nil_l.
  destruct (CommitChanges _) as [ipt []]; done.
Qed.

(** On a host whose commands succeed, [InitSimulatedWan] with flows it does
    not have yet is ok: both priorities of every flow have a class that was
    created, at the highest rate; the rules lead all the matched packets into
    the class of the high priority; the other flows are as before. *)
Theorem InitSimulatedWan_sets_up (e : LinuxHostEnforcer) configs :
  tc_works (T := T) -> iptables_works (I := I) -> healthy e -> new_configs e configs ->
  exists e', InitSimulatedWan config_ device_ e configs = Some (e', InitOk) /\ healthy e' /\
    (forall c q, c ∈ configs -> let p := prio_at (sys_info_ e') (config_key c) q in
       class_id p <> "" /\ did_create_class p = true /\ cur_rate_limit_bps p = kMaxBandwidthBps) /\
    (forall k, k ∉ map config_key configs -> sys_info_ e' !! k = sys_info_ e !! k) /\
    ipt_snapshot_ e' ≡ₚ concat (map (fun c =>
      settings_of (matched_flows c) (dscp_hipri config_) (class_id (prio_at (sys_info_ e') (config_key c) HIPRI))) configs).
Proof.
  intros Htc Hipt [Hc [A1 A2] Hst] Hnew.
  destruct (InitSimulatedWan_eq e configs Hc Hnew) as (s & info & [C1 O1 N1] & [C2 O2 S2] & ->).
  pose proof (Htc (tc_caller_ e) (show_tcs config_ device_ (st_lines s)) true) as Hok.
  destruct (Batch _ _ _) as [tc ok]. cbn in Hok. subst ok. cbn [negb].
  destruct (CommitChanges_works (foldl Stage (ipt_controller_ e) (concat (map (init_settings (st_sys s)) configs))) Hipt)
    as [k ->]. cbn [negb]. cbn [st_sys] in O1.
  assert (Hp : forall c q, c ∈ configs -> exists n,
    prio_at info (config_key c) q = set_up c q (set_cur_rate_limit_bps kMaxBandwidthBps (named new_Priority n))).
  { intros c q Hin. destruct (N1 c Hin) as [_ Hq]. destruct (Hq q) as [n Hn]. exists n. by rewrite S2, Hn. }
  assert (Hnew' : forall c q, c ∈ configs -> let p := prio_at info (config_key c) q in
    class_id p <> "" /\ did_create_class p = true /\ cur_rate_limit_bps p = kMaxBandwidthBps).
  { intros c q Hin. destruct (Hp c q Hin) as [n ->]. destruct q; (split; [apply (named_nonempty new_Priority n)|done]). }
  assert (Hold : forall k, k ∉ map config_key configs -> info !! k = sys_info_ e !! k)
    by (intros k' Hk; by rewrite O2, O1).
  eexists. split; [reflexivity|]. cbn [sys_info_ ipt_snapshot_]. split; [split; cbn [sys_info_ next_class_id_ ipt_controller_]|].
  - done.
  - split; intros k' q; (destruct (decide (k' ∈ map config_key configs)) as [Hk|Hk];
      [apply list_elem_of_fmap in Hk as (c & -> & Hin); by destruct (Hnew' c q Hin) as (? & ? & ?)
      |unfold prio_at; rewrite Hold by done; apply A1 || apply A2]).
  - done.
  - split; [done|]. split; [done|]. rewrite foldl_Stage, Hst. cbn. rewrite std_sort_perm.
    assert (E : map (init_settings (st_sys s)) configs = map (init_settings info) configs); [|by rewrite E].
    apply map_ext_in. intros c Hin%list_elem_of_In. unfold init_settings. by rewrite S2.
Qed.

(** ** Reachable states *)

Definition allowed (e : LinuxHostEnforcer) (o : enforcer_op) : Prop :=
  match o with OpInit configs => new_configs e configs | _ => True end.

Inductive enforcer_step (e : LinuxHostEnforcer) : LinuxHostEnforcer -> Prop :=
  | do_op o e' : allowed e o -> run_op e o = Some e' -> enforcer_step e e'.

Definition enforcer_reachable (tc : T) (runner : I) (e : LinuxHostEnforcer) : Prop :=
  rtc enforcer_step (new_LinuxHostEnforcer device_ tc runner) e.

Lemma run_op_classes_ok e o e' : classes_ok (sys_info_ e) (next_class_id_ e) -> allowed e o -> run_op e o = Some e' ->
  classes_ok (sys_info_ e') (next_class_id_ e').
Proof.
  intros Hc Ha. destruct o as [|configs|m bundle]; cbn [run_op].
  - intros [= <-]. unfold ResetDeviceConfig. destruct (ResetTrafficControl _ _) as [tc []]; [|done]. cbn [negb].
    by destruct (Clear _) as [ipt ok].
  - destruct (InitSimulatedWan_eq e configs Hc Ha) as (s & info & [C1 _ _] & [C2 _ _] & ->). cbn [fmap option_fmap option_map].
    destruct (Batch _ _ _) as [tc []]; cbn [negb]; [|by intros [= <-]].
    destruct (CommitChanges _) as [ipt []]; cbn [negb]; by intros [= <-].
  - by apply EnforceAllocs_classes_ok.
Qed.

(** C24: the invariant of the enforcer, whatever is allocated and whatever tc and
    iptables answer, where [InitSimulatedWan] is only given flows that the
    enforcer does not have yet, each once, with valid matches (of a flow that
    it has and that has no class it records one without a name): classes are
    named 1:n with numbers below the next one, no two flows or priorities share
    a class, and a class that was created has a name. *)
Theorem Enforcer_classes_unique tc runner e :
  enforcer_reachable tc runner e ->
  forall k q sys, sys_info_ e !! k = Some sys ->
    (class_id (prio q sys) = "" /\ did_create_class (prio q sys) = false \/
     exists n, class_id (prio q sys) = class_name n /\ 2 <= n < next_class_id_ e) /\
    forall k' q' sys', sys_info_ e !! k' = Some sys' -> class_id (prio q sys) <> "" ->
      class_id (prio q sys) = class_id (prio q' sys') -> k = k' /\ q = q'.
Proof.
  unfold enforcer_reachable. intros Hr. assert (Hc : classes_ok (sys_info_ e) (next_class_id_ e)).
  { assert (H0 : classes_ok (sys_info_ (@new_LinuxHostEnforcer T I device_ tc runner)) 2) by apply classes_ok_empty.
    change 2 with (next_class_id_ (@new_LinuxHostEnforcer T I device_ tc runner)) in H0.
    induction Hr as [|e1 e2 e3 [o e2' Ha Hrun] _ IH]; [done|]. apply IH. by apply (run_op_classes_ok e1 o). }
  intros k q sys Hk. pose proof (cl_name _ _ Hc k q) as Hn. pose proof (cl_created _ _ Hc k q) as Hd.
  unfold prio_at in Hn, Hd. rewrite Hk in Hn, Hd. cbn in Hn, Hd. split.
  - destruct Hn as [Hn|Hn]; [left|by right]. split; [done|]. apply not_true_iff_false. intros E. by apply Hd in E.
  - intros k' q' sys' Hk' Hne Heq. apply (cl_unique _ _ Hc); unfold prio_at; by rewrite ?Hk, ?Hk'.
Qed.
End Runs.

(** ** Concrete commands *)

(** A tc that runs every batch. *)
Definition good_tc : Type := gmap string string.
#[export] Instance good_tc_caller : TcCallerIface good_tc := {|
  Batch t text _ := (set_rates t (read_rates text), true);
  Call t _ _ := (t, true);
  RawOut _ := "" |}.
#[export] Instance good_tc_laws : TcLaws good_tc.
Proof. refine {| tc_rates := fun t => t |}. intros t text force t' H. by injection H as <-. Defined.

(** A tc that fails when it is told to, and lists no class. *)
Record flaky_tc := mkFlakyTc { flaky_answers : list bool; flaky_log : list string }.
#[export] Instance flaky_tc_caller : TcCallerIface flaky_tc := {|
  Batch t text _ := (mkFlakyTc (tail (flaky_answers t)) (flaky_log t ++ [text]), default true (head (flaky_answers t)));
  Call t _ _ := (t, true);
  RawOut _ := "" |}.

(** An iptables that takes everything. *)
#[export] Instance good_iptables : RunnerIface unit := {| Restore k _ _ := (k, true) |}.

Definition example_config : HostEnforcerConfig := mkHostEnforcerConfig true true 0 5242880 "AF21" "BE".
Definition example_mapper : StaticDCMapper := new_StaticDCMapper example_entries.
Definition example_match : FlowAlloc -> option MatchedHostFlows := ExpandDestIntoHostsSinglePri example_mapper.
Definition mbit (n : Z) : Z := n * 2 ^ 20.
Definition to_dc (dst : string) (hi lo : Z) : FlowAlloc := mkFlowAlloc (netem_flow "denver" 7 dst) (mbit hi) (mbit lo).
Definition allocs (l : list FlowAlloc) : AllocBundle := mkAllocBundle l 0.

Lemma new_healthy {T I} `{TcCallerIface T} `{RunnerIface I} (tc : T) (r : I) :
  healthy (new_LinuxHostEnforcer "eth0" tc r).
Proof.
  assert (Hat : forall k q, prio_at ∅ k q = new_Priority)
    by (intros; unfold prio_at; rewrite lookup_empty; apply prio_new).
  split; [exact classes_ok_empty| |reflexivity]. split; intros k q; cbn; by rewrite Hat.
Qed.

Definition good_start : @LinuxHostEnforcer good_tc unit := new_LinuxHostEnforcer "eth0" ∅ tt.
Definition flaky_start (answers : list bool) : @LinuxHostEnforcer flaky_tc unit :=
  new_LinuxHostEnforcer "eth0" (mkFlakyTc answers []) tt.

Definition run_allocs {T} `{TcCallerIface T} (e : @LinuxHostEnforcer T unit) (rounds : list (list FlowAlloc))
    : option (@LinuxHostEnforcer T unit) :=
  run_ops example_config "eth0" e (map (fun l => OpEnforce example_match (allocs l)) rounds).

(** Chicago at low priority, Minneapolis at high. *)
Definition example_bundle : AllocBundle := allocs [to_dc "chicago" 0 50; to_dc "minneapolis" 100 0].

(** A bundle written out. *)
Ltac check_agent_bundle :=
  split;
  [vm_compute; repeat constructor; vm_compute; intros H; repeat (inversion H; clear H; subst; try rename H2 into H)
  |intros a H; repeat (apply elem_of_cons in H as [->|H]; [done|]); by apply elem_of_nil in H
  |intros a H; repeat (apply elem_of_cons in H as [->|H]; [cbn; unfold mbit; lia|]); by apply elem_of_nil in H].

Lemma example_agent_bundle : agent_bundle example_bundle.
Proof. check_agent_bundle. Qed.

Lemma good_works : tc_works (T := good_tc) /\ iptables_works (I := unit).
Proof. split; intros t *; reflexivity. Qed.

Lemma example_keys : NoDup (map flow_sys_key (flow_allocs example_bundle)).
Proof. apply agent_keys, example_agent_bundle. Qed.

Lemma example_valid : valid_matches example_match example_bundle.
Proof. apply agent_valid, example_agent_bundle. Qed.

Lemma example_limits : limits_nonneg example_config example_bundle.
Proof. apply agent_limits, example_agent_bundle. Qed.

Lemma EnforceAllocs_decides_lopri_witness :
  exists e', EnforceAllocs example_config "eth0" example_match good_start example_bundle = Some e' /\ healthy e' /\
    forall flow, GetIsLopriFunc example_config e' flow = true <->
      exists a, a ∈ flow_allocs example_bundle /\ 0 < lopri_rate_limit_bps a /\
        HostDC example_mapper (dst_addr flow) = Some (dst_dc (alloc_flow a)).
Proof.
  apply (EnforceAllocs_decides_lopri example_config "eth0" example_entries good_start example_bundle).
  - apply good_works.
  - apply good_works.
  - apply new_healthy.
  - repeat constructor; vm_compute; intros H; repeat (inversion H; clear H; subst; try rename H2 into H).
  - discriminate.
  - apply example_agent_bundle.
Defined.

Lemma EnforceAllocs_never_fails_witness :
  is_Some (EnforceAllocs example_config "eth0" example_match (flaky_start [false; true]) example_bundle).
Proof.
  apply EnforceAllocs_never_fails.
  - apply classes_ok_empty.
  - exact example_keys.
  - exact example_valid.
Defined.

Lemma EnforceAllocs_rates_follow_limits_witness :
  exists e', EnforceAllocs example_config "eth0" example_match good_start example_bundle = Some e' /\ healthy e' /\
    synced example_config (tc_rates (tc_caller_ e')) (sys_info_ e') /\
    forall a q, a ∈ flow_allocs example_bundle ->
      let p := prio_at (sys_info_ e') (flow_sys_key a) q in
      cur_rate_limit_bps p = new_limit example_config q a /\
      (class_id p <> "" -> tc_rates (tc_caller_ e') !! class_id p =
         Some (rate_text (class_rate example_config (new_limit example_config q a)))).
Proof.
  apply (EnforceAllocs_rates_follow_limits example_config "eth0" example_match good_start example_bundle).
  - reflexivity.
  - apply good_works.
  - apply good_works.
  - apply new_healthy.
  - exact example_keys.
  - exact example_valid.
  - exact example_limits.
  - intros a m q _ _. left. unfold to_update, prio_at. cbn. rewrite lookup_empty. by destruct q.
  - intros k q Hne. destruct Hne. unfold prio_at. cbn. rewrite lookup_empty. by destruct q.
Defined.

Lemma EnforceAllocs_never_fails_for_good :
  is_Some (EnforceAllocs example_config "eth0" example_match good_start example_bundle).
Proof.
  destruct (EnforceAllocs_succeeds example_config "eth0" example_match good_start example_bundle) as (_ & e' & He & _).
  - apply good_works.
  - apply good_works.
  - apply new_healthy.
  - exact example_keys.
  - exact example_valid.
  - exact example_limits.
  - by exists e'.
Qed.

(** After a first call; the second raises Chicago's limit and lowers the
    other. *)
Definition example_running : @LinuxHostEnforcer good_tc unit :=
  default good_start (EnforceAllocs example_config "eth0" example_match good_start example_bundle).

Lemma example_runs : EnforceAllocs example_config "eth0" example_match good_start example_bundle = Some example_running.
Proof.
  unfold example_running. destruct EnforceAllocs_never_fails_for_good as [e ->]. reflexivity.
Qed.

Definition example_second : AllocBundle := allocs [to_dc "chicago" 0 80; to_dc "minneapolis" 60 0].

Definition example_stage1 : stage1_state :=
  default (mkStage1 ∅ 0 [] []) (stage1 example_config example_match example_running example_second).

Lemma example_stage1_lines : st_lines example_stage1 = [ClassChange "1:2" (mbit 80)].
Proof. vm_compute. reflexivity. Qed.

Lemma example_second_agent_bundle : agent_bundle example_second.
Proof. check_agent_bundle. Qed.

Lemma example_stage1_runs : stage1 example_config example_match example_running example_second = Some example_stage1.
Proof.
  unfold example_stage1.
  destruct (stage1_total example_config example_match example_running example_second) as [s ->]; [|reflexivity].
  apply agent_valid, example_second_agent_bundle.
Qed.

Lemma EnforceAllocs_raises_then_lowers_witness :
  exists a q, a ∈ flow_allocs example_second /\
    "1:2" = class_id (prio_at (sys_info_ example_running) (flow_sys_key a) q) /\
    mbit 80 = class_rate example_config (new_limit example_config q a) /\
    class_rate example_config (cur_rate_limit_bps (prio_at (sys_info_ example_running) (flow_sys_key a) q)) <= mbit 80.
Proof.
  destruct (EnforceAllocs_raises_then_lowers example_config example_match example_running example_second example_stage1
    (fun _ => true)) as [H _].
  - apply (EnforceAllocs_classes_ok example_config "eth0" example_match good_start example_bundle);
      [apply classes_ok_empty|exact example_runs].
  - apply agent_keys, example_second_agent_bundle.
  - exact example_stage1_runs.
  - apply H. rewrite example_stage1_lines. left.
Defined.

(** *** A class that tc failed to create *)

(** The first call fails to create Chicago's class. *)
Definition failed_once : @LinuxHostEnforcer flaky_tc unit :=
  default (flaky_start []) (EnforceAllocs example_config "eth0" example_match (flaky_start [false]) (allocs [to_dc "chicago" 0 50])).

Definition chicago_key : FlowMarker := flow_sys_key (to_dc "chicago" 0 50).

Definition ten_more : list enforcer_op :=
  replicate 10 (OpEnforce example_match (allocs [to_dc "chicago" 0 50])).

Definition after_ten : @LinuxHostEnforcer flaky_tc unit :=
  default (flaky_start []) (run_ops example_config "eth0" failed_once ten_more).

Lemma EnforceAllocs_failed_class_stays_witness :
  did_create_class (prio_at (sys_info_ after_ten) chicago_key LOPRI) = false /\
  cur_rate_limit_bps (prio_at (sys_info_ after_ten) chicago_key LOPRI) = mbit 50.
Proof.
  apply (EnforceAllocs_failed_class_stays example_config "eth0" failed_once chicago_key LOPRI (mbit 50) ten_more).
  - apply (EnforceAllocs_classes_ok example_config "eth0" example_match (flaky_start [false]) (allocs [to_dc "chicago" 0 50]));
      [apply classes_ok_empty|]. apply returned_default. vm_compute. reflexivity.
  - split; [vm_compute; discriminate|]. split; [vm_compute; reflexivity|]. split; vm_compute; reflexivity.
  - unfold ten_more. apply Forall_replicate. split; [apply NoDup_singleton|].
    exists (to_dc "chicago" 0 50). split; [apply list_elem_of_singleton; reflexivity|]. split; reflexivity.
  - apply returned_default. vm_compute. reflexivity.
Defined.

(** *** The rate of a class that matches nothing when its limit changes

    The flow goes from high priority to low and back, now with no admission:
    the class of the high priority keeps its old rate instead of the smallest
    one. *)
Definition switched : @LinuxHostEnforcer good_tc unit :=
  default good_start (run_allocs good_start [[to_dc "chicago" 100 0]; [to_dc "chicago" 0 50]; [to_dc "chicago" 0 0]]).

Lemma unmatched_class_keeps_rate :
  let p := prio_at (sys_info_ switched) chicago_key HIPRI in
  matched p <> [] /\ cur_rate_limit_bps p = 0 /\ update_after_ipt_change p = false /\
  tc_rates (tc_caller_ switched) !! class_id p = Some "100.000000mbit" /\
  rate_text (class_rate example_config (cur_rate_limit_bps p)) = "5.000000mbit".
Proof.
  split; [vm_compute; discriminate|]. split; [vm_compute; reflexivity|]. split; [vm_compute; reflexivity|].
  split; vm_compute; reflexivity.
Qed.

(** *** Setting up the simulated network *)

Definition example_configs : list FlowNetemConfig :=
  AllNetemConfigs example_mapper (new_SimulatedWanDB [mkPair "chicago" "minneapolis" (Some (delay 20)) None] example_mapper)
    "chicago" 7.

Lemma InitSimulatedWan_sets_up_witness :
  exists e', InitSimulatedWan example_config "eth0" good_start example_configs = Some (e', InitOk) /\
    map (fun s => (s_dst_addr s, s_class_id s, s_dscp s)) (ipt_snapshot_ e') = [("10.0.0.2", "1:2", "AF21")].
Proof.
  destruct (InitSimulatedWan_sets_up example_config "eth0" good_start example_configs) as (e' & He & _).
  - apply good_works.
  - apply good_works.
  - apply new_healthy.
  - split; [vm_compute; apply NoDup_singleton|]. intros c Hc. split; [apply lookup_empty|].
    assert (Hv : forallb (fun c => valid_flows (matched_flows c)) example_configs = true) by (vm_compute; reflexivity).
    rewrite forallb_forall in Hv. by apply Hv, list_elem_of_In.
  - exists e'. split; [exact He|].
    assert (Hs : map (fun s => (s_dst_addr s, s_class_id s, s_dscp s))
      (from_option (fun r => ipt_snapshot_ r.1) [] (InitSimulatedWan example_config "eth0" good_start example_configs)) =
      [("10.0.0.2", "1:2", "AF21")]) by (vm_compute; reflexivity).
    by rewrite He in Hs.
Defined.

(** The flow exists, so [InitSimulatedWan] means to report an error; but its
    second stage runs for the flow as well, and finds no class. *)
Lemma InitSimulatedWan_existing_flow_fails :
  let e := default good_start (EnforceAllocs example_config "eth0" (fun _ => Some (mkMatchedHostFlows [] []))
             good_start (allocs [mkFlowAlloc (netem_flow "chicago" 7 "minneapolis") 0 0])) in
  InitSimulatedWan example_config "eth0" e example_configs = None.
Proof. vm_compute. reflexivity. Qed.

Definition example_chicago : FlowSys := default new_FlowSys (sys_info_ example_running !! chicago_key).

Lemma Enforcer_classes_unique_witness :
  sys_info_ example_running !! chicago_key = Some example_chicago /\
  (class_id (prio LOPRI example_chicago) = "" /\ did_create_class (prio LOPRI example_chicago) = false \/
   exists n, class_id (prio LOPRI example_chicago) = class_name n /\ 2 <= n < next_class_id_ example_running).
Proof.
  assert (Hsys : sys_info_ example_running !! chicago_key = Some example_chicago)
    by (apply returned_default; vm_compute; reflexivity).
  assert (Hreach : enforcer_reachable example_config "eth0" (∅ : good_tc) tt example_running).
  { eapply rtc_l; [|apply rtc_refl]. apply (do_op _ _ _ (OpEnforce example_match example_bundle)); [exact Logic.I|].
    exact example_runs. }
  split; [exact Hsys|].
  destruct (Enforcer_classes_unique example_config "eth0" (∅ : good_tc) tt example_running Hreach chicago_key LOPRI
    example_chicago Hsys) as [H _]. exact H.
Defined.

(** *** A flow whose new class could not be created

    The log says that its iptables configuration will not change; but only
    what is staged stays, so its rules are removed. *)
Lemma failed_class_loses_rules :
  let settings rounds := map (fun s => (s_dst_addr s, s_dscp s))
    (from_option ipt_snapshot_ [] (run_allocs (flaky_start [true; false]) rounds)) in
  settings [[to_dc "minneapolis" 100 0]] = [("10.0.0.2", "AF21")] /\
  settings [[to_dc "minneapolis" 100 0]; [to_dc "minneapolis" 0 50]] = [].
Proof. split; vm_compute; reflexivity. Qed.
