(* ===== verification/Daemon.v ===== *)
(** * Daemon: the loops of the host agent

    src/heyp/host-agent/daemon.{h,cc}: [HostDaemon] collects the connections
    of the host, aggregates them by pair of data centers, sends the
    aggregates to the cluster agent and enforces the allocations it gets back.
    The provider and reporter of connections ([FlowStates]), the map of
    bundlers and the enforcer ([HostEnforcer]) are used through their
    interfaces.  One round of a loop is one step and the rounds of the loops
    interleave in any order; that a flow is reported as read or written
    through [AgentChannel] is the argument of a round.  Waiting between rounds
    and logging are left out, except that the log of the aggregates makes a
    pass over the aggregator. *)

From S2P Require Import Prelude Doubles FlowMarker Clock ParMap FlowState Aggregator Wan.

(** ** Interfaces *)

(** [FlowStateReporter] and [FlowStateProvider], which in the agent are two
    views of the same tracker: a report of the connections of the host, the
    report of finished connections that runs on its own, and the pass over
    the active flows.  [I] and [J] are what the ss commands of the two print;
    [None] is a failed check, the boolean of a report the status. *)
Class FlowStates (P I J T : Type) := {
  fs_ReportState : P -> (FlowMarker -> bool) -> I -> option (P * bool);
  fs_MonitorDone : P -> J -> option P;
  fs_ForEachActiveFlow : P -> list (T * FlowInfo) }.

(** What the daemon relies on: every flow ever reported is known by its
    sequence number, its addresses and ports are set, and its counters do not
    go back. *)
Definition connection_marker (m : FlowMarker) : Prop :=
  host_id m <> 0 /\ src_addr m <> "" /\ dst_addr m <> "" /\ protocol m <> UNSET /\
  src_port m <> 0 /\ dst_port m <> 0 /\ seqnum m <> 0.

Definition counts_less (fi fi' : FlowInfo) : Prop :=
  cum_hipri_usage_bytes fi <= cum_hipri_usage_bytes fi' /\
  cum_lopri_usage_bytes fi <= cum_lopri_usage_bytes fi'.

Definition infos_grow (l l' : list FlowInfo) : Prop :=
  forall fi, fi ∈ l -> exists fi', fi' ∈ l' /\ flow fi' = flow fi /\ counts_less fi fi'.

Class FlowStatesLaws (P I J T : Type) `{FlowStates P I J T} := {
  fs_ok : P -> Prop;
  fs_valid : P -> I -> Prop;
  fs_valid_done : P -> J -> Prop;
  fs_infos : P -> list FlowInfo;
  fs_marker p fi : fs_ok p -> fi ∈ fs_infos p -> connection_marker (flow fi);
  fs_counters p fi : fs_ok p -> fi ∈ fs_infos p ->
    0 <= cum_hipri_usage_bytes fi /\ 0 <= cum_lopri_usage_bytes fi;
  fs_unique p fi fi' : fs_ok p -> fi ∈ fs_infos p -> fi' ∈ fs_infos p ->
    seqnum (flow fi) = seqnum (flow fi') -> fi = fi';
  fs_active p t fi : fs_ok p -> (t, fi) ∈ fs_ForEachActiveFlow p -> fi ∈ fs_infos p;
  fs_ReportState_ok p is_lopri i : fs_ok p -> fs_valid p i ->
    exists p' ok, fs_ReportState p is_lopri i = Some (p', ok) /\ fs_ok p' /\
      infos_grow (fs_infos p) (fs_infos p');
  fs_MonitorDone_ok p i : fs_ok p -> fs_valid_done p i ->
    exists p', fs_MonitorDone p i = Some p' /\ fs_ok p' /\ infos_grow (fs_infos p) (fs_infos p') }.

(** [HostEnforcer] (src/heyp/host-agent/enforcer.h); [LogState] only writes
    logs.  [None] is a failed check. *)
Class HostEnforcer (E : Type) := {
  he_EnforceAllocs : E -> AllocBundle -> option E;
  he_IsLopri : E -> FlowMarker -> bool }.

Class HostEnforcerLaws (E : Type) `{HostEnforcer E} := {
  he_ok : E -> Prop;
  he_valid : E -> AllocBundle -> Prop;
  he_EnforceAllocs_ok e b : he_ok e -> he_valid e b ->
    exists e', he_EnforceAllocs e b = Some e' /\ he_ok e' }.

(** [NopHostEnforcer] of src/heyp/host-agent/enforcer.cc. *)
#[export] Instance NopHostEnforcer : HostEnforcer unit :=
  {| he_EnforceAllocs e _ := Some e; he_IsLopri _ _ := false |}.

#[export, refine] Instance NopHostEnforcer_laws : HostEnforcerLaws unit :=
  {| he_ok _ := True; he_valid _ _ := True |}.
Proof. intros e b _ _. by exists e. Defined.

(** ** The daemon *)

Definition set_src_dc (m : FlowMarker) (d : string) : FlowMarker :=
  mkFlowMarker d (dst_dc m) (job m) (host_id m) (src_addr m) (dst_addr m) (protocol m) (src_port m)
    (dst_port m) (seqnum m).
Definition set_dst_dc (m : FlowMarker) (d : string) : FlowMarker :=
  mkFlowMarker (src_dc m) d (job m) (host_id m) (src_addr m) (dst_addr m) (protocol m) (src_port m)
    (dst_port m) (seqnum m).
Definition set_job (m : FlowMarker) (j : string) : FlowMarker :=
  mkFlowMarker (src_dc m) (dst_dc m) j (host_id m) (src_addr m) (dst_addr m) (protocol m) (src_port m)
    (dst_port m) (seqnum m).
Definition set_flow (m : FlowMarker) (fi : FlowInfo) : FlowInfo :=
  mkFlowInfo m (predicted_demand_bps fi) (ewma_usage_bps fi) (ewma_hipri_usage_bps fi)
    (ewma_lopri_usage_bps fi) (cum_usage_bytes fi) (cum_hipri_usage_bytes fi) (cum_lopri_usage_bytes fi)
    (currently_lopri fi) (aux fi).

(** The marker written to [out], and whether both ends are known. *)
Definition WithDCsAndJob (marker : FlowMarker) (dc_mapper : StaticDCMapper) (job_name : string)
    : FlowMarker * bool :=
  let src := HostDC dc_mapper (src_addr marker) in
  let dst := HostDC dc_mapper (dst_addr marker) in
  let marker := match src with Some d => set_src_dc marker d | None => marker end in
  let marker := match dst with Some d => set_dst_dc marker d | None => marker end in
  (set_job marker job_name, bool_decide (is_Some src) && bool_decide (is_Some dst)).

Section HostDaemon.
Context `{Clock} {P I J E M : Type}.
Context `{!FlowStates P I J Time, !HostEnforcer E, !IndexedMap FlowMarker BundleState M}.
Context (job_name : string) (my_host_id : Z) (dc_mapper_ : StaticDCMapper).
Context (agg_config : FlowAggregator_Config) (agg_predictor : DemandPredictor).

Record HostDaemon := mkHostDaemon {
  flow_state_ : P;
  socket_to_host_aggregator_ : FlowAggregator (M := M);
  enforcer_ : E }.

Definition bundler_of_host : FlowMarker := mkFlowMarker "" "" "" my_host_id "" "" UNSET 0 0 0.

(** Step 2 of [CollectStats]. *)
Definition annotate (fi : FlowInfo) : option FlowInfo :=
  let '(m, ok) := WithDCsAndJob (flow fi) dc_mapper_ job_name in
  if ok then Some (set_flow m fi) else None.

Definition collect_bundle (now : Time) (p : P) : InfoBundle :=
  mkInfoBundle bundler_of_host now 0 (omap (fun '(_, fi) => annotate fi) (fs_ForEachActiveFlow p)).

(** A bundle of the aggregates. *)
Definition agg_bundle (now : Time) (calls : list (Time * AggInfo)) : InfoBundle :=
  mkInfoBundle bundler_of_host now 0 (map (fun '(_, info) => parent info) calls).

(** The bundler of the first round of the loop must be number 0. *)
Definition ensure_bundler (created_bundler_id : bool) (fa : FlowAggregator (M := M))
    : option (FlowAggregator (M := M)) :=
  if created_bundler_id then Some fa
  else '(fa, id) ← GetBundlerID fa bundler_of_host; if id =? 0 then Some fa else None.

(** One round of [CollectStats]; [created_bundler_id] is its local variable,
    and [log_aggs] whether the aggregates are logged. *)
Definition CollectStats_round (log_aggs created_bundler_id : bool) (i : I) (now : Time) (d : HostDaemon)
    : option (HostDaemon * bool) :=
  '(p, ok) ← fs_ReportState (flow_state_ d) (he_IsLopri (enforcer_ d)) i;
  if negb ok then Some (mkHostDaemon p (socket_to_host_aggregator_ d) (enforcer_ d), created_bundler_id)
  else
    fa ← ensure_bundler created_bundler_id (socket_to_host_aggregator_ d);
    fa ← Update agg_config fa 0 (collect_bundle now p);
    fa ← (if log_aggs then '(fa, _) ← ForEachAgg agg_config agg_predictor fa; Some fa else Some fa);
    Some (mkHostDaemon p fa (enforcer_ d), true).

(** One round of [SendInfos]: the bundle that is written to the channel. *)
Definition SendInfos_round (now : Time) (d : HostDaemon) : option (HostDaemon * InfoBundle) :=
  '(fa, calls) ← ForEachAgg agg_config agg_predictor (socket_to_host_aggregator_ d);
  Some (mkHostDaemon (flow_state_ d) fa (enforcer_ d), agg_bundle now calls).

(** One round of [EnforceAllocs]; [None] is a read that failed. *)
Definition EnforceAllocs_round (read : option AllocBundle) (d : HostDaemon) : option HostDaemon :=
  match read with
  | None => Some d
  | Some bundle =>
      e ← he_EnforceAllocs (enforcer_ d) bundle;
      Some (mkHostDaemon (flow_state_ d) (socket_to_host_aggregator_ d) e)
  end.

(** ** The rounds of all loops *)

Record running := mkRunning {
  daemon : HostDaemon;
  created_bundler_id : bool;
  sent : list InfoBundle }.

Inductive round :=
  | Collect (log_aggs : bool) (i : I) (now : Time)
  | Send (now : Time)
  | Enforce (read : option AllocBundle)
  | FlowsDone (i : J).

Definition do_round (r : round) (s : running) : option running :=
  match r with
  | Collect log_aggs i now =>
      '(d, created) ← CollectStats_round log_aggs (created_bundler_id s) i now (daemon s);
      Some (mkRunning d created (sent s))
  | Send now =>
      '(d, b) ← SendInfos_round now (daemon s);
      Some (mkRunning d (created_bundler_id s) (sent s ++ [b]))
  | Enforce read =>
      d ← EnforceAllocs_round read (daemon s);
      Some (mkRunning d (created_bundler_id s) (sent s))
  | FlowsDone i =>
      p ← fs_MonitorDone (flow_state_ (daemon s)) i;
      Some (mkRunning (mkHostDaemon p (socket_to_host_aggregator_ (daemon s)) (enforcer_ (daemon s)))
              (created_bundler_id s) (sent s))
  end.

(** [Run]: one round of [CollectStats], and then the threads. *)
Definition Run (p : P) (e : E) (i : I) (now : Time) : option running :=
  '(d, _) ← CollectStats_round false false i now (mkHostDaemon p new_FlowAggregator e);
  Some (mkRunning d false []).
End HostDaemon.

(** ** No check of the daemon fails *)

Section DaemonSpec.
Context `{ClockLaws} {P I J E M : Type}.
Context `{!FlowStates P I J Time, !FlowStatesLaws P I J Time, !HostEnforcer E, !HostEnforcerLaws E}.
Context `{!IndexedMap FlowMarker BundleState M} {limit : Z}
  `{!IndexedMapLaws FlowMarker BundleState M new_BundleState limit}.
Context (job_name : string) (my_host_id : Z) (dc_mapper_ : StaticDCMapper) (window : Duration).
Context (agg_predictor : DemandPredictor).

Notation annotate := (annotate job_name dc_mapper_).
Notation config := (NewConnToHostAggregator window).
Notation collect_bundle := (collect_bundle (P := P) (I := I) (J := J) job_name my_host_id dc_mapper_).
Notation do_round := (do_round (P := P) (I := I) (J := J) (E := E) (M := M) job_name my_host_id dc_mapper_ config agg_predictor).
Notation aggs s := (socket_to_host_aggregator_ (daemon s)).

(** What the configuration must give: a job, and names for the data centers. *)
Record config_ok : Prop := {
  cf_job : job_name <> "";
  cf_dcs : forall addr dc, HostDC dc_mapper_ addr = Some dc -> dc <> "";
  cf_window : dur_leb ZeroDuration window = true;
  cf_limit : 0 < limit }.

Context (Hcfg : config_ok).

Lemma annotate_Some fi fi' :
  annotate fi = Some fi' <->
  exists s d, HostDC dc_mapper_ (src_addr (flow fi)) = Some s /\
    HostDC dc_mapper_ (dst_addr (flow fi)) = Some d /\
    fi' = set_flow (set_job (set_dst_dc (set_src_dc (flow fi) s) d) job_name) fi.
Proof.
  unfold Daemon.annotate, WithDCsAndJob. split.
  - destruct (HostDC _ (src_addr _)) as [s|], (HostDC _ (dst_addr _)) as [d|]; cbn; intros [= <-].
    by exists s, d.
  - intros (s & d & -> & -> & ->). done.
Qed.

(** An annotated flow is a valid child of the aggregator. *)
Lemma annotate_valid fi fi' :
  connection_marker (flow fi) -> annotate fi = Some fi' -> child_is_valid config fi' = true.
Proof.
  intros (Hh & Hs & Hd & Hp & Hsp & Hdp & Hn) (s & d & Es & Ed & ->)%annotate_Some.
  pose proof (cf_dcs Hcfg _ _ Es). pose proof (cf_dcs Hcfg _ _ Ed). pose proof (cf_job Hcfg).
  unfold child_is_valid. cbn [is_valid_child NewConnToHostAggregator flow set_flow].
  unfold ExpectedFieldsAreSet, NONEMPTY, NONZERO, NONUNSET. cbn.
  repeat (rewrite bool_decide_eq_false_2 by done). repeat (rewrite (proj2 (Z.eqb_neq _ _)) by done). done.
Qed.

Lemma collected_flow now p fi' : fs_ok p -> fi' ∈ flow_infos (collect_bundle now p) ->
  exists fi, fi ∈ fs_infos p /\ annotate fi = Some fi'.
Proof.
  intros Hp Hin. cbn in Hin. apply list_elem_of_omap in Hin as ([t fi] & Hin & Ea).
  exists fi. split; [by eapply fs_active|done].
Qed.

(** A flow the aggregator knows of is one of the provider's, as it was. *)
Definition known_to (p : P) (m : FlowMarker) (old : FlowInfo) : Prop :=
  exists fi fi', fi ∈ fs_infos p /\ annotate fi = Some fi' /\ flow fi' = m /\ counts_less old fi'.

Definition stored_ok (p : P) (bs : BundleState) : Prop :=
  forall m e, (active bs ∪ dead bs) !! m = Some e -> known_to p m (snd e).

Lemma known_to_mono p p' m old : infos_grow (fs_infos p) (fs_infos p') -> known_to p m old -> known_to p' m old.
Proof.
  intros Hg (fi & fi' & Hin & (s & d & Es & Ed & ->)%annotate_Some & <- & Hle).
  destruct (Hg fi Hin) as (fi1 & Hin1 & Hfl & Hle1).
  exists fi1, (set_flow (set_job (set_dst_dc (set_src_dc (flow fi1) s) d) job_name) fi1).
  split_and!; [done|apply annotate_Some; exists s, d; by rewrite Hfl|by rewrite Hfl|].
  destruct Hle, Hle1. cbn in *. split; cbn; lia.
Qed.

Lemma collect_monotone now p bs : fs_ok p -> time_ltb now InfiniteFuture = true -> stored_ok p bs ->
  bundle_monotone bs (collect_bundle now p).
Proof.
  intros Hp Hnow Hst. split; [done| |].
  - intros fi' Hin. destruct (collected_flow now p fi' Hp Hin) as (fi & Hfi & (s & d & _ & _ & ->)%annotate_Some).
    by apply (fs_counters p fi).
  - intros fi' e Hin He. destruct (collected_flow now p fi' Hp Hin) as (fi & Hfi & Ha).
    destruct (Hst _ _ He) as (fi1 & fi1' & Hfi1 & Ha1 & Hfl & Hle).
    assert (fi1 = fi) as ->; [|by simplify_eq].
    apply (fs_unique p); try done. apply annotate_Some in Ha as (? & ? & _ & _ & ->).
    apply annotate_Some in Ha1 as (? & ? & _ & _ & ->). by apply (f_equal seqnum) in Hfl.
Qed.

Lemma stored_after now p bs bs' : fs_ok p -> stored_ok p bs ->
  (forall m, (active bs' !! m, dead bs' !! m) = flow_after config (collect_bundle now p) bs m) ->
  stored_ok p bs'.
Proof.
  intros Hp Hst Hall m e He. specialize (Hall m). rewrite pair_lookup_union in He.
  assert (Hold : forall e', (active bs ∪ dead bs) !! m = Some e' -> snd e = snd e' -> known_to p m (snd e))
    by (intros e' He' ->; by apply Hst).
  unfold flow_after in Hall. rewrite pair_lookup_union in Hold.
  destruct (last_report m _) as [fi'|] eqn:El.
  { injection Hall as Ea Ed. rewrite Ea in He. injection He as <-.
    destruct (last_report_elem _ _ _ El) as [Hin Hm].
    destruct (collected_flow now p fi' Hp Hin) as (fi & Hfi & Ha). by exists fi, fi'. }
  destruct (active bs !! m) as [e0|] eqn:Ea0; [destruct (expired _ _ _)|];
    injection Hall as Ea Ed; rewrite Ea, ?Ed in He; simplify_eq; by eapply Hold.
Qed.

(** The aggregator has the host as its only bundler, once there is one. *)
Inductive bundler_ok (p : P) (fa : FlowAggregator (M := M)) : bool -> Prop :=
  | no_bundler : im_ids (bundle_states_ fa) = ∅ -> bundles fa = [] -> bundler_ok p fa false
  | one_bundler created bs :
      im_ids (bundle_states_ fa) !! bundler_of_host my_host_id = Some 0 -> bundles fa = [bs] ->
      stored_ok p bs -> bundler_ok p fa created.

Record daemon_ok (s : running (P := P) (E := E) (M := M)) : Prop := {
  do_flows : fs_ok (flow_state_ (daemon s));
  do_enforcer : he_ok (enforcer_ (daemon s));
  do_aggs : agg_inv config (aggs s);
  do_bundler : bundler_ok (flow_state_ (daemon s)) (aggs s) (created_bundler_id s) }.

Lemma bundler_ok_mono p p' fa created :
  infos_grow (fs_infos p) (fs_infos p') -> bundler_ok p fa created -> bundler_ok p' fa created.
Proof.
  intros Hg [? ?|c bs Hid Hb Hst]; [by constructor|]. econstructor; [done|done|].
  intros m e He. eapply known_to_mono; [exact Hg|]. by apply Hst.
Qed.

Lemma ensure_bundler_ok p fa created :
  agg_inv config fa -> bundler_ok p fa created ->
  exists fa' bs, ensure_bundler my_host_id created fa = Some fa' /\ agg_inv config fa' /\
    im_ids (bundle_states_ fa') !! bundler_of_host my_host_id = Some 0 /\
    bundles fa' = [bs] /\ stored_ok p bs.
Proof.
  intros Hinv Hb. destruct Hb as [Hid Hb|created bs Hid Hb Hst]; unfold ensure_bundler.
  - pose proof (im_num _ (ai_map _ _ Hinv)) as Hn. unfold bundles in Hb. rewrite Hb in Hn. cbn in Hn.
    assert (Hnone : im_ids (bundle_states_ fa) !! bundler_of_host my_host_id = None) by
      by rewrite Hid, lookup_empty.
    assert (Hlt : im_NumIDs (bundle_states_ fa) < limit) by (rewrite Hn; apply cf_limit, Hcfg).
    destruct (GetBundlerID_inv config fa _ Hinv Hnone Hlt) as (fa' & Hget & Hinv' & Hb').
    rewrite Hget. cbn [mbind option_bind]. rewrite Hn. cbn. exists fa', new_BundleState.
    unfold bundles in Hb'. rewrite Hb in Hb'. split_and!; try done.
    unfold GetBundlerID in Hget.
    destruct (im_GetID_new _ _ (ai_map _ _ Hinv) Hnone Hlt) as (m' & Em & _ & _ & Hids).
    rewrite Em in Hget. cbn in Hget. injection Hget as <-. cbn. rewrite Hids, Hn. apply lookup_insert_eq.
  - exists fa, bs. destruct created; [done|]. unfold GetBundlerID.
    rewrite (im_GetID_old _ _ 0 (ai_map _ _ Hinv) Hid). cbn. by destruct fa.
Qed.

(** The update of the round: the aggregator holds what the provider knows. *)
Lemma collect_update now p fa bs :
  fs_ok p -> time_ltb now InfiniteFuture = true -> agg_inv config fa ->
  im_ids (bundle_states_ fa) !! bundler_of_host my_host_id = Some 0 ->
  bundles fa = [bs] -> stored_ok p bs ->
  exists fa' bs', Update config fa 0 (collect_bundle now p) = Some fa' /\ agg_inv config fa' /\
    bundler_ok p fa' true /\ bundles fa' = [bs'] /\
    (forall m, (active bs' !! m, dead bs' !! m) = flow_after config (collect_bundle now p) bs m).
Proof.
  intros Hp Hnow Hinv Hid Hb Hst.
  assert (Hbs : bundles fa !! Z.to_nat 0 = Some bs) by by rewrite Hb.
  assert (Hv : forallb (child_is_valid config) (flow_infos (collect_bundle now p)) = true).
  { apply forallb_forall. intros fi' Hin%list_elem_of_In.
    destruct (collected_flow now p fi' Hp Hin) as (fi & Hfi & Ha).
    eapply annotate_valid; [by apply (fs_marker p)|exact Ha]. }
  destruct (Update_inv config fa 0 bs (collect_bundle now p) Hinv (cf_window Hcfg) ltac:(lia) Hbs Hv)
    as (fa' & bs' & Hu & Hinv' & _ & Hb' & Hall); [by apply collect_monotone|].
  exists fa', bs'. rewrite Hb in Hb'. split_and!; try done.
  apply one_bundler with bs'; [|done|by eapply stored_after].
  unfold Update in Hu. pose proof (im_OnID_spec _ 0 bs (update_bundle config (collect_bundle now p))
    (ai_map _ _ Hinv) ltac:(lia) Hbs) as Hon.
  destruct (update_bundle _ _ _) as [bs1|]; [|by rewrite Hon in Hu].
  destruct Hon as (m' & Hon & _ & _ & Hids). rewrite Hon in Hu. cbn in Hu. injection Hu as <-.
  cbn. by rewrite Hids.
Qed.

(** What a round must be given: reports of valid lines at a finite time,
    allocations the enforcer can take, and, for a pass over the aggregates,
    byte totals below 2^63. *)
Definition valid_round (s : running) (r : round) : Prop :=
  match r with
  | Collect log_aggs i now =>
      fs_valid (flow_state_ (daemon s)) i /\ time_ltb now InfiniteFuture = true /\
      (log_aggs = true -> forall s', do_round (Collect false i now) s = Some s' ->
         small_totals config (bundles (aggs s')))
  | Send _ => small_totals config (bundles (aggs s))
  | Enforce read => forall b, read = Some b -> he_valid (enforcer_ (daemon s)) b
  | FlowsDone i => fs_valid_done (flow_state_ (daemon s)) i
  end.

(** A round of [CollectStats] without its log. *)
Lemma collect_ok i now s :
  daemon_ok s -> fs_valid (flow_state_ (daemon s)) i -> time_ltb now InfiniteFuture = true ->
  exists s', do_round (Collect false i now) s = Some s' /\ daemon_ok s' /\
    exists p' ok, fs_ReportState (flow_state_ (daemon s)) (he_IsLopri (enforcer_ (daemon s))) i = Some (p', ok) /\
      flow_state_ (daemon s') = p' /\
      if ok then exists bs bs', bundles (aggs s') = [bs'] /\
        (forall m, (active bs' !! m, dead bs' !! m) = flow_after config (collect_bundle now p') bs m)
      else aggs s' = aggs s.
Proof.
  intros [Hf He Ha Hb] Hi Hnow.
  destruct (fs_ReportState_ok (flow_state_ (daemon s)) (he_IsLopri (enforcer_ (daemon s))) i Hf Hi)
    as (p' & ok & Hr & Hp' & Hg).
  pose proof (bundler_ok_mono _ _ _ _ Hg Hb) as Hb'. cbn [Daemon.do_round]. unfold CollectStats_round.
  rewrite Hr. cbn [mbind option_bind]. destruct ok; cbn [negb].
  - destruct (ensure_bundler_ok p' (aggs s) _ Ha Hb') as (fa & bs & -> & Hinv & Hid & Hbs & Hst).
    cbn [mbind option_bind].
    destruct (collect_update now p' fa bs Hp' Hnow Hinv Hid Hbs Hst) as (fa' & bs' & -> & Hinv' & Hbk & Hb1 & Hall).
    cbn [mbind option_bind]. eexists. split; [done|]. split; [by split|].
    exists p', true. split_and!; try done. by exists bs, bs'.
  - eexists. split; [done|]. split; [by split|]. by exists p', false.
Qed.

(** A pass over the aggregates changes no bundle. *)
Lemma pass_ok p fa created :
  agg_inv config fa -> bundler_ok p fa created -> small_totals config (bundles fa) ->
  exists fa' calls, ForEachAgg config agg_predictor fa = Some (fa', calls) /\ agg_inv config fa' /\
    bundler_ok p fa' created /\
    Forall2 (agg_reported config (bundles fa) (agg_states_ fa))
      (map fst (map_to_list (agg_wips config (bundles fa)))) calls.
Proof.
  intros Hinv Hb Hs. destruct (ForEachAgg_inv config agg_predictor fa Hinv Hs) as (fa' & calls & Hf & Hinv' & Eb & Hr).
  exists fa', calls. split_and!; try done. unfold bundles in *.
  destruct Hb as [Hid Hc|c bs Hid Hc Hst]; [constructor 1|econstructor 2]; unfold bundles; rewrite ?Eb; done.
Qed.

(** The log of the aggregates is one more pass. *)
Lemma logged_round created i now (d : HostDaemon) :
  CollectStats_round (J := J) job_name my_host_id dc_mapper_ config agg_predictor true created i now d =
  '(p, ok) ← fs_ReportState (flow_state_ d) (he_IsLopri (enforcer_ d)) i;
  '(d, created) ← CollectStats_round (J := J) job_name my_host_id dc_mapper_ config agg_predictor false created i now d;
  if negb ok then Some (d, created)
  else '(fa, _) ← ForEachAgg config agg_predictor (socket_to_host_aggregator_ d);
       Some (mkHostDaemon (flow_state_ d) fa (enforcer_ d), created).
Proof.
  unfold CollectStats_round. destruct (fs_ReportState _ _ _) as [[p []]|]; cbn [mbind option_bind negb]; try done.
  destruct (ensure_bundler _ _ _) as [fa|]; cbn [mbind option_bind]; [|done].
  destruct (Update _ _ _ _) as [fa'|]; cbn [mbind option_bind socket_to_host_aggregator_]; [|done].
  by destruct (ForEachAgg _ _ _) as [[]|].
Qed.

Lemma do_round_ok s r : daemon_ok s -> valid_round s r ->
  exists s', do_round r s = Some s' /\ daemon_ok s'.
Proof.
  intros Hok Hv. destruct r as [log_aggs i now|now|read|i]; cbn [valid_round] in Hv.
  - destruct Hv as (Hi & Hnow & Hsmall).
    destruct (collect_ok i now s Hok Hi Hnow) as (s1 & E1 & Hok1 & p' & ok & Hr & Hp' & Hpost).
    destruct log_aggs; [|by exists s1]. specialize (Hsmall eq_refl s1 E1).
    cbn [Daemon.do_round] in *. rewrite logged_round, Hr. cbn [mbind option_bind].
    destruct (CollectStats_round _ _ _ _ _ false _ _ _ _) as [[d created]|]; [|done].
    cbn [mbind option_bind] in *. injection E1 as <-. destruct ok; cbn [negb]; [|by eexists].
    destruct (pass_ok _ _ _ (do_aggs _ Hok1) (do_bundler _ Hok1) Hsmall) as (fa & calls & Hf & Hinv & Hb & _).
    cbn [daemon] in Hf. rewrite Hf. cbn [mbind option_bind]. eexists. split; [done|]. by destruct Hok1.
  - destruct Hok as [Hf He Ha Hb]. destruct (pass_ok _ _ _ Ha Hb Hv) as (fa & calls & Hfe & Hinv & Hb' & _).
    cbn [Daemon.do_round]. unfold SendInfos_round. rewrite Hfe. cbn [mbind option_bind]. eexists. by split.
  - destruct Hok as [Hf He Ha Hb]. cbn [Daemon.do_round]. destruct read as [b|]; cbn [EnforceAllocs_round].
    + destruct (he_EnforceAllocs_ok _ b He (Hv b eq_refl)) as (e & -> & He'). cbn. eexists. by split.
    + cbn [mbind option_bind]. eexists. split; [done|]. by split.
  - destruct Hok as [Hf He Ha Hb]. destruct (fs_MonitorDone_ok _ i Hf Hv) as (p' & Hm & Hp' & Hg).
    cbn [Daemon.do_round]. rewrite Hm. cbn [mbind option_bind]. eexists. split; [done|].
    split; cbn; try done. by eapply bundler_ok_mono.
Qed.

Notation Run := (Run (P := P) (I := I) (J := J) (E := E) (M := M) job_name my_host_id dc_mapper_ config agg_predictor).

Lemma Run_ok p e i now : fs_ok p -> he_ok e -> fs_valid p i -> time_ltb now InfiniteFuture = true ->
  exists s, Run p e i now = Some s /\ daemon_ok s.
Proof.
  intros Hp He Hi Hnow. unfold Daemon.Run.
  assert (Hok : daemon_ok (mkRunning (mkHostDaemon p new_FlowAggregator e) false [])).
  { split; cbn; try done; [apply new_FlowAggregator_inv|]. destruct im_new_ok as (_ & Hc & Hid).
    by constructor. }
  destruct (collect_ok i now _ Hok Hi Hnow) as (s & E1 & [Hf He' Ha Hb] & _). cbn in E1.
  destruct (CollectStats_round _ _ _ _ _ _ _ _ _ _) as [[d c]|]; [|done]. cbn in E1 |- *.
  injection E1 as <-. cbn in *. eexists. split; [done|]. split; cbn; try done.
  destruct Hb; [by constructor|by econstructor].
Qed.

(** The states of the daemon under valid rounds, in any order. *)
Inductive reachable : running (P := P) (E := E) (M := M) -> Prop :=
  | started p e i now s : fs_ok p -> he_ok e -> fs_valid p i -> time_ltb now InfiniteFuture = true ->
      Run p e i now = Some s -> reachable s
  | after_round s r s' : reachable s -> valid_round s r -> do_round r s = Some s' -> reachable s'.

Lemma running_reachable_ok s : reachable s -> daemon_ok s.
Proof.
  induction 1 as [p e i now s Hp He Hi Hnow E1|s r s' _ IH Hv E1].
  - destruct (Run_ok p e i now Hp He Hi Hnow) as (s1 & E2 & Hok). congruence.
  - destruct (do_round_ok s r IH Hv) as (s1 & E2 & Hok). congruence.
Qed.

Lemma union_is_Some (bs : BundleState) m :
  is_Some ((active bs ∪ dead bs) !! m) <-> is_Some (active bs !! m) \/ is_Some (dead bs !! m).
Proof.
  rewrite pair_lookup_union. destruct (active bs !! m), (dead bs !! m); cbn;
    split; try (intros [? [=]]); eauto; intros [[? [=]]|[? [=]]].
Qed.

Lemma elem_of_flow_events ev bs :
  ev ∈ flow_events bs <-> exists m e, ev = (true, (m, e)) /\ active bs !! m = Some e \/
    ev = (false, (m, e)) /\ dead bs !! m = Some e.
Proof.
  unfold flow_events. rewrite elem_of_app, !list_elem_of_fmap. split.
  - intros [([m e] & -> & Hin)|([m e] & -> & Hin)]; apply elem_of_map_to_list in Hin; exists m, e; auto.
  - intros (m & e & [[-> Hm]|[-> Hm]]); [left|right]; exists (m, e); (split; [done|]);
      by apply elem_of_map_to_list.
Qed.

(** The aggregates of a pass are those that have a flow. *)
Lemma agg_keys bss k :
  k ∈ map fst (map_to_list (agg_wips config bss)) <->
  exists bs m e, bs ∈ bss /\ (active bs ∪ dead bs) !! m = Some e /\ ToHostFlow m = k.
Proof.
  transitivity (agg_events config k bss <> []).
  - rewrite list_elem_of_fmap. pose proof (agg_wips_lookup config bss k) as Hl. split.
    + intros ([k' w] & -> & Hin%elem_of_map_to_list). cbn in *. rewrite Hl in Hin. by destruct (agg_events _ _ _).
    + destruct (agg_events _ _ _) as [|ev evs]; [done|]. intros _. eexists (k, _). split; [done|].
      by apply elem_of_map_to_list.
  - split.
    + intros Hne. destruct (agg_events config k bss) as [|ev evs] eqn:Eev; [done|].
      assert (Hin : ev ∈ agg_events config k bss) by (rewrite Eev; by left).
      apply list_elem_of_filter in Hin as [Hk Hin]. apply list_elem_of_In, in_concat in Hin as (l & Hl & Hin).
      apply in_map_iff in Hl as (bs & <- & Hbs). apply list_elem_of_In in Hin, Hbs.
      apply elem_of_flow_events in Hin as (m & e & Hin). destruct (proj2 (union_is_Some bs m)) as [e' He'].
      { destruct Hin as [[_ ->]|[_ ->]]; eauto. }
      exists bs, m, e'. split_and!; try done. by destruct Hin as [[-> _]|[-> _]].
    + intros (bs & m & e & Hbs & Hm & Hk) Hnil.
      destruct (proj1 (union_is_Some bs m) (ex_intro _ e Hm)) as [[e' He']|[e' He']];
        [set (ev := (true, (m, e')))|set (ev := (false, (m, e')))];
        (assert (Hin : ev ∈ agg_events config k bss); [|rewrite Hnil in Hin; by apply elem_of_nil in Hin]);
        (apply list_elem_of_filter; split; [done|]; apply list_elem_of_In, in_concat; exists (flow_events bs);
         split; [by apply in_map, list_elem_of_In|apply list_elem_of_In, elem_of_flow_events; exists m, e'; auto]).
Qed.

(** C11: from the start of the daemon on, and however the rounds of its loops, the
    reports of finished connections and the allocations interleave, when each
    is given reports that the tracker takes, bundles that the enforcer takes
    and byte totals below 2^63 ([valid_round]), no check
    of the tracker, the aggregator or the enforcer fails: the first bundler is
    number 0, every collected flow is a valid child of the aggregator, and no
    counter it is given ever goes back. *)
Theorem HostDaemon_never_fails :
  (forall p e i now, fs_ok p -> he_ok e -> fs_valid p i -> time_ltb now InfiniteFuture = true ->
     is_Some (Run p e i now)) /\
  (forall s r, reachable s -> valid_round s r -> is_Some (do_round r s)).
Proof.
  split.
  - intros p e i now Hp He Hi Hnow. destruct (Run_ok p e i now) as (s & Hs & _); by eauto.
  - intros s r Hs%running_reachable_ok Hv. destruct (do_round_ok s r Hs Hv) as (s' & E1 & _). by eauto.
Qed.

(** What a host tells the cluster agent: one aggregate for every pair of data
    centers it has a flow between, in the name of the host and with its job,
    where the flows are connections the tracker knows between hosts of known
    data centers, counted no higher than they are, and, unless the sums are
    older than what the aggregate already knows, the byte counters are the
    totals over these flows. *)
Theorem SendInfos_reports_flows s now :
  reachable s -> small_totals config (bundles (aggs s)) ->
  exists s' b keys, do_round (Send now) s = Some s' /\ sent s' = sent s ++ [b] /\
    bundler b = bundler_of_host my_host_id /\ timestamp b = now /\ NoDup keys /\
    (forall k, k ∈ keys <-> exists bs m e, bs ∈ bundles (aggs s) /\ (active bs ∪ dead bs) !! m = Some e /\
       ToHostFlow m = k) /\
    (forall bs m e, bs ∈ bundles (aggs s) -> (active bs ∪ dead bs) !! m = Some e ->
       known_to (flow_state_ (daemon s)) m (snd e) /\ job m = job_name /\
       exists a1 a2, HostDC dc_mapper_ a1 = Some (src_dc m) /\ HostDC dc_mapper_ a2 = Some (dst_dc m)) /\
    Forall2 (fun k fi => flow fi = k /\
       ((exists st, agg_states_ (aggs s) !! k = Some st /\ fi = cur_ st) \/
        (cum_hipri_usage_bytes fi = total config cum_hipri_usage_bytes k (bundles (aggs s)) /\
         cum_lopri_usage_bytes fi = total config cum_lopri_usage_bytes k (bundles (aggs s)))))
      keys (flow_infos b).
Proof.
  intros Hs%running_reachable_ok Hsmall. pose proof (do_bundler s Hs) as Hb.
  destruct (pass_ok _ _ _ (do_aggs s Hs) Hb Hsmall) as (fa & calls & Hf & _ & _ & Hrep).
  cbn [Daemon.do_round]. unfold SendInfos_round. rewrite Hf. cbn [mbind option_bind].
  eexists _, _, (map fst (map_to_list (agg_wips config (bundles (aggs s))))).
  split; [done|]. split; [done|]. split; [done|]. split; [done|].
  split; [apply NoDup_fst_map_to_list|]. split; [apply agg_keys|]. split.
  - intros bs m e Hbs He. destruct Hb as [_ Hb|c bs' _ Hb Hst]; rewrite Hb in Hbs; [by apply elem_of_nil in Hbs|].
    apply list_elem_of_singleton in Hbs as ->. pose proof (Hst m e He) as Hk. split; [done|].
    destruct Hk as (fi & fi' & _ & (s1 & d1 & Es & Ed & ->)%annotate_Some & <- & _). cbn. eauto.
  - cbn. rewrite Forall2_fmap_r. eapply Forall2_impl; [exact Hrep|]. intros k [t info] [Hk _ _ Hc]. cbn in *.
    split; [done|]. destruct Hc as [(st & Hst & _ & Ep)|Hc]; [left; by exists st|by right].
Qed.

(** After a round of [CollectStats] whose report succeeded, the aggregator has
    every active connection between known data centers, as it is now. *)
Theorem CollectStats_collects s i now :
  reachable s -> fs_valid (flow_state_ (daemon s)) i -> time_ltb now InfiniteFuture = true ->
  exists s', do_round (Collect false i now) s = Some s' /\
    forall p', fs_ReportState (flow_state_ (daemon s)) (he_IsLopri (enforcer_ (daemon s))) i = Some (p', true) ->
    exists bs, bundles (aggs s') = [bs] /\
      forall t fi fi', (t, fi) ∈ fs_ForEachActiveFlow p' -> annotate fi = Some fi' ->
        active bs !! flow fi' = Some (now, fi').
Proof.
  intros Hs%running_reachable_ok Hi Hnow. destruct (collect_ok i now s Hs Hi Hnow) as (s' & E1 & Hok' & p1 & ok & Hr & Hp1 & Hpost).
  exists s'. split; [done|]. intros p' Hr'. rewrite Hr in Hr'. injection Hr' as -> ->.
  destruct Hpost as (bs & bs' & Hb & Hall). exists bs'. split; [done|]. intros t fi fi' Hin Ha.
  assert (Hp' : fs_ok p') by (rewrite <- Hp1; apply (do_flows _ Hok')).
  assert (Hin' : fi' ∈ flow_infos (collect_bundle now p')).
  { cbn. apply list_elem_of_omap. by exists (t, fi). }
  specialize (Hall (flow fi')). unfold flow_after in Hall.
  assert (Hl : last_report (flow fi') (flow_infos (collect_bundle now p')) = Some fi').
  { destruct (last_report _ _) as [fi2|] eqn:El.
    - destruct (last_report_elem _ _ _ El) as [Hin2 Hfl].
      destruct (collected_flow now p' fi2 Hp' Hin2) as (fi0 & Hfi0 & Ha0). f_equal.
      assert (fi0 = fi) as ->; [|congruence]. apply (fs_unique p'); try done; [by eapply fs_active|].
      apply annotate_Some in Ha as (? & ? & _ & _ & ->). apply annotate_Some in Ha0 as (? & ? & _ & _ & ->).
      by apply (f_equal seqnum) in Hfl.
    - unfold last_report in El. apply last_None in El. exfalso.
      assert (Hf : fi' ∈ filter (fun fi => flow fi = flow fi') (flow_infos (collect_bundle now p')))
        by (by apply list_elem_of_filter). rewrite El in Hf. by apply elem_of_nil in Hf. }
  rewrite Hl in Hall. by injection Hall.
Qed.
End DaemonSpec.
