(* ===== verification/HostAgent.v ===== *)
(** * HostAgent: the parts of the host agent put together

    The interfaces of [Daemon] implemented: the connections by [FlowTracker]
    and its reporter, the enforcer by [Enforcer]; the configuration of the
    tracker and the aggregator in src/heyp/host-agent/host-agent.cc; and runs
    of the whole daemon. *)

From S2P Require Import Prelude Text Doubles FlowMarker Clock RateLimits ParMap Iptables IptablesTable Wan Enforcer EnforcerSpec FlowState Aggregator Daemon FlowTracker.

(** ** The tracker *)

Section Tracker.
Context `{Clock} (config_ : FlowTracker_Config) (predictor : DemandPredictor).
Context (my_addrs : list string) (parse : string -> option parsed_line).

(** [ReportState] of the reporter: [None] is an ss command that does not
    start.  The updates terminate within two rounds each. *)
Definition ReportState (t : FlowTracker) (is_lopri : FlowMarker -> bool) (i : Time * option (list string))
    : option (FlowTracker * bool) :=
  match i with
  | (_, None) => Some (t, false)
  | (now, Some lines) =>
      let updates := ReportState_updates my_addrs parse is_lopri lines in
      match UpdateFlows config_ predictor (2 * length updates) t now updates with
      | Returned t => Some (t, true)
      | CheckFailed | OutOfFuel => None
      end
  end.

#[export] Instance tracker_states : FlowStates FlowTracker (Time * option (list string)) (Time * string) Time := {|
  fs_ReportState := ReportState;
  fs_MonitorDone t i := MonitorDone_line config_ predictor my_addrs parse t (fst i) (snd i);
  fs_ForEachActiveFlow := ForEachActiveFlow |}.

(** The marker of a parsed line: all of it but the sequence number. *)
Definition parsed_marker (m : FlowMarker) : Prop :=
  host_id m <> 0 /\ src_addr m <> "" /\ dst_addr m <> "" /\ protocol m <> UNSET /\
  src_port m <> 0 /\ dst_port m <> 0.

Definition valid_line (line : string) : Prop :=
  forall p, parse line = Some p -> parsed_marker (pl_flow p) /\ 0 <= pl_cum_usage_bytes p < 2 ^ 63.

Definition marked_flows (t : FlowTracker) : Prop := forall s, s ∈ all_states t -> parsed_marker (flow (cur_ s)).

Lemma evolves_marked fs t t' : tracker_evolves fs t t' -> (forall f, f ∈ fs -> parsed_marker f) ->
  marked_flows t -> marked_flows t'.
Proof.
  intros [_ Hfrom] Hfs Ht s' Hs'. destruct (Hfrom s' Hs') as [(s & Hs & ->)|(f & n & Hf & ->)]; [by apply Ht|].
  apply (Hfs f Hf).
Qed.

Lemma evolves_infos_grow fs t t' : tracker_evolves fs t t' ->
  infos_grow (map cur_ (all_states t)) (map cur_ (all_states t')).
Proof.
  intros [Hkept _] fi (s & -> & Hs)%list_elem_of_fmap. destruct (Hkept s Hs) as (s' & Hs' & [Hf Hh Hl]).
  exists (cur_ s'). split; [by apply list_elem_of_fmap_2|]. by split.
Qed.

(** Every update comes from a line. *)
Lemma ReportState_updates_from is_lopri lines u :
  u ∈ ReportState_updates my_addrs parse is_lopri lines ->
  exists line p, line ∈ lines /\ parse line = Some p /\ fu_flow u = pl_flow p /\
    fu_cum_usage_bytes u = pl_cum_usage_bytes p /\ used_priority u <> kUnset.
Proof.
  induction lines as [|line rest IH]; cbn; [by intros ?%elem_of_nil|].
  assert (Hrest : u ∈ ReportState_updates my_addrs parse is_lopri rest -> exists line0 p, line0 ∈ line :: rest /\
    parse line0 = Some p /\ fu_flow u = pl_flow p /\ fu_cum_usage_bytes u = pl_cum_usage_bytes p /\
    used_priority u <> kUnset).
  { intros (l & p & Hin & Hx)%IH. exists l, p. split; [by right|done]. }
  case_bool_decide; [by intros ?%elem_of_nil|]. destruct (parse line) as [p|] eqn:E; [|done].
  destruct (IgnoreFlow _ _); [done|]. intros [->|?]%elem_of_cons; [|by apply Hrest].
  exists line, p. split_and!; try done; [by left|cbn; by destruct (is_lopri _)].
Qed.

Lemma length_updates is_lopri lines : (length (ReportState_updates my_addrs parse is_lopri lines) <= length lines)%nat.
Proof.
  induction lines as [|line rest IH]; cbn; [done|]. case_bool_decide; [cbn; lia|].
  destruct (parse line) as [p|]; [|lia]. destruct (IgnoreFlow _ _); cbn; lia.
Qed.

Lemma seqnum_positive `{!ClockLaws} t s : tracker_ok t -> s ∈ all_states t -> state_seqnum s <> 0.
Proof.
  intros Ht Hs. assert (Hin : state_seqnum s ∈ seqnums t) by by apply list_elem_of_fmap_2.
  rewrite (to_seqnums t Ht) in Hin. unfold one_to in Hin.
  apply list_elem_of_fmap in Hin as (n & -> & Hn%elem_of_seq). lia.
Qed.

Definition tracked_ok `{!ClockLaws} (t : FlowTracker) : Prop := tracker_ok t /\ marked_flows t.

Lemma ReportState_ok `{!ClockLaws} t is_lopri now lines :
  tracked_ok t -> Forall valid_line lines -> next_seqnum_ t + 2 * Z.of_nat (length lines) < 2 ^ 64 ->
  exists t', ReportState t is_lopri (now, Some lines) = Some (t', true) /\ tracked_ok t' /\
    infos_grow (map cur_ (all_states t)) (map cur_ (all_states t')).
Proof.
  intros [Ht Hm] Hl Hn. cbn [ReportState]. set (us := ReportState_updates _ _ _ _).
  pose proof (length_updates is_lopri lines) as Hlen. fold us in Hlen.
  assert (Hfrom : forall u, u ∈ us -> parsed_marker (fu_flow u) /\ valid_update u).
  { intros u (line & p & Hin & Hp & Hf & Hc & Hpri)%ReportState_updates_from.
    destruct (proj1 (Forall_forall _ _) Hl line Hin p Hp) as [Hmk Hcum].
    rewrite Hf. split; [done|]. split; [|done]. unfold valid_counter. by rewrite Hc. }
  assert (Hv : Forall valid_update us) by (apply Forall_forall; intros u Hu; by apply Hfrom).
  destruct (UpdateFlows_spec config_ predictor us (2 * length us) t now Ht Hv ltac:(lia) ltac:(done))
    as (t' & E & Ht' & _). rewrite E. exists t'. split; [done|].
  pose proof (UpdateFlows_evolves config_ predictor (2 * length us) us t now t' Ht Hv ltac:(lia) E) as Hev.
  split; [|by eapply evolves_infos_grow]. split; [done|]. eapply evolves_marked; [exact Hev| |exact Hm].
  intros f (u & -> & Hu)%list_elem_of_fmap. by apply Hfrom.
Qed.

Lemma MonitorDone_ok `{!ClockLaws} t now line :
  tracked_ok t -> valid_line line -> next_seqnum_ t + 1 < 2 ^ 64 ->
  exists t', MonitorDone_line config_ predictor my_addrs parse t now line = Some t' /\ tracked_ok t' /\
    infos_grow (map cur_ (all_states t)) (map cur_ (all_states t')).
Proof.
  intros [Ht Hm] Hl Hn. assert (Hsame : infos_grow (map cur_ (all_states t)) (map cur_ (all_states t))).
  { intros fi Hfi. exists fi. split_and!; try done; unfold counts_less; lia. }
  unfold MonitorDone_line. destruct (parse line) as [p|] eqn:Ep; [|by exists t].
  destruct (IgnoreFlow _ _); [by exists t|]. destruct (Hl p Ep) as [Hmk Hcum].
  set (u := mkFlowUpdate _ _ _ _ _).
  assert (Hv : Forall valid_counter [u]) by by constructor.
  destruct (FinalizeFlows_spec config_ predictor [u] t now Ht Hv) as (t' & E & Ht' & _); [cbn; lia|].
  exists t'. split; [done|]. cbn [FinalizeFlows] in E.
  destruct (finalize_one config_ predictor t now u) as [t1|] eqn:E1; [|done].
  cbn [mbind option_bind] in E. injection E as ->.
  pose proof (finalize_one_evolves config_ predictor t now u t' Ht ltac:(lia) Hcum E1) as Hev.
  split; [|by eapply evolves_infos_grow]. split; [done|]. eapply evolves_marked; [exact Hev| |exact Hm].
  by intros f ->%list_elem_of_singleton.
Qed.

#[export, refine] Instance tracker_laws `{!ClockLaws} :
  FlowStatesLaws FlowTracker (Time * option (list string)) (Time * string) Time :=
  {| fs_ok := tracked_ok;
     fs_infos t := map cur_ (all_states t);
     fs_valid t i := match snd i with
       | None => True
       | Some lines => Forall valid_line lines /\ next_seqnum_ t + 2 * Z.of_nat (length lines) < 2 ^ 64
       end;
     fs_valid_done t i := valid_line (snd i) /\ next_seqnum_ t + 1 < 2 ^ 64 |}.
Proof.
  - intros t fi [Ht Hm] (s & -> & Hs)%list_elem_of_fmap. destruct (Hm s Hs) as (? & ? & ? & ? & ? & ?).
    pose proof (seqnum_positive t s Ht Hs). by split_and!.
  - intros t fi [Ht _] (s & -> & Hs)%list_elem_of_fmap. by destruct (to_leaf t Ht s Hs).
  - intros t fi fi' [Ht _] (s & -> & Hs)%list_elem_of_fmap (s' & -> & Hs')%list_elem_of_fmap E. f_equal.
    eapply (NoDup_map_inj state_seqnum); try done. fold (seqnums t). rewrite (to_seqnums t Ht).
    apply (NoDup_fmap_2 Z.of_nat), NoDup_seq.
  - intros t ts fi _ Hin. cbn in Hin. unfold ForEachActiveFlow in Hin.
    apply list_elem_of_fmap in Hin as ([k s] & [= -> ->] & Hin). apply (list_elem_of_fmap_2 cur_).
    unfold all_states. apply elem_of_app. left. by apply (list_elem_of_fmap_2 snd _ (k, s)).
  - intros t is_lopri [now [lines|]] Ht Hi; cbn in Hi.
    + destruct Hi as [Hl Hn]. destruct (ReportState_ok t is_lopri now lines Ht Hl Hn) as (t' & E & Ht' & Hg).
      by exists t', true.
    + exists t, false. split_and!; try done. intros fi Hfi. exists fi. split_and!; try done; unfold counts_less; lia.
  - intros t [now line] Ht [Hl Hn]. by apply MonitorDone_ok.
Defined.
End Tracker.

(** ** The Linux enforcer *)

Section LinuxEnforcer.
Context {T I : Type} `{!TcCallerIface T} `{!RunnerIface I}.
Context (config_ : HostEnforcerConfig) (device_ : string).
Context (match_host_flows_fn_ : FlowAlloc -> option MatchedHostFlows).

#[export] Instance linux_enforcer : HostEnforcer (@LinuxHostEnforcer T I) := {|
  he_EnforceAllocs := EnforceAllocs config_ device_ match_host_flows_fn_;
  he_IsLopri := GetIsLopriFunc config_ |}.

#[export, refine] Instance linux_enforcer_laws : HostEnforcerLaws (@LinuxHostEnforcer T I) := {|
  he_ok e := classes_ok (sys_info_ e) (next_class_id_ e);
  he_valid _ b := NoDup (map flow_sys_key (flow_allocs b)) /\ valid_matches match_host_flows_fn_ b |}.
Proof.
  intros e b Hc [Hn Hv]. destruct (EnforceAllocs_eq config_ device_ _ e b Hc Hn Hv) as (s & tc & made & _ & _ & E).
  eexists. split; [exact E|]. by eapply EnforceAllocs_classes_ok in E.
Defined.

(** An empty bundle, which is what [Daemon] enforces when a read reports a
    bundle it did not read ([AgentChannel.Read_ok_without_reading]), removes
    every setting: no flow is treated as low priority any more. *)
Lemma empty_bundle_clears_settings (e : LinuxHostEnforcer) :
  classes_ok (sys_info_ e) (next_class_id_ e) -> staged_ (ipt_controller_ e) = [] ->
  snd (CommitChanges (ipt_controller_ e)) = true ->
  exists e', EnforceAllocs config_ device_ match_host_flows_fn_ e (mkAllocBundle [] 0) = Some e' /\
    ipt_snapshot_ e' = [] /\
    forall f, GetIsLopriFunc config_ e' f = bool_decide (dscp_hipri config_ = dscp_lopri config_).
Proof.
  intros Hc Hst Hok.
  destruct (EnforceAllocs_eq config_ device_ match_host_flows_fn_ e (mkAllocBundle [] 0) Hc) as (s & tc & made & _ & _ & E);
    [constructor|by intros a Ha%elem_of_nil|].
  rewrite E. clear E. unfold all_wanted. cbn [flow_allocs map concat foldl].
  destruct (CommitChanges_cases (ipt_controller_ e)) as [[_ Hcm]|(k & ok & _ & Hcm)]; rewrite Hcm in Hok |- *;
    [|destruct ok; [|done]]; eexists; (split; [reflexivity|]); unfold after_commit, AppliedSettings; rewrite Hst;
    by cbn.
Qed.
End LinuxEnforcer.

(** ** The configuration of the agent *)

(** [DemandPredictorConfig] of src/heyp/proto/config.proto. *)
Record DemandPredictorConfig := mkPredictorConfig {
  time_window_dur : string;
  c_usage_multiplier : double;
  c_min_demand_bps : Z }.

Section AgentConfig.
Context `{Clock} (ParseDuration : string -> option Duration).

(** An error status is [None]. *)
Definition ParseAbslDuration (dur : string) : option Duration := ParseDuration dur.

Definition ParseDemandPredictorConfig (c : DemandPredictorConfig) : option (BweDemandPredictor * Duration) :=
  window ← ParseAbslDuration (time_window_dur c);
  Some (mkBwe window (c_usage_multiplier c) (c_min_demand_bps c), window).

(** The start of [Run]: the history windows given to the tracker and to the
    aggregator, with their predictors.  A default constructed duration is
    zero; the second call writes to [socket_demand_window], as the source does. *)
Definition Run_windows (flow_tracker socket_to_host_aggregator : DemandPredictorConfig)
    : option ((BweDemandPredictor * Duration) * (BweDemandPredictor * Duration)) :=
  let socket_demand_window := ZeroDuration in
  '(socket_demand_predictor, socket_demand_window) ← ParseDemandPredictorConfig flow_tracker;
  let host_demand_window := ZeroDuration in
  '(host_demand_predictor, socket_demand_window) ← ParseDemandPredictorConfig socket_to_host_aggregator;
  Some ((socket_demand_predictor, dur_twice socket_demand_window),
        (host_demand_predictor, dur_twice host_demand_window)).

(** The aggregator of the host keeps a history of twice the zero duration,
    whatever its configuration says, and the tracker one of twice the
    aggregator's window instead of its own. *)
Lemma host_window_is_ignored tracker aggregator tw aw :
  ParseDuration (time_window_dur tracker) = Some tw -> ParseDuration (time_window_dur aggregator) = Some aw ->
  exists tp ap, Run_windows tracker aggregator = Some ((tp, dur_twice aw), (ap, dur_twice ZeroDuration)) /\
    time_window_ tp = tw /\ time_window_ ap = aw.
Proof.
  intros Ht Ha. unfold Run_windows, ParseDemandPredictorConfig, ParseAbslDuration. rewrite Ht, Ha. cbn. eauto.
Qed.
End AgentConfig.

(** ** A run of the daemon *)

Section Example.
#[local] Existing Instance ZClock.
#[local] Existing Instance ZClock_laws.

Let parse (line : string) : option parsed_line :=
  if bool_decide (line = "ssh") then Some (mkParsed (mkFlowMarker "" "" "" 7 "a" "b" TCP 22 5000 0) 0 900 None)
  else if bool_decide (line = "web") then Some (mkParsed (mkFlowMarker "" "" "" 7 "a" "b" TCP 80 5001 0) 0 400 None)
  else if bool_decide (line = "far") then Some (mkParsed (mkFlowMarker "" "" "" 7 "a" "c" TCP 80 5002 0) 0 50 None)
  else None.

Let mapper : StaticDCMapper := new_StaticDCMapper [mkEntry "a" "X"; mkEntry "b" "Y"].
Let Bundlers := @ParIndexedMap FlowMarker BundleState _ _.

#[local] Instance example_flows : FlowStates FlowTracker (Time * option (list string)) (Time * string) Time :=
  tracker_states zconfig zpredictor ["a"] parse.
#[local] Instance example_flows_laws : FlowStatesLaws FlowTracker (Time * option (list string)) (Time * string) Time :=
  tracker_laws zconfig zpredictor ["a"] parse.
#[local] Instance example_bundlers : IndexedMap FlowMarker BundleState Bundlers :=
  ParIndexedMap_ops new_BundleState (fun _ => true).
#[local] Instance example_bundlers_laws : IndexedMapLaws FlowMarker BundleState Bundlers new_BundleState (kSpanSize * kSpanSize) :=
  ParIndexedMap_laws new_BundleState (fun _ => true).

Let lines : Time * option (list string) := (at_seconds 1, Some ["ssh"; "garbage"; "far"]).
Let start : option (running (P := FlowTracker) (E := unit) (M := Bundlers)) :=
  Run (J := Time * string) "j" 7 mapper (NewConnToHostAggregator (seconds 20)) zpredictor
    new_FlowTracker tt lines (at_seconds 1).
Let dummy : running (P := FlowTracker) (E := unit) (M := Bundlers) :=
  mkRunning (mkHostDaemon new_FlowTracker new_FlowAggregator tt) false [].
Let s1 := default dummy start.

Lemma start_eq : start = Some s1.
Proof. apply returned_default. vm_compute. reflexivity. Qed.

Lemma example_config_ok : config_ok (limit := kSpanSize * kSpanSize) "j" mapper (seconds 20).
Proof.
  split; try done. intros addr dc Hd. apply HostDC_entry in Hd; [|by apply (bool_decide_unpack _)].
  set_unfold. naive_solver.
Qed.

Lemma new_tracked : tracked_ok new_FlowTracker.
Proof.
  split; [apply new_FlowTracker_ok|]. intros s Hs. unfold all_states in Hs. cbn in Hs.
  rewrite map_to_list_empty in Hs. by apply elem_of_nil in Hs.
Qed.

Lemma lines_valid : fs_valid new_FlowTracker lines.
Proof.
  split; [|cbn; lia]. apply Forall_forall. intros line _ p Hp. unfold parse in Hp.
  repeat case_bool_decide; simplify_eq; (split; [by split_and!|cbn; lia]).
Qed.

Lemma s1_reachable : reachable (J := Time * string) (E := unit) "j" 7 mapper (seconds 20) zpredictor s1.
Proof.
  apply (started _ _ _ _ _ new_FlowTracker tt lines (at_seconds 1));
    [apply new_tracked|exact Logic.I|apply lines_valid|done|exact start_eq].
Qed.

(** The connection to another data center is stored, and it is the only one
    of known data centers. *)
Lemma s1_totals : small_totals (NewConnToHostAggregator (seconds 20)) (bundles (socket_to_host_aggregator_ (daemon s1))).
Proof.
  apply small_totals_bound; [|vm_compute; reflexivity..].
  apply (ai_bundles _ _ (do_aggs _ _ _ _ _ (running_reachable_ok _ _ _ _ _ example_config_ok s1 s1_reachable))).
Qed.

Let bs1 := default new_BundleState (head (bundles (socket_to_host_aggregator_ (daemon s1)))).
Let m1 := mkFlowMarker "X" "Y" "j" 7 "a" "b" TCP 22 5000 1.

Lemma s1_bundle : bs1 ∈ bundles (socket_to_host_aggregator_ (daemon s1)) /\
  exists e, (Aggregator.active bs1 ∪ dead bs1) !! m1 = Some e.
Proof.
  split.
  - unfold bs1. assert (Hn : length (bundles (socket_to_host_aggregator_ (daemon s1))) = 1%nat) by
      (vm_compute; reflexivity).
    destruct (bundles _) as [|bs l]; [discriminate Hn|by left].
  - eexists. apply (returned_default (at_seconds 0, empty_info)). vm_compute. reflexivity.
Qed.

Let later : Time * option (list string) := (at_seconds 3, Some ["web"; "ssh"]).

Lemma later_valid : fs_valid (flow_state_ (daemon s1)) later.
Proof.
  split; [|vm_compute; reflexivity]. apply Forall_forall. intros line _ p Hp. unfold parse in Hp.
  repeat case_bool_decide; simplify_eq; (split; [by split_and!|cbn; lia]).
Qed.

Lemma HostDaemon_never_fails_witness :
  is_Some (do_round (J := Time * string) "j" 7 mapper (NewConnToHostAggregator (seconds 20)) zpredictor
             (Collect false later (at_seconds 3)) s1).
Proof.
  apply (HostDaemon_never_fails "j" 7 mapper (seconds 20) zpredictor example_config_ok).
  - apply s1_reachable.
  - split; [apply later_valid|]. split; [reflexivity|]. intros Hf. discriminate Hf.
Defined.

Lemma SendInfos_reports_flows_witness :
  exists s' b fi, do_round (J := Time * string) "j" 7 mapper (NewConnToHostAggregator (seconds 20)) zpredictor
      (Send (at_seconds 2)) s1 = Some s' /\ sent s' = [b] /\ fi ∈ flow_infos b /\
    src_dc (flow fi) = "X" /\ dst_dc (flow fi) = "Y".
Proof.
  destruct (SendInfos_reports_flows "j" 7 mapper (seconds 20) zpredictor example_config_ok s1 (at_seconds 2)
              s1_reachable s1_totals) as (s' & b & keys & E & Hs & _ & _ & _ & Hk & _ & Hrep).
  set (k := mkFlowMarker "X" "Y" "j" 7 "" "" UNSET 0 0 0).
  assert (Hin : k ∈ keys).
  { apply Hk. destruct s1_bundle as [Hb [e He]]. exists bs1, m1, e. split; [exact Hb|]. split; [exact He|reflexivity]. }
  apply list_elem_of_lookup in Hin as [i Hi].
  destruct (Forall2_lookup_l _ _ _ _ _ Hrep Hi) as (fi & Hfi & Hf & _).
  exists s', b, fi. split; [exact E|]. split; [exact Hs|]. split; [by eapply list_elem_of_lookup_2|].
  rewrite Hf. by split.
Defined.

Lemma CollectStats_collects_witness :
  exists s', do_round (J := Time * string) "j" 7 mapper (NewConnToHostAggregator (seconds 20)) zpredictor
    (Collect false later (at_seconds 3)) s1 = Some s'.
Proof.
  destruct (CollectStats_collects "j" 7 mapper (seconds 20) zpredictor example_config_ok s1 later (at_seconds 3)
              s1_reachable later_valid eq_refl) as (s' & E & _).
  exists s'. exact E.
Defined.
End Example.
