(* ===== verification/SubProcess.v ===== *)
(** * SubProcess: running a command

    src/heyp/io/subprocess.{h,cc}, as compiled for Linux (posix_spawn): the
    meaning of a wait status, and the descriptors that [Start] and
    [ClosePipes] open and close.  The loop of [Communicate] is the file
    [Communicate], the timer thread of [KillAfter] the file [CommandTimer].
    The answers of the operating system are arguments.
    Descriptors are numbers, an unused entry is -1; closing a descriptor that
    is not open is [None]. *)

From stdpp Require Import relations.
From S2P Require Import Prelude Text.

(** ** ExitStatus *)

Definition WTERMSIG (val : Z) : Z := Z.land val 127.
Definition WIFEXITED (val : Z) : bool := WTERMSIG val =? 0.
Definition WEXITSTATUS (val : Z) : Z := Z.land (Z.shiftr val 8) 255.

Definition ExitStatus_ok (val : Z) : bool := WIFEXITED val && (WEXITSTATUS val =? 0).

(** The wait status of a process that exited with a code or died of a signal. *)
Definition exited_with (code : Z) : Z := Z.shiftl code 8.

Lemma ExitStatus_ok_iff code : 0 <= code < 256 -> ExitStatus_ok (exited_with code) = bool_decide (code = 0).
Proof.
  intros Hc. unfold ExitStatus_ok, WIFEXITED, WTERMSIG, WEXITSTATUS, exited_with.
  rewrite Z.shiftr_shiftl_l by lia. change (8 - 8) with 0. rewrite Z.shiftl_0_r.
  assert (Hl : Z.land (Z.shiftl code 8) 127 = 0).
  { change 127 with (Z.ones 7). rewrite Z.land_ones, Z.shiftl_mul_pow2 by lia.
    change (2 ^ 8) with (2 * 2 ^ 7). rewrite Z.mul_assoc. by apply Z.mod_mul. }
  rewrite Hl. change 255 with (Z.ones 8). rewrite Z.land_ones, Z.mod_small by lia. cbn [Z.eqb andb].
  case_bool_decide; [by subst|]. by apply Z.eqb_neq.
Qed.

Lemma ExitStatus_signal_not_ok val : 0 < WTERMSIG val -> ExitStatus_ok val = false.
Proof. intros Hs. unfold ExitStatus_ok, WIFEXITED. by rewrite (proj2 (Z.eqb_neq _ _)) by lia. Qed.

(** ** Descriptors *)

Inductive ChannelAction := ACTION_CLOSE | ACTION_PIPE | ACTION_DUPPARENT.

#[export] Instance ChannelAction_eq_dec : EqDecision ChannelAction.
Proof. solve_decision. Defined.

Definition kNFds : nat := 3.

Record SubProcess := mkSubProcess {
  running_ : bool;
  pid_ : Z;
  has_program : bool;  (* [exec_path_] and [exec_argv_] are set *)
  action_ : list ChannelAction;
  parent_pipe_ : list Z;
  child_pipe_ : list Z }.

Definition new_SubProcess : SubProcess :=
  mkSubProcess false (-1) false (replicate kNFds ACTION_CLOSE) (replicate kNFds (-1)) (replicate kNFds (-1)).

(** [None]: called while the command runs, which ends the program. *)
Definition SetProgram (p : SubProcess) : option SubProcess :=
  if running_ p then None
  else Some (mkSubProcess (running_ p) (pid_ p) true (action_ p) (parent_pipe_ p) (child_pipe_ p)).

Definition SetChannelAction (chan : nat) (action : ChannelAction) (p : SubProcess) : option SubProcess :=
  if running_ p then None
  else if negb (chan <? kNFds)%nat then None
  else Some (mkSubProcess (running_ p) (pid_ p) (has_program p) (<[chan := action]> (action_ p)) (parent_pipe_ p)
               (child_pipe_ p)).

(** [close]: the descriptor must be open. *)
Definition close (fd : Z) (os : gset Z) : option (gset Z) :=
  if bool_decide (fd ∈ os) then Some (os ∖ {[fd]}) else None.

Definition close_used (o : option (gset Z)) (fd : Z) : option (gset Z) :=
  os ← o; if 0 <=? fd then close fd os else Some os.

Definition set_pipes (parent child : list Z) (p : SubProcess) : SubProcess :=
  mkSubProcess (running_ p) (pid_ p) (has_program p) (action_ p) parent child.

Definition no_pipes : list Z := replicate kNFds (-1).

(** The loop of [ClosePipes] takes the two ends of a channel in turn. *)
Fixpoint interleave (l k : list Z) : list Z :=
  match l, k with
  | x :: l, y :: k => x :: y :: interleave l k
  | _, _ => []
  end.

Definition ClosePipes (p : SubProcess) (os : gset Z) : option (SubProcess * gset Z) :=
  os ← foldl close_used (Some os) (interleave (parent_pipe_ p) (child_pipe_ p));
  Some (set_pipes no_pipes no_pipes p, os).

(** What the system answers while a command is started. *)
Record start_env := mkEnv {
  pipe : nat -> option (Z * Z);  (* the reading and the writing end *)
  setfl_ok : nat -> bool;
  setfd_ok : nat -> bool;
  actions_init_ok : bool;
  posix_spawnp : option Z }.

(** The first loop of [Start], from channel [i] on: the pipes so far and
    whether every call succeeded. *)
Fixpoint open_pipes (env : start_env) (i : nat) (actions : list ChannelAction) (p : SubProcess) (os : gset Z)
    : bool * SubProcess * gset Z :=
  match actions with
  | [] => (true, p, os)
  | a :: actions =>
      if bool_decide (a = ACTION_PIPE) then
        match pipe env i with
        | None => (false, p, os)
        | Some (rd, wr) =>
            let os := os ∪ {[rd; wr]} in
            let '(parent, child) := if (i =? 0)%nat then (wr, rd) else (rd, wr) in
            let p := set_pipes (<[i := parent]> (parent_pipe_ p)) (<[i := child]> (child_pipe_ p)) p in
            if setfl_ok env i && setfd_ok env i then open_pipes env (S i) actions p os else (false, p, os)
        end
      else open_pipes env (S i) actions p os
  end.

Definition Start (env : start_env) (p : SubProcess) (os : gset Z) : option (bool * SubProcess * gset Z) :=
  if running_ p then Some (false, p, os)
  else if negb (has_program p) then Some (false, p, os)
  else
    let failed p os := '(p, os) ← ClosePipes p os; Some (false, p, os) in
    let '(ok, p, os) := open_pipes env 0 (action_ p) p os in
    if negb ok then failed p os
    else if negb (actions_init_ok env) then failed p os
    else
      match posix_spawnp env with
      | None => failed p os
      | Some pid =>
          os ← foldl close_used (Some os) (child_pipe_ p);
          Some (true, mkSubProcess true pid (has_program p) (action_ p) (parent_pipe_ p) no_pipes, os)
      end.

(** The descriptors of the object. *)
Definition fds_of (l : list Z) : list Z := filter (fun fd => 0 <= fd) l.
Definition owned (p : SubProcess) : list Z := fds_of (interleave (parent_pipe_ p) (child_pipe_ p)).

(** The system has its other descriptors and those of the object, once each. *)
Record owns (base : gset Z) (p : SubProcess) (os : gset Z) : Prop := {
  ow_len : length (parent_pipe_ p) = kNFds /\ length (child_pipe_ p) = kNFds;
  ow_distinct : NoDup (owned p);
  ow_os : os = base ∪ list_to_set (owned p);
  ow_apart : forall fd, fd ∈ owned p -> fd ∉ base }.

Lemma fds_of_interleave l : forall k, length l = length k -> fds_of (interleave l k) ≡ₚ fds_of l ++ fds_of k.
Proof.
  unfold fds_of. induction l as [|x l IH]; intros [|y k] Hl; try done. cbn [interleave]. rewrite !filter_cons.
  injection Hl as Hl. destruct (decide (0 <= x)), (decide (0 <= y)); cbn [app]; rewrite IH by done; try done.
  - apply perm_skip, Permutation_middle.
  - apply Permutation_middle.
Qed.

Lemma fds_of_insert l i a : l !! i = Some (-1) -> 0 <= a -> fds_of (<[i := a]> l) ≡ₚ a :: fds_of l.
Proof.
  unfold fds_of. intros Hi Ha. revert i Hi. induction l as [|x l IH]; intros [|i] Hi; try done.
  - cbn in Hi. injection Hi as ->. cbn [insert list_insert]. rewrite !filter_cons, decide_True by done.
    by rewrite decide_False by lia.
  - cbn [insert list_insert]. rewrite !filter_cons. change (list_insert i a l) with (<[i := a]> l).
    destruct (decide (0 <= x)); rewrite IH by done; [apply perm_swap|done].
Qed.

Lemma close_used_all l : forall os, NoDup (fds_of l) -> (forall fd, fd ∈ fds_of l -> fd ∈ os) ->
  foldl close_used (Some os) l = Some (os ∖ list_to_set (fds_of l)).
Proof.
  unfold fds_of. induction l as [|x l IH]; intros os Hnd Hin; [cbn; f_equal; set_solver|].
  cbn [foldl]. unfold close_used at 2. cbn [mbind option_bind]. rewrite filter_cons in *.
  destruct (decide (0 <= x)) as [Hx|Hx].
  - rewrite (proj2 (Z.leb_le _ _)) by done. unfold close. rewrite bool_decide_eq_true_2 by (apply Hin; by left).
    apply NoDup_cons in Hnd as [Hnx Hnd]. rewrite IH; [f_equal; cbn; set_solver|done|].
    intros fd Hfd. apply elem_of_difference. split; [apply Hin; by right|]. set_solver.
  - rewrite (proj2 (Z.leb_gt _ _)) by lia. by apply IH.
Qed.

Definition same_rest (p p' : SubProcess) : Prop :=
  running_ p' = running_ p /\ pid_ p' = pid_ p /\ has_program p' = has_program p /\ action_ p' = action_ p.

Lemma fds_of_no_pipes : fds_of no_pipes = [].
Proof. done. Qed.

Lemma ClosePipes_owned base p os : owns base p os ->
  ClosePipes p os = Some (set_pipes no_pipes no_pipes p, base).
Proof.
  intros [_ Hnd -> Hap]. unfold ClosePipes. rewrite close_used_all; [|done|set_solver].
  cbn [mbind option_bind]. do 2 f_equal. fold (owned p). apply set_eq. intros x.
  rewrite elem_of_difference, elem_of_union, elem_of_list_to_set. specialize (Hap x). tauto.
Qed.

(** Fresh descriptors, as pipe(2) returns them. *)
Record fresh_pipes (base : gset Z) (env : start_env) : Prop := {
  fp_pair : forall i rd wr, pipe env i = Some (rd, wr) ->
    0 <= rd /\ 0 <= wr /\ rd <> wr /\ rd ∉ base /\ wr ∉ base;
  fp_apart : forall i j a b c d, i <> j -> pipe env i = Some (a, b) -> pipe env j = Some (c, d) ->
    a <> c /\ a <> d /\ b <> c /\ b <> d }.

Lemma owned_perm p : length (parent_pipe_ p) = kNFds /\ length (child_pipe_ p) = kNFds ->
  owned p ≡ₚ fds_of (parent_pipe_ p) ++ fds_of (child_pipe_ p).
Proof. intros [Hp Hc]. apply fds_of_interleave. congruence. Qed.

(** One pipe more. *)
Lemma owns_add base p os i a b : owns base p os ->
  parent_pipe_ p !! i = Some (-1) -> child_pipe_ p !! i = Some (-1) ->
  0 <= a -> 0 <= b -> a <> b -> a ∉ base -> b ∉ base -> a ∉ owned p -> b ∉ owned p ->
  owns base (set_pipes (<[i := a]> (parent_pipe_ p)) (<[i := b]> (child_pipe_ p)) p) (os ∪ {[a; b]}).
Proof.
  intros [Hlen Hnd -> Hap] Hp Hc Ha Hb Hab Hab1 Hab2 Hao Hbo.
  assert (E : owned (set_pipes (<[i := a]> (parent_pipe_ p)) (<[i := b]> (child_pipe_ p)) p) ≡ₚ a :: b :: owned p).
  { rewrite !owned_perm; cbn [parent_pipe_ child_pipe_ set_pipes]; [|done|by rewrite !length_insert].
    rewrite !fds_of_insert by done. cbn [app]. apply perm_skip. symmetry. apply Permutation_middle. }
  split; cbn [parent_pipe_ child_pipe_ set_pipes].
  - by rewrite !length_insert.
  - rewrite E. repeat (apply NoDup_cons; split); [set_solver|done|done].
  - apply set_eq. intros x. rewrite !elem_of_union, !elem_of_list_to_set, E. set_solver.
  - intros fd. rewrite E, !elem_of_cons. intros [->|[->|Hfd]]; [done|done|by apply Hap].
Qed.

(** The end the parent is to keep of a channel: it writes what the command
    reads, and reads the rest. *)
Definition parent_end (env : start_env) (i : nat) (a : ChannelAction) : Z :=
  match a, pipe env i with
  | ACTION_PIPE, Some (rd, wr) => match i with O => wr | S _ => rd end
  | _, _ => -1
  end.

(** The parent's pipes after the first loop. *)
Definition pipes_as (env : start_env) (actions : list ChannelAction) (p : SubProcess) : Prop :=
  forall i a, actions !! i = Some a -> parent_pipe_ p !! i = Some (parent_end env i a).

Lemma pipes_as_eq env actions p : pipes_as env actions p -> length actions = length (parent_pipe_ p) ->
  parent_pipe_ p = imap (parent_end env) actions.
Proof.
  intros Has Hlen. apply list_eq. intros i. rewrite list_lookup_imap. destruct (actions !! i) as [a|] eqn:E; [by apply Has|].
  apply lookup_ge_None in E. apply lookup_ge_None. lia.
Qed.

Lemma open_pipes_owns base env all actions : forall i p os ok p' os',
  fresh_pipes base env -> owns base p os -> all = take i all ++ actions -> length all = kNFds -> (i <= kNFds)%nat ->
  pipes_as env (take i all) p ->
  (forall j, (i <= j < kNFds)%nat -> parent_pipe_ p !! j = Some (-1) /\ child_pipe_ p !! j = Some (-1)) ->
  (forall fd, fd ∈ owned p -> exists j rd wr, (j < i)%nat /\ pipe env j = Some (rd, wr) /\ (fd = rd \/ fd = wr)) ->
  open_pipes env i actions p os = (ok, p', os') ->
  owns base p' os' /\ same_rest p p' /\ (ok = true -> pipes_as env all p').
Proof.
  induction actions as [|a actions IH]; intros i p os ok p' os' Hfr Ho Hall Hlen Hi Has Hun Hfrom; cbn [open_pipes].
  { intros [= <- <- <-]. rewrite app_nil_r in Hall. split; [done|]. split; [by split_and!|]. intros _. by rewrite Hall. }
  assert (Hia : all !! i = Some a).
  { rewrite Hall, lookup_app_r; rewrite length_take, Hlen; [|lia]. by replace (i - i `min` kNFds)%nat with 0%nat by lia. }
  assert (Hlt : (i < kNFds)%nat) by (apply lookup_lt_Some in Hia; lia).
  assert (Hall' : all = take (S i) all ++ actions).
  { rewrite (take_S_r _ _ _ Hia), <- app_assoc. exact Hall. }
  destruct (Hun i ltac:(lia)) as [Hpi Hci]. case_bool_decide as Ea.
  - destruct (pipe env i) as [[rd wr]|] eqn:Epipe; [|intros [= <- <- <-]; split; [done|]; by split; [split_and!|]].
    destruct (fp_pair _ _ Hfr _ _ _ Epipe) as (Hrd & Hwr & Hne & Hbr & Hbw).
    assert (Hnew : rd ∉ owned p /\ wr ∉ owned p).
    { split; intros Hx; destruct (Hfrom _ Hx) as (j & c & d & Hj & Ej & E);
        destruct (fp_apart _ _ Hfr i j _ _ _ _ ltac:(lia) Epipe Ej) as (? & ? & ? & ?); destruct E; congruence. }
    set (pc := if (i =? 0)%nat then (wr, rd) else (rd, wr)). destruct pc as [parent child] eqn:Epc.
    assert (Hpc : (parent = wr /\ child = rd) \/ (parent = rd /\ child = wr)).
    { unfold pc in Epc. destruct (i =? 0)%nat; injection Epc as <- <-; auto. }
    assert (Hend : parent = parent_end env i a).
    { unfold pc in Epc. rewrite Ea. unfold parent_end. rewrite Epipe. by destruct i; injection Epc as <- <-. }
    set (q := set_pipes _ _ p).
    assert (Hq : owns base q (os ∪ {[rd; wr]})).
    { replace ({[rd; wr]} : gset Z) with ({[parent; child]} : gset Z) by (destruct Hpc as [[-> ->]|[-> ->]]; set_solver).
      apply owns_add; try done; destruct Hpc as [[-> ->]|[-> ->]]; try done; try apply Hnew; congruence. }
    destruct (_ && _); [|intros [= <- <- <-]; split; [done|]; by split; [split_and!|]].
    intros E. apply (IH (S i) q (os ∪ {[rd; wr]})) in E; try done.
    + intros j b Hj. cbn [q parent_pipe_ set_pipes]. destruct (decide (j = i)) as [->|Hji].
      * rewrite list_lookup_insert_eq by (destruct (ow_len _ _ _ Ho); lia).
        rewrite lookup_take_lt, Hia in Hj by lia. injection Hj as <-. by rewrite Hend.
      * rewrite list_lookup_insert_ne by done. apply (Has j b).
        apply lookup_take_Some in Hj as [Hj Hjs]. rewrite lookup_take_lt by lia. done.
    + intros j Hj. cbn [q parent_pipe_ child_pipe_ set_pipes]. rewrite !list_lookup_insert_ne by lia.
      apply Hun. lia.
    + intros fd. unfold q. rewrite owned_perm by (cbn; by rewrite !length_insert; apply (ow_len _ _ _ Ho)).
      cbn [parent_pipe_ child_pipe_ set_pipes].
      rewrite !fds_of_insert by (done || destruct Hpc as [[-> ->]|[-> ->]]; done).
      intros Hfd. assert (Hor : fd = rd \/ fd = wr \/ fd ∈ owned p).
      { rewrite owned_perm by apply (ow_len _ _ _ Ho). destruct Hpc as [[-> ->]|[-> ->]]; set_solver. }
      destruct Hor as [?|[?|Hfd']]; [exists i, rd, wr; auto with lia..|].
      destruct (Hfrom fd Hfd') as (j & c & d & Hj & Ej & Ed). exists j, c, d. split_and!; [lia|done|done].
  - intros E. apply (IH (S i) p os) in E; try done.
    + intros j b Hj. apply lookup_take_Some in Hj as [Hj Hjs]. destruct (decide (j = i)) as [->|Hji].
      * rewrite Hia in Hj. injection Hj as <-. rewrite Hpi. unfold parent_end. by destruct a.
      * apply (Has j b). rewrite lookup_take_lt by lia. done.
    + intros j Hj. apply Hun. lia.
    + intros fd Hfd. destruct (Hfrom fd Hfd) as (j & c & d & Hj & Ej & Ed). exists j, c, d. split_and!; [lia|done|done].
Qed.

(** The end of a successful start: the child's ends are closed. *)
Lemma close_child_pipes base p os pid : owns base p os ->
  exists os', foldl close_used (Some os) (child_pipe_ p) = Some os' /\
    owns base (mkSubProcess true pid (has_program p) (action_ p) (parent_pipe_ p) no_pipes) os'.
Proof.
  intros [Hlen Hnd -> Hap]. pose proof (owned_perm p Hlen) as E. rewrite E in Hnd.
  apply NoDup_app in Hnd as (Hp & Hpc & Hc). eexists. split.
  - apply close_used_all; [done|]. intros fd Hfd. rewrite elem_of_union, elem_of_list_to_set, E. set_solver.
  - set (q := mkSubProcess _ _ _ _ _ _).
    assert (Eq : owned q ≡ₚ fds_of (parent_pipe_ p)).
    { rewrite owned_perm by (cbn; split; [apply Hlen|done]). cbn. by rewrite app_nil_r. }
    split; [cbn; split; [apply Hlen|done]|by rewrite Eq| |].
    + apply set_eq. intros x. rewrite elem_of_difference, !elem_of_union, !elem_of_list_to_set, E, Eq, elem_of_app.
      specialize (Hap x). rewrite E, elem_of_app in Hap. specialize (Hpc x). naive_solver.
    + intros fd. rewrite Eq. intros Hfd. apply Hap. rewrite E. set_solver.
Qed.

(** Every call of [Start] succeeds. *)
Fixpoint channels_ok (env : start_env) (i : nat) (actions : list ChannelAction) : bool :=
  match actions with
  | [] => true
  | a :: actions =>
      (negb (bool_decide (a = ACTION_PIPE)) ||
       bool_decide (is_Some (pipe env i)) && setfl_ok env i && setfd_ok env i) && channels_ok env (S i) actions
  end.

Lemma open_pipes_ok env actions : forall i p os, fst (fst (open_pipes env i actions p os)) = channels_ok env i actions.
Proof.
  induction actions as [|a actions IH]; intros i p os; [done|]. cbn [open_pipes channels_ok].
  case_bool_decide; [|by apply IH]. destruct (pipe env i) as [[rd wr]|]; [|done].
  rewrite bool_decide_eq_true_2 by by eexists. cbn [negb orb andb]. destruct (if (i =? 0)%nat then _ else _).
  destruct (_ && _); [apply IH|done].
Qed.

Definition start_ok (env : start_env) (p : SubProcess) : bool :=
  channels_ok env 0 (action_ p) && actions_init_ok env && bool_decide (is_Some (posix_spawnp env)).

(** C35: starting a command opens exactly the parent's ends of the pipes that were
    asked for, the writing end of the one for the command's input and the
    reading ends of the others, or, when any step fails, nothing; closing the
    pipes afterwards leaves the descriptors as they were before, and no
    descriptor is ever closed that is not open. *)
Theorem Start_keeps_descriptors env p base :
  running_ p = false -> has_program p = true -> length (action_ p) = kNFds ->
  parent_pipe_ p = no_pipes -> child_pipe_ p = no_pipes -> fresh_pipes base env ->
  let ok := start_ok env p in let ends := imap (parent_end env) (action_ p) in
  exists p' os', Start env p base = Some (ok, p', os') /\
    running_ p' = ok /\ child_pipe_ p' = no_pipes /\ owns base p' os' /\
    (if ok then parent_pipe_ p' = ends /\ os' = base ∪ list_to_set (fds_of ends)
     else parent_pipe_ p' = no_pipes /\ os' = base) /\
    ClosePipes p' os' = Some (set_pipes no_pipes no_pipes p', base).
Proof.
  intros Hr Hpr Hlen Hpp Hcp Hfr ok ends. unfold ok, Start, start_ok. rewrite Hr, Hpr. cbn [negb].
  assert (Ho : owns base p base).
  { assert (owned p = []) as E by (unfold owned; by rewrite Hpp, Hcp).
    split; [by rewrite Hpp, Hcp|rewrite E; constructor|rewrite E; set_solver|rewrite E; set_solver]. }
  pose proof (open_pipes_ok env (action_ p) 0 p base) as Eok.
  destruct (open_pipes env 0 (action_ p) p base) as [[opened q] os] eqn:E. cbn [fst] in Eok.
  apply (open_pipes_owns base env (action_ p)) in E as (Hq & (Hqr & Hqp & Hqh & Hqa) & Has); try done; [|lia|..].
  2: { intros j Hj. rewrite Hpp, Hcp. split; apply lookup_replicate_2; lia. }
  2: { intros fd Hfd. unfold owned in Hfd. rewrite Hpp, Hcp in Hfd. by apply elem_of_nil in Hfd. }
  assert (Hfail : exists p' os', ('(p0, os0) ← ClosePipes q os; Some (false, p0, os0)) = Some (false, p', os') /\
    running_ p' = false /\ child_pipe_ p' = no_pipes /\ owns base p' os' /\
    (parent_pipe_ p' = no_pipes /\ os' = base) /\
    ClosePipes p' os' = Some (set_pipes no_pipes no_pipes p', base)).
  { rewrite (ClosePipes_owned base) by done. cbn [mbind option_bind]. do 2 eexists. split; [done|].
    assert (Hcl : owns base (set_pipes no_pipes no_pipes q) base) by (split; [done|constructor|set_solver|set_solver]).
    split_and!; try done. cbn. congruence. }
  rewrite <- Eok. destruct opened; cbn [negb andb]; [|done].
  destruct (actions_init_ok env); cbn [negb andb]; [|done].
  destruct (posix_spawnp env) as [pid|]; [|done].
  destruct (close_child_pipes base q os pid Hq) as (os' & -> & Hown). cbn [mbind option_bind].
  assert (Hends : parent_pipe_ q = ends).
  { apply pipes_as_eq; [by apply Has|]. destruct Hq as [[-> _] _ _ _]. done. }
  do 2 eexists. split; [done|]. split_and!; try done; [|by rewrite (ClosePipes_owned base)].
  cbn [parent_pipe_]. rewrite Hends in *. pose proof Hown as [Hl _ -> _]. split; [done|]. f_equal. apply list_to_set_perm_L.
  rewrite owned_perm by done. cbn. by rewrite app_nil_r.
Qed.

Definition example_env : start_env :=
  mkEnv (fun i => Some (10 + 2 * Z.of_nat i, 11 + 2 * Z.of_nat i)) (fun _ => true) (fun _ => true) true (Some 99).

(** Two pipes, as the callers set them. *)
Definition example_process : SubProcess :=
  mkSubProcess false (-1) true [ACTION_CLOSE; ACTION_PIPE; ACTION_PIPE] no_pipes no_pipes.

Lemma example_env_fresh base : (forall fd, fd ∈ base -> fd < 10) -> fresh_pipes base example_env.
Proof.
  intros Hb. split.
  - intros i rd wr [= <- <-]. split_and!; try lia; intros Hin%Hb; lia.
  - intros i j a b c d Hij [= <- <-] [= <- <-]. lia.
Qed.

Lemma Start_keeps_descriptors_witness :
  exists p' os', Start example_env example_process {[0; 1; 2]} = Some (true, p', os') /\
    running_ p' = true /\ child_pipe_ p' = no_pipes /\ owns {[0; 1; 2]} p' os' /\
    (parent_pipe_ p' = [-1; 12; 14] /\ os' = {[0; 1; 2]} ∪ list_to_set [12; 14]) /\
    ClosePipes p' os' = Some (set_pipes no_pipes no_pipes p', {[0; 1; 2]}).
Proof.
  apply (Start_keeps_descriptors example_env example_process {[0; 1; 2]}); try reflexivity.
  apply example_env_fresh. intros fd Hfd. set_unfold. lia.
Defined.

(** The pipes stay open when the command is over; starting another command
    with the same object forgets them. *)
Definition reused_process : SubProcess :=
  mkSubProcess false (-1) true [ACTION_CLOSE; ACTION_PIPE; ACTION_PIPE] [-1; 5; 6] no_pipes.

Lemma second_Start_leaks :
  ('(_, q, os) ← Start example_env reused_process {[0; 1; 2; 5; 6]};
   '(_, os) ← ClosePipes q os;
   Some (bool_decide (5 ∈ os) && bool_decide (6 ∈ os))) = Some true.
Proof. by vm_compute. Qed.
