(* ===== verification/Communicate.v ===== *)
(** * Communicate: talking to a running command

    [SubProcess::Communicate] of src/heyp/io/subprocess.cc: the loop over
    poll(2), one round per return of poll, with what poll, read and write
    answer as arguments, and the calls that the loop makes recorded in order.
    The threads around the loop are in [CommandTimer]. *)

From S2P Require Import Prelude Text SubProcess.

#[local] Open Scope string_scope.
#[local] Open Scope list_scope.
#[local] Open Scope Z_scope.

(** ** The loop *)

Inductive Channel := CHAN_STDIN | CHAN_STDOUT | CHAN_STDERR.

#[export] Instance Channel_eq_dec : EqDecision Channel.
Proof. solve_decision. Defined.

(** An entry of [fds], [iobufs] and [nbytes]; [io_open]: the descriptor is not
    -1. *)
Record iofd := mkIofd {
  io_chan : Channel;
  io_open : bool;
  io_buf : option string;
  io_nbytes : nat }.

Inductive syscall := Read (c : Channel) (got : string) | Write (data : string) (n : nat) | CloseStdin.

#[export] Instance syscall_eq_dec : EqDecision syscall.
Proof. solve_decision. Defined.

Record comm := mkComm {
  fds : list iofd;
  fd_remain : Z;
  stdin_pipe : bool;  (* [parent_pipe_[CHAN_STDIN]] is not -1 *)
  calls : list syscall }.

(** What poll reports of one entry, and what read or write would answer. *)
Inductive read_answer := Bytes (s : string) | Eof | ReadErr (retry : bool).
Inductive write_answer := Wrote (n : nat) | WriteErr (retry : bool).

Record event := mkEvent {
  ev_in : bool;   (* POLLIN or POLLHUP *)
  ev_out : bool;  (* POLLOUT *)
  ev_err : bool;  (* POLLERR or POLLNVAL *)
  ev_read : read_answer;
  ev_write : write_answer }.

Inductive poll_result :=
  | PollErr (retry : bool)
  | PollZero
  | Poll (timed_out : bool) (events : list event).

(** The entries of the pipes, and whether the pipe to stdin is closed at once. *)
Definition setup (actions : list ChannelAction) (stdin_input stdout_output stderr_output : option string) : comm :=
  let piped (i : nat) := bool_decide (actions !! i = Some ACTION_PIPE) in
  let in_fds := if piped 0%nat && bool_decide (is_Some stdin_input)
                then [mkIofd CHAN_STDIN true stdin_input 0] else [] in
  let out_fds := if piped 1%nat then [mkIofd CHAN_STDOUT true stdout_output 0] else [] in
  let err_fds := if piped 2%nat then [mkIofd CHAN_STDERR true stderr_output 0] else [] in
  let l := in_fds ++ out_fds ++ err_fds in
  mkComm l (Z.of_nat (length l)) (piped 0%nat && bool_decide (is_Some stdin_input))
    (if piped 0%nat && negb (bool_decide (is_Some stdin_input)) then [CloseStdin] else []).

Definition shut (x : iofd) : iofd := mkIofd (io_chan x) false (io_buf x) (io_nbytes x).

(** One entry: the entry after it, whether it is done with ([fd_remain] goes
    down), whether stdin is closed, and the calls.  [None]: the buffer is
    null. *)
Definition handle_fd (e : event) (x : iofd) : option (iofd * bool * bool * list syscall) :=
  if ev_in e then
    match ev_read e with
    | Bytes s =>
        let x := match io_buf x with
                 | Some b => mkIofd (io_chan x) (io_open x) (Some (b +:+ s)) (io_nbytes x + String.length s)
                 | None => x
                 end in
        Some (x, false, false, [Read (io_chan x) s])
    | Eof => Some (shut x, true, false, [Read (io_chan x) ""])
    | ReadErr retry => Some (if retry then x else shut x, negb retry, false, [Read (io_chan x) ""])
    end
  else if ev_out e then
    b ← io_buf x;
    let n := (String.length b - io_nbytes x)%nat in
    let '(ans, call) :=
      if (0 <? n)%nat
      then (ev_write e, [Write (substr (io_nbytes x) b) (match ev_write e with Wrote k => k | WriteErr _ => 0%nat end)])
      else (Wrote 0, []) in
    match ans with
    | Wrote n =>
        let x := mkIofd (io_chan x) (io_open x) (io_buf x) (io_nbytes x + n) in
        if (String.length b <=? io_nbytes x)%nat then Some (shut x, true, true, call) else Some (x, false, false, call)
    | WriteErr retry => Some (if retry then x else shut x, negb retry, false, call)
    end
  else if ev_err e then Some (shut x, true, false, [])
  else Some (x, false, false, []).

(** The loop over the entries; closing stdin a second time is [None]. *)
Fixpoint handle_fds (es : list event) (xs : list iofd) (c : comm) : option comm :=
  match es, xs with
  | e :: es, x :: xs =>
      '(x, done, close_stdin, cs) ← handle_fd e x;
      if close_stdin && negb (stdin_pipe c) then None
      else
        handle_fds es xs
          (mkComm (fds c ++ [x]) (if done : bool then fd_remain c - 1 else fd_remain c) (stdin_pipe c && negb close_stdin)
             (calls c ++ cs ++ (if close_stdin then [CloseStdin] else [])))
  | _, xs => Some (mkComm (fds c ++ xs) (fd_remain c) (stdin_pipe c) (calls c))
  end.

Definition poll_round (es : list event) (c : comm) : option comm :=
  handle_fds es (fds c) (mkComm [] (fd_remain c) (stdin_pipe c) (calls c)).

(** The timer has written to its pipe. *)
Definition time_out (c : comm) : comm :=
  mkComm (fds c) (fd_remain c - 1) false (calls c ++ (if stdin_pipe c then [CloseStdin] else [])).

Inductive outcome := Finished | PollFailed | TimedOut | Polling.

(** The loop; it is [Polling] when there are no more answers. *)
Fixpoint communicate (rounds : list poll_result) (c : comm) : option (comm * outcome) :=
  if fd_remain c <=? 0 then Some (c, Finished)
  else
    match rounds with
    | [] => Some (c, Polling)
    | PollErr true :: rounds => communicate rounds c
    | PollErr false :: _ | PollZero :: _ => Some (mkComm (fds c) 0 (stdin_pipe c) (calls c), PollFailed)
    | Poll true _ :: _ => Some (time_out c, TimedOut)
    | Poll false es :: rounds => c ← poll_round es c; communicate rounds c
    end.

(** What poll, read and write promise: nothing is reported of an entry with
    descriptor -1; of a pipe to read from, not that it can be written; reading
    from stdin's end is an error; write takes at most what it is given. *)
Definition event_ok (x : iofd) (e : event) : bool :=
  (io_open x || negb (ev_in e || ev_out e || ev_err e)) &&
  (if bool_decide (io_chan x = CHAN_STDIN)
   then (negb (ev_in e) || match ev_read e with ReadErr false => true | _ => false end) &&
        match ev_write e with
        | Wrote n => (n <=? match io_buf x with Some b => String.length b - io_nbytes x | None => 0 end)%nat
        | WriteErr _ => true
        end
   else negb (ev_out e)).

Definition events_ok (xs : list iofd) (es : list event) : bool :=
  (length es =? length xs)%nat && forallb (fun '(x, e) => event_ok x e) (combine xs es).

Fixpoint rounds_ok (rounds : list poll_result) (c : comm) : Prop :=
  match rounds with
  | [] => True
  | Poll false es :: rounds =>
      events_ok (fds c) es = true /\
      match poll_round es c with Some c => rounds_ok rounds c | None => True end
  | PollErr true :: rounds => rounds_ok rounds c
  | _ => True
  end.

(** ** What was read, written and closed *)

Definition concat_strings (l : list string) : string := foldr String.append "" l.

Definition reads (chan : Channel) (l : list syscall) : string :=
  concat_strings (omap (fun s => match s with Read c got => if bool_decide (c = chan) then Some got else None | _ => None end) l).

Definition written (l : list syscall) : string :=
  concat_strings (omap (fun s => match s with Write data n => Some (String.substring 0 n data) | _ => None end) l).

Definition closes (l : list syscall) : nat := length (filter (fun s => s = CloseStdin) l).

Lemma concat_strings_app l k : concat_strings (l ++ k) = concat_strings l +:+ concat_strings k.
Proof. unfold concat_strings. induction l as [|s l IH]; [done|]. cbn. by rewrite IH, append_assoc. Qed.

Lemma reads_app chan l k : reads chan (l ++ k) = reads chan l +:+ reads chan k.
Proof. unfold reads. by rewrite omap_app, concat_strings_app. Qed.

Lemma written_app l k : written (l ++ k) = written l +:+ written k.
Proof. unfold written. by rewrite omap_app, concat_strings_app. Qed.

Lemma closes_app l k : closes (l ++ k) = (closes l + closes k)%nat.
Proof. unfold closes. by rewrite filter_app, length_app. Qed.

Lemma substring_extend s n k : (n + k <= String.length s)%nat ->
  String.substring 0 n s +:+ String.substring 0 k (substr n s) = String.substring 0 (n + k) s.
Proof.
  unfold substr. revert n. induction s as [|c s IH]; intros [|n] Hle; cbn in Hle.
  - assert (k = 0)%nat as -> by lia. done.
  - lia.
  - cbn [Nat.add]. rewrite Nat.sub_0_r, substring_whole. by destruct k.
  - cbn [Nat.add String.substring String.length Nat.sub]. rewrite append_cons. f_equal. apply IH. lia.
Qed.

Definition count_open (l : list iofd) : Z := Z.of_nat (length (filter (fun x => io_open x = true) l)).

Lemma count_open_app l k : count_open (l ++ k) = count_open l + count_open k.
Proof. unfold count_open. rewrite filter_app, length_app. lia. Qed.

Lemma count_open_cons x l : count_open (x :: l) = (if io_open x then 1 else 0) + count_open l.
Proof. unfold count_open. rewrite filter_cons. destruct (io_open x); cbn [length]; [rewrite decide_True by done; cbn; lia|rewrite decide_False by done; lia]. Qed.

Section Transfers.
Context (input : option string) (init : Channel -> option string) (names : list Channel).

(** An entry in the course of the loop. *)
Definition entry_ok (l : list syscall) (stdin_pipe : bool) (x : iofd) : Prop :=
  if bool_decide (io_chan x = CHAN_STDIN) then
    exists b, input = Some b /\ io_buf x = Some b /\ (io_nbytes x <= String.length b)%nat /\
      written l = String.substring 0 (io_nbytes x) b /\ (io_open x = true -> stdin_pipe = true)
  else io_buf x = (fun b => b +:+ reads (io_chan x) l) <$> init (io_chan x).

(** The invariant, for the entries [full] of a round in progress. *)
Record comm_ok (full : list iofd) (c : comm) : Prop := {
  co_names : map io_chan full = names;
  co_chans : NoDup (map io_chan full);
  co_entries : Forall (entry_ok (calls c) (stdin_pipe c)) full;
  co_remain : fd_remain c = count_open full;
  co_pipe : stdin_pipe c = true -> closes (calls c) = 0%nat;
  co_closes : (closes (calls c) <= 1)%nat;
  co_closed : closes (calls c) = 1%nat -> written (calls c) = default "" input;
  co_prefix : exists k, written (calls c) = String.substring 0 k (default "" input) }.

(** What one entry may add to the calls. *)
Definition own_calls (chan : Channel) (cs : list syscall) : Prop :=
  (forall chan', chan' <> chan -> reads chan' cs = "") /\ (chan <> CHAN_STDIN -> written cs = "" /\ closes cs = 0%nat).

Lemma entry_ok_other l p p' cs x chan :
  own_calls chan cs -> io_chan x <> chan -> (io_chan x = CHAN_STDIN -> p' = p) ->
  entry_ok l p x -> entry_ok (l ++ cs) p' x.
Proof.
  intros [Hr Hw] Hne Hp. unfold entry_ok. rewrite reads_app, (Hr _ Hne), append_nil_r. case_bool_decide as Es; [|done].
  intros (b & Hi & Hb & Hn & Hwr & Ho). exists b. rewrite (Hp Es), written_app.
  destruct Hw as [-> _]; [congruence|]. by rewrite append_nil_r.
Qed.

(** One entry of the loop: the calls it adds and the entry after it. *)
Record handled (l : list syscall) (p : bool) (x x' : iofd) (done close_stdin : bool) (cs : list syscall) : Prop := {
  hd_chan : io_chan x' = io_chan x;
  hd_open : io_open x' = io_open x && negb done;
  hd_done : done = true -> io_open x = true;
  hd_calls : own_calls (io_chan x) cs;
  hd_idle : io_open x = false -> cs = [];
  hd_close : close_stdin = true -> io_chan x = CHAN_STDIN /\ done = true /\ written (l ++ cs) = default "" input;
  hd_closes : closes cs = 0%nat;
  hd_entry : entry_ok (l ++ cs) (p && negb close_stdin) x';
  hd_prefix : io_chan x = CHAN_STDIN -> exists k, written (l ++ cs) = String.substring 0 k (default "" input) }.

Lemma own_read chan s : own_calls chan [Read chan s].
Proof.
  split; [|done]. intros chan' Hne. unfold reads. cbn. by rewrite bool_decide_eq_false_2.
Qed.

Lemma own_nil chan : own_calls chan [].
Proof. by split. Qed.

Lemma own_write data n : own_calls CHAN_STDIN [Write data n].
Proof. by split. Qed.

Lemma reads_one chan s : reads chan [Read chan s] = s.
Proof. unfold reads. cbn. rewrite bool_decide_eq_true_2 by done. apply append_nil_r. Qed.

Lemma written_read l chan s : written (l ++ [Read chan s]) = written l +:+ "".
Proof. by rewrite written_app. Qed.

Lemma entry_prefix l p x : entry_ok l p x -> io_chan x = CHAN_STDIN ->
  exists k, written l = String.substring 0 k (default "" input).
Proof.
  unfold entry_ok. intros Hx Hc. rewrite bool_decide_eq_true_2 in Hx by done.
  destruct Hx as (b & -> & _ & _ & Hw & _). eauto.
Qed.

(** Reading from an entry. *)
Lemma handle_read e l p x : entry_ok l p x -> event_ok x e = true -> ev_in e = true ->
  exists x' done cs, handle_fd e x = Some (x', done, false, cs) /\ handled l p x x' done false cs.
Proof.
  intros Hx He Hin. unfold handle_fd. rewrite Hin. unfold event_ok in He. rewrite Hin in He. cbn [orb negb] in He.
  rewrite orb_false_r, andb_true_iff in He. destruct He as [Hop He].
  assert (Hsame : forall x', io_chan x' = io_chan x -> io_buf x' = io_buf x -> io_nbytes x' = io_nbytes x ->
    (io_open x' = true -> io_open x = true) -> entry_ok (l ++ [Read (io_chan x) ""]) (p && negb false) x').
  { intros x' Ec Eb En Eo. unfold entry_ok in *. rewrite Ec, Eb, En, andb_true_r.
    rewrite reads_app, reads_one, append_nil_r, written_read, append_nil_r.
    case_bool_decide; [|done]. destruct Hx as (b & ? & ? & ? & ? & ?). exists b. split_and!; auto. }
  assert (Hpre : io_chan x = CHAN_STDIN -> exists k, written (l ++ [Read (io_chan x) ""]) = String.substring 0 k (default "" input)).
  { intros Hc. rewrite written_read, append_nil_r. by eapply entry_prefix. }
  case_bool_decide as Es.
  - apply andb_true_iff in He as [He _]. cbn [orb] in He. destruct (ev_read e) as [|  |[]]; try done.
    do 3 eexists. split; [done|]. cbn [negb]. split; try done; try (intros ?; congruence); [by rewrite andb_comm|apply own_read|by apply Hsame].
  - destruct (ev_read e) as [s| |retry].
    + do 3 eexists. split; [done|]. unfold entry_ok in Hx. rewrite bool_decide_eq_false_2 in Hx by done.
      destruct (io_buf x) as [b|] eqn:Eb; (split; try done; try (intros ?; congruence); [by rewrite Hop|apply own_read|]);
        unfold entry_ok; cbn [io_chan io_buf]; rewrite bool_decide_eq_false_2, reads_app, reads_one by done.
      * destruct (init (io_chan x)); [|done]. injection Hx as ->. cbn. by rewrite append_assoc.
      * rewrite Eb. by destruct (init (io_chan x)).
    + do 3 eexists. split; [done|]. split; try done; try (intros ?; congruence); [by rewrite andb_comm|apply own_read|by apply Hsame].
    + do 3 eexists. split; [done|]. split; try done; try (intros ?; congruence); try (by destruct retry); [|apply own_read|].
      * destruct retry; cbn; by rewrite Hop.
      * by destruct retry; apply Hsame.
Qed.

(** Writing to stdin: [k] characters are taken. *)
Lemma handle_write e l p x : entry_ok l p x -> event_ok x e = true -> ev_in e = false -> ev_out e = true ->
  exists x' done cl cs, handle_fd e x = Some (x', done, cl, cs) /\ handled l p x x' done cl cs /\ (cl = true -> p = true).
Proof.
  intros Hx He Hin Hout. unfold handle_fd. rewrite Hin, Hout. unfold event_ok in He. rewrite Hin, Hout in He.
  cbn [orb negb] in He. rewrite orb_false_r, andb_true_iff in He. destruct He as [Hop He].
  case_bool_decide as Es; [|done]. cbn [andb] in He.
  pose proof Hx as Hx0. unfold entry_ok in Hx. rewrite bool_decide_eq_true_2 in Hx by done.
  destruct Hx as (b & Hi & Hb & Hn & Hw & Hp). rewrite Hb in He |- *. cbn [mbind option_bind].
  set (n := (String.length b - io_nbytes x)%nat) in *.
  set (ac := if (0 <? n)%nat then _ else _). destruct ac as [ans cs] eqn:Eac.
  assert (Hcs : own_calls CHAN_STDIN cs /\ closes cs = 0%nat /\
    match ans with
    | Wrote k => (k <= n)%nat /\ written (l ++ cs) = String.substring 0 (io_nbytes x + k) b
    | WriteErr _ => written (l ++ cs) = written l
    end).
  { unfold ac in Eac. destruct (0 <? n)%nat eqn:En; injection Eac as <- <-.
    - split; [apply own_write|]. split; [done|]. rewrite written_app. destruct (ev_write e) as [k|]; cbn [written omap list_omap concat_strings foldr].
      + apply Nat.leb_le in He. split; [done|]. rewrite append_nil_r, Hw, substring_extend by lia. done.
      + by destruct (substr _ _); rewrite !append_nil_r.
    - split; [apply own_nil|]. split; [done|]. split; [lia|]. by rewrite app_nil_r, Nat.add_0_r, Hw. }
  destruct Hcs as (Hown & Hclo & Hans). destruct ans as [k|retry].
  - destruct Hans as [Hk Hwk]. cbn [io_nbytes].
    assert (Hent : forall o q, (o = true -> q = true) ->
      entry_ok (l ++ cs) q (mkIofd (io_chan x) o (Some b) (io_nbytes x + k))).
    { intros o q Ho. unfold entry_ok. cbn [io_chan io_buf io_nbytes io_open]. rewrite bool_decide_eq_true_2 by done.
      exists b. split_and!; try done. lia. }
    assert (Hpre : exists j, written (l ++ cs) = String.substring 0 j (default "" input)) by (rewrite Hi; eauto).
    destruct (String.length b <=? io_nbytes x + k)%nat eqn:Efull.
    + do 4 eexists. split; [done|]. split; [|by intros _; apply Hp]. split; cbn; try done; try (intros ?; congruence); [by rewrite andb_comm| | |].
      * by rewrite Es.
      * intros _. split_and!; try done. apply Nat.leb_le in Efull. rewrite Hi, Hwk. cbn.
        assert (io_nbytes x + k = String.length b)%nat as -> by lia. apply substring_whole.
      * by apply Hent.
    + do 4 eexists. split; [done|]. split; [|done]. split; cbn; try done; try (intros ?; congruence); [by rewrite Hop|by rewrite Es|].
      apply Hent. rewrite andb_true_r. apply Hp.
  - do 4 eexists. split; [done|]. split; [|done].
    assert (Hent : forall x', io_chan x' = io_chan x -> io_buf x' = io_buf x -> io_nbytes x' = io_nbytes x ->
      (io_open x' = true -> io_open x = true) -> entry_ok (l ++ cs) (p && negb false) x').
    { intros x' Ec Eb En Eo. unfold entry_ok. rewrite Ec, Eb, En, andb_true_r, bool_decide_eq_true_2 by done.
      exists b. split_and!; try done; [by rewrite Hans|auto]. }
    split; try done; try (intros ?; congruence); try (by destruct retry); [destruct retry; cbn; by rewrite Hop|by rewrite Es|by destruct retry; apply Hent|].
    intros _. rewrite Hans. by eapply entry_prefix.
Qed.

Lemma handled_nothing l p x : entry_ok l p x -> handled l p x x false false [].
Proof.
  intros Hx. split; try done; [by rewrite andb_true_r|by rewrite app_nil_r, andb_true_r|].
  rewrite app_nil_r. by eapply entry_prefix.
Qed.

Lemma handled_error l p x : entry_ok l p x -> io_open x = true -> handled l p x (shut x) true false [].
Proof.
  intros Hx Ho. split; try done; [by rewrite andb_comm| |rewrite app_nil_r; by eapply entry_prefix].
  rewrite app_nil_r, andb_true_r. unfold entry_ok in *. cbn. case_bool_decide; [|done].
  destruct Hx as (b & ? & ? & ? & ? & ?). exists b. by split_and!.
Qed.

Lemma handle_fd_ok e l p x : entry_ok l p x -> event_ok x e = true ->
  exists x' done cl cs, handle_fd e x = Some (x', done, cl, cs) /\ handled l p x x' done cl cs /\ (cl = true -> p = true).
Proof.
  intros Hx He. destruct (ev_in e) eqn:Hin.
  { destruct (handle_read e l p x Hx He Hin) as (x' & d & cs & E & Hh). exists x', d, false, cs. by split_and!. }
  destruct (ev_out e) eqn:Hout; [by apply handle_write|]. unfold handle_fd. rewrite Hin, Hout.
  unfold event_ok in He. rewrite Hin, Hout in He. apply andb_true_iff in He as [He _].
  destruct (ev_err e) eqn:Herr; do 4 eexists; (split; [done|]); (split; [|done]).
  - apply handled_error; [done|]. by destruct (io_open x).
  - by apply handled_nothing.
Qed.

(** One entry, among those before and after it. *)
Lemma handled_ok pre x post x' done cl cs c :
  comm_ok (pre ++ x :: post) c -> handled (calls c) (stdin_pipe c) x x' done cl cs -> (cl = true -> stdin_pipe c = true) ->
  comm_ok (pre ++ x' :: post)
    (mkComm (fds c ++ [x']) (if done : bool then fd_remain c - 1 else fd_remain c) (stdin_pipe c && negb cl)
       (calls c ++ cs ++ (if cl then [CloseStdin] else []))).
Proof.
  intros [Hnm Hnd Hall Hrem Hpipe Hcl Hclosed Hprefix] Hh Hclp.
  assert (Hwr : written (calls c ++ cs ++ (if cl then [CloseStdin] else [])) = written (calls c ++ cs)).
  { rewrite !written_app. destruct cl; [|by rewrite !append_nil_r]. cbn. by rewrite append_nil_r. }
  assert (Hrd : forall ch, reads ch (calls c ++ cs ++ (if cl then [CloseStdin] else [])) = reads ch (calls c ++ cs)).
  { intros ch. rewrite !reads_app. destruct cl; cbn; by rewrite append_nil_r. }
  assert (Hent : forall q y, entry_ok (calls c ++ cs) q y ->
    entry_ok (calls c ++ cs ++ (if cl then [CloseStdin] else [])) q y).
  { intros q y. unfold entry_ok. by rewrite Hwr, Hrd. }
  rewrite map_app in Hnd. cbn [map] in Hnd. apply NoDup_app in Hnd as (Hnp & Hpx & [Hnx Hns]%NoDup_cons).
  apply Forall_app in Hall as [Hpre [Hx Hpost]%Forall_cons].
  assert (Hother : forall y, entry_ok (calls c) (stdin_pipe c) y -> io_chan y <> io_chan x ->
    entry_ok (calls c ++ cs ++ (if cl then [CloseStdin] else [])) (stdin_pipe c && negb cl) y).
  { intros y Hy Hne. apply Hent. eapply entry_ok_other; [apply (hd_calls _ _ _ _ _ _ _ Hh)|done| |exact Hy].
    intros Ey. destruct cl; [|by rewrite andb_true_r]. destruct (hd_close _ _ _ _ _ _ _ Hh eq_refl) as (Ex & _). congruence. }
  split; cbn [calls fd_remain stdin_pipe].
  - rewrite map_app in *. cbn [map] in *. by rewrite (hd_chan _ _ _ _ _ _ _ Hh).
  - rewrite map_app. cbn [map]. rewrite (hd_chan _ _ _ _ _ _ _ Hh). apply NoDup_app. split_and!; try done. by apply NoDup_cons.
  - apply Forall_app. split; [|constructor; [apply Hent, (hd_entry _ _ _ _ _ _ _ Hh)|]].
    + apply Forall_forall. intros y Hy. apply Hother; [by apply (proj1 (Forall_forall _ _) Hpre)|]. intros E. apply (Hpx (io_chan y)); [by apply list_elem_of_fmap_2|rewrite E; by left].
    + apply Forall_forall. intros y Hy. apply Hother; [by apply (proj1 (Forall_forall _ _) Hpost)|]. intros E. apply Hnx. rewrite <- E. by apply list_elem_of_fmap_2.
  - rewrite Hrem, !count_open_app, !count_open_cons, (hd_open _ _ _ _ _ _ _ Hh).
    destruct done; [rewrite (hd_done _ _ _ _ _ _ _ Hh eq_refl); cbn; lia|cbn [negb]; by rewrite andb_true_r].
  - rewrite !closes_app, (hd_closes _ _ _ _ _ _ _ Hh). destruct cl; [by rewrite andb_comm|]. rewrite andb_true_r. intros Hp. by rewrite Hpipe.
  - rewrite !closes_app, (hd_closes _ _ _ _ _ _ _ Hh). destruct cl; [rewrite Hpipe by auto; done|]. change (closes []) with 0%nat. lia.
  - rewrite Hwr, !closes_app, (hd_closes _ _ _ _ _ _ _ Hh). destruct cl; [by intros _; apply (hd_close _ _ _ _ _ _ _ Hh)|].
    cbn. rewrite Nat.add_0_r. intros Hc. rewrite <- (Hclosed Hc), written_app.
    assert (written cs = "") as ->; [|by rewrite append_nil_r]. destruct (decide (io_chan x = CHAN_STDIN)) as [E|E].
    + assert (io_open x = false) as Ho.
      { unfold entry_ok in Hx. rewrite bool_decide_eq_true_2 in Hx by done. destruct Hx as (b & _ & _ & _ & _ & Hp).
        destruct (io_open x); [|done]. rewrite (Hpipe (Hp eq_refl)) in Hc. done. }
      by rewrite (hd_idle _ _ _ _ _ _ _ Hh Ho).
    + by apply (hd_calls _ _ _ _ _ _ _ Hh).
  - rewrite Hwr. destruct (decide (io_chan x = CHAN_STDIN)) as [E|E]; [by apply (hd_prefix _ _ _ _ _ _ _ Hh)|].
    rewrite written_app. destruct (hd_calls _ _ _ _ _ _ _ Hh) as [_ Hw]. destruct (Hw E) as [-> _]. by rewrite append_nil_r.
Qed.

Lemma handle_fds_ok es : forall xs c, events_ok xs es = true -> comm_ok (fds c ++ xs) c ->
  exists c', handle_fds es xs c = Some c' /\ comm_ok (fds c') c'.
Proof.
  unfold events_ok. induction es as [|e es IH]; intros [|x xs] c; cbn [length combine forallb Nat.eqb]; try done.
  - intros _ Hc. eexists. split; [done|]. by destruct Hc.
  - rewrite !andb_true_iff. intros (Hl & He & Hes) Hc. cbn [handle_fds].
    assert (Hx : entry_ok (calls c) (stdin_pipe c) x).
    { pose proof (co_entries _ _ Hc) as Hall. apply Forall_app in Hall as [_ Hall]. by apply Forall_cons in Hall as [? _]. }
    destruct (handle_fd_ok e _ _ x Hx He) as (x' & d & cl & cs & -> & Hh & Hcl). cbn [mbind option_bind].
    assert (cl && negb (stdin_pipe c) = false) as -> by (destruct cl; [by rewrite Hcl|done]).
    apply IH; [by rewrite Hl, Hes|]. cbn [fds]. rewrite <- app_assoc. by eapply handled_ok.
Qed.

Lemma poll_round_ok es c : events_ok (fds c) es = true -> comm_ok (fds c) c ->
  exists c', poll_round es c = Some c' /\ comm_ok (fds c') c'.
Proof. intros He Hc. apply handle_fds_ok; [done|]. by destruct Hc. Qed.

(** The result of the loop, whatever ended it. *)
Record transferred (c : comm) (oc : outcome) : Prop := {
  tr_names : map io_chan (fds c) = names;
  tr_outputs : forall x, x ∈ fds c -> io_chan x <> CHAN_STDIN ->
    io_buf x = (fun b => b +:+ reads (io_chan x) (calls c)) <$> init (io_chan x);
  tr_prefix : exists k, written (calls c) = String.substring 0 k (default "" input);
  tr_closes : (closes (calls c) <= 1)%nat;
  tr_closed : oc <> TimedOut -> closes (calls c) = 1%nat -> written (calls c) = default "" input;
  tr_pipe : stdin_pipe c = true -> closes (calls c) = 0%nat;
  tr_done : oc = Finished -> forall x, x ∈ fds c -> io_open x = false }.

Lemma outputs_of l p x : entry_ok l p x -> io_chan x <> CHAN_STDIN ->
  io_buf x = (fun b => b +:+ reads (io_chan x) l) <$> init (io_chan x).
Proof. unfold entry_ok. intros Hx Hne. by rewrite bool_decide_eq_false_2 in Hx. Qed.

Lemma comm_ok_transferred c oc : comm_ok (fds c) c -> (oc = Finished -> fd_remain c <= 0) -> transferred c oc.
Proof.
  intros [Hnm Hnd Hall Hrem Hp Hcl Hclosed Hpre] Hfin. split; auto.
  - intros x Hx. apply (outputs_of _ (stdin_pipe c)). by apply (proj1 (Forall_forall _ _) Hall).
  - intros E x Hx. specialize (Hfin E). rewrite Hrem in Hfin. unfold count_open in Hfin.
    destruct (io_open x) eqn:Eo; [|done].
    assert (Hin : x ∈ filter (fun x => io_open x = true) (fds c)) by by apply list_elem_of_filter.
    destruct (filter _ (fds c)); [by apply elem_of_nil in Hin|cbn in Hfin; lia].
Qed.

Lemma communicate_ok rounds : forall c, rounds_ok rounds c -> comm_ok (fds c) c ->
  exists c' oc, communicate rounds c = Some (c', oc) /\ transferred c' oc.
Proof.
  induction rounds as [|r rounds IH]; intros c Hr Hc; cbn [communicate].
  - destruct (fd_remain c <=? 0) eqn:E; do 2 eexists; (split; [done|]); apply comm_ok_transferred; try done.
    intros _. by apply Z.leb_le.
  - destruct (fd_remain c <=? 0) eqn:E.
    { do 2 eexists. split; [done|]. apply comm_ok_transferred; [done|]. intros _. by apply Z.leb_le. }
    assert (Hfail : transferred (mkComm (fds c) 0 (stdin_pipe c) (calls c)) PollFailed).
    { destruct (comm_ok_transferred c PollFailed Hc ltac:(done)). split; done. }
    destruct r as [[]| |[] es]; cbn [rounds_ok] in Hr.
    + by apply IH.
    + by do 2 eexists.
    + by do 2 eexists.
    + do 2 eexists. split; [done|]. destruct Hc as [Hnm Hnd Hall Hrem Hp Hcl Hclosed [k Hpre]].
      assert (Hw : written (calls (time_out c)) = written (calls c)).
      { unfold time_out. cbn [calls]. rewrite written_app. destruct (stdin_pipe c); by rewrite append_nil_r. }
      split; try done; [|exists k; by rewrite Hw|].
      * intros x Hx Hne. unfold time_out in *. cbn [calls fds] in *. rewrite reads_app.
        assert (reads (io_chan x) (if stdin_pipe c then [CloseStdin] else []) = "") as -> by by destruct (stdin_pipe c).
        rewrite append_nil_r. apply (outputs_of _ (stdin_pipe c)); [by apply (proj1 (Forall_forall _ _) Hall)|done].
      * unfold time_out. cbn [calls]. rewrite closes_app. destruct (stdin_pipe c); [by rewrite Hp|change (closes []) with 0%nat; lia].
    + destruct Hr as [He Hr]. destruct (poll_round_ok es c He Hc) as (c' & E' & Hc'). rewrite E' in Hr |- *.
      cbn [mbind option_bind]. by apply IH.
Qed.
End Transfers.

(** ** The whole call *)

Definition stdin_of (actions : list ChannelAction) (stdin_input : option string) : option string :=
  if bool_decide (actions !! 0%nat = Some ACTION_PIPE) then stdin_input else None.

Definition init_of (out err : option string) (chan : Channel) : option string :=
  match chan with CHAN_STDIN => None | CHAN_STDOUT => out | CHAN_STDERR => err end.

Lemma setup_ok actions input out err :
  let c := setup actions input out err in
  comm_ok (stdin_of actions input) (init_of out err) (map io_chan (fds c)) (fds c) c.
Proof.
  assert (Hout : forall l p x, x = mkIofd CHAN_STDOUT true out 0 \/ x = mkIofd CHAN_STDERR true err 0 ->
    l = [] \/ l = [CloseStdin] -> entry_ok (stdin_of actions input) (init_of out err) l p x).
  { intros l p x [-> | ->] [-> | ->]; unfold entry_ok; cbn;
      [destruct out|destruct out|destruct err|destruct err]; cbn; by rewrite ?append_nil_r. }
  unfold setup, stdin_of in *. cbn zeta.
  destruct (bool_decide (actions !! 0%nat = Some ACTION_PIPE)), (bool_decide (actions !! 1%nat = Some ACTION_PIPE)),
    (bool_decide (actions !! 2%nat = Some ACTION_PIPE)); destruct input as [b|].
  all: rewrite ?(bool_decide_eq_true_2 (is_Some (Some _))) by by eexists.
  all: rewrite ?(bool_decide_eq_false_2 (is_Some None)) by by intros [? ?].
  all: cbn [andb negb app length].
  all: split; cbn [fds calls stdin_pipe fd_remain]; try done; try (by exists 0%nat; destruct b); try (by exists 0%nat).
  all: try (repeat constructor; set_solver).
  all: repeat constructor; try (apply Hout; solve [auto]).
  all: unfold entry_ok; cbn; exists b; split_and!; try done; lia || by destruct b.
Qed.

(** C34: whatever poll, read and write answer, the loop calls nothing on a closed
    descriptor and closes stdin at most once; the outputs are what was read of
    them, in order; what the command got is a prefix of the input, and all of
    it when stdin was closed before a time-out; and at the end of the loop
    every pipe has been closed or has failed. *)
Theorem Communicate_transfers actions input out err rounds :
  let c0 := setup actions input out err in
  rounds_ok rounds c0 ->
  exists c oc, communicate rounds c0 = Some (c, oc) /\
    map io_chan (fds c) = map io_chan (fds c0) /\
    (forall x, x ∈ fds c -> io_chan x <> CHAN_STDIN ->
       io_buf x = (fun b => b +:+ reads (io_chan x) (calls c)) <$> init_of out err (io_chan x)) /\
    (exists k, written (calls c) = String.substring 0 k (default "" (stdin_of actions input))) /\
    (closes (calls c) <= 1)%nat /\
    (oc <> TimedOut -> closes (calls c) = 1%nat -> written (calls c) = default "" (stdin_of actions input)) /\
    (oc = Finished -> forall x, x ∈ fds c -> io_open x = false).
Proof.
  intros c0 Hr. destruct (communicate_ok _ _ _ rounds c0 Hr (setup_ok actions input out err)) as (c & oc & E & []).
  exists c, oc. by split_and!.
Qed.

(** *** Progress *)

(** What remains to be done with an entry. *)
Definition work (x : iofd) : nat :=
  if io_open x then
    S (if bool_decide (io_chan x = CHAN_STDIN)
       then match io_buf x with Some b => String.length b - io_nbytes x | None => 0 end else 0)
  else 0.

Definition bytes_read (l : list syscall) : nat :=
  (String.length (reads CHAN_STDOUT l) + String.length (reads CHAN_STDERR l))%nat.

(** An event that moves a byte or ends with an entry. *)
Definition moves (x : iofd) (e : event) : bool :=
  if ev_in e then
    match ev_read e with Bytes s => negb (bool_decide (s = "")) | Eof => true | ReadErr retry => negb retry end
  else if ev_out e then
    match io_buf x with
    | Some b =>
        (String.length b <=? io_nbytes x)%nat ||
        match ev_write e with Wrote n => (0 <? n)%nat | WriteErr retry => negb retry end
    | None => false
    end
  else ev_err e.

Fixpoint rounds_move (rounds : list poll_result) (c : comm) : Prop :=
  match rounds with
  | [] => True
  | Poll false es :: rounds =>
      existsb (fun '(x, e) => moves x e) (combine (fds c) es) = true /\
      match poll_round es c with Some c => rounds_move rounds c | None => True end
  | PollErr true :: _ => False
  | _ => True
  end.

Fixpoint works (l : list iofd) : nat := match l with [] => 0 | x :: l => work x + works l end.

Lemma works_app l k : works (l ++ k) = (works l + works k)%nat.
Proof. induction l as [|x l IH]; cbn; [done|]. rewrite IH. lia. Qed.

Lemma bytes_read_app l k : bytes_read (l ++ k) = (bytes_read l + bytes_read k)%nat.
Proof. unfold bytes_read. rewrite !reads_app, !length_append. lia. Qed.

Section Progress.
Context (input : option string) (init : Channel -> option string) (names : list Channel).
Notation entry_ok := (entry_ok input init).
Notation comm_ok := (comm_ok input init names).

Lemma length_pos s : bool_decide (s = "") = false -> (0 < String.length s)%nat.
Proof. rewrite bool_decide_eq_false. destruct s; [done|cbn; lia]. Qed.

(** A byte or an entry pays for every event that moves. *)
Lemma handle_fd_cost e l p x x' d cl cs : entry_ok l p x -> event_ok x e = true ->
  handle_fd e x = Some (x', d, cl, cs) ->
  (work x' + (if moves x e then 1 else 0) <= work x + bytes_read cs)%nat.
Proof.
  intros Hx He Eh. unfold handle_fd, moves, event_ok in *.
  destruct (ev_in e); cbn [orb negb andb] in *.
  - rewrite orb_false_r in He. apply andb_true_iff in He as [Ho He]. case_bool_decide as Es; cbn [orb andb negb] in He.
    + destruct (ev_read e) as [| |[]]; try done; [by rewrite andb_false_l in He..|].
      injection Eh as <- <- <- <-. unfold work, shut. cbn. rewrite Ho. lia.
    + destruct (ev_read e) as [s| |retry]; injection Eh as <- <- <- <-.
      * assert (Hb : bytes_read [Read (io_chan x) s] = String.length s).
        { unfold bytes_read. destruct (io_chan x); [done| |]; rewrite reads_one.
          - change (reads CHAN_STDERR [Read CHAN_STDOUT s]) with "". cbn. lia.
          - change (reads CHAN_STDOUT [Read CHAN_STDERR s]) with "". cbn. lia. }
        assert (Hw : forall o n, work (mkIofd (io_chan x) (io_open x) o n) = 1%nat).
        { intros o n. unfold work. cbn. by rewrite Ho, bool_decide_eq_false_2. }
        assert (Hwx : work x = 1%nat) by (unfold work; by rewrite Ho, bool_decide_eq_false_2).
        destruct (io_buf x); cbn [io_chan]; rewrite Hb, ?Hw, Hwx;
        (destruct (bool_decide (s = "")) eqn:E0; cbn; [lia|]; apply length_pos in E0; lia).
      * unfold work, shut. cbn. rewrite Ho. lia.
      * destruct retry; cbn; [lia|]. unfold work. rewrite Ho. cbn. lia.
  - destruct (ev_out e); cbn [orb negb andb] in *.
    + rewrite orb_false_r in He. apply andb_true_iff in He as [Ho He]. case_bool_decide as Es; [|done].
      unfold entry_ok in Hx. rewrite bool_decide_eq_true_2 in Hx by done. destruct Hx as (b & _ & Hb & Hn & _ & _).
      rewrite Hb in *. cbn [mbind option_bind] in Eh.
      assert (Hwx : work x = S (String.length b - io_nbytes x)) by (unfold work; by rewrite Ho, bool_decide_eq_true_2, Hb).
      remember (String.length b - io_nbytes x)%nat as n eqn:Hn0. rewrite Hwx.
      destruct (0 <? n)%nat eqn:En.
      * apply Nat.ltb_lt in En. rewrite (proj2 (Nat.leb_gt _ _)) by lia. cbn [orb].
        destruct (ev_write e) as [k|[]].
        -- cbn [io_nbytes] in Eh. destruct (String.length b <=? io_nbytes x + k)%nat eqn:Ef; injection Eh as <- <- <- <-.
           ++ cbn. destruct k; lia.
           ++ apply Nat.leb_gt in Ef. unfold work. cbn. rewrite Ho, bool_decide_eq_true_2 by done.
              destruct k; lia.
        -- injection Eh as <- <- <- <-. rewrite Hwx. cbn. lia.
        -- injection Eh as <- <- <- <-. cbn. lia.
      * apply Nat.ltb_ge in En. cbn [io_nbytes] in Eh. rewrite (proj2 (Nat.leb_le _ _)) in Eh by lia.
        injection Eh as <- <- <- <-. unfold shut, work. cbn [io_open]. destruct (_ || _); lia.
    + destruct (ev_err e); cbn [orb negb andb] in *; injection Eh as <- <- <- <-; [|lia].
      rewrite orb_false_r in He. apply andb_true_iff in He as [Ho _]. unfold work. cbn. rewrite Ho. lia.
Qed.

Lemma handle_fds_cost es : forall xs c c', events_ok xs es = true -> comm_ok (fds c ++ xs) c ->
  handle_fds es xs c = Some c' ->
  (works (fds c') + (if existsb (fun '(x, e) => moves x e) (combine xs es) then 1 else 0) + bytes_read (calls c) <=
   works (fds c ++ xs) + bytes_read (calls c'))%nat.
Proof.
  unfold events_ok. induction es as [|e es IH]; intros [|x xs] c c'; cbn [length combine forallb Nat.eqb existsb]; try done.
  - intros _ _ [= <-]. cbn [fds calls]. lia.
  - rewrite !andb_true_iff. intros (Hl & He & Hes) Hc. cbn [handle_fds].
    assert (Hx : entry_ok (calls c) (stdin_pipe c) x).
    { pose proof (co_entries _ _ _ _ _ Hc) as Hall. apply Forall_app in Hall as [_ Hall]. by apply Forall_cons in Hall as [? _]. }
    destruct (handle_fd_ok input init e _ _ x Hx He) as (x' & d & cl & cs & E & Hh & Hcl). rewrite E. cbn [mbind option_bind].
    pose proof (handle_fd_cost _ _ _ _ _ _ _ _ Hx He E) as Hcost.
    assert (cl && negb (stdin_pipe c) = false) as -> by (destruct cl; [by rewrite Hcl|done]).
    set (c1 := mkComm _ _ _ _). intros Hrest. apply IH in Hrest; [|by rewrite Hl, Hes|].
    + cbn [c1 fds calls] in Hrest. rewrite !bytes_read_app, !works_app in *. cbn [works] in *.
      assert (bytes_read (if cl then [CloseStdin] else []) = 0%nat) as E0 by by destruct cl.
      rewrite E0 in Hrest. destruct (moves x e), (existsb _ _); cbn [orb] in *; lia.
    + cbn [c1 fds]. rewrite <- app_assoc. by eapply handled_ok.
Qed.

Lemma communicate_cost rounds : forall c c', rounds_ok rounds c -> rounds_move rounds c -> comm_ok (fds c) c ->
  communicate rounds c = Some (c', Polling) ->
  (length rounds + works (fds c') + bytes_read (calls c) <= works (fds c) + bytes_read (calls c'))%nat.
Proof.
  induction rounds as [|r rounds IH]; intros c c' Hr Hm Hc; cbn [communicate]; destruct (_ <=? 0); try done.
  - intros [= <-]. cbn. lia.
  - destruct r as [[]| |[] es]; try done. cbn [rounds_ok rounds_move] in *. destruct Hr as [He Hr], Hm as [Hmv Hm].
    destruct (poll_round_ok _ _ _ es c He Hc) as (c1 & E1 & Hc1). rewrite E1 in *. cbn [mbind option_bind].
    intros E. specialize (IH _ _ Hr Hm Hc1 E).
    assert (Hcost := handle_fds_cost es (fds c) (mkComm [] (fd_remain c) (stdin_pipe c) (calls c)) c1 He).
    rewrite Hmv in Hcost. cbn [fds calls app] in Hcost. specialize (Hcost ltac:(by destruct Hc) E1). cbn [length]. lia.
Qed.
End Progress.

Lemma works_setup actions input out err :
  (works (fds (setup actions input out err)) <= 3 + String.length (default "" (stdin_of actions input)))%nat.
Proof.
  unfold setup, stdin_of. cbn [fds]. rewrite !works_app.
  assert (Hone : forall (b : bool) chan o, chan <> CHAN_STDIN -> (works (if b then [mkIofd chan true o 0] else []) <= 1)%nat).
  { intros b chan o Hne. destruct b; cbn [works]; [|lia]. unfold work. cbn [io_open io_chan].
    rewrite bool_decide_eq_false_2 by done. lia. }
  pose proof (Hone (bool_decide (actions !! 1%nat = Some ACTION_PIPE)) CHAN_STDOUT out ltac:(done)).
  pose proof (Hone (bool_decide (actions !! 2%nat = Some ACTION_PIPE)) CHAN_STDERR err ltac:(done)).
  destruct (bool_decide (actions !! 0%nat = Some ACTION_PIPE)); cbn [andb]; [|cbn [works]; lia].
  destruct input as [b|]; [rewrite bool_decide_eq_true_2 by by eexists|rewrite bool_decide_eq_false_2 by by intros [? ?]];
    cbn [works default from_option]; [|lia].
  change (work (mkIofd CHAN_STDIN true (Some b) 0)) with (S (String.length b - 0)). cbn [id]. lia.
Qed.

(** The loop ends: while it is still polling, every return of poll that moved
    something is paid for by one of the three pipes, a character of the input
    or a character of the output. *)
Theorem Communicate_terminates actions input out err rounds c :
  let c0 := setup actions input out err in
  rounds_ok rounds c0 -> rounds_move rounds c0 -> communicate rounds c0 = Some (c, Polling) ->
  (length rounds <= 3 + String.length (default "" (stdin_of actions input)) +
                    String.length (reads CHAN_STDOUT (calls c)) + String.length (reads CHAN_STDERR (calls c)))%nat.
Proof.
  intros c0 Hr Hm E. pose proof (communicate_cost _ _ _ rounds c0 c Hr Hm (setup_ok actions input out err) E) as Hc.
  pose proof (works_setup actions input out err) as Hw. fold c0 in Hw. unfold bytes_read in Hc at 2. lia.
Qed.

(** A command that answers while it is given two characters. *)
Definition quiet : event := mkEvent false false false Eof (Wrote 0).
Definition takes (n : nat) : event := mkEvent false true false Eof (Wrote n).
Definition prints (s : string) : event := mkEvent true false false (Bytes s) (Wrote 0).
Definition ends : event := mkEvent true false false Eof (Wrote 0).

Definition all_pipes : list ChannelAction := [ACTION_PIPE; ACTION_PIPE; ACTION_PIPE].

Definition example_rounds : list poll_result :=
  [Poll false [takes 1; prints "x"; quiet]; PollErr true; Poll false [takes 1; prints "y"; ends];
   Poll false [quiet; ends; quiet]].

Definition example_comm : comm := setup all_pipes (Some "ab") (Some "> ") (Some "").

Lemma example_rounds_run :
  communicate example_rounds example_comm =
  Some (mkComm [mkIofd CHAN_STDIN false (Some "ab") 2; mkIofd CHAN_STDOUT false (Some "> xy") 2;
                mkIofd CHAN_STDERR false (Some "") 0] 0 false
          [Write "ab" 1; Read CHAN_STDOUT "x"; Write "b" 1; CloseStdin; Read CHAN_STDOUT "y"; Read CHAN_STDERR "";
           Read CHAN_STDOUT ""], Finished).
Proof. by vm_compute. Qed.

Lemma Communicate_transfers_witness :
  rounds_ok example_rounds example_comm /\
  exists c oc, communicate example_rounds example_comm = Some (c, oc) /\
    map io_chan (fds c) = [CHAN_STDIN; CHAN_STDOUT; CHAN_STDERR] /\
    (forall x, x ∈ fds c -> io_chan x <> CHAN_STDIN ->
       io_buf x = (fun b => b +:+ reads (io_chan x) (calls c)) <$> init_of (Some "> ") (Some "") (io_chan x)) /\
    (exists k, written (calls c) = String.substring 0 k "ab") /\
    (closes (calls c) <= 1)%nat /\
    (oc <> TimedOut -> closes (calls c) = 1%nat -> written (calls c) = "ab") /\
    (oc = Finished -> forall x, x ∈ fds c -> io_open x = false).
Proof.
  assert (H : rounds_ok example_rounds example_comm) by (vm_compute; by repeat split).
  split; [exact H|]. exact (Communicate_transfers all_pipes (Some "ab") (Some "> ") (Some "") example_rounds H).
Defined.

Definition moving_rounds : list poll_result := [Poll false [takes 1; prints "x"; quiet]; Poll false [quiet; prints "yz"; ends]].

Lemma Communicate_terminates_witness :
  (length moving_rounds <= 3 + 2 + 3 + 0)%nat.
Proof.
  apply (Communicate_terminates all_pipes (Some "ab") (Some "> ") (Some "") moving_rounds
    (mkComm [mkIofd CHAN_STDIN true (Some "ab") 1; mkIofd CHAN_STDOUT true (Some "> xyz") 3;
             mkIofd CHAN_STDERR false (Some "") 0] 2 true
       [Write "ab" 1; Read CHAN_STDOUT "x"; Read CHAN_STDOUT "yz"; Read CHAN_STDERR ""])).
  - vm_compute. by repeat split.
  - vm_compute. by repeat split.
  - by vm_compute.
Defined.

(** A command that stops reading its input keeps stdin open: the pipe is
    closed with the object. *)
Lemma broken_pipe_not_closed :
  option_map (fun r => (stdin_pipe (fst r), snd r))
    (communicate [Poll false [mkEvent false true true Eof (WriteErr false)]]
       (setup [ACTION_PIPE; ACTION_CLOSE; ACTION_CLOSE] (Some "ab") None None)) = Some (true, Finished).
Proof. by vm_compute. Qed.
