(* ===== verification/CommandTimer.v ===== *)
(** * CommandTimer: the timer of a command

    [KillAfter], [Kill], [WaitInternal] and the destructor of
    src/heyp/io/subprocess.cc.  The thread that starts the command and calls
    [KillAfter], [Communicate] and the destructor in turn, as the callers that
    set a time-out do, runs beside the timer thread (the two searches for a
    device in data.cc set none: they have no second thread).  A critical section under [proc_mu_]
    is one step, except that of the destructor, which joins the timer thread
    while it holds the lock.  The loop of [Communicate] is one step (see
    [Communicate] for it).  Left out are a [waitpid] that fails without having
    reaped the command and a write to the time-out pipe that fails, which
    leaves the pipe open for the destructor to close.  A process number is greater than 1, [None] stands
    for -1. *)

From stdpp Require Import relations.
From S2P Require Import Prelude.

(** The program points of the thread that owns the object. *)
Inductive main_pc :=
  | Started       (* [Start] returned true *)
  | KillAfterDone
  | Looping       (* in the loop of [Communicate] *)
  | Waiting       (* before [WaitInternal] *)
  | InWaitpid (running : bool) (pid : option Z)  (* what was read under the lock *)
  | WaitpidDone (running : bool) (pid : option Z)
  | Returned      (* from [Communicate] *)
  | Joining       (* in the destructor, holding [proc_mu_] *)
  | Destroyed.

#[export] Instance main_pc_eq_dec : EqDecision main_pc.
Proof. solve_decision. Defined.

Inductive timer_pc :=
  | NoTimer
  | Sleeping      (* in [WaitForNotificationWithTimeout] *)
  | Woken         (* about to lock [proc_mu_] *)
  | Killing (pid : Z)
  | Signalling    (* about to lock [proc_mu_] again *)
  | Exited.

Inductive child := Alive | Zombie | Reaped.
Inductive pipe_end := NoPipe | Open | Closed.

#[export] Instance child_eq_dec : EqDecision child.
Proof. solve_decision. Defined.

(** [notify_done_]: the pointer is not null.  [notifications] and [stranger]
    are for the theorems: how often [Notify] was called, and whether a signal
    went to another process. *)
Record world := mkWorld {
  running_ : bool;
  pid_ : option Z;  (* [None] is -1 *)
  notify_done_ : bool;
  timeout_pipe_ : pipe_end;
  main : main_pc;
  timer : timer_pc;
  command : child;
  notifications : nat;
  stranger : bool }.

Definition set_main (m : main_pc) (w : world) : world :=
  mkWorld (running_ w) (pid_ w) (notify_done_ w) (timeout_pipe_ w) m (timer w) (command w) (notifications w) (stranger w).
Definition set_timer (t : timer_pc) (w : world) : world :=
  mkWorld (running_ w) (pid_ w) (notify_done_ w) (timeout_pipe_ w) (main w) t (command w) (notifications w) (stranger w).
Definition set_command (c : child) (w : world) : world :=
  mkWorld (running_ w) (pid_ w) (notify_done_ w) (timeout_pipe_ w) (main w) (timer w) c (notifications w) (stranger w).
Definition set_pipe (p : pipe_end) (w : world) : world :=
  mkWorld (running_ w) (pid_ w) (notify_done_ w) p (main w) (timer w) (command w) (notifications w) (stranger w).
Definition set_stranger (w : world) : world :=
  mkWorld (running_ w) (pid_ w) (notify_done_ w) (timeout_pipe_ w) (main w) (timer w) (command w) (notifications w) true.

Definition KillAfter (w : world) : world :=
  mkWorld (running_ w) (pid_ w) true (timeout_pipe_ w) KillAfterDone Sleeping (command w) (notifications w) (stranger w).

(** The first section of [Communicate]; [pipe_ok]: pipe(2) succeeds. *)
Definition Communicate_begin (pipe_ok : bool) (w : world) : world :=
  set_pipe (if notify_done_ w && pipe_ok then Open else timeout_pipe_ w)
    (set_main (if running_ w then Looping else Returned) w).

(** [Notify], when the pointer is not null, which is then reset. *)
Definition notify (w : world) : world :=
  if notify_done_ w
  then mkWorld (running_ w) (pid_ w) false (timeout_pipe_ w) (main w) (timer w) (command w) (S (notifications w)) (stranger w)
  else w.

Definition stop_running (w : world) : world :=
  mkWorld false None (notify_done_ w) (timeout_pipe_ w) (main w) (timer w) (command w) (notifications w) (stranger w).

(** The last section of [WaitInternal]. *)
Definition WaitInternal_end (running : bool) (pid : option Z) (w : world) : world :=
  set_main Returned
    (if bool_decide (running_ w = running) && bool_decide (pid_ w = pid) then stop_running (notify w) else w).

(** [waitpid] is called for a process that was running when it was looked up. *)
Definition to_wait_for (running : bool) (pid : option Z) : option Z := if running then pid else None.

(** The destructor up to the join. *)
Definition destructor_begin (w : world) : world := set_main Joining (notify (stop_running w)).

(** The destructor closes what is left of the time-out pipe. *)
Definition destructor_end (w : world) : world :=
  set_pipe (if timeout_pipe_ w is Open then Closed else timeout_pipe_ w) (set_main Destroyed w).

(** The lock is held between steps only by the destructor. *)
Definition unlocked (w : world) : Prop := main w <> Joining.

Definition notified (w : world) : bool := (0 <? notifications w)%nat.

Inductive step (w : world) : world -> Prop :=
  | s_kill_after : main w = Started -> step w (KillAfter w)
  | s_communicate pipe_ok : main w = KillAfterDone -> step w (Communicate_begin pipe_ok w)
  (* sigaction fails *)
  | s_give_up : main w = Looping -> step w (set_main Returned w)
  (* the command has closed its pipes, or the timer has written *)
  | s_loop_ends : main w = Looping -> step w (set_main Waiting w)
  | s_wait_begin : main w = Waiting -> step w (set_main (InWaitpid (running_ w) (pid_ w)) w)
  | s_waitpid r p q : main w = InWaitpid r p -> to_wait_for r p = Some q -> command w = Zombie ->
      step w (set_command Reaped (set_main (WaitpidDone r p) w))
  | s_no_waitpid r p : main w = InWaitpid r p -> to_wait_for r p = None -> step w (set_main (WaitpidDone r p) w)
  | s_wait_end r p : main w = WaitpidDone r p -> step w (WaitInternal_end r p w)
  | s_destructor : main w = Returned -> step w (destructor_begin w)
  | s_join : main w = Joining -> timer w = NoTimer \/ timer w = Exited -> step w (destructor_end w)
  (* the timer thread *)
  | t_notified : timer w = Sleeping -> notified w = true -> step w (set_timer Exited w)
  | t_timeout : timer w = Sleeping -> notified w = false -> step w (set_timer Woken w)
  | t_look : timer w = Woken -> unlocked w ->
      step w (set_timer (match (if running_ w then pid_ w else None) with Some p => Killing p | None => Sleeping end) w)
  | t_kill p : timer w = Killing p -> command w <> Reaped -> step w (set_timer Signalling w)
  | t_kill_fails p : timer w = Killing p -> command w = Reaped -> step w (set_timer Sleeping w)
  (* the number of the reaped process belongs to another process *)
  | t_kill_stranger p : timer w = Killing p -> command w = Reaped -> step w (set_stranger (set_timer Signalling w))
  | t_signal : timer w = Signalling -> unlocked w ->
      step w (set_timer Sleeping (set_pipe (if timeout_pipe_ w is Open then Closed else timeout_pipe_ w) w))
  (* the command *)
  | c_exits : command w = Alive -> step w (set_command Zombie w).

Definition started (pid : Z) : world := mkWorld true (Some pid) false NoPipe Started NoTimer Alive 0 false.
Definition reachable (pid : Z) (w : world) : Prop := rtc step (started pid) w.

(** ** The invariant *)

(** The thread has not ended the wait yet. *)
Definition waiting (m : main_pc) : bool :=
  match m with Returned | Joining | Destroyed => false | _ => true end.

(** [waitpid] has not been called. *)
Definition before_waitpid (m : main_pc) : bool :=
  match m with WaitpidDone _ _ => false | _ => waiting m end.

Record timer_ok (pid : Z) (w : world) : Prop := {
  to_once : (notifications w <= 1)%nat;
  to_pointer : notify_done_ w = (notifications w =? 0)%nat && negb (bool_decide (main w = Started));
  to_started : timer w = NoTimer <-> main w = Started;
  to_exited : timer w = Exited -> notified w = true;
  to_joining : main w = Joining -> notified w = true;
  to_destroyed : main w = Destroyed -> timer w = Exited /\ timeout_pipe_ w <> Open;
  to_running : waiting (main w) = true -> running_ w = true /\ pid_ w = Some pid /\ notified w = false;
  to_command : before_waitpid (main w) = true -> command w <> Reaped;
  to_snapshot : forall r p, main w = InWaitpid r p \/ main w = WaitpidDone r p -> r = true /\ p = Some pid;
  to_pid : running_ w = true -> pid_ w = Some pid;
  to_killing : forall p, timer w = Killing p -> p = pid }.

Lemma started_ok pid : timer_ok pid (started pid).
Proof. split; cbn; try done; try lia. by intros r p [?|?]. Qed.



Lemma step_ok pid w w' : timer_ok pid w -> step w w' -> timer_ok pid w'.
Proof.
  intros [Ho Hp [Hs1 Hs2] He Hj Hd Hr Hc Hsn Hpid Hk] Hst.
  destruct w as [ru pd nd tp m t c n st]. unfold notified in *. cbn in *.
  assert (n = 0 \/ n = 1)%nat as [-> | ->] by lia; cbn in *; subst nd.
  all: destruct Hst; cbn in *; subst;
    unfold unlocked, notified, WaitInternal_end, Communicate_begin, destructor_begin, notify, to_wait_for in *; cbn in *.
  all: try (destruct (Hr eq_refl) as (-> & -> & ?); clear Hr).
  all: try (destruct (Hsn _ _ (or_intror eq_refl)) as [-> ->]; clear Hsn).
  all: try (destruct (Hsn _ _ (or_introl eq_refl)) as [-> ->]; clear Hsn).
  all: try discriminate; cbn in *.
  all: rewrite ?bool_decide_eq_true_2, ?bool_decide_eq_false_2 by done; cbn.
  all: try (destruct ru; [rewrite (Hpid eq_refl)|]).
  all: split; cbn; unfold notified; cbn; try done; try tauto; try lia; try (intros r p [[=]|[=]]; by subst).
  all: try (destruct tp); naive_solver.
Qed.

Lemma reachable_timer_ok pid w : reachable pid w -> timer_ok pid w.
Proof.
  intros Hw. eapply (rtc_ind_r (timer_ok pid)); [apply started_ok| |exact Hw]. intros. by eapply step_ok.
Qed.

(** C13: in every interleaving the timer is told at most once, the signal is only
    sent to the number of the command, the thread has ended and its pipe is
    closed when the object is gone, and only a command that has been waited
    for can be confused with another. *)
Theorem KillAfter_safe pid w : reachable pid w ->
  (notifications w <= 1)%nat /\ (forall p, timer w = Killing p -> p = pid) /\
  (main w = Destroyed -> timer w = Exited /\ timeout_pipe_ w <> Open) /\
  (stranger w = true -> command w = Reaped).
Proof.
  intros Hr. pose proof (reachable_timer_ok _ _ Hr) as []. split_and!; try done.
  eapply (rtc_ind_r (R := step) (fun w => stranger w = true -> command w = Reaped) (started pid)); [done| |exact Hr].
  clear. intros w w' _ Hs IH.
  destruct Hs; cbn in *; try done; try (intros Hx; specialize (IH Hx); congruence).
  - unfold WaitInternal_end, notify. destruct (_ && _); [|exact IH]. destruct (notify_done_ w); exact IH.
  - unfold destructor_begin, notify, stop_running. cbn. destruct (notify_done_ w); exact IH.
Qed.

(** The destructor holds the lock, and the timer thread needs it before it can
    end. *)
Definition doomed (w : world) : Prop :=
  main w = Joining /\
  (timer w = Woken \/ timer w = Signalling \/ exists p, timer w = Killing p /\ command w <> Reaped).

Lemma doomed_step w w' : doomed w -> step w w' -> doomed w'.
Proof.
  intros [Hm Ht] Hs. unfold doomed, unlocked in *.
  destruct Hs; cbn in *; try congruence; try (split; [done|]); naive_solver congruence.
Qed.

Lemma doomed_forever w w' : rtc step w w' -> doomed w -> main w' <> Destroyed.
Proof.
  induction 1 as [w|w w1 w' Hs _ IH]; intros Hd; [destruct Hd as [Hm _]; congruence|].
  by apply IH, (doomed_step w).
Qed.

Definition can_finish (w : world) : Prop := exists w', rtc step w w' /\ main w' = Destroyed.

Lemma can_finish_step w w' : step w w' -> can_finish w' -> can_finish w.
Proof. intros Hs (v & Hv & Hm). exists v. split; [by eapply rtc_l|done]. Qed.

(** The join, once the timer has been told. *)
Lemma finish_joining pid w : timer_ok pid w -> main w = Joining -> timer w = Sleeping \/ timer w = Exited -> can_finish w.
Proof.
  intros Hw Hm Ht. assert (Hj : forall v, main v = Joining -> timer v = Exited -> can_finish v).
  { intros v Hv Htv. eapply can_finish_step; [apply s_join; auto|]. by eexists; split; [apply rtc_refl|]. }
  destruct Ht as [Ht|Ht]; [|by apply Hj].
  eapply can_finish_step; [apply t_notified; [done|by apply (to_joining _ _ Hw)]|]. by apply Hj.
Qed.

Lemma finish_returned pid w : timer_ok pid w -> main w = Returned -> timer w = Sleeping \/ timer w = Exited -> can_finish w.
Proof.
  intros Hw Hm Ht. pose proof (s_destructor w Hm) as Hs. eapply can_finish_step; [exact Hs|].
  eapply finish_joining; [by eapply step_ok|done|].
  unfold destructor_begin, notify, stop_running. cbn. by destruct (notify_done_ w).
Qed.

Definition settled (w : world) : Prop := timer w = Sleeping \/ timer w = Exited.

Lemma finish_wait_done pid w r p : timer_ok pid w -> main w = WaitpidDone r p -> settled w -> can_finish w.
Proof.
  intros Hw Hm Ht. pose proof (s_wait_end w r p Hm) as Hs. eapply can_finish_step; [exact Hs|].
  eapply finish_returned; [by eapply step_ok|done|].
  unfold WaitInternal_end, notify. destruct (_ && _); [|exact Ht]. by destruct (notify_done_ w).
Qed.

Lemma finish_zombie pid w r p : timer_ok pid w -> main w = InWaitpid r p -> command w = Zombie -> settled w -> can_finish w.
Proof.
  intros Hw Hm Hc Ht. destruct (to_snapshot _ _ Hw r p (or_introl Hm)) as [-> ->].
  pose proof (s_waitpid w true (Some pid) pid Hm eq_refl Hc) as Hs. eapply can_finish_step; [exact Hs|].
  by eapply finish_wait_done; [eapply step_ok|..].
Qed.

Lemma finish_in_waitpid pid w r p : timer_ok pid w -> main w = InWaitpid r p -> settled w -> can_finish w.
Proof.
  intros Hw Hm Ht. destruct (command w) eqn:Ec; [|by eapply finish_zombie|].
  - pose proof (c_exits w Ec) as Hs. eapply can_finish_step; [exact Hs|].
    by eapply finish_zombie; [eapply step_ok|..].
  - destruct (to_command _ _ Hw); [by rewrite Hm|done].
Qed.

Lemma finish_waiting pid w : timer_ok pid w -> main w = Waiting -> settled w -> can_finish w.
Proof.
  intros Hw Hm Ht. pose proof (s_wait_begin w Hm) as Hs. eapply can_finish_step; [exact Hs|].
  by eapply finish_in_waitpid; [eapply step_ok|..].
Qed.

Lemma finish_looping pid w : timer_ok pid w -> main w = Looping -> settled w -> can_finish w.
Proof.
  intros Hw Hm Ht. pose proof (s_loop_ends w Hm) as Hs. eapply can_finish_step; [exact Hs|].
  by eapply finish_waiting; [eapply step_ok|..].
Qed.

Lemma finish_begin pid w : timer_ok pid w -> main w = KillAfterDone -> settled w -> can_finish w.
Proof.
  intros Hw Hm Ht. pose proof (s_communicate w true Hm) as Hs. eapply can_finish_step; [exact Hs|].
  eapply finish_looping; [by eapply step_ok| |exact Ht].
  destruct (to_running _ _ Hw) as (Hr & _); [by rewrite Hm|]. cbn. by rewrite Hr.
Qed.

Lemma finish_settled pid w : timer_ok pid w -> settled w -> can_finish w.
Proof.
  intros Hw Ht. destruct (main w) eqn:Hm.
  - pose proof (s_kill_after w Hm) as Hs. eapply can_finish_step; [exact Hs|].
    eapply finish_begin; [by eapply step_ok|done|by left].
  - by eapply finish_begin.
  - by eapply finish_looping.
  - by eapply finish_waiting.
  - by eapply finish_in_waitpid.
  - by eapply finish_wait_done.
  - by eapply finish_returned.
  - by eapply finish_joining.
  - by exists w; split; [apply rtc_refl|].
Qed.

(** The timer thread gets back to sleep while the lock is free. *)
Lemma finish_signalling pid w : timer_ok pid w -> timer w = Signalling -> unlocked w -> can_finish w.
Proof.
  intros Hw Ht Hu. pose proof (t_signal w Ht Hu) as Hs. eapply can_finish_step; [exact Hs|].
  eapply finish_settled; [by eapply step_ok|by left].
Qed.

Lemma finish_killing pid w p : timer_ok pid w -> timer w = Killing p -> unlocked w \/ command w = Reaped -> can_finish w.
Proof.
  intros Hw Ht Hu. destruct (decide (command w = Reaped)) as [Hc|Hc].
  - pose proof (t_kill_fails w p Ht Hc) as Hs. eapply can_finish_step; [exact Hs|].
    eapply finish_settled; [by eapply step_ok|by left].
  - destruct Hu as [Hu|]; [|done]. pose proof (t_kill w p Ht Hc) as Hs. eapply can_finish_step; [exact Hs|].
    by eapply finish_signalling; [eapply step_ok|..].
Qed.

Lemma finish_woken pid w : timer_ok pid w -> timer w = Woken -> unlocked w -> can_finish w.
Proof.
  intros Hw Ht Hu. pose proof (t_look w Ht Hu) as Hs. eapply can_finish_step; [exact Hs|].
  destruct (if running_ w then pid_ w else None) as [p|].
  - by eapply finish_killing; [eapply step_ok|done|left].
  - eapply finish_settled; [by eapply step_ok|by left].
Qed.

(** C14: from every state that the threads can reach, the object can still be
    destroyed, unless its destructor holds the lock that the timer thread is
    waiting for, or is about to wait for: then it never ends. *)
Theorem SubProcess_ends_unless_doomed pid w : reachable pid w -> can_finish w <-> ~ doomed w.
Proof.
  intros Hr. pose proof (reachable_timer_ok _ _ Hr) as Hw. split.
  - intros (w' & Hs & Hm) Hd. by apply (doomed_forever w w').
  - intros Hd. destruct (decide (main w = Joining)) as [Hm|Hm].
    + destruct (timer w) as [| | |p| |] eqn:Ht.
      * destruct (to_started _ _ Hw) as [Hst _]. by rewrite (Hst Ht) in Hm.
      * eapply finish_settled; [done|by left].
      * destruct Hd. split; auto.
      * eapply finish_killing; [done..|]. right. destruct (decide (command w = Reaped)) as [|Hc]; [done|].
        destruct Hd. split; [done|]. right. right. by exists p.
      * destruct Hd. split; auto.
      * eapply finish_settled; [done|by right].
    + destruct (timer w) as [| | |p| |] eqn:Ht.
      * destruct (to_started _ _ Hw) as [Hst _]. specialize (Hst Ht).
        pose proof (s_kill_after w Hst) as Hs. eapply can_finish_step; [exact Hs|].
        eapply finish_settled; [by eapply step_ok|by left].
      * eapply finish_settled; [done|by left].
      * by eapply finish_woken.
      * eapply finish_killing; [done..|by left].
      * by eapply finish_signalling.
      * eapply finish_settled; [done|by right].
Qed.

(** The timer wakes while the command ends; the destructor takes the lock
    before the timer thread does. *)
Definition deadlocked : world := mkWorld false None false Open Joining Woken Reaped 1 false.

Ltac run_step ctor := eapply rtc_l; [apply ctor; reflexivity|cbn].

Lemma deadlock_reachable : reachable 99 deadlocked.
Proof.
  unfold reachable, started. run_step s_kill_after. eapply rtc_l; [by apply (s_communicate _ true)|cbn]. run_step s_loop_ends.
  run_step s_wait_begin. run_step t_timeout. run_step c_exits.
  eapply rtc_l; [by eapply s_waitpid|cbn]. eapply rtc_l; [by eapply s_wait_end|cbn].
  run_step s_destructor. apply rtc_refl.
Qed.

Lemma destructor_deadlock : reachable 99 deadlocked /\ ~ can_finish deadlocked.
Proof.
  split; [apply deadlock_reachable|]. intros (w & Hs & Hm). apply (doomed_forever deadlocked w); try done. split; auto.
Qed.

(** The timer looks the command up, the command is waited for, and its number
    is given to another process before the signal is sent. *)
Definition strange : world := mkWorld false None false Open Returned Signalling Reaped 1 true.

Lemma stranger_reachable : reachable 99 strange.
Proof.
  unfold reachable, started. run_step s_kill_after. eapply rtc_l; [by apply (s_communicate _ true)|cbn]. run_step t_timeout.
  eapply rtc_l; [by apply t_look|cbn]. run_step s_loop_ends. run_step s_wait_begin. run_step c_exits.
  eapply rtc_l; [by eapply s_waitpid|cbn]. eapply rtc_l; [by eapply s_wait_end|cbn].
  eapply rtc_l; [by eapply t_kill_stranger|cbn]. apply rtc_refl.
Qed.

Lemma KillAfter_safe_witness :
  (notifications strange <= 1)%nat /\ (forall p, timer strange = Killing p -> p = 99) /\
  (main strange = Destroyed -> timer strange = Exited /\ timeout_pipe_ strange <> Open) /\
  (stranger strange = true -> command strange = Reaped).
Proof. exact (KillAfter_safe 99 strange stranger_reachable). Defined.

Lemma SubProcess_ends_unless_doomed_witness : can_finish strange <-> ~ doomed strange.
Proof. exact (SubProcess_ends_unless_doomed 99 strange stranger_reachable). Defined.
