(* ===== verification/Commands.v ===== *)
(** * Commands: iptables, tc and ip as programs

    src/heyp/host-agent/linux-enforcer: [Runner] (iptables.{h,cc}), [TcCaller]
    (tc-caller.{h,cc}) and the search for the network device (data.cc).  All
    of them run a program with [SubProcess]: set the program, start it, set
    the timer, communicate.  That is the interface [Programs]: the answer is
    the wait status with what the program printed, or nothing when it could
    not be started.  A status is its code; the texts of errors are left out.
    JSON is read by a parameter. *)

From S2P Require Import Prelude Text SubProcess Iptables IptablesTable Enforcer.

#[local] Open Scope string_scope.
#[local] Open Scope list_scope.
#[local] Open Scope Z_scope.

Record ran := mkRan { wait_status : Z; got_stdout : string; got_stderr : string }.

(** [run s file args input]: [input] is what the program gets on stdin. *)
Class Programs (S : Type) := {
  run : S -> string -> list string -> option string -> S * option ran }.

Inductive status_code := kUnknown | kInternal | kUnavailable | kNotFound.

#[export] Instance status_code_eq_dec : EqDecision status_code.
Proof. solve_decision. Defined.

(** ** iptables.cc *)

Inductive Table := kNAT | kFilter | kMangle.
Inductive Chain := kPostrouting | kPrerouting | kOutput | kInput | kForward.
Inductive RulePosition := kPrepend | kAppend.
Inductive IpFamily := kIpV4 | kIpV6.
Inductive Operation :=
  | kCreateChain | kFlushChain | kDeleteChain | kListChain | kAppendRule | kCheckRule | kDeleteRule
  | kRulePositionPrepend | kRulePositionAppend.

Definition Table_ToString (t : Table) : string :=
  match t with kNAT => "nat" | kFilter => "filter" | kMangle => "mangle" end.

Definition Chain_ToString (c : Chain) : string :=
  match c with
  | kPostrouting => "POSTROUTING" | kPrerouting => "PREROUTING" | kOutput => "OUTPUT" | kInput => "INPUT"
  | kForward => "FORWARD"
  end.

Definition RulePosition_ToString (p : RulePosition) : string := match p with kPrepend => "-I" | kAppend => "-A" end.

Definition Operation_ToString (op : Operation) : string :=
  match op with
  | kCreateChain => "-N" | kFlushChain => "-F" | kDeleteChain => "-X" | kListChain => "-S" | kAppendRule => "-A"
  | kCheckRule => "-C" | kDeleteRule => "-D"
  | kRulePositionPrepend => RulePosition_ToString kPrepend
  | kRulePositionAppend => RulePosition_ToString kAppend
  end.

Definition ToOp (p : RulePosition) : Operation :=
  match p with kPrepend => kRulePositionPrepend | kAppend => kRulePositionAppend end.

Record Runner (S : Type) := mkRunner {
  family_ : IpFamily;
  iptables_cmd_ : string;
  iptables_save_cmd_ : string;
  iptables_restore_cmd_ : string;
  has_check_ : bool;
  wait_flag_ : list string;
  restore_wait_flag_ : list string;
  sys : S }.
Arguments mkRunner {S}.
Arguments family_ {S}.
Arguments iptables_cmd_ {S}.
Arguments iptables_save_cmd_ {S}.
Arguments iptables_restore_cmd_ {S}.
Arguments has_check_ {S}.
Arguments wait_flag_ {S}.
Arguments restore_wait_flag_ {S}.
Arguments sys {S}.

Definition wait_args : list string := ["-w"; "5"; "-W"; "100000"].

Definition CreateWithIptablesCommands {S} (family : IpFamily) (cmd save_cmd restore_cmd : string) (s : S) : Runner S :=
  mkRunner family cmd save_cmd restore_cmd true wait_args wait_args s.

Definition Runner_Create {S} (family : IpFamily) (s : S) : Runner S :=
  match family with
  | kIpV4 => CreateWithIptablesCommands family "iptables" "iptables-save" "iptables-restore" s
  | kIpV6 => CreateWithIptablesCommands family "ip6tables" "ip6tables-save" "ip6tables-restore" s
  end.

Definition MakeFullArgs (table : Table) (chain : Chain) (args : list string) : list string :=
  [Chain_ToString chain; "-t"; Table_ToString table] ++ args.

Section Commands.
Context {S : Type} `{!Programs S}.

Definition with_sys (s : S) (r : Runner S) : Runner S :=
  mkRunner (family_ r) (iptables_cmd_ r) (iptables_save_cmd_ r) (iptables_restore_cmd_ r) (has_check_ r)
    (wait_flag_ r) (restore_wait_flag_ r) s.

(** A status or a value; [*exit_status] is the third component. *)
Notation result A := (status_code + A)%type.

Definition exit_status_of (wait : Z) : Z := if WIFEXITED wait then WEXITSTATUS wait else -1.

Definition Run (op : Operation) (args : list string) (r : Runner S) : Runner S * result string * option Z :=
  let full_args := wait_flag_ r ++ [Operation_ToString op] ++ args in
  let '(s, got) := run (sys r) (iptables_cmd_ r) full_args None in
  let r := with_sys s r in
  match got with
  | None => (r, inl kUnknown, None)
  | Some got =>
      (r, if ExitStatus_ok (wait_status got) then inr (got_stdout got) else inl kUnknown,
       Some (exit_status_of (wait_status got)))
  end.

(** [exit_status] is 0 before the call. *)
Definition EnsureChain (table : Table) (chain : Chain) (r : Runner S) : Runner S * result bool :=
  let '(r, st, es) := Run kCreateChain (MakeFullArgs table chain []) r in
  let exit_status := default 0 es in
  match st with
  | inr _ => if exit_status =? 1 then (r, inr true) else (r, inr false)
  | inl _ => (r, inl kInternal)
  end.

Definition FlushChain (table : Table) (chain : Chain) (r : Runner S) : Runner S * result unit :=
  let '(r, st, _) := Run kFlushChain (MakeFullArgs table chain []) r in
  (r, match st with inr _ => inr tt | inl _ => inl kInternal end).

Definition DeleteChain (table : Table) (chain : Chain) (r : Runner S) : Runner S * result unit :=
  let '(r, st, _) := Run kDeleteChain (MakeFullArgs table chain []) r in
  (r, match st with inr _ => inr tt | inl _ => inl kInternal end).

(** [exit_status] is not passed to [Run] and stays 0. *)
Definition CheckRuleUsingCheck (args : list string) (r : Runner S) : Runner S * result bool :=
  let exit_status := 0 in
  let '(r, st, _) := Run kCheckRule args r in
  match st with
  | inr _ => if exit_status =? 0 then (r, inr true) else (r, inr false)
  | inl _ => (r, inl kInternal)
  end.

(** [None]: the program exits. *)
Definition CheckRule (table : Table) (chain : Chain) (args : list string) (r : Runner S)
    : option (Runner S * result bool) :=
  if has_check_ r then Some (CheckRuleUsingCheck (MakeFullArgs table chain args) r) else None.

Definition EnsureRule (position : RulePosition) (table : Table) (chain : Chain) (args : list string) (r : Runner S)
    : option (Runner S * result bool) :=
  let full_args := MakeFullArgs table chain args in
  '(r, exists_or) ← CheckRule table chain args r;
  match exists_or with
  | inl e => Some (r, inl e)
  | inr true => Some (r, inr true)
  | inr false =>
      let '(r, st, _) := Run (ToOp position) full_args r in
      Some (r, match st with inr _ => inr false | inl _ => inl kInternal end)
  end.

Definition DeleteRule (table : Table) (chain : Chain) (args : list string) (r : Runner S)
    : option (Runner S * result unit) :=
  let full_args := MakeFullArgs table chain args in
  '(r, exists_or) ← CheckRule table chain args r;
  match exists_or with
  | inl e => Some (r, inl e)
  | inr true =>
      let '(r, st, _) := Run kDeleteRule full_args r in
      Some (r, match st with inr _ => inr tt | inl _ => inl kInternal end)
  | inr false => Some (r, inr tt)
  end.

Definition SaveInto (table : Table) (r : Runner S) : Runner S * result string :=
  let '(s, got) := run (sys r) (iptables_save_cmd_ r) ["-t"; Table_ToString table] None in
  (with_sys s r,
   match got with
   | Some got => if ExitStatus_ok (wait_status got) then inr (got_stdout got) else inl kUnknown
   | None => inl kUnknown
   end).

Definition RestoreInternal (args : list string) (data : string) (flags : RestoreFlags) (r : Runner S)
    : Runner S * result unit :=
  let args := args ++ (if flush_tables flags then [] else ["--noflush"]) ++
              (if restore_counters flags then ["--counters"] else []) in
  let full_args := restore_wait_flag_ r ++ args in
  if bool_decide (restore_wait_flag_ r = []) then (r, inl kUnavailable)
  else
    let '(s, got) := run (sys r) (iptables_restore_cmd_ r) full_args (Some data) in
    (with_sys s r,
     match got with
     | Some got => if ExitStatus_ok (wait_status got) then inr tt else inl kUnknown
     | None => inl kUnknown
     end).

Definition Runner_Restore (table : Table) (data : string) (flags : RestoreFlags) (r : Runner S) : Runner S * result unit :=
  RestoreInternal ["-T"; Table_ToString table] data flags r.

Definition RestoreAll (data : string) (flags : RestoreFlags) (r : Runner S) : Runner S * result unit :=
  RestoreInternal [] data flags r.

(** What the controller sees of it: the system, through a runner for IPv4 that
    restores the mangle table. *)
#[export] Instance runner_iface : RunnerIface S := {|
  Restore s data flags :=
    let '(r, st) := Runner_Restore kMangle data flags (Runner_Create kIpV4 s) in
    (sys r, match st with inr _ => true | inl _ => false end) |}.

(** ** tc-caller.cc *)

(** [tc_name_] is fixed when the caller is made. *)
Record TcCaller (J : Type) := mkTcCaller {
  buf_ : string;
  result_ : option J;
  tc_sys : S }.
End Commands.
Arguments mkTcCaller {S J}.
Arguments buf_ {S J}.
Arguments result_ {S J}.
Arguments tc_sys {S J}.

Section Tc.
Context {S J : Type} `{!Programs S} (parse_json : string -> option J) (tc_name_ : string).

(** The words of each line that has any. *)
Definition DecomposeBatch (input : string) : list (list string) :=
  filter (fun args => args <> [])
    (map (fun line => filter (fun w => w <> "") (split_at is_blank line)) (split_at is_newline input)).

Definition tc_Call (tc_args : list string) (parse_into_json : bool) (t : TcCaller (S := S) J)
    : TcCaller (S := S) J * (status_code + unit) :=
  let '(s, got) := run (tc_sys t) tc_name_ tc_args None in
  match got with
  | None => (mkTcCaller (buf_ t) (result_ t) s, inl kUnknown)
  | Some got =>
      let buf := got_stdout got in
      if negb (ExitStatus_ok (wait_status got)) then (mkTcCaller buf (result_ t) s, inl kUnknown)
      else if all_space buf || negb parse_into_json then (mkTcCaller buf None s, inr tt)
      else
        match parse_json buf with
        | None => (mkTcCaller buf (result_ t) s, inl kInternal)
        | Some j => (mkTcCaller buf (Some j) s, inr tt)
        end
  end.

(** [ret.Update]: the first error stays. *)
Fixpoint run_all (cmds : list (list string)) (force : bool) (t : TcCaller (S := S) J) (ret : status_code + unit)
    : TcCaller (S := S) J * (status_code + unit) :=
  match cmds with
  | [] => (t, ret)
  | cmd :: cmds =>
      let '(t, st) := tc_Call cmd false t in
      let ret := match ret with inr _ => st | inl _ => ret end in
      match ret with
      | inl _ => if negb force then (t, ret) else run_all cmds force t ret
      | inr _ => run_all cmds force t ret
      end
  end.

Definition DecomposeAndRunBatch (input : string) (force : bool) (t : TcCaller (S := S) J)
    : TcCaller (S := S) J * (status_code + unit) :=
  run_all (DecomposeBatch input) force t (inr tt).

Definition kDebugDecomposeBatch : bool := false.

Definition tc_Batch (input : string) (force : bool) (t : TcCaller (S := S) J)
    : TcCaller (S := S) J * (status_code + unit) :=
  if kDebugDecomposeBatch then DecomposeAndRunBatch input force t
  else
    let args := ["-batch"; "-"; "-force"] in
    let args := if negb force then take 1 args else args in
    let '(s, got) := run (tc_sys t) tc_name_ args (Some input) in
    (mkTcCaller (buf_ t) (result_ t) s,
     match got with
     | Some got => if ExitStatus_ok (wait_status got) then inr tt else inl kUnknown
     | None => inl kUnknown
     end).

Definition is_ok (st : status_code + unit) : bool := match st with inr _ => true | inl _ => false end.

#[export] Instance tc_caller_iface : TcCallerIface (TcCaller (S := S) J) := {|
  Batch t input force := let '(t, st) := tc_Batch input force t in (t, is_ok st);
  Call t args json := let '(t, st) := tc_Call args json t in (t, is_ok st);
  RawOut := buf_ |}.
End Tc.

(** ** data.cc *)

Section Device.
Context {S : Type} `{!Programs S}.

(** What [ip -json addr] prints of one device; absent entries are skipped. *)
Record dev_config := mkDevConfig { ifname : option string; local_addrs : list (option string) }.

Context (parse_ip_json : string -> option (list dev_config)).

Fixpoint find_device (ip_addrs : gset string) (devs : list dev_config) : option string :=
  match devs with
  | [] => None
  | d :: devs =>
      match ifname d with
      | None => find_device ip_addrs devs
      | Some dev =>
          let want_addrs :=
            foldl (fun want o => match o with Some local => want ∖ {[local]} | None => want end) ip_addrs (local_addrs d) in
          if bool_decide (want_addrs = ∅) then Some dev else find_device ip_addrs devs
      end
  end.

(** The output of ip, or the error of its run. *)
Definition ip_output (ip_bin_name : string) (args : list string) (s : S) : S * (status_code + string) :=
  let '(s, got) := run s ip_bin_name args None in
  (s, match got with
      | None => inl kUnknown
      | Some got =>
          if negb (ExitStatus_ok (wait_status got)) then inl kUnknown
          else if all_space (got_stdout got) then inl kUnknown else inr (got_stdout got)
      end).

Definition FindDeviceResponsibleFor (ip_addrs : list string) (ip_bin_name : string) (s : S)
    : S * (status_code + string) :=
  let '(s, out) := ip_output ip_bin_name ["-json"; "addr"] s in
  (s, match out with
      | inl e => inl e
      | inr out =>
          match parse_ip_json out with
          | None => inl kInternal
          | Some devs =>
              match find_device (list_to_set ip_addrs) devs with Some dev => inr dev | None => inl kNotFound end
          end
      end).

Record line_scan := mkScan { field_n : nat; iface : string; next_is_ip : bool; want_addrs : gset string }.

Definition is_slash : Ascii.ascii -> bool := is_char 47.
Definition before_slash (field : string) : string := default "" (head (split_at is_slash field)).

Definition scan_field (st : line_scan) (field : string) : line_scan :=
  let iface := if (field_n st =? 1)%nat then field else iface st in
  let want := if next_is_ip st then want_addrs st ∖ {[before_slash field]} else want_addrs st in
  mkScan (field_n st + 1) iface (bool_decide (field = "inet") || bool_decide (field = "inet6")) want.

Definition line_fields (line : string) : list string := filter (fun w => w <> "") (split_at is_blank line).

Definition scan_line (ip_addrs : gset string) (line : string) : line_scan :=
  foldl scan_field (mkScan 0 "" false ip_addrs) (line_fields line).

Fixpoint find_line (ip_addrs : gset string) (lines : list string) : option string :=
  match lines with
  | [] => None
  | line :: lines =>
      let st := scan_line ip_addrs line in
      if bool_decide (want_addrs st = ∅) then Some (iface st) else find_line ip_addrs lines
  end.

Definition FindDeviceResponsibleForLessReliable (ip_addrs : list string) (ip_bin_name : string) (s : S)
    : S * (status_code + string) :=
  let '(s, out) := ip_output ip_bin_name ["-oneline"; "addr"] s in
  (s, match out with
      | inl e => inl e
      | inr out =>
          match find_line (list_to_set ip_addrs) (split_at is_newline out) with
          | Some dev => inr dev
          | None => inl kNotFound
          end
      end).
End Device.
