(* ===== verification/CommandsSpec.v ===== *)
(** * CommandsSpec: what the programs promise, and what their callers do with it

    The documented behaviour of iptables-restore and tc ([IptablesProgram],
    [TcProgram]) gives the interfaces that the controller and the enforcer are
    proved against ([RestoreLaws], [TcLaws]).  Then the rule operations of
    [Runner] and the search for the device, with the output of [ip]. *)

From stdpp Require Import pretty.
From S2P Require Import Prelude Text SubProcess Iptables IptablesTable Enforcer EnforcerRates Commands.

#[local] Open Scope string_scope.
#[local] Open Scope list_scope.
#[local] Open Scope Z_scope.

Definition exited_ok (got : option ran) : bool :=
  match got with Some g => ExitStatus_ok (wait_status g) | None => false end.

(** ** The interfaces of the controller and of the enforcer *)

(** iptables-restore(8): when it succeeds, every command ran, on the table as
    it was or, without --noflush, on the empty one.  It commits the table as a
    whole: when it fails or is killed, all of the commands ran or none. *)
Class IptablesProgram (S : Type) `{!Programs S} (dev : string) := {
  mangle : S -> table;
  restore_succeeds s (flush : bool) data s' got :
    run s "iptables-restore" (wait_args ++ ["-T"; "mangle"] ++ (if flush then [] else ["--noflush"])) (Some data) = (s', got) ->
    exited_ok got = true ->
    exists cmds, read_input dev data = Some cmds /\
      run_commands cmds (if flush then mkTable [] [] else mangle s) = Some (mangle s');
  restore_fails s data s' got :
    run s "iptables-restore" (wait_args ++ ["-T"; "mangle"; "--noflush"]) (Some data) = (s', got) ->
    exited_ok got = false ->
    mangle s' = mangle s \/
    exists cmds, read_input dev data = Some cmds /\ run_commands cmds (mangle s) = Some (mangle s') }.

(** tc(8): a batch from standard input that succeeds ran every line; -batch
    without a file name is a usage error. *)
Class TcProgram (S : Type) `{!Programs S} (tc_name : string) := {
  device_rates : S -> gmap string string;
  batch_succeeds s text s' got :
    run s tc_name ["-batch"; "-"; "-force"] (Some text) = (s', got) -> exited_ok got = true ->
    device_rates s' = set_rates (device_rates s) (read_rates text);
  batch_needs_file s text s' got :
    run s tc_name ["-batch"] (Some text) = (s', got) -> exited_ok got = false }.

Section Interfaces.
Context {S J : Type} `{!Programs S} (parse_json : string -> option J) (tc_name : string).

Lemma Restore_runs s data (flush : bool) :
  Restore s data (mkRestoreFlags flush false) =
  let '(s', got) := run s "iptables-restore" (wait_args ++ ["-T"; "mangle"] ++ (if flush then [] else ["--noflush"])) (Some data) in
  (s', exited_ok got).
Proof.
  unfold Restore, runner_iface, Runner_Restore, RestoreInternal, Runner_Create, CreateWithIptablesCommands. cbn.
  rewrite app_nil_r. destruct (run s _ _ _) as [s' [got|]]; cbn; [|done]. by destruct (ExitStatus_ok _).
Qed.

#[export] Instance runner_laws `{!IptablesProgram S dev} : RestoreLaws S dev.
Proof.
  refine {| rules := mangle |}; intros s data s'; rewrite Restore_runs;
    destruct (run s _ _ _) as [s1 got] eqn:E; intros [= -> Hok].
  - by apply (restore_succeeds s false data s' got).
  - by apply (restore_fails s data s' got).
  - by apply (restore_succeeds s true data s' got).
Defined.

(** Unless it is forced the batch gets no file name and is refused. *)
Lemma Batch_runs (t : @TcCaller S J) text force t' :
  tc_Batch parse_json tc_name text force t = (t', inr tt) ->
  exists s' got, run (tc_sys t) tc_name (if force then ["-batch"; "-"; "-force"] else ["-batch"]) (Some text) = (s', got) /\
    exited_ok got = true /\ tc_sys t' = s'.
Proof.
  unfold tc_Batch. cbn. destruct force; cbn; destruct (run _ _ _ _) as [s' got] eqn:E; intros [= <- Hok];
    exists s', got; (split; [done|split; [|done]]); destruct got as [got|]; try done; cbn; by destruct (ExitStatus_ok _).
Qed.

Lemma Batch_not_forced_fails `{!TcProgram S tc_name} (t : @TcCaller S J) text :
  is_ok (snd (tc_Batch parse_json tc_name text false t)) = false.
Proof.
  destruct (tc_Batch parse_json tc_name text false t) as [t' [e|[]]] eqn:E; [done|].
  apply Batch_runs in E as (s' & got & Hr & Hok & _). by rewrite (batch_needs_file _ _ _ _ Hr) in Hok.
Qed.

#[export] Instance tc_caller_laws `{!TcProgram S tc_name} :
  @TcLaws (@TcCaller S J) (tc_caller_iface parse_json tc_name).
Proof.
  refine (@Build_TcLaws _ (tc_caller_iface parse_json tc_name) (fun t => device_rates (tc_sys t)) _).
  intros t text force t'. unfold Batch, tc_caller_iface. destruct (tc_Batch _ _ _ _) as [t1 [e|[]]] eqn:E; intros [=]; subst t1.
  pose proof (Batch_not_forced_fails t text) as Hf. destruct force; [|by rewrite E in Hf].
  apply Batch_runs in E as (s' & got & Hr & Hok & ->). by apply (batch_succeeds _ _ _ got).
Defined.
End Interfaces.

(** ** Rules *)

(** iptables(8): -C succeeds only if the rule is there. *)
Class RuleProgram (S : Type) `{!Programs S} := {
  has_rule : S -> Table -> Chain -> list string -> bool;
  check_succeeds s family table chain args s' got :
    run s (iptables_cmd_ (Runner_Create family s)) (wait_args ++ "-C" :: MakeFullArgs table chain args) None = (s', got) -> exited_ok got = true ->
    has_rule s table chain args = true }.

Section Rules.
Context {S : Type} `{!Programs S}.

Lemma Run_answer op args (r : Runner S) r' st es : Run op args r = (r', st, es) ->
  exists got, run (sys r) (iptables_cmd_ r) (wait_flag_ r ++ [Operation_ToString op] ++ args) None = (sys r', got) /\
    match st with inr _ => true | inl _ => false end = exited_ok got.
Proof.
  unfold Run. destruct (run _ _ _ _) as [s' [got|]]; intros [= <- <- <-]; [exists (Some got)|by exists None].
  split; [done|]. cbn. by destruct (ExitStatus_ok _).
Qed.

(** The check answers [true] or an error. *)
Lemma CheckRule_answer table chain args (r r' : Runner S) st :
  has_check_ r = true -> CheckRule table chain args r = Some (r', st) ->
  exists got, run (sys r) (iptables_cmd_ r) (wait_flag_ r ++ "-C" :: MakeFullArgs table chain args) None = (sys r', got) /\
    st = if exited_ok got then inr true else inl kInternal.
Proof.
  unfold CheckRule, CheckRuleUsingCheck. intros ->. destruct (Run _ _ _) as [[r1 st1] es] eqn:E.
  apply Run_answer in E as (got & Hr & Hst). intros Hs. exists got.
  destruct st1; injection Hs as <- <-; by rewrite <- Hst.
Qed.

Lemma EnsureChain_never_existed table chain (r r' : Runner S) st :
  EnsureChain table chain r = (r', st) -> st = inr false \/ st = inl kInternal.
Proof.
  unfold EnsureChain, Run. destruct (run _ _ _ _) as [s' [got|]]; [|intros [= _ <-]; by right].
  unfold ExitStatus_ok, exit_status_of. destruct (WIFEXITED _); cbn; [|intros [= _ <-]; by right].
  destruct (WEXITSTATUS _ =? 0) eqn:E; [apply Z.eqb_eq in E; rewrite E|]; intros [= _ <-]; [by left|by right].
Qed.

Context `{!RuleProgram S}.

(** The status of the check never reaches [CheckRule], so a rule that is
    missing is an error: [EnsureRule] adds nothing (its only command is the
    check) and [DeleteRule] of a rule that does not exist fails. *)
Theorem EnsureRule_never_adds position family table chain args (s s' : S) got :
  run s (iptables_cmd_ (Runner_Create family s)) (wait_args ++ "-C" :: MakeFullArgs table chain args) None = (s', got) ->
  (exists r', EnsureRule position table chain args (Runner_Create family s) =
     Some (r', if exited_ok got then inr true else inl kInternal) /\ sys r' = s') /\
  (has_rule s table chain args = false ->
     (exists r', EnsureRule position table chain args (Runner_Create family s) = Some (r', inl kInternal) /\ sys r' = s') /\
     exists r', DeleteRule table chain args (Runner_Create family s) = Some (r', inl kInternal)).
Proof.
  intros E.
  assert (Hs : sys (Runner_Create family s) = s /\ has_check_ (Runner_Create family s) = true /\
               wait_flag_ (Runner_Create family s) = wait_args) by by destruct family.
  destruct Hs as (Hs & Hc & Hw).
  assert (Hck : exists r', CheckRule table chain args (Runner_Create family s) =
                  Some (r', if exited_ok got then inr true else inl kInternal) /\ sys r' = s').
  { destruct (CheckRule table chain args _) as [[r' st]|] eqn:Hck.
    - destruct (CheckRule_answer _ _ _ _ _ _ Hc Hck) as (got' & Hr & ->). rewrite Hs, Hw, E in Hr.
      injection Hr as -> <-. by exists r'.
    - unfold CheckRule in Hck. by rewrite Hc in Hck. }
  destruct Hck as (r' & Hck & Hsys). unfold EnsureRule, DeleteRule. rewrite Hck. cbn.
  assert (Hne : has_rule s table chain args = false -> exited_ok got = false)
    by (intros Hno; apply not_true_iff_false; intros Hok; by rewrite (check_succeeds _ _ _ _ _ _ _ E Hok) in Hno).
  split; [destruct (exited_ok got); by exists r'|]. intros ->%Hne. split; by exists r'.
Qed.
End Rules.

(** ** The device *)

(** An address of a device as [ip -oneline addr] prints it, a line each; the
    words after it describe the address further. *)
Record ip_address := mkIpAddress { ip_v6 : bool; ip_text : string; ip_prefix : Z; ip_rest : list string }.
Record ip_device := mkIpDevice { ip_index : Z; ip_name : string; ip_addresses : list ip_address }.

Definition is_inet (w : string) : bool := bool_decide (w = "inet") || bool_decide (w = "inet6").

Definition address_words (d : ip_device) (a : ip_address) : list string :=
  [pretty (ip_index d) +:+ ":"; ip_name d; if ip_v6 a then "inet6" else "inet"; ip_text a +:+ "/" +:+ pretty (ip_prefix a)]
  ++ ip_rest a.

Definition device_lines (d : ip_device) : list (list string) := map (address_words d) (ip_addresses d).

(** The same device as [ip -json addr] describes it. *)
Definition json_device (d : ip_device) : dev_config :=
  mkDevConfig (Some (ip_name d)) (map (fun a => Some (ip_text a)) (ip_addresses d)).

Definition plain_device (d : ip_device) : bool :=
  negb (is_inet (ip_name d)) &&
  forallb (fun a => negb (has_char (Ascii.ascii_of_nat 47) (ip_text a)) && forallb (fun w => negb (is_inet w)) (ip_rest a))
    (ip_addresses d).

Lemma before_slash_app a rest : has_char (Ascii.ascii_of_nat 47) a = false -> before_slash (a +:+ "/" +:+ rest) = a.
Proof.
  unfold before_slash. intros Ha. enough (exists l, split_at is_slash (a +:+ "/" +:+ rest) = a :: l) as [l ->] by done.
  induction a as [|c a IH].
  - by exists (split_at is_slash rest).
  - cbn in Ha. apply orb_false_iff in Ha as [Hc Ha]. destruct (IH Ha) as [l Hl]. rewrite append_cons. cbn [split_at].
    unfold is_slash, is_char. rewrite Hc. fold (is_char 47). fold is_slash. rewrite Hl. by exists l.
Qed.

Lemma scan_rest l : forall st, next_is_ip st = false -> (2 <= field_n st)%nat -> forallb (fun w => negb (is_inet w)) l = true ->
  want_addrs (foldl scan_field st l) = want_addrs st /\ iface (foldl scan_field st l) = iface st.
Proof.
  induction l as [|w l IH]; intros st Hn Hf; [done|]. cbn [forallb foldl]. intros [Hw%negb_true_iff Hl]%andb_true_iff.
  destruct (IH (scan_field st w)) as [-> ->]; [exact Hw|cbn; lia|done|].
  cbn. rewrite Hn. by rewrite (proj2 (Nat.eqb_neq _ _)) by lia.
Qed.

Lemma index_not_inet (n : Z) : is_inet (pretty n +:+ ":") = false.
Proof.
  unfold is_inet. apply orb_false_iff.
  split; apply bool_decide_eq_false; intros E; apply (f_equal (has_char (Ascii.ascii_of_nat 58))) in E;
    by rewrite has_char_app, orb_true_r in E.
Qed.

Lemma prefix_not_inet a p : is_inet (a +:+ "/" +:+ p) = false.
Proof.
  unfold is_inet. apply orb_false_iff.
  split; apply bool_decide_eq_false; intros E; apply (f_equal (has_char (Ascii.ascii_of_nat 47))) in E;
    by rewrite has_char_app, orb_true_r in E.
Qed.

Lemma scan_field_eq st w : scan_field st w =
  mkScan (field_n st + 1) (if (field_n st =? 1)%nat then w else iface st) (is_inet w)
    (if next_is_ip st then want_addrs st ∖ {[before_slash w]} else want_addrs st).
Proof. done. Qed.

Lemma scan_address want d a : plain_device d = true -> a ∈ ip_addresses d ->
  let st := foldl scan_field (mkScan 0 "" false want) (address_words d a) in
  want_addrs st = want ∖ {[ip_text a]} /\ iface st = ip_name d.
Proof.
  unfold plain_device. rewrite andb_true_iff, negb_true_iff. intros [Hd Hall] Ha%list_elem_of_In.
  rewrite forallb_forall in Hall. apply Hall in Ha as [Ha%negb_true_iff Hr]%andb_true_iff.
  cbv zeta. unfold address_words. rewrite foldl_app. cbn [foldl].
  rewrite 4!scan_field_eq. cbn [field_n next_is_ip want_addrs iface Nat.eqb Nat.add].
  rewrite index_not_inet, Hd. assert (Hi : is_inet (if ip_v6 a then "inet6" else "inet") = true) by by destruct (ip_v6 a).
  rewrite Hi, prefix_not_inet, before_slash_app by done.
  match goal with |- want_addrs (foldl _ ?st _) = _ /\ _ => by destruct (scan_rest (ip_rest a) st) as [-> ->]; [|cbn; lia| |] end.
Qed.

(** With one address per line only the line of a wanted address that is the
    only one is taken. *)
Fixpoint first_device (p : ip_device -> ip_address -> bool) (l : list (ip_device * ip_address)) : option string :=
  match l with
  | [] => None
  | (d, a) :: l => if p d a then Some (ip_name d) else first_device p l
  end.

Definition device_addresses (devs : list ip_device) : list (ip_device * ip_address) :=
  concat (map (fun d => map (pair d) (ip_addresses d)) devs).

Lemma find_line_lines want lines (l : list (ip_device * ip_address)) rest :
  want <> ∅ -> Forall (fun '(d, a) => plain_device d = true /\ a ∈ ip_addresses d) l ->
  map line_fields lines = map (fun '(d, a) => address_words d a) l ++ rest ->
  Forall (fun ws => ws = []) rest ->
  find_line want lines = first_device (fun _ a => bool_decide (want ∖ {[ip_text a]} = ∅)) l.
Proof.
  intros Hw Hl. revert lines. induction Hl as [|[d a] l [Hp Ha] _ IH]; intros lines Heq Hrest; cbn [map app] in Heq.
  - cbn [first_device]. revert lines Heq. induction Hrest as [|ws rest -> _ IH]; intros [|line lines]; try done.
    cbn [map]. intros [= Hf Heq]. cbn [find_line]. unfold scan_line. rewrite Hf. cbn [foldl want_addrs].
    rewrite bool_decide_eq_false_2 by done. by apply IH.
  - destruct lines as [|line lines]; [done|]. cbn [map] in Heq. injection Heq as Hf Heq.
    cbn [find_line first_device]. unfold scan_line. rewrite Hf.
    destruct (scan_address want d a Hp Ha) as [-> ->]. by rewrite IH.
Qed.

Lemma find_device_one a devs :
  find_device {[a]} (map json_device devs) =
  first_device (fun _ b => bool_decide (({[a]} : gset string) ∖ {[ip_text b]} = ∅)) (device_addresses devs).
Proof.
  induction devs as [|d devs IH]; [done|]. unfold device_addresses. cbn [map concat find_device json_device ifname local_addrs].
  assert (Hf : forall l (want : gset string), foldl (fun want o => match o with Some local => want ∖ {[local]} | None => want end)
                 want (map (fun b => Some (ip_text b)) l) = want ∖ list_to_set (map ip_text l)).
  { induction l as [|b l IHl]; intros want; cbn; [set_solver|]. rewrite IHl. set_solver. }
  rewrite Hf, IH. clear Hf IH. fold (device_addresses devs).
  induction (ip_addresses d) as [|b l IHl]; cbn [map app first_device list_to_set].
  - rewrite bool_decide_eq_false_2; [done|set_solver].
  - destruct (decide (a = ip_text b)) as [->|Hne].
    + rewrite !bool_decide_eq_true_2 by set_solver. done.
    + rewrite (bool_decide_eq_false_2 ({[a]} ∖ {[ip_text b]} = ∅)) by set_solver. rewrite <- IHl.
      assert (Hext : ({[a]} : gset string) ∖ ({[ip_text b]} ∪ list_to_set (map ip_text l)) = ∅ <->
                ({[a]} : gset string) ∖ list_to_set (map ip_text l) = ∅) by set_solver.
      by rewrite (bool_decide_ext _ _ Hext).
Qed.

Section Device.
Context {S : Type} `{!Programs S} (parse_ip_json : string -> option (list dev_config)).

(** What the two runs of ip print about the same devices. *)
Record ip_prints (s : S) (ip_bin_name : string) (devs : list ip_device) : Prop := {
  ip_json : exists s' g, run s ip_bin_name ["-json"; "addr"] None = (s', Some g) /\ ExitStatus_ok (wait_status g) = true /\
    all_space (got_stdout g) = false /\ parse_ip_json (got_stdout g) = Some (map json_device devs);
  ip_oneline : exists s' g, run s ip_bin_name ["-oneline"; "addr"] None = (s', Some g) /\ ExitStatus_ok (wait_status g) = true /\
    all_space (got_stdout g) = false /\
    exists rest, Forall (fun ws => ws = []) rest /\
      map line_fields (split_at is_newline (got_stdout g)) = concat (map device_lines devs) ++ rest }.

Lemma device_addresses_lines devs :
  map (fun '(d, a) => address_words d a) (device_addresses devs) = concat (map device_lines devs).
Proof.
  unfold device_addresses. rewrite concat_map, map_map. f_equal. apply map_ext. intros d. unfold device_lines. by rewrite map_map.
Qed.

Lemma device_addresses_plain devs : Forall (fun d => plain_device d = true) devs ->
  Forall (fun '(d, a) => plain_device d = true /\ a ∈ ip_addresses d) (device_addresses devs).
Proof.
  intros Hp. apply Forall_forall. intros [d a] Hin. unfold device_addresses in Hin.
  apply list_elem_of_In, in_concat in Hin as (l & (d' & <- & Hd)%in_map_iff & (b & [= -> ->] & Hb)%in_map_iff).
  split; [|by apply list_elem_of_In]. rewrite Forall_forall in Hp. by apply Hp, list_elem_of_In.
Qed.

Lemma less_reliable_finds ip_addrs ip_bin_name s devs :
  ip_addrs <> [] -> Forall (fun d => plain_device d = true) devs -> ip_prints s ip_bin_name devs ->
  snd (FindDeviceResponsibleForLessReliable ip_addrs ip_bin_name s) =
  match first_device (fun _ a => bool_decide ((list_to_set ip_addrs : gset string) ∖ {[ip_text a]} = ∅)) (device_addresses devs) with
  | Some dev => inr dev
  | None => inl kNotFound
  end.
Proof.
  intros Hne Hp [_ (s' & g & Hr & Hok & Hsp & rest & Hrest & Hl)].
  unfold FindDeviceResponsibleForLessReliable, ip_output. rewrite Hr, Hok, Hsp. cbn [negb snd].
  rewrite <- device_addresses_lines in Hl.
  assert (Hw : (list_to_set ip_addrs : gset string) <> ∅) by (destruct ip_addrs; [done|cbn; set_solver]).
  by rewrite (find_line_lines _ _ _ _ Hw (device_addresses_plain devs Hp) Hl Hrest).
Qed.

(** For one address the two searches answer the same: the first device that
    has it, or that there is none. *)
Theorem FindDevice_searches_agree addr ip_bin_name s devs :
  Forall (fun d => plain_device d = true) devs -> ip_prints s ip_bin_name devs ->
  snd (FindDeviceResponsibleForLessReliable [addr] ip_bin_name s) =
  snd (FindDeviceResponsibleFor parse_ip_json [addr] ip_bin_name s).
Proof.
  intros Hp Hi. rewrite (less_reliable_finds _ _ _ devs) by done.
  destruct Hi as [(s' & g & Hr & Hok & Hsp & Hj) _].
  unfold FindDeviceResponsibleFor, ip_output. rewrite Hr, Hok, Hsp. cbn [negb snd]. rewrite Hj.
  cbn [list_to_set]. rewrite right_id_L by apply _. by rewrite find_device_one.
Qed.

(** Two addresses are never on one line. *)
Lemma less_reliable_two_addresses a b ip_bin_name s devs :
  a <> b -> Forall (fun d => plain_device d = true) devs -> ip_prints s ip_bin_name devs ->
  snd (FindDeviceResponsibleForLessReliable [a; b] ip_bin_name s) = inl kNotFound.
Proof.
  intros Hne Hp Hi. rewrite (less_reliable_finds _ _ _ devs) by done.
  enough (first_device (fun _ c => bool_decide ((list_to_set [a; b] : gset string) ∖ {[ip_text c]} = ∅))
            (device_addresses devs) = None) as -> by done.
  induction (device_addresses devs) as [|[d c] l IH]; [done|]. cbn [first_device].
  rewrite bool_decide_eq_false_2; [done|]. cbn [list_to_set]. rewrite (right_id_L ∅ (∪)). intros E.
  assert (Hx : forall x, x = a \/ x = b -> x = ip_text c).
  { intros x Hx. destruct (decide (x = ip_text c)) as [?|Hc]; [done|]. exfalso.
    apply (not_elem_of_empty (C := gset string) x). rewrite <- E.
    by rewrite elem_of_difference, elem_of_union, !elem_of_singleton. }
  apply Hne. by rewrite (Hx a), (Hx b) by auto.
Qed.
End Device.

(** ** A system *)

(** The tables and rates of the kernel; rules that iptables -C knows; and what
    the next programs do before they end, whether they work or are killed. *)
Record fake_os := mkFakeOs { os_table : table; os_rates : gmap string string; os_answers : list bool }.

Definition ip_oneline_text : string :=
  "1: lo    inet 127.0.0.1/8 scope host lo" +:+ newline +:+
  "2: eth0    inet 10.0.0.7/24 brd 10.0.0.255 scope global eth0" +:+ newline +:+
  "2: eth0    inet6 fe80::7/64 scope link " +:+ newline.

Definition killed : ran := mkRan 9 "" "".
Definition done_with (out : string) : ran := mkRan (exited_with 0) out "".

Definition fake_run (s : fake_os) (file : string) (args : list string) (input : option string) : fake_os * option ran :=
  let works := default true (head (os_answers s)) in
  let s := mkFakeOs (os_table s) (os_rates s) (tail (os_answers s)) in
  let text := default "" input in
  if negb works then (s, Some killed)
  else if bool_decide (file = "iptables-restore") then
    let t := if bool_decide ("--noflush" ∈ args) then os_table s else mkTable [] [] in
    match cmds ← read_input "eth0" text; run_commands cmds t with
    | Some t => (mkFakeOs t (os_rates s) (os_answers s), Some (done_with ""))
    | None => (s, Some (mkRan (exited_with 1) "" ""))
    end
  else if bool_decide (file = "tc") then
    if bool_decide (args = ["-batch"]) then (s, Some (mkRan (exited_with 255) "" ""))
    else (mkFakeOs (os_table s) (set_rates (os_rates s) (read_rates text)) (os_answers s), Some (done_with ""))
  else if bool_decide (file = "ip") then
    (s, Some (done_with (if bool_decide ("-json" ∈ args) then "json" else ip_oneline_text)))
  else (s, Some (mkRan (exited_with (if bool_decide ("known" ∈ args) then 0 else 1)) "" "")).

#[export] Instance fake_programs : Programs fake_os := {| run := fake_run |}.

#[export] Instance fake_iptables : IptablesProgram fake_os "eth0".
Proof.
  refine {| mangle := os_table |}; intros s.
  - intros flush data s' got. unfold run, fake_programs, fake_run.
    destruct (default true _); cbn [negb]; [|intros [= <- <-]; by vm_compute].
    rewrite bool_decide_eq_true_2 by done. cbn [os_table default from_option].
    assert (Hn : bool_decide ("--noflush" ∈ wait_args ++ ["-T"; "mangle"] ++ (if flush then [] else ["--noflush"])) = negb flush)
      by by destruct flush.
    rewrite Hn. destruct (_ ≫= _) as [t|] eqn:E; intros [= <- <-] Hok; [|by vm_compute in Hok].
    apply bind_Some in E as (cmds & Hread & E). exists cmds. split; [done|]. by destruct flush.
  - intros data s' got. unfold run, fake_programs, fake_run.
    destruct (default true _); cbn [negb]; [|intros [= <- <-] _; by left].
    rewrite bool_decide_eq_true_2 by done. cbn [default from_option].
    destruct (_ ≫= _) as [t|]; intros [= <- <-] Hok; [by vm_compute in Hok|by left].
Defined.

#[export] Instance fake_tc : TcProgram fake_os "tc".
Proof.
  refine {| device_rates := os_rates |}; intros s text s' got; unfold run, fake_programs, fake_run;
    (destruct (default true _); cbn [negb]; [|intros [= <- <-]; by vm_compute]).
  - by intros [= <- <-] _.
  - by intros [= <- <-].
Defined.

#[export] Instance fake_rules : RuleProgram fake_os.
Proof.
  refine {| has_rule := fun _ _ _ args => bool_decide ("known" ∈ args) |}.
  intros s family t c args s' got Hr Hok. destruct (decide ("known" ∈ args)) as [?|Hn]; [by apply bool_decide_eq_true_2|].
  unfold run, fake_programs, fake_run in Hr. destruct (default true _); cbn [negb] in Hr; [|injection Hr as <- <-; by vm_compute in Hok].
  rewrite 3!bool_decide_eq_false_2 in Hr by by destruct family.
  rewrite bool_decide_eq_false_2 in Hr; [injection Hr as <- <-; by vm_compute in Hok|].
  unfold MakeFullArgs, wait_args. rewrite !elem_of_app, !elem_of_cons.
  assert (Hc : "known" <> Chain_ToString c) by by destruct c.
  assert (Ht : "known" <> Table_ToString t) by by destruct t. set_solver.
Defined.

Definition os (answers : list bool) : fake_os := mkFakeOs (mkTable [] []) ∅ answers.

Definition example_rule : list string := ["-j"; "known"].

Lemma EnsureRule_never_adds_witness :
  (exists r', EnsureRule kAppend kMangle kOutput ["-j"; "DROP"] (Runner_Create kIpV4 (os [])) = Some (r', inl kInternal)) /\
  (exists r', EnsureRule kAppend kMangle kOutput example_rule (Runner_Create kIpV6 (os [])) = Some (r', inr true)) /\
  (exists r', DeleteRule kMangle kOutput ["-j"; "DROP"] (Runner_Create kIpV4 (os [])) = Some (r', inl kInternal)).
Proof.
  destruct (EnsureRule_never_adds kAppend kIpV4 kMangle kOutput ["-j"; "DROP"] (os []) _ _ (surjective_pairing _)) as [_ H].
  destruct (EnsureRule_never_adds kAppend kIpV6 kMangle kOutput example_rule (os []) _ _ (surjective_pairing _)) as [(r & Hr & _) _].
  destruct (H eq_refl) as [(r1 & H1 & _) H2]. split; [by exists r1|]. split; [|done]. by exists r.
Defined.

Definition example_devices : list ip_device :=
  [mkIpDevice 1 "lo" [mkIpAddress false "127.0.0.1" 8 ["scope"; "host"; "lo"]];
   mkIpDevice 2 "eth0" [mkIpAddress false "10.0.0.7" 24 ["brd"; "10.0.0.255"; "scope"; "global"; "eth0"];
                        mkIpAddress true "fe80::7" 64 ["scope"; "link"]]].

Definition example_parse (out : string) : option (list dev_config) :=
  if bool_decide (out = "json") then Some (map json_device example_devices) else None.

Lemma example_ip_prints : ip_prints example_parse (os []) "ip" example_devices.
Proof.
  split; eexists _, _; (split; [reflexivity|]); (split; [reflexivity|]); (split; [reflexivity|]); [reflexivity|].
  exists [[]]. split; [by constructor|]. vm_compute. reflexivity.
Qed.

Lemma FindDevice_searches_agree_witness :
  snd (FindDeviceResponsibleFor example_parse ["fe80::7"] "ip" (os [])) = inr "eth0" /\
  snd (FindDeviceResponsibleForLessReliable ["fe80::7"] "ip" (os [])) = inr "eth0" /\
  snd (FindDeviceResponsibleForLessReliable ["8.8.8.8"] "ip" (os [])) = inl kNotFound.
Proof.
  assert (Hp : Forall (fun d => plain_device d = true) example_devices) by by repeat constructor.
  split; [vm_compute; reflexivity|].
  split; rewrite (FindDevice_searches_agree example_parse _ _ _ _ Hp example_ip_prints); vm_compute; reflexivity.
Defined.

(** The device has both addresses, but not on one line. *)
Lemma less_reliable_misses_device :
  snd (FindDeviceResponsibleFor example_parse ["10.0.0.7"; "fe80::7"] "ip" (os [])) = inr "eth0" /\
  snd (FindDeviceResponsibleForLessReliable ["10.0.0.7"; "fe80::7"] "ip" (os [])) = inl kNotFound.
Proof. split; vm_compute; reflexivity. Qed.

(** The controller on these programs: the second restore is killed. *)
Definition os_controller : @Controller fake_os :=
  fst (commit_round (fst (Clear (new_Controller "eth0" [] (os [true; true; false])))) [web 80 "AF21"]).

Lemma os_controller_commits :
  rules (@runner_ _ os_controller) = table_of (blocks [web 80 "AF21"]) /\
  snd (commit_round os_controller [web 81 "BE"]) = false.
Proof. split; vm_compute; reflexivity. Qed.
