(* ===== verification/Binary.v ===== *)
(** * Binary: integers in buffers

    src/heyp/encoding/binary.h.  A buffer of [char] is the list of its bytes
    as [uint8_t], and a pointer into it the buffer with an offset.  [None] is
    an access past the end of the buffer. *)

From S2P Require Import Prelude.

(** Bytes written over those of the buffer. *)
Definition put (off : nat) (bytes buf : list Z) : option (list Z) :=
  if (off + length bytes <=? length buf)%nat
  then Some (take off buf ++ bytes ++ drop (off + length bytes) buf) else None.

Definition ReadU32LE (b : list Z) (off : nat) : option Z :=
  b3 ← b !! (off + 3)%nat; b2 ← b !! (off + 2)%nat; b1 ← b !! (off + 1)%nat; b0 ← b !! off;
  Some (Z.lor (Z.lor (Z.lor (u32 (Z.shiftl b3 24)) (u32 (Z.shiftl b2 16))) (u32 (Z.shiftl b1 8))) b0).

Definition ReadU64LE (b : list Z) (off : nat) : option Z :=
  lo ← ReadU32LE b off; hi ← ReadU32LE b (off + 4); Some (Z.lor (u64 (Z.shiftl hi 32)) lo).

Definition ReadI32LE (b : list Z) (off : nat) : option Z := i32 <$> ReadU32LE b off.
Definition ReadI64LE (b : list Z) (off : nat) : option Z := i64 <$> ReadU64LE b off.

Definition u32_bytes (v : Z) : list Z :=
  [Z.land v 255; Z.land (Z.shiftr v 8) 255; Z.land (Z.shiftr v 16) 255; Z.land (Z.shiftr v 24) 255].

Definition WriteU32LE (v : Z) (off : nat) (b : list Z) : option (list Z) := put off (u32_bytes v) b.

(** The argument of [WriteU32LE] is a [uint32_t]. *)
Definition WriteU64LE (v : Z) (off : nat) (b : list Z) : option (list Z) :=
  b ← WriteU32LE (u32 v) off b; WriteU32LE (u32 (Z.shiftr v 32)) (off + 4) b.

Definition WriteI32LE (v : Z) (off : nat) (b : list Z) : option (list Z) := WriteU32LE (u32 v) off b.
Definition WriteI64LE (v : Z) (off : nat) (b : list Z) : option (list Z) := WriteU64LE (u64 v) off b.

Definition to_char (c : Z) : Z := if c <? 10 then 48 + c else if c <? 16 then 97 + c - 10 else 63.

(** The characters' codes. *)
Definition ToHex (b : list Z) (n : nat) : list Z :=
  concat (map (fun v => [to_char (Z.land v 15); to_char (Z.land (Z.shiftr v 4) 15)]) (take n b)).

(** ** Bits *)

Lemma testbit_land_ones v k n : 0 <= k -> 0 <= n -> Z.testbit (Z.land v (Z.ones k)) n = Z.testbit v n && (n <? k).
Proof.
  intros Hk Hn. rewrite Z.land_spec, Z.testbit_ones_nonneg by lia. done.
Qed.

Lemma testbit_mod v k n : 0 <= k -> 0 <= n -> Z.testbit (v mod 2 ^ k) n = Z.testbit v n && (n <? k).
Proof. intros Hk Hn. rewrite <- Z.land_ones by lia. by apply testbit_land_ones. Qed.

Definition byte_at (v : Z) (k : Z) : Z := Z.land (Z.shiftr v (8 * k)) 255.

Lemma byte_at_bits v k n : 0 <= k -> Z.testbit (byte_at v k) n = Z.testbit v (n + 8 * k) && ((0 <=? n) && (n <? 8)).
Proof.
  intros Hk. unfold byte_at. change 255 with (Z.ones 8). destruct (Z.leb_spec 0 n) as [Hn|Hn].
  - rewrite testbit_land_ones, Z.shiftr_spec by lia. done.
  - rewrite Z.testbit_neg_r by done. by rewrite andb_false_r.
Qed.

Lemma byte_at_range v k : 0 <= byte_at v k < 256.
Proof. unfold byte_at. change 255 with (Z.ones 8). rewrite Z.land_ones by lia. apply Z.mod_pos_bound. lia. Qed.

(** Four bytes put together again. *)
Lemma lor_bytes v :
  Z.lor (Z.lor (Z.lor (u32 (Z.shiftl (byte_at v 3) 24)) (u32 (Z.shiftl (byte_at v 2) 16)))
           (u32 (Z.shiftl (byte_at v 1) 8))) (byte_at v 0) = u32 v.
Proof.
  unfold u32. apply Z.bits_inj'. intros n Hn. rewrite !Z.lor_spec, !testbit_mod, !Z.shiftl_spec, !byte_at_bits by lia.
  replace (n - 24 + 8 * 3) with n by lia. replace (n - 16 + 8 * 2) with n by lia.
  replace (n - 8 + 8 * 1) with n by lia. replace (n + 8 * 0) with n by lia.
  destruct (Z.testbit v n); cbn [andb]; [|done].
  apply eq_true_iff_eq. rewrite !orb_true_iff, !andb_true_iff, !Z.leb_le, !Z.ltb_lt. lia.
Qed.

Lemma lor_words v : Z.lor (u64 (Z.shiftl (u32 (Z.shiftr v 32)) 32)) (u32 v) = u64 v.
Proof.
  unfold u32, u64. apply Z.bits_inj'. intros n Hn. rewrite Z.lor_spec, !testbit_mod, Z.shiftl_spec by lia.
  destruct (Z.leb_spec 32 n) as [Hl|Hl].
  - rewrite testbit_mod, Z.shiftr_spec by lia. replace (n - 32 + 32) with n by lia.
    destruct (Z.testbit v n); cbn [andb]; [|done].
    apply eq_true_iff_eq. rewrite !orb_true_iff, !andb_true_iff, !Z.ltb_lt. lia.
  - rewrite (Z.testbit_neg_r _ (n - 32)) by lia. cbn [andb orb]. destruct (Z.testbit v n); cbn [andb]; [|done].
    apply eq_true_iff_eq. rewrite !Z.ltb_lt. lia.
Qed.

Lemma u32_bytes_eq v : u32_bytes v = [byte_at v 0; byte_at v 1; byte_at v 2; byte_at v 3].
Proof. unfold u32_bytes, byte_at. by rewrite Z.shiftr_0_r. Qed.

(** ** What is read back *)

Lemma put_spec off bytes b b' : put off bytes b = Some b' ->
  length b' = length b /\ (off + length bytes <= length b)%nat /\
  forall i, b' !! i = if decide (off <= i < off + length bytes)%nat then bytes !! (i - off)%nat else b !! i.
Proof.
  unfold put. destruct (_ <=? _)%nat eqn:E; [|done]. apply Nat.leb_le in E. intros [= <-].
  split; [rewrite !length_app, length_take, length_drop; lia|]. split; [done|]. intros i. case_decide as Hi.
  - rewrite lookup_app_r, length_take by (rewrite length_take; lia). rewrite lookup_app_l by lia. f_equal. lia.
  - destruct (decide (i < off)%nat) as [Hlt|Hge].
    + rewrite lookup_app_l by (rewrite length_take; lia). by apply lookup_take_lt.
    + rewrite lookup_app_r, length_take by (rewrite length_take; lia). rewrite lookup_app_r by lia.
      rewrite lookup_drop. f_equal. lia.
Qed.

Lemma put_range off bytes b b' : put off bytes b = Some b' ->
  Forall (fun x => 0 <= x < 256) bytes -> Forall (fun x => 0 <= x < 256) b -> Forall (fun x => 0 <= x < 256) b'.
Proof.
  unfold put. case_match; [|done]. intros [= <-] Hs Hb. rewrite !Forall_app. split_and!; [by apply Forall_take|done|by apply Forall_drop].
Qed.

Definition is_read32 (b : list Z) (off : nat) (v : Z) : Prop :=
  forall k, (k < 4)%nat -> b !! (off + k)%nat = Some (byte_at v (Z.of_nat k)).

Lemma read32_bytes b off v : is_read32 b off v -> ReadU32LE b off = Some (u32 v).
Proof.
  intros H. unfold ReadU32LE. pose proof (H 0%nat ltac:(lia)) as H0. rewrite Nat.add_0_r in H0.
  rewrite (H 3%nat), (H 2%nat), (H 1%nat), H0 by lia. cbn [mbind option_bind]. f_equal. apply lor_bytes.
Qed.

Lemma write32_spec v off b b' : WriteU32LE v off b = Some b' ->
  length b' = length b /\ is_read32 b' off v /\
  forall i, (i < off)%nat \/ (off + 4 <= i)%nat -> b' !! i = b !! i.
Proof.
  unfold WriteU32LE. rewrite u32_bytes_eq. intros (Hl & Hle & Hb)%put_spec. cbn [length] in *. split; [done|]. split.
  - intros k Hk. rewrite Hb, decide_True by lia. replace (off + k - off)%nat with k by lia.
    by do 4 (destruct k as [|k]; [done|]); lia.
  - intros i Hi. by rewrite Hb, decide_False by lia.
Qed.

Lemma is_read32_ext b b' off v : is_read32 b off v ->
  (forall k, (k < 4)%nat -> b' !! (off + k)%nat = b !! (off + k)%nat) -> is_read32 b' off v.
Proof. intros H He k Hk. rewrite He by done. by apply H. Qed.

Definition is_read64 (b : list Z) (off : nat) (v : Z) : Prop :=
  is_read32 b off v /\ is_read32 b (off + 4) (Z.shiftr v 32).

Lemma byte_at_u32 v k : 0 <= k < 4 -> byte_at (u32 v) k = byte_at v k.
Proof.
  intros Hk. apply Z.bits_inj'. intros n Hn. rewrite !byte_at_bits by lia. unfold u32. rewrite testbit_mod by lia.
  destruct (Z.testbit v (n + 8 * k)); cbn [andb]; [|done].
  apply eq_true_iff_eq. rewrite !andb_true_iff, !Z.leb_le, !Z.ltb_lt. lia.
Qed.

Lemma is_read32_u32 b off v : is_read32 b off (u32 v) <-> is_read32 b off v.
Proof. split; intros H k Hk; [rewrite <- byte_at_u32 by lia|rewrite byte_at_u32 by lia]; by apply H. Qed.

Lemma read64_bytes b off v : is_read64 b off v -> ReadU64LE b off = Some (u64 v).
Proof.
  intros [Hlo Hhi]. unfold ReadU64LE. rewrite (read32_bytes _ _ _ Hlo), (read32_bytes _ _ _ Hhi).
  cbn [mbind option_bind]. f_equal. apply lor_words.
Qed.

Lemma is_read64_ext b b' off v : is_read64 b off v ->
  (forall k, (k < 8)%nat -> b' !! (off + k)%nat = b !! (off + k)%nat) -> is_read64 b' off v.
Proof.
  intros [Hlo Hhi] He. split; (eapply is_read32_ext; [done|]); intros k Hk; [by apply He; lia|].
  replace (off + 4 + k)%nat with (off + (4 + k))%nat by lia. apply He. lia.
Qed.

Lemma write64_spec v off b b' : WriteU64LE v off b = Some b' ->
  length b' = length b /\ is_read64 b' off v /\
  forall i, (i < off)%nat \/ (off + 8 <= i)%nat -> b' !! i = b !! i.
Proof.
  unfold WriteU64LE. destruct (WriteU32LE (u32 v) off b) as [b1|] eqn:E1; [|done]. cbn [mbind option_bind].
  intros E2. apply write32_spec in E1 as (L1 & R1 & O1). apply write32_spec in E2 as (L2 & R2 & O2).
  rewrite is_read32_u32 in R1, R2. split; [lia|]. split; [split; [|done]|].
  - eapply is_read32_ext; [done|]. intros k Hk. apply O2. lia.
  - intros i Hi. rewrite O2 by lia. apply O1. lia.
Qed.

Lemma write32_Some v off b : (off + 4 <= length b)%nat -> is_Some (WriteU32LE v off b).
Proof. intros H. unfold WriteU32LE, put, u32_bytes. cbn [length]. by rewrite (proj2 (Nat.leb_le _ _) H). Qed.

Lemma write64_Some v off b : (off + 8 <= length b)%nat -> is_Some (WriteU64LE v off b).
Proof.
  intros H. unfold WriteU64LE. destruct (write32_Some (u32 v) off b) as [b1 E]; [lia|]. rewrite E. cbn [mbind option_bind].
  apply write32_spec in E as (L & _). apply write32_Some. lia.
Qed.

(** An integer written to a buffer is read back as itself, at either width
    and signedness, when the buffer has room; the rest of the buffer stays. *)
Theorem Write_Read_roundtrip off b : (off + 8 <= length b)%nat ->
  (forall v, in_u64 v -> v < 2 ^ 32 -> exists b', WriteU32LE v off b = Some b' /\ ReadU32LE b' off = Some v) /\
  (forall v, in_u64 v -> exists b', WriteU64LE v off b = Some b' /\ ReadU64LE b' off = Some v) /\
  (forall v, - 2 ^ 31 <= v < 2 ^ 31 -> exists b', WriteI32LE v off b = Some b' /\ ReadI32LE b' off = Some v) /\
  (forall v, in_i64 v -> exists b', WriteI64LE v off b = Some b' /\ ReadI64LE b' off = Some v /\
     forall i, (i < off)%nat \/ (off + 8 <= i)%nat -> b' !! i = b !! i).
Proof.
  intros Hb. split_and!; intros v Hv.
  - intros Hv'. destruct (write32_Some v off b) as [b' E]; [lia|]. exists b'. split; [done|].
    apply write32_spec in E as (_ & R & _). rewrite (read32_bytes _ _ _ R). f_equal. apply Z.mod_small.
    unfold in_u64 in Hv. lia.
  - destruct (write64_Some v off b) as [b' E]; [done|]. exists b'. split; [done|].
    apply write64_spec in E as (_ & R & _). rewrite (read64_bytes _ _ _ R). f_equal. by apply u64_id.
  - unfold WriteI32LE, ReadI32LE. destruct (write32_Some (u32 v) off b) as [b' E]; [lia|]. exists b'. split; [done|].
    apply write32_spec in E as (_ & R & _). rewrite (read32_bytes _ _ _ R). cbn. f_equal. unfold u32, i32.
    rewrite Z.mod_mod, Zplus_mod_idemp_l, Z.mod_small; lia.
  - unfold WriteI64LE, ReadI64LE. destruct (write64_Some (u64 v) off b) as [b' E]; [done|]. exists b'. split; [done|].
    apply write64_spec in E as (_ & R & O). rewrite (read64_bytes _ _ _ R). cbn. split; [|done]. f_equal.
    rewrite i64_u64, i64_u64. by apply i64_id.
Qed.

(** The digits of a byte are printed low one first: 0x12 as 21. *)
Lemma ToHex_low_digit_first : ToHex [18] 1 = [50; 49].
Proof. reflexivity. Qed.

Lemma Write_Read_roundtrip_witness :
  (exists b', WriteU64LE 18446744073709551615 1 (replicate 9 0) = Some b' /\ ReadU64LE b' 1 = Some 18446744073709551615) /\
  exists b', WriteI32LE (-2) 1 (replicate 9 0) = Some b' /\ ReadI32LE b' 1 = Some (-2).
Proof.
  destruct (Write_Read_roundtrip 1 (replicate 9 0) ltac:(cbn; lia)) as (_ & H64 & H32 & _).
  split; [by apply H64|apply H32; lia].
Defined.
