(* ===== verification/Rpc.v ===== *)
(** * Rpc: the connections of the load generator

    src/heyp/app/testlopri: [OnRpcRead] of server.cc, and [ClientConn] and
    [ClientConnPool] of client.cc.  A request is a header of 28 bytes and a
    body; the server answers with the header.  Both ends get the stream in
    pieces that have nothing to do with the messages.

    libuv keeps a pointer to the data of a write until the write is done, and
    the connection has one buffer for all its requests; so a write in the
    queue is a range of the buffer, read when the kernel takes the bytes. *)

From S2P Require Import Prelude Binary.

(** ** The server *)

Definition kHeader : nat := 28.

Record client_stream := mkStream { bytes_left : Z; header : list Z; num_header_read : nat }.

(** [OnNewConnection]; the header and the count are what malloc left there. *)
Definition OnNewConnection (junk : list Z) (k : Z) : client_stream := mkStream k junk 0.

(** The loop of [OnRpcRead] over the rest of a piece; the headers it answers. *)
Fixpoint read_loop (fuel : nat) (b : list Z) (c : client_stream) (acks : list (list Z))
    : option (client_stream * list (list Z)) :=
  match fuel with
  | O => None
  | S fuel =>
      match b with
      | [] => Some (c, acks)
      | x :: b' =>
          if (num_header_read c <? kHeader)%nat then
            let header := <[num_header_read c := x]> (header c) in
            let n := S (num_header_read c) in
            k ← (if (kHeader <=? n)%nat then ReadU32LE header 0 else Some (bytes_left c));
            read_loop fuel b' (mkStream k header n) acks
          else if Z.of_nat (length b) <? bytes_left c then
            read_loop fuel [] (mkStream (u32 (bytes_left c - Z.of_nat (length b))) (header c) (num_header_read c)) acks
          else read_loop fuel (drop (Z.to_nat (bytes_left c)) b) (mkStream (bytes_left c) (header c) 0) (acks ++ [header c])
      end
  end.

(** [None] for a read error: the connection is closed. *)
Definition OnRpcRead (b : list Z) (c : client_stream) : option (client_stream * list (list Z)) :=
  read_loop (2 * length b + 1) b c [].

Fixpoint server_run (chunks : list (list Z)) (c : client_stream) : option (client_stream * list (list Z)) :=
  match chunks with
  | [] => Some (c, [])
  | b :: chunks => '(c, acks) ← OnRpcRead b c; '(c, acks') ← server_run chunks c; Some (c, acks ++ acks')
  end.

(** *** The same, byte by byte *)

(** A complete header waits for its body; an empty body ends with the next
    byte. *)
Inductive phase := InHeader (got : list Z) | InBody (left : Z) (hdr : list Z).

Definition phase_of (c : client_stream) : phase :=
  if (num_header_read c <? kHeader)%nat then InHeader (take (num_header_read c) (header c))
  else InBody (bytes_left c) (header c).

Definition next_byte (p : phase) (x : Z) : phase * list (list Z) :=
  match p with
  | InHeader got =>
      let got := got ++ [x] in
      ((if (length got =? kHeader)%nat then InBody (default 0 (ReadU32LE got 0)) got else InHeader got), [])
  | InBody k hdr =>
      if k =? 0 then (InHeader [x], [hdr])
      else if k =? 1 then (InHeader [], [hdr]) else (InBody (k - 1) hdr, [])
  end.

Fixpoint next_bytes (p : phase) (b : list Z) : phase * list (list Z) :=
  match b with
  | [] => (p, [])
  | x :: b => let '(p, a) := next_byte p x in let '(p, a') := next_bytes p b in (p, a ++ a')
  end.

Lemma next_bytes_app b b' : forall p, next_bytes p (b ++ b') =
  let '(q, a) := next_bytes p b in let '(q', a') := next_bytes q b' in (q', a ++ a').
Proof.
  induction b as [|x b IH]; intros p; cbn [app next_bytes]; [by destruct (next_bytes p b')|].
  destruct (next_byte p x) as [p1 a1]. rewrite IH. destruct (next_bytes p1 b) as [q a].
  destruct (next_bytes q b') as [q' a']. by rewrite app_assoc.
Qed.

(** A body that the piece does not end. *)
Lemma next_bytes_inside b : forall k hdr, Z.of_nat (length b) < k ->
  next_bytes (InBody k hdr) b = (InBody (k - Z.of_nat (length b)) hdr, []).
Proof.
  induction b as [|x b IH]; intros k hdr Hl; cbn [length next_bytes next_byte] in *; [by rewrite Z.sub_0_r|].
  rewrite (proj2 (Z.eqb_neq k 0)), (proj2 (Z.eqb_neq k 1)), IH by lia. f_equal. f_equal. lia.
Qed.

(** A body that ends in it. *)
Lemma next_bytes_through b : forall k hdr, 0 < k <= Z.of_nat (length b) ->
  next_bytes (InBody k hdr) b =
  let '(q, a) := next_bytes (InHeader []) (drop (Z.to_nat k) b) in (q, hdr :: a).
Proof.
  induction b as [|x b IH]; intros k hdr Hl; cbn [length next_bytes next_byte] in *; [lia|].
  rewrite (proj2 (Z.eqb_neq k 0)) by lia. destruct (Z.eqb_spec k 1) as [->|Hne].
  - change (drop (Z.to_nat 1) (x :: b)) with b. by destruct (next_bytes (InHeader []) b).
  - rewrite IH by lia. replace (Z.to_nat k) with (S (Z.to_nat (k - 1))) by lia. cbn [drop].
    by destruct (next_bytes _ _).
Qed.

Record stream_ok (c : client_stream) : Prop := {
  so_header : length (header c) = kHeader;
  so_read : (num_header_read c <= kHeader)%nat;
  so_bytes : Forall (fun x => 0 <= x < 256) (header c);
  so_left : (num_header_read c = kHeader -> 0 <= bytes_left c < 2 ^ 32) }.

Lemma u32_in_range z : 0 <= u32 z < 2 ^ 32.
Proof. apply Z.mod_pos_bound. lia. Qed.

Lemma ReadU32LE_range b off v : Forall (fun x => 0 <= x < 256) b -> ReadU32LE b off = Some v -> 0 <= v < 2 ^ 32.
Proof.
  intros Hb. unfold ReadU32LE.
  destruct (b !! (off + 3)%nat) as [b3|], (b !! (off + 2)%nat) as [b2|], (b !! (off + 1)%nat) as [b1|]; try done.
  cbn [mbind option_bind]. destruct (b !! off) as [b0|] eqn:E; [|done]. intros [= <-].
  apply (Forall_lookup_1 _ _ _ _ Hb) in E.
  assert (Hl : forall x y, 0 <= x < 2 ^ 32 -> 0 <= y < 2 ^ 32 -> 0 <= Z.lor x y < 2 ^ 32).
  { intros x y Hx Hy. assert (0 <= Z.lor x y) by (apply Z.lor_nonneg; lia).
    split; [done|]. apply Z.log2_lt_cancel. rewrite Z.log2_lor by lia.
    destruct (Z.eq_dec x 0) as [->|], (Z.eq_dec y 0) as [->|];
      try apply Z.max_lub_lt; try (change (Z.log2 (2 ^ 32)) with 32; apply Z.log2_lt_pow2; lia); done. }
  repeat apply Hl; try apply u32_in_range. lia.
Qed.

Lemma ReadU32LE_Some b off : (off + 4 <= length b)%nat -> is_Some (ReadU32LE b off).
Proof.
  intros H. unfold ReadU32LE.
  destruct (lookup_lt_is_Some_2 b (off + 3)%nat ltac:(lia)) as [? ->], (lookup_lt_is_Some_2 b (off + 2)%nat ltac:(lia)) as [? ->],
    (lookup_lt_is_Some_2 b (off + 1)%nat ltac:(lia)) as [? ->], (lookup_lt_is_Some_2 b off ltac:(lia)) as [? ->].
  by eexists.
Qed.

Notation bytes := (Forall (fun x => 0 <= x < 256)).

Lemma read_header c x : stream_ok c -> (num_header_read c < kHeader)%nat -> 0 <= x < 256 ->
  let hdr := <[num_header_read c := x]> (header c) in
  exists k, (if (kHeader <=? S (num_header_read c))%nat then ReadU32LE hdr 0 else Some (bytes_left c)) = Some k /\
    stream_ok (mkStream k hdr (S (num_header_read c))) /\
    next_byte (phase_of c) x = (phase_of (mkStream k hdr (S (num_header_read c))), []).
Proof.
  intros [Hl Hr Hb _] Hn Hx hdr. assert (Hlen : length hdr = kHeader) by (unfold hdr; by rewrite length_insert).
  assert (Hby : bytes hdr) by (by apply Forall_insert).
  assert (Ht : take (num_header_read c) (header c) ++ [x] = take (S (num_header_read c)) hdr).
  { unfold hdr. rewrite (take_S_r _ _ x) by (apply list_lookup_insert_eq; lia). by rewrite take_insert_ge. }
  unfold phase_of. cbn [num_header_read header bytes_left]. rewrite (proj2 (Nat.ltb_lt _ _) Hn). cbn [next_byte].
  rewrite Ht, length_take, Hlen. destruct (Nat.leb_spec kHeader (S (num_header_read c))) as [Hge|Hlt].
  - destruct (ReadU32LE_Some hdr 0) as [k Hk]; [rewrite Hlen; unfold kHeader; lia|]. exists k. split; [done|].
    split; [split; cbn; [done|lia|done|intros _; by eapply ReadU32LE_range]|].
    rewrite (proj2 (Nat.eqb_eq _ _)), (proj2 (Nat.ltb_ge _ _)) by lia. rewrite take_ge by lia. by rewrite Hk.
  - exists (bytes_left c). split; [done|]. split; [split; cbn; [done|lia|done|intros; lia]|].
    rewrite (proj2 (Nat.eqb_neq _ _)), (proj2 (Nat.ltb_lt _ _)) by lia. done.
Qed.

(** Enough fuel: two rounds for each byte, and one to see the end. *)
Lemma read_loop_bytes fuel : forall b c acks, stream_ok c -> bytes b ->
  (2 * length b + (if decide (b = [] \/ num_header_read c = kHeader) then 1 else 0) <= fuel)%nat ->
  exists c', read_loop fuel b c acks = Some (c', acks ++ snd (next_bytes (phase_of c) b)) /\
    phase_of c' = fst (next_bytes (phase_of c) b) /\ stream_ok c'.
Proof.
  induction fuel as [|fuel IH]; intros b c acks Hok Hb Hf.
  { destruct b; [rewrite decide_True in Hf by auto; cbn in Hf; lia|cbn in Hf; lia]. }
  destruct b as [|x b]; cbn [read_loop].
  { exists c. rewrite app_nil_r. done. }
  apply Forall_cons in Hb as [Hx Hb]. destruct (Nat.ltb_spec (num_header_read c) kHeader) as [Hn|Hn].
  - destruct (read_header c x Hok Hn Hx) as (k & -> & Hok' & Hnext). cbn [mbind option_bind].
    destruct (IH b _ acks Hok' Hb) as (c' & -> & Hp & Hc').
    { destruct Hok. rewrite decide_False in Hf by (intros [|]; [done|lia]). cbn [length] in Hf. case_decide; lia. }
    exists c'. cbn [next_bytes]. rewrite Hnext. cbn [header num_header_read bytes_left] in *. destruct (next_bytes _ b). done.
  - assert (Hnum : num_header_read c = kHeader) by (destruct Hok; lia).
    destruct (so_left c Hok Hnum) as [H0 H1]. rewrite decide_True in Hf by auto.
    assert (Hph : phase_of c = InBody (bytes_left c) (header c)) by (unfold phase_of; by rewrite (proj2 (Nat.ltb_ge _ _) Hn)).
    rewrite Hph. destruct (Z.ltb_spec (Z.of_nat (length (x :: b))) (bytes_left c)) as [Hin|Hth].
    + rewrite next_bytes_inside by done. cbn [fst snd].
      destruct fuel as [|fuel]; [cbn in Hf; lia|]. cbn [read_loop]. eexists. rewrite app_nil_r. split; [done|].
      assert (Hu : u32 (bytes_left c - Z.of_nat (length (x :: b))) = bytes_left c - Z.of_nat (length (x :: b)))
        by (apply Z.mod_small; lia). rewrite Hu.
      split; [unfold phase_of; cbn [num_header_read]; by rewrite (proj2 (Nat.ltb_ge _ _) Hn)|].
      destruct Hok. split; cbn [header num_header_read bytes_left]; try done. lia.
    + assert (Hok' : stream_ok (mkStream (bytes_left c) (header c) 0))
        by (destruct Hok; split; cbn [header num_header_read bytes_left]; try done; lia).
      destruct (IH (drop (Z.to_nat (bytes_left c)) (x :: b)) _ (acks ++ [header c]) Hok') as (c' & -> & Hp & Hc').
      { by apply Forall_drop, Forall_cons. }
      { cbn [num_header_read]. rewrite length_drop. destruct (drop _ _) eqn:E.
        - rewrite decide_True by auto. apply (f_equal length) in E. rewrite length_drop in E. cbn in *. lia.
        - rewrite decide_False by (intros [|]; done). cbn [length] in *. lia. }
      exists c'. cbn [phase_of num_header_read header] in *. change (phase_of (mkStream (bytes_left c) (header c) 0)) with (InHeader []) in *.
      destruct (Z.eq_dec (bytes_left c) 0) as [E|E].
      * rewrite E in *. change (drop (Z.to_nat 0) (x :: b)) with (x :: b) in *. cbn [next_bytes next_byte] in *.
        change (0 =? 0) with true. cbn [app length Nat.eqb kHeader] in *. destruct (next_bytes (InHeader [x]) b). cbn in *.
        by rewrite <- app_assoc.
      * rewrite next_bytes_through by lia. destruct (next_bytes (InHeader []) _). cbn in *. by rewrite <- app_assoc.
Qed.

(** [OnRpcRead] always ends, and the pieces do not matter: whatever way
    the stream is cut, the answers are those of reading it byte by byte, a
    header when its body is complete. *)
Theorem OnRpcRead_any_pieces chunks c : stream_ok c -> bytes (concat chunks) ->
  exists c', server_run chunks c = Some (c', snd (next_bytes (phase_of c) (concat chunks))) /\
    phase_of c' = fst (next_bytes (phase_of c) (concat chunks)) /\ stream_ok c'.
Proof.
  revert c. induction chunks as [|b chunks IH]; intros c Hok Hb; cbn [server_run concat] in *; [by exists c|].
  apply Forall_app in Hb as [Hb Hbs]. unfold OnRpcRead.
  destruct (read_loop_bytes (2 * length b + 1) b c [] Hok Hb) as (c1 & -> & Hp & Hok1); [case_decide; lia|].
  cbn [mbind option_bind app]. destruct (IH c1 Hok1 Hbs) as (c2 & -> & Hp2 & Hok2). cbn [mbind option_bind].
  exists c2. rewrite next_bytes_app. destruct (next_bytes (phase_of c) b) as [q a]. cbn [fst snd] in *. rewrite <- Hp.
  rewrite Hp2. destruct (next_bytes (phase_of c1) _). done.
Qed.

(** ** The client's connection *)

(** A range of [buf_] that libuv has not passed to the kernel yet. *)
Notation range := (nat * nat)%type.

Record ClientConn := mkConn {
  buf_ : list Z;
  num_seen_ : Z;
  num_issued_ : Z;
  read_buf_ : list Z;
  read_buf_size_ : nat;
  writes : list range;  (* libuv's queue *)
  wire : list Z  (* what the kernel has taken *) }.

(** What [RecordRpc] is given: the size and the times, with the id. *)
Record rpc_ack := mkAck { ack_size : Z; ack_id : Z; ack_scheduled : Z; ack_written : Z }.

(** [None]: a failed assertion. *)
Definition new_ClientConn (max_rpc_size_bytes : Z) (junk : list Z) : option ClientConn :=
  if 28 <=? max_rpc_size_bytes
  then Some (mkConn (replicate (Z.to_nat max_rpc_size_bytes) 0) 0 0 junk 0 [] []) else None.

Definition AssertValid (c : ClientConn) : bool := num_seen_ c <=? num_issued_ c.

(** [hrtime]: what [uv_hrtime] answers. *)
Definition IssueRpc (rpc_id hr_scheduled_time hrtime rpc_size_bytes : Z) (c : ClientConn) : option ClientConn :=
  buf ← WriteU32LE (u32 (rpc_size_bytes - 28)) 0 (buf_ c);
  buf ← WriteU64LE rpc_id 4 buf;
  buf ← WriteU64LE hr_scheduled_time 12 buf;
  let hr_issue_time := Z.max hr_scheduled_time hrtime in
  buf ← WriteU64LE hr_issue_time 20 buf;
  Some (mkConn buf (num_seen_ c) (num_issued_ c + 1) (read_buf_ c) (read_buf_size_ c)
          (writes c ++ [(0%nat, Z.to_nat rpc_size_bytes)]) (wire c)).

(** The kernel takes up to [n] bytes of the first write, from the buffer as
    it is now. *)
Definition kernel_takes (n : nat) (c : ClientConn) : ClientConn :=
  match writes c with
  | [] => c
  | (from, to) :: rest =>
      let mid := Nat.min to (from + n) in
      mkConn (buf_ c) (num_seen_ c) (num_issued_ c) (read_buf_ c) (read_buf_size_ c)
        (if (mid <? to)%nat then (mid, to) :: rest else rest)
        (wire c ++ take (mid - from) (drop from (buf_ c)))
  end.

Definition read_ack (b : list Z) : option rpc_ack :=
  size ← ReadU32LE b 0; id ← ReadU64LE b 4; sched ← ReadU64LE b 12; write ← ReadU64LE b 20;
  Some (mkAck (u32 (28 + size)) id sched write).

Definition set_read_buf (b : list Z) (n : nat) (c : ClientConn) : ClientConn :=
  mkConn (buf_ c) (num_seen_ c) (num_issued_ c) b n (writes c) (wire c).
Definition see_ack (c : ClientConn) : ClientConn :=
  mkConn (buf_ c) (num_seen_ c + 1) (num_issued_ c) (read_buf_ c) 0 (writes c) (wire c).

(** The loop of [OnReadAck]; an access past the end of a buffer is [None]. *)
Fixpoint ack_loop (fuel : nat) (b : list Z) (c : ClientConn) (recs : list rpc_ack) : option (ClientConn * list rpc_ack) :=
  match fuel with
  | O => None
  | S fuel =>
      match b with
      | [] => Some (c, recs)
      | _ =>
          let tocopy := Nat.min (length b) (kHeader - read_buf_size_ c) in
          rb ← put (read_buf_size_ c) (take tocopy b) (read_buf_ c);
          let c := set_read_buf rb (read_buf_size_ c + tocopy) c in
          if (read_buf_size_ c =? kHeader)%nat then
            rec ← read_ack rb; ack_loop fuel (drop tocopy b) (see_ack c) (recs ++ [rec])
          else ack_loop fuel (drop tocopy b) c recs
      end
  end.

Definition OnReadAck (b : list Z) (c : ClientConn) : option (ClientConn * list rpc_ack) :=
  if AssertValid c then ack_loop (S (length b)) b c [] else None.

Fixpoint client_run (chunks : list (list Z)) (c : ClientConn) : option (ClientConn * list rpc_ack) :=
  match chunks with
  | [] => Some (c, [])
  | b :: chunks => '(c, recs) ← OnReadAck b c; '(c, recs') ← client_run chunks c; Some (c, recs ++ recs')
  end.

(** A write that is done, with success or not. *)
Definition OnWriteDone_failed (c : ClientConn) : ClientConn :=
  mkConn (buf_ c) (num_seen_ c) (num_issued_ c - 1) (read_buf_ c) (read_buf_size_ c) (writes c) (wire c).

(** ** The pool *)

Definition waiting (c : ClientConn) : Z := num_issued_ c - num_seen_ c.

(** The loop of [WithConn]: the index of the best connection so far. *)
Fixpoint best_conn (i : nat) (l : list ClientConn) (min_waiting : Z) (best : option nat) : option nat :=
  match l with
  | [] => best
  | c :: l => if waiting c <? min_waiting then best_conn (S i) l (waiting c) (Some i) else best_conn (S i) l min_waiting best
  end.

(** [None]: the assertion that there is one fails. *)
Definition WithConn {A} (func : ClientConn -> option (ClientConn * A)) (all_ : list ClientConn) : option (list ClientConn * A) :=
  i ← best_conn 0 all_ (2 ^ 31 - 1) None;
  c ← all_ !! i;
  '(c, a) ← func c; Some (<[i := c]> all_, a).

(** ** The goodput *)

Notation goodput := (list (Z * Z)).

(** Periods of a millisecond, the last one first; the loop that adds the
    missing ones. *)
Fixpoint pad_goodput (fuel : nat) (hr_now : Z) (ts : goodput) : option goodput :=
  match fuel with
  | O => None
  | S fuel =>
      '(t, _) ← head ts;
      if u64 (t + 1000000) <? hr_now then pad_goodput fuel hr_now ((u64 (t + 1000000), 0) :: ts) else Some ts
  end.

Definition IncrementGoodput (hr_now : Z) (ts : goodput) : option goodput :=
  let ts := match ts with [] => [(hr_now, 1)] | _ => ts end in
  let gap := match ts with (t, _) :: _ => Z.to_nat ((hr_now - t) / 1000000) | [] => 0%nat end in
  ts ← pad_goodput (gap + 2) hr_now ts;
  match ts with (t, n) :: ts => Some ((t, n + 1) :: ts) | [] => None end.

(** ** Reading the answers *)

Definition got (c : ClientConn) : list Z := take (read_buf_size_ c) (read_buf_ c).

Record reader_ok (c : ClientConn) : Prop := {
  ro_buf : length (read_buf_ c) = kHeader;
  ro_size : (read_buf_size_ c < kHeader)%nat }.

Lemma ReadU64LE_Some b off : (off + 8 <= length b)%nat -> is_Some (ReadU64LE b off).
Proof.
  intros H. unfold ReadU64LE. destruct (ReadU32LE_Some b off) as [lo ->]; [lia|].
  destruct (ReadU32LE_Some b (off + 4)) as [hi ->]; [lia|]. by eexists.
Qed.

Lemma read_ack_Some b : length b = kHeader -> is_Some (read_ack b).
Proof.
  unfold kHeader. intros Hl. unfold read_ack. destruct (ReadU32LE_Some b 0) as [? ->]; [lia|].
  destruct (ReadU64LE_Some b 4) as [? ->]; [lia|]. destruct (ReadU64LE_Some b 12) as [? ->]; [lia|].
  destruct (ReadU64LE_Some b 20) as [? ->]; [lia|]. by eexists.
Qed.

(** Only the reader changes. *)
Definition same_writer (c c' : ClientConn) : Prop :=
  buf_ c' = buf_ c /\ num_issued_ c' = num_issued_ c /\ writes c' = writes c /\ wire c' = wire c.

Record did_read (c c' : ClientConn) (b : list Z) (blocks : list (list Z)) : Prop := {
  dr_blocks : got c ++ b = concat blocks ++ got c';
  dr_length : Forall (fun h => length h = kHeader) blocks;
  dr_seen : num_seen_ c' = num_seen_ c + Z.of_nat (length blocks);
  dr_writer : same_writer c c';
  dr_ok : reader_ok c' }.

Lemma got_put c b rb : reader_ok c -> (read_buf_size_ c + length b <= kHeader)%nat ->
  put (read_buf_size_ c) b (read_buf_ c) = Some rb -> length rb = kHeader /\ take (read_buf_size_ c + length b) rb = got c ++ b.
Proof.
  intros [Hl Hs] Hb Hput. unfold put in Hput. case_match; [|done]. injection Hput as <-. unfold got.
  split; [rewrite !length_app, length_take, length_drop; lia|].
  rewrite app_assoc, take_app_le by (rewrite length_app, length_take; lia).
  apply take_ge. rewrite length_app, length_take. lia.
Qed.

Lemma ack_loop_reads fuel : forall b c recs, reader_ok c -> (length b < fuel)%nat ->
  exists c' blocks recs', ack_loop fuel b c recs = Some (c', recs ++ recs') /\ did_read c c' b blocks /\
    map read_ack blocks = map Some recs'.
Proof.
  induction fuel as [|fuel IH]; intros b c recs Hok Hf; [lia|]. destruct b as [|x b]; cbn [ack_loop].
  { exists c, [], []. rewrite app_nil_r. split; [done|]. split; [|done].
    split; [cbn; by rewrite app_nil_r|done|cbn; lia|done|done]. }
  pose proof Hok as [Hl Hs]. set (l := x :: b) in *. set (n := Nat.min (length l) (kHeader - read_buf_size_ c)).
  assert (Hn : (0 < n)%nat) by (unfold n, l; cbn [length]; lia).
  assert (Htk : length (take n l) = n) by (rewrite length_take; unfold n; lia).
  destruct (put (read_buf_size_ c) (take n l) (read_buf_ c)) as [rb|] eqn:Hput.
  2:{ unfold put in Hput. rewrite Htk in Hput. case_match eqn:E; [done|]. apply Nat.leb_gt in E. unfold n in E. lia. }
  destruct (got_put c _ rb Hok ltac:(rewrite Htk; unfold n; lia) Hput) as [Hrb Hgot]. rewrite Htk in Hgot.
  cbn [mbind option_bind set_read_buf read_buf_size_].
  destruct (Nat.eqb_spec (read_buf_size_ c + n) kHeader) as [E|E].
  - assert (Hall : rb = got c ++ take n l) by (rewrite <- Hgot, E, <- Hrb; symmetry; by apply take_ge).
    destruct (read_ack_Some rb Hrb) as [rec Hrec]. rewrite Hrec. cbn [mbind option_bind].
    destruct (IH (drop n l) (see_ack (set_read_buf rb (read_buf_size_ c + n) c)) (recs ++ [rec])) as (c' & blocks & recs' & -> & D & Hm).
    { split; cbn; [done|unfold kHeader; lia]. }
    { rewrite length_drop. lia. }
    exists c', (rb :: blocks), (rec :: recs'). rewrite <- app_assoc. split; [done|]. destruct D as [Db Dl Ds Dw Dk].
    split; [|cbn [map]; by rewrite Hrec, Hm]. change (drop n l = concat blocks ++ got c') in Db. split.
    + cbn [concat]. rewrite <- app_assoc, <- Db, Hall, <- app_assoc, take_drop. done.
    + by constructor.
    + rewrite Ds. cbn. lia.
    + done.
    + done.
  - destruct (IH (drop n l) (set_read_buf rb (read_buf_size_ c + n) c) recs) as (c' & blocks & recs' & -> & D & Hm).
    { split; cbn [read_buf_ set_read_buf read_buf_size_]; [done|]. unfold n in *. lia. }
    { rewrite length_drop. lia. }
    exists c', blocks, recs'. split; [done|]. split; [|done]. destruct D as [Db Dl Ds Dw Dk]. split; try done.
    rewrite <- Db. unfold got at 2. cbn [read_buf_size_ set_read_buf read_buf_]. rewrite Hgot, <- app_assoc, take_drop. done.
Qed.

Lemma client_run_reads chunks : forall c, reader_ok c ->
  28 * num_seen_ c + Z.of_nat (length (got c ++ concat chunks)) <= 28 * num_issued_ c ->
  exists c' blocks recs, client_run chunks c = Some (c', recs) /\ did_read c c' (concat chunks) blocks /\
    map read_ack blocks = map Some recs.
Proof.
  induction chunks as [|b chunks IH]; intros c Hok Hle; cbn [client_run concat] in *.
  { exists c, [], []. split; [done|]. split; [|done].
    split; [cbn; by rewrite app_nil_r|done|cbn; lia|done|done]. }
  unfold OnReadAck, AssertValid. rewrite (proj2 (Z.leb_le _ _)) by lia.
  destruct (ack_loop_reads (S (length b)) b c [] Hok ltac:(lia)) as (c1 & bl1 & r1 & -> & D1 & M1). cbn [mbind option_bind app].
  destruct D1 as [Db1 Dl1 Ds1 Dw1 Dk1].
  assert (Hlen : Z.of_nat (length (concat bl1)) = 28 * Z.of_nat (length bl1)).
  { clear -Dl1. induction Dl1 as [|h bl Hh _ IH]; [done|]. cbn [concat]. rewrite length_app. cbn [length]. unfold kHeader in Hh. lia. }
  destruct (IH c1 Dk1) as (c2 & bl2 & r2 & -> & D2 & M2).
  { destruct Dw1 as (_ & -> & _). rewrite Ds1. apply (f_equal length) in Db1. rewrite !length_app in *. lia. }
  cbn [mbind option_bind]. destruct D2 as [Db2 Dl2 Ds2 Dw2 Dk2]. exists c2, (bl1 ++ bl2), (r1 ++ r2).
  split; [done|]. split; [|by rewrite !map_app, M1, M2]. split.
  - by rewrite app_assoc, Db1, <- app_assoc, Db2, concat_app, app_assoc.
  - by apply Forall_app.
  - rewrite Ds2, Ds1, length_app. lia.
  - unfold same_writer in *. destruct_and!. split_and!; congruence.
  - done.
Qed.

(** Blocks of the same size are found again. *)
Lemma blocks_unique (hs : list (list Z)) : forall blocks rest, Forall (fun h => length h = kHeader) hs ->
  Forall (fun h => length h = kHeader) blocks -> (length rest < kHeader)%nat ->
  concat hs = concat blocks ++ rest -> hs = blocks /\ rest = [].
Proof.
  induction hs as [|h hs IH]; intros [|g blocks] rest Hh Hg Hr Heq; cbn [concat] in Heq.
  - done.
  - apply Forall_cons in Hg as [Hg _]. apply (f_equal length) in Heq. rewrite !length_app in Heq. unfold kHeader in *. cbn in Heq. lia.
  - apply Forall_cons in Hh as [Hh _]. apply (f_equal length) in Heq. cbn in Heq. rewrite !length_app in Heq. unfold kHeader in *. lia.
  - apply Forall_cons in Hh as [Hh Hhs], Hg as [Hg Hgs]. rewrite <- app_assoc in Heq.
    apply app_inj_1 in Heq as [-> Heq]; [|congruence]. by destruct (IH _ _ Hhs Hgs Hr Heq) as [-> ->].
Qed.

(** ** Requests on the wire *)

Record rpc := mkRpc { r_id : Z; r_scheduled : Z; r_hrtime : Z; r_size : Z }.

Definition r_written (r : rpc) : Z := Z.max (r_scheduled r) (r_hrtime r).

(** A request with a body that fits in the buffer. *)
Definition rpc_ok (max : Z) (r : rpc) : Prop :=
  28 < r_size r <= max /\ in_u64 (r_id r) /\ in_u64 (r_scheduled r) /\ in_u64 (r_hrtime r).

Definition ack_of (r : rpc) : rpc_ack := mkAck (r_size r) (r_id r) (r_scheduled r) (r_written r).

Record has_header (r : rpc) (f : list Z) : Prop := {
  hh_size : is_read32 f 0 (r_size r - 28);
  hh_id : is_read64 f 4 (r_id r);
  hh_scheduled : is_read64 f 12 (r_scheduled r);
  hh_written : is_read64 f 20 (r_written r);
  hh_bytes : bytes f }.

Definition is_frame (r : rpc) (f : list Z) : Prop := Z.of_nat (length f) = r_size r /\ has_header r f.

Lemma byte_bytes v : bytes (u32_bytes v).
Proof. rewrite u32_bytes_eq. repeat constructor; apply byte_at_range. Qed.

Lemma write64_range v off b b' : WriteU64LE v off b = Some b' -> bytes b -> bytes b'.
Proof.
  unfold WriteU64LE. destruct (WriteU32LE _ off b) as [b1|] eqn:E1; [|done]. cbn [mbind option_bind]. intros E2 Hb.
  eapply put_range; [exact E2|apply byte_bytes|]. eapply put_range; [exact E1|apply byte_bytes|done].
Qed.

Lemma IssueRpc_spec r max c : rpc_ok max r -> length (buf_ c) = Z.to_nat max -> bytes (buf_ c) ->
  exists buf, IssueRpc (r_id r) (r_scheduled r) (r_hrtime r) (r_size r) c =
    Some (mkConn buf (num_seen_ c) (num_issued_ c + 1) (read_buf_ c) (read_buf_size_ c)
            (writes c ++ [(0%nat, Z.to_nat (r_size r))]) (wire c)) /\
    length buf = length (buf_ c) /\ has_header r buf.
Proof.
  intros (Hsz & _) Hl Hb. unfold IssueRpc. fold (r_written r).
  destruct (write32_Some (u32 (r_size r - 28)) 0 (buf_ c)) as [b1 E1]; [lia|]. rewrite E1. cbn [mbind option_bind].
  pose proof (put_range _ _ _ _ E1 (byte_bytes _) Hb) as B1. apply write32_spec in E1 as (L1 & R1 & _).
  destruct (write64_Some (r_id r) 4 b1) as [b2 E2]; [lia|]. rewrite E2. cbn [mbind option_bind].
  pose proof (write64_range _ _ _ _ E2 B1) as B2. apply write64_spec in E2 as (L2 & R2 & O2).
  destruct (write64_Some (r_scheduled r) 12 b2) as [b3 E3]; [lia|]. rewrite E3. cbn [mbind option_bind].
  pose proof (write64_range _ _ _ _ E3 B2) as B3. apply write64_spec in E3 as (L3 & R3 & O3).
  destruct (write64_Some (r_written r) 20 b3) as [b4 E4]; [lia|]. rewrite E4. cbn [mbind option_bind].
  pose proof (write64_range _ _ _ _ E4 B3) as B4. apply write64_spec in E4 as (L4 & R4 & O4).
  exists b4. split; [done|]. split; [lia|]. rewrite is_read32_u32 in R1. split; [| | |done|done].
  - eapply is_read32_ext; [exact R1|]. intros k Hk. by rewrite O4, O3, O2 by lia.
  - eapply is_read64_ext; [exact R2|]. intros k Hk. by rewrite O4, O3 by lia.
  - eapply is_read64_ext; [exact R3|]. intros k Hk. by rewrite O4 by lia.
Qed.

Lemma has_header_take r f n : (kHeader <= n)%nat -> has_header r f -> has_header r (take n f).
Proof.
  unfold kHeader. intros Hn [H1 H2 H3 H4 H5]. split; [eapply is_read32_ext|eapply is_read64_ext..|by apply Forall_take]; try done;
    intros k Hk; apply lookup_take_lt; lia.
Qed.

(** The requests of a connection, and what the kernel does between them. *)
Inductive conn_op := Issue (r : rpc) | Takes (n : nat).

Fixpoint conn_run (ops : list conn_op) (c : ClientConn) : option ClientConn :=
  match ops with
  | [] => Some c
  | Issue r :: ops => c ← IssueRpc (r_id r) (r_scheduled r) (r_hrtime r) (r_size r) c; conn_run ops c
  | Takes n :: ops => conn_run ops (kernel_takes n c)
  end.

(** No request is issued before the one before it is written. *)
Fixpoint one_at_a_time (ops : list conn_op) (c : ClientConn) : Prop :=
  match ops with
  | [] => True
  | Issue r :: ops =>
      writes c = [] /\
      match IssueRpc (r_id r) (r_scheduled r) (r_hrtime r) (r_size r) c with Some c => one_at_a_time ops c | None => True end
  | Takes n :: ops => one_at_a_time ops (kernel_takes n c)
  end.

Definition requests (ops : list conn_op) : list rpc := omap (fun o => if o is Issue r then Some r else None) ops.

(** What is left of the write. *)
Definition unsent (c : ClientConn) : list Z :=
  match writes c with [] => [] | (from, to) :: _ => take (to - from) (drop from (buf_ c)) end.

Record writer_ok (max : Z) (c : ClientConn) : Prop := {
  wo_buf : length (buf_ c) = Z.to_nat max;
  wo_bytes : bytes (buf_ c);
  wo_writes : (length (writes c) <= 1)%nat }.

Lemma kernel_takes_spec max n c : writer_ok max c ->
  writer_ok max (kernel_takes n c) /\ wire (kernel_takes n c) ++ unsent (kernel_takes n c) = wire c ++ unsent c.
Proof.
  intros [Hl Hb Hw]. unfold kernel_takes, unsent. destruct (writes c) as [|[from to] rest] eqn:E.
  { rewrite E. split; [|done]. split; [done|done|rewrite E; cbn; lia]. }
  cbn [length] in Hw. destruct rest; [|cbn in Hw; lia]. set (mid := Nat.min to (from + n)).
  split; [split; cbn [buf_ writes]; try done; case_match; cbn; lia|]. cbn [wire writes buf_]. rewrite <- app_assoc. f_equal.
  destruct (Nat.ltb_spec mid to) as [Hm|Hm].
  - replace (to - from)%nat with ((mid - from) + (to - mid))%nat by (unfold mid in *; lia).
    rewrite <- take_take_drop, drop_drop. f_equal. f_equal. f_equal. unfold mid in *. lia.
  - rewrite app_nil_r. f_equal. lia.
Qed.

Lemma conn_run_frames max ops : forall c c', writer_ok max c -> Forall (rpc_ok max) (requests ops) ->
  one_at_a_time ops c -> conn_run ops c = Some c' ->
  exists frames, Forall2 is_frame (requests ops) frames /\
    wire c' ++ unsent c' = (wire c ++ unsent c) ++ concat frames /\ writer_ok max c' /\
    num_seen_ c' = num_seen_ c /\ num_issued_ c' = num_issued_ c + Z.of_nat (length (requests ops)) /\
    read_buf_ c' = read_buf_ c /\ read_buf_size_ c' = read_buf_size_ c.
Proof.
  induction ops as [|[r|n] ops IH]; intros c c' Hok Hr Ho Hrun; cbn [conn_run one_at_a_time] in *.
  - injection Hrun as <-. exists []. rewrite app_nil_r. cbn. rewrite Z.add_0_r. split_and!; done || constructor.
  - change (requests (Issue r :: ops)) with (r :: requests ops) in *.
    apply Forall_cons in Hr as [Hr Hrs]. destruct Ho as [Hw Ho]. destruct Hok as [Hl Hb Hlen].
    destruct (IssueRpc_spec r max c Hr Hl Hb) as (buf & E & Hbuf & Hh). rewrite E in Hrun, Ho. cbn [mbind option_bind] in Hrun.
    rewrite Hw in *. set (c1 := mkConn buf _ _ _ _ _ _) in *.
    destruct (IH c1 c') as (frames & Hf & Hwire & Hrest); try done.
    { split; cbn; [lia|by apply Hh|lia]. }
    destruct Hrest as (Hok' & Hs & Hi & Hrb & Hrn). cbn in Hs, Hi, Hrb, Hrn.
    exists (take (Z.to_nat (r_size r)) buf :: frames). destruct Hr as (Hsz & _).
    split; [constructor; [|done]; split; [rewrite length_take; lia|by apply has_header_take; [unfold kHeader; lia|]]|].
    split; [|split_and!; try done; cbn [length]; lia].
    rewrite Hwire. unfold unsent, c1 at 1 2. cbn [writes wire buf_ app]. rewrite Hw, app_nil_r.
    change (drop 0 buf) with buf. rewrite Nat.sub_0_r. cbn [concat]. by rewrite app_assoc.
  - change (requests (Takes n :: ops)) with (requests ops) in *.
    destruct (kernel_takes_spec max n c Hok) as [Hok1 Hwire1].
    destruct (IH (kernel_takes n c) c' Hok1 Hr Ho Hrun) as (frames & Hf & Hwire & Hok' & Hs & Hi & Hrb & Hrn).
    exists frames. rewrite Hwire, Hwire1, Hs, Hi, Hrb, Hrn. unfold kernel_takes.
    destruct (writes c) as [|[from to] rest]; by split_and!.
Qed.

(** ** From the client to the server and back *)

Lemma next_bytes_header b : forall g, (length g + length b < kHeader)%nat -> next_bytes (InHeader g) b = (InHeader (g ++ b), []).
Proof.
  induction b as [|x b IH]; intros g Hl; cbn [next_bytes next_byte]; [by rewrite app_nil_r|]. cbn [length] in Hl.
  rewrite length_app. cbn [length]. rewrite (proj2 (Nat.eqb_neq _ _)) by lia.
  rewrite IH by (rewrite length_app; cbn; lia). by rewrite <- app_assoc.
Qed.

Lemma next_bytes_whole_header b : length b = kHeader -> next_bytes (InHeader []) b = (InBody (default 0 (ReadU32LE b 0)) b, []).
Proof.
  intros Hl. destruct (exists_last (l := b)) as (l & x & ->); [intros ->; unfold kHeader in Hl; cbn in Hl; lia|].
  rewrite length_app in Hl. cbn in Hl. rewrite next_bytes_app, next_bytes_header by (cbn; lia).
  cbn [next_bytes next_byte app]. rewrite length_app. cbn [length]. by rewrite (proj2 (Nat.eqb_eq _ _)).
Qed.

Lemma next_bytes_frame r max f : max < 2 ^ 31 -> rpc_ok max r -> is_frame r f ->
  next_bytes (InHeader []) f = (InHeader [], [take kHeader f]).
Proof.
  intros Hmax (Hsz & _) [Hl Hh]. rewrite <- (take_drop kHeader f) at 1.
  assert (Hlen : length (take kHeader f) = kHeader) by (rewrite length_take; unfold kHeader; lia).
  rewrite next_bytes_app, next_bytes_whole_header by done.
  rewrite (read32_bytes _ _ (r_size r - 28)) by (apply (has_header_take r f kHeader); [done|done]). cbn [default from_option id].
  assert (Hu : u32 (r_size r - 28) = r_size r - 28) by (apply Z.mod_small; lia). rewrite Hu.
  assert (Hd : Z.of_nat (length (drop kHeader f)) = r_size r - 28) by (rewrite length_drop; unfold kHeader; lia).
  rewrite next_bytes_through by lia. rewrite drop_ge by lia. done.
Qed.

Lemma next_bytes_frames max rs frames : max < 2 ^ 31 -> Forall (rpc_ok max) rs -> Forall2 is_frame rs frames ->
  next_bytes (InHeader []) (concat frames) = (InHeader [], map (take kHeader) frames).
Proof.
  intros Hmax Hok Hf. induction Hf as [|r f rs frames Hrf Hf IH]; [done|]. apply Forall_cons in Hok as [Hr Hrs].
  cbn [concat map]. rewrite next_bytes_app, (next_bytes_frame r max) by done. by rewrite IH.
Qed.

Lemma read_ack_frame r max f : max < 2 ^ 31 -> rpc_ok max r -> is_frame r f -> read_ack (take kHeader f) = Some (ack_of r).
Proof.
  intros Hmax (Hsz & Hid & Hs & Ht) [Hl Hh]. apply (has_header_take r f kHeader) in Hh as [H1 H2 H3 H4 _]; [|done].
  unfold read_ack. rewrite (read32_bytes _ _ _ H1), (read64_bytes _ _ _ H2), (read64_bytes _ _ _ H3), (read64_bytes _ _ _ H4).
  cbn [mbind option_bind]. unfold ack_of. assert (Hw : in_u64 (r_written r)) by (unfold r_written; apply Z.max_case; done).
  rewrite !u64_id by done. f_equal. f_equal. unfold u32. rewrite Zplus_mod_idemp_r, Z.mod_small; lia.
Qed.

Lemma frames_headers max rs frames : max < 2 ^ 31 -> Forall (rpc_ok max) rs -> Forall2 is_frame rs frames ->
  let hs := map (take kHeader) frames in
  Forall (fun h => length h = kHeader) hs /\ map read_ack hs = map Some (map ack_of rs) /\
  length frames = length rs /\ length (concat hs) = (28 * length rs)%nat.
Proof.
  intros Hmax Hr Hf. cbv zeta. induction Hf as [|r f rs fs Hrf Hf IH]; [done|]. apply Forall_cons in Hr as [Hr Hrs].
  destruct (IH Hrs) as (H1 & H2 & H3 & H4).
  assert (Hl : length (take kHeader f) = kHeader).
  { destruct Hrf as [Hl _], Hr as (Hsz & _). rewrite length_take. unfold kHeader. lia. }
  cbn [map length concat]. rewrite (read_ack_frame r max), length_app, H2, H3, H4, Hl by done.
  split_and!; [by constructor|done|done|unfold kHeader; lia].
Qed.

(** C16: when a connection issues a request only after the last one was
    written, and every request has a body, that is more than the 28 bytes of
    the header (one without is not answered before the next byte comes), and
    fits in the buffer, of less than 2^31 bytes, then however the kernel cuts
    the writes and the network the stream, the server answers every request in
    order, and the client reads from the answers the sizes, ids and times of
    exactly its requests. *)
Theorem Rpc_roundtrip max junk junk' k ops c0 c chunks :
  new_ClientConn max junk = Some c0 -> max < 2 ^ 31 -> length junk = kHeader ->
  length junk' = kHeader -> bytes junk' ->
  Forall (rpc_ok max) (requests ops) -> one_at_a_time ops c0 -> conn_run ops c0 = Some c ->
  writes c = [] -> concat chunks = wire c ->
  exists s acks, server_run chunks (OnNewConnection junk' k) = Some (s, acks) /\
    forall ack_chunks, concat ack_chunks = concat acks ->
    exists c', client_run ack_chunks c = Some (c', map ack_of (requests ops)) /\ num_seen_ c' = num_issued_ c'.
Proof.
  unfold new_ClientConn. destruct (Z.leb_spec 28 max) as [Hm|]; [|done]. intros [= <-] Hmax Hj Hj' Hb' Hr Ho Hrun Hw Hch.
  assert (Hw0 : writer_ok max (mkConn (replicate (Z.to_nat max) 0) 0 0 junk 0 [] []))
    by (split; cbn; [apply length_replicate|apply Forall_replicate; lia|lia]).
  destruct (conn_run_frames max ops _ c Hw0 Hr Ho Hrun) as (frames & Hf & Hwire & Hok & Hs & Hi & Hrb & Hrn).
  unfold unsent in Hwire. rewrite Hw, app_nil_r in Hwire. cbn [writes wire app] in Hwire. cbn in Hs, Hi, Hrb, Hrn.
  assert (Hbytes : bytes (concat chunks)).
  { rewrite Hch, Hwire. clear -Hf. induction Hf as [|r f rs fs [_ H] _ IH]; [constructor|]. cbn [concat]. apply Forall_app. by split; [apply H|]. }
  destruct (OnRpcRead_any_pieces chunks (OnNewConnection junk' k)) as (s & Hrs & _); [|done|].
  { split; cbn; [done|lia|done|unfold kHeader; lia]. }
  change (phase_of (OnNewConnection junk' k)) with (InHeader []) in Hrs.
  rewrite Hch, Hwire, (next_bytes_frames max _ _ Hmax Hr Hf) in Hrs. cbn [snd] in Hrs. eexists s, _. split; [exact Hrs|].
  intros ack_chunks Hack.
  destruct (frames_headers max _ _ Hmax Hr Hf) as (Hl28 & Hread & Hlen & Hbl).
  destruct (client_run_reads ack_chunks c) as (c' & blocks & recs & Hrunc & [Db Dl Ds Dw Dk] & Hmap).
  { split; [by rewrite Hrb|rewrite Hrn; unfold kHeader; lia]. }
  { unfold got. rewrite Hrn, Hs, Hi, Hack. rewrite take_0. cbn [app]. rewrite Hbl. lia. }
  unfold got in Db at 1. rewrite Hrn, Hack, take_0 in Db. cbn [app] in Db.
  assert (Hgot : (length (got c') < kHeader)%nat) by (unfold got; rewrite length_take; destruct Dk; lia).
  destruct (blocks_unique _ _ _ Hl28 Dl Hgot Db) as [<- _].
  rewrite Hread in Hmap. apply (inj (fmap Some)) in Hmap. exists c'. split; [by rewrite Hrunc, Hmap|].
  destruct Dw as (_ & Hi' & _). rewrite Ds, Hi', Hs, Hi, length_map. lia.
Qed.

(** ** The least busy connection *)

Lemma best_conn_spec l : forall i m best b,
  best_conn i l m best = Some b ->
  (best = Some b /\ forall c, c ∈ l -> m <= waiting c) \/
  exists j c, b = (i + j)%nat /\ l !! j = Some c /\ waiting c < m /\ (forall c', c' ∈ l -> waiting c <= waiting c') /\
    forall j' c', (j' < j)%nat -> l !! j' = Some c' -> waiting c < waiting c'.
Proof.
  induction l as [|c l IH]; intros i m best b; cbn [best_conn].
  { intros ->. left. split; [done|]. by intros c ?%elem_of_nil. }
  destruct (Z.ltb_spec (waiting c) m) as [Hlt|Hge]; intros [[E Hall]|(j & c1 & -> & Hj & Hw & Hall & Hfirst)]%IH.
  - injection E as <-. right. exists 0%nat, c. rewrite Nat.add_0_r. split_and!; try done; [|intros; lia].
    intros c' [->|Hc']%elem_of_cons; [done|by apply Hall].
  - right. exists (S j), c1. rewrite Nat.add_succ_r. split_and!; try done; [lia| |].
    + intros c' [->|Hc']%elem_of_cons; [lia|by apply Hall].
    + intros [|j'] c' Hlt' Hc'; cbn in Hc'; [injection Hc' as <-; lia|]. apply (Hfirst j'); [lia|done].
  - left. split; [done|]. intros c' [->|Hc']%elem_of_cons; [done|by apply Hall].
  - right. exists (S j), c1. rewrite Nat.add_succ_r. split_and!; try done; [| ].
    + intros c' [->|Hc']%elem_of_cons; [lia|by apply Hall].
    + intros [|j'] c' Hlt' Hc'; cbn in Hc'; [injection Hc' as <-; lia|]. apply (Hfirst j'); [lia|done].
Qed.

Lemma best_conn_found l : forall i m best, best <> None -> best_conn i l m best <> None.
Proof. induction l as [|c l IH]; intros i m best Hb; cbn [best_conn]; [done|]. destruct (_ <? _); by apply IH. Qed.

(** A request goes to the first connection with the fewest answers
    outstanding, and the assertion that there is one holds for every pool
    that is not empty (with fewer than 2^31-1 requests on some connection). *)
Theorem WithConn_least_busy {A} (func : ClientConn -> option (ClientConn * A)) all_ c0 :
  c0 ∈ all_ -> waiting c0 < 2 ^ 31 - 1 ->
  exists i c, all_ !! i = Some c /\ (forall c', c' ∈ all_ -> waiting c <= waiting c') /\
    (forall j c', (j < i)%nat -> all_ !! j = Some c' -> waiting c < waiting c') /\
    WithConn func all_ = ('(c', a) ← func c; Some (<[i := c']> all_, a)).
Proof.
  intros H0 Hlt. unfold WithConn. destruct (best_conn 0 all_ _ None) as [b|] eqn:E.
  - destruct (best_conn_spec _ _ _ _ _ E) as [[? _]|(i & c & -> & Hi & _ & Hall & Hfirst)]; [done|].
    exists i, c. cbn [Nat.add mbind option_bind]. by rewrite Hi.
  - exfalso. apply list_elem_of_lookup in H0 as [i Hi]. revert E Hi. generalize 0%nat. generalize (2 ^ 31 - 1) Hlt. revert i.
    induction all_ as [|c l IH]; intros i m Hm n; [done|]. cbn [best_conn].
    destruct (Z.ltb_spec (waiting c) m) as [Hw|Hw]; [intros E; exfalso; revert E; by apply best_conn_found|].
    intros E. destruct i as [|i]; intros Hi; cbn in Hi; [injection Hi as ->; lia|]. by apply (IH i m Hm (S n)).
Qed.

(** ** The goodput series *)

Definition counted (ts : goodput) : Z := zsum (map snd ts).

(** Periods are a millisecond apart. *)
Fixpoint spaced (ts : goodput) : Prop :=
  match ts with
  | (t, _) :: ((t', _) :: _) as rest => t = t' + 1000000 /\ spaced rest
  | _ => True
  end.

Lemma pad_goodput_spec fuel : forall hr_now ts t n, hr_now + 1000000 < 2 ^ 64 -> 0 <= t -> t <= hr_now -> head ts = Some (t, n) -> spaced ts ->
  (Z.to_nat ((hr_now - t) / 1000000) < fuel)%nat ->
  exists ts' t' n', pad_goodput fuel hr_now ts = Some ts' /\ head ts' = Some (t', n') /\ t' <= hr_now <= t' + 1000000 /\
    spaced ts' /\ counted ts' = counted ts.
Proof.
  induction fuel as [|fuel IH]; intros hr_now ts t n Hmax Ht Hle Hhd Hs Hf; [lia|]. cbn [pad_goodput]. rewrite Hhd. cbn [mbind option_bind].
  rewrite u64_id by (unfold in_u64; lia). destruct (Z.ltb_spec (t + 1000000) hr_now) as [Hlt|Hge].
  - destruct (IH hr_now ((t + 1000000, 0) :: ts) (t + 1000000) 0) as (ts' & t' & n' & E & Hhd' & Hb & Hs' & Hc); try done; try lia.
    + destruct ts as [|[t1 n1] ts]; [done|]. injection Hhd as -> ->. by split.
    + replace (hr_now - t) with (hr_now - (t + 1000000) + 1 * 1000000) in Hf by lia. rewrite Z.div_add in Hf by lia.
      assert (0 <= (hr_now - (t + 1000000)) / 1000000) by (apply Z.div_pos; lia). lia.
    + exists ts', t', n'. split_and!; try done; lia.
  - exists ts, t, n. split_and!; try done; lia.
Qed.

(** From the second answer on the series gains one, in the period of its
    time. *)
Lemma IncrementGoodput_counts hr_now t n ts : hr_now + 1000000 < 2 ^ 64 -> 0 <= t <= hr_now -> spaced ((t, n) :: ts) ->
  exists ts' t' n', IncrementGoodput hr_now ((t, n) :: ts) = Some ((t', n' + 1) :: ts') /\
    t' <= hr_now <= t' + 1000000 /\ spaced ((t', n' + 1) :: ts') /\
    counted ((t', n' + 1) :: ts') = counted ((t, n) :: ts) + 1.
Proof.
  intros Hmax Ht Hs. unfold IncrementGoodput.
  destruct (pad_goodput_spec (Z.to_nat ((hr_now - t) / 1000000) + 2) hr_now ((t, n) :: ts) t n)
    as (ts' & t' & n' & -> & Hhd & Hb & Hs' & Hc); try done; try lia.
  destruct ts' as [|[t1 n1] ts']; [done|]. injection Hhd as -> ->. cbn [mbind option_bind].
  exists ts', t', n'. split_and!; try done; try lia.
  rewrite <- Hc. unfold counted. cbn [map snd]. rewrite !zsum_cons. lia.
Qed.

(** The first answer counts twice. *)
Lemma first_answer_counts_twice hr_now : 0 <= hr_now -> hr_now + 1000000 < 2 ^ 64 ->
  IncrementGoodput hr_now [] = Some [(hr_now, 2)].
Proof.
  intros H0 H1. unfold IncrementGoodput. rewrite Z.sub_diag. cbn [Z.div Z.to_nat Nat.add pad_goodput head mbind option_bind].
  change (Z.to_nat (0 / 1000000)) with 0%nat. cbn [Nat.add pad_goodput head mbind option_bind].
  rewrite u64_id by (unfold in_u64; lia). by rewrite (proj2 (Z.ltb_ge _ _)) by lia.
Qed.

(** ** Runs *)

Definition example_junk : list Z := replicate 28 255.
Definition example_rpcs : list rpc := [mkRpc 1 1000 1001 30; mkRpc 2 2000 1999 29].
Definition example_ops : list conn_op :=
  match example_rpcs with [a; b] => [Issue a; Takes 5; Takes 100; Issue b; Takes 28; Takes 1] | _ => [] end.
Definition example_conn : ClientConn := mkConn (replicate 32 0) 0 0 example_junk 0 [] [].

Lemma Rpc_roundtrip_witness :
  exists c s acks, conn_run example_ops example_conn = Some c /\
    server_run [take 3 (wire c); take 30 (drop 3 (wire c)); drop 33 (wire c)] (OnNewConnection example_junk 7) = Some (s, acks) /\
    exists c', client_run [take 55 (concat acks); drop 55 (concat acks)] c =
      Some (c', [mkAck 30 1 1000 1001; mkAck 29 2 2000 2000]) /\ num_seen_ c' = num_issued_ c'.
Proof.
  destruct (conn_run example_ops example_conn) as [c|] eqn:E; [|by vm_compute in E]. exists c.
  assert (Hc : writes c = []) by (vm_compute in E; by injection E as <-).
  destruct (Rpc_roundtrip 32 example_junk example_junk 7 example_ops example_conn c
              [take 3 (wire c); take 30 (drop 3 (wire c)); drop 33 (wire c)]) as (s & acks & Hs & Hack).
  - reflexivity.
  - lia.
  - reflexivity.
  - reflexivity.
  - unfold example_junk. apply Forall_replicate. lia.
  - repeat constructor; cbn; unfold in_u64; lia.
  - cbn [one_at_a_time example_ops example_rpcs]. vm_compute. by repeat split.
  - exact E.
  - exact Hc.
  - vm_compute in E. by injection E as <-.
  - exists s, acks. split; [done|]. split; [done|]. apply Hack. cbn [concat]. by rewrite app_nil_r, take_drop.
Defined.

Lemma OnRpcRead_any_pieces_witness :
  let c := OnNewConnection example_junk 7 in
  stream_ok c /\ exists c', server_run [[1; 2]; []; [3]] c = Some (c', []) /\ phase_of c' = InHeader [1; 2; 3].
Proof.
  cbv zeta. assert (Hok : stream_ok (OnNewConnection example_junk 7)).
  { split; [reflexivity|cbn; lia|unfold example_junk; apply Forall_replicate; lia|cbn; unfold kHeader; lia]. }
  split; [done|]. destruct (OnRpcRead_any_pieces [[1; 2]; []; [3]] _ Hok) as (c' & Hr & Hp & _); [repeat constructor; lia|].
  exists c'. split; [exact Hr|exact Hp].
Defined.

Lemma WithConn_least_busy_witness :
  let l := [mkConn [] 0 2 [] 0 [] []; mkConn [] 3 4 [] 0 [] []; mkConn [] 0 1 [] 0 [] []] in
  exists i c, l !! i = Some c /\ (forall c', c' ∈ l -> waiting c <= waiting c') /\
    WithConn (fun c => Some (see_ack c, num_issued_ c)) l = Some (<[1%nat := see_ack (mkConn [] 3 4 [] 0 [] [])]> l, 4).
Proof.
  cbv zeta. destruct (WithConn_least_busy (fun c => Some (see_ack c, num_issued_ c))
    [mkConn [] 0 2 [] 0 [] []; mkConn [] 3 4 [] 0 [] []; mkConn [] 0 1 [] 0 [] []] (mkConn [] 0 2 [] 0 [] []))
    as (i & c & Hi & Hall & _ & _); [by left|reflexivity|]. exists i, c. split; [done|]. split; [done|reflexivity].
Defined.

(** Two requests at once share the buffer: when the kernel has taken four
    bytes of the first, the second overwrites its id, and both answers carry
    the id of the second. *)
Definition overlapping_ops : list conn_op :=
  [Issue (mkRpc 1 1000 1001 30); Takes 4; Issue (mkRpc 2 2000 1999 30); Takes 26; Takes 30].

(** The ids that come back when the stream is read in one piece. *)
Definition answered (ops : list conn_op) : option (list Z) :=
  c ← conn_run ops example_conn; '(_, acks) ← server_run [wire c] (OnNewConnection example_junk 7);
  '(_, recs) ← client_run [concat acks] c; Some (map ack_id recs).

Lemma overlapping_writes_mix : answered overlapping_ops = Some [2; 2].
Proof. vm_compute. reflexivity. Qed.

(** A request of 28 bytes has no body: it is answered with the next one. *)
Lemma empty_body_waits : answered [Issue (mkRpc 1 1000 1001 28); Takes 28] = Some [].
Proof. vm_compute. reflexivity. Qed.

(** The assertion is about the largest stage; a smaller one under 28 bytes
    announces 4 GB. *)
Lemma small_request_announces_4GB :
  (c ← conn_run [Issue (mkRpc 1 1000 1001 10); Takes 10] example_conn; ReadU32LE (wire c) 0) = Some (2 ^ 32 - 18).
Proof. vm_compute. reflexivity. Qed.
