(* ===== verification/LoadGen.v ===== *)
(** * LoadGen: when the load generator sends its requests

    src/heyp/app/testlopri/client.cc: the stages of a workload,
    [WorkloadController], [OpenLoadGenerator] and [SemiOpenLoadGenerator].
    Times are nanoseconds in a [uint64_t].  What is sent and recorded is
    logged; the connections are the file [Rpc].  The random delays are drawn
    once, before the run, and are an argument.  Loops have fuel: [OutOfFuel]
    is a loop that has not ended, [AssertFailed] a failed assertion. *)

From Stdlib Require Import Floats.SpecFloat.
From stdpp Require Import relations.
From S2P Require Import Prelude Doubles.

Definition uint64_max : Z := 2 ^ 64 - 1.

(** ** Stages *)

(** [run_dur]: nanoseconds, as [absl::ParseDuration] reads it. *)
Record stage_config := mkStageConfig { c_rpc_size_bytes : Z; c_target_average_bps : double; c_run_dur : Z }.

Record WorkloadStage := mkStage {
  rpc_size_bytes : Z;
  target_average_bps : double;
  interarrival_ns : list Z;
  hr_cum_run_dur : Z }.

Definition kChunkSize : nat := 100.
Definition kNumChunks : nat := 100.

Fixpoint chunk_means (n : nat) (dist : list Z) : list double :=
  match n with
  | O => []
  | S n => ddiv (foldl (fun s v => dadd s (dofZ v)) d0 (take kChunkSize dist)) (dofZ (Z.of_nat kChunkSize))
           :: chunk_means n (drop kChunkSize dist)
  end.

Definition MeanOf (dist : list Z) : double :=
  ddiv (foldl dadd d0 (chunk_means kNumChunks dist)) (dofZ (Z.of_nat kNumChunks)).

Definition rpcs_per_sec (p : stage_config) : double :=
  ddiv (c_target_average_bps p) (dofZ (i32 (8 * c_rpc_size_bytes p))).

(** The checks of one stage. *)
Definition mean_ok (p : stage_config) (dist : list Z) : bool :=
  let mean_interarrival_ns := MeanOf dist in
  let ns := dofZ (10 ^ 9) in
  dgt mean_interarrival_ns (ddiv (dmul (dlit 95 100) ns) (rpcs_per_sec p)) &&
  dlt mean_interarrival_ns (ddiv (dmul (dlit 105 100) ns) (rpcs_per_sec p)).

(** [samples]: the delays drawn for each stage. *)
Fixpoint stages_from (cum : Z) (config : list stage_config) (samples : list (list Z)) : option (list WorkloadStage) :=
  match config, samples with
  | [], _ => Some []
  | p :: config, dist :: samples =>
      if mean_ok p dist then
        let cum := u64 (cum + c_run_dur p) in
        stages ← stages_from cum config samples;
        Some (mkStage (c_rpc_size_bytes p) (c_target_average_bps p) dist cum :: stages)
      else None
  | _ :: _, [] => None
  end.

Definition StagesFromConfig (config : list stage_config) (samples : list (list Z)) : option (list WorkloadStage) :=
  stages_from 0 config samples.

(** *** The checks of the mean *)

Definition kInterarrivalSamples : nat := kChunkSize * kNumChunks.

(** A rounded number keeps its sign. *)
Lemma round_sign sx m e l : binary_round_aux prec emax sx m e l = S754_nan \/
  dsign (binary_round_aux prec emax sx m e l) = sx.
Proof.
  unfold binary_round_aux. destruct (shr_fexp prec emax m e l) as [mrs e'].
  destruct (shr_fexp prec emax (round_nearest_even _ _) _ _) as [mrs' e'']. destruct (shr_m mrs'); [by right| |by left].
  right. by destruct (Z.leb _ _).
Qed.

Lemma ddiv_sign x y : ddiv x y = S754_nan \/ dsign (ddiv x y) = xorb (dsign x) (dsign y).
Proof.
  unfold ddiv, SFdiv. destruct x as [sx|sx| |sx mx ex], y as [sy|sy| |sy my ey]; try (by left); try (by right).
  destruct (SFdiv_core_binary _ _ _ _ _ _) as [[mz ez] lz]. apply round_sign.
Qed.

Lemma dlt_0_sign x : dlt d0 x = true -> dsign x = false.
Proof. destruct x as [[]|[]| |[] m e]; cbn; by intros H. Qed.

Lemma dlt_sign_0 x : dlt x d0 = true -> dsign x = true.
Proof. destruct x as [[]|[]| |[] m e]; cbn; by intros H. Qed.

Lemma zeros_mean : MeanOf (replicate kInterarrivalSamples 0) = d0.
Proof. vm_compute. reflexivity. Qed.

(** Two numbers of one sign divided by the same number cannot lie on both sides of 0. *)
Lemma ddiv_one_side c1 c2 r : dsign c1 = dsign c2 -> dlt (ddiv c1 r) d0 = true -> dlt d0 (ddiv c2 r) = true -> False.
Proof.
  intros Hc H1 H2. destruct (ddiv_sign c1 r) as [E1|E1]; [by rewrite E1 in H1|].
  destruct (ddiv_sign c2 r) as [E2|E2]; [by rewrite E2 in H2|].
  apply dlt_sign_0 in H1. apply dlt_0_sign in H2. congruence.
Qed.

(** Delays that pass the check are not all zero. *)
Lemma mean_ok_positive p dist : length dist = kInterarrivalSamples -> Forall (fun d => 0 <= d) dist ->
  mean_ok p dist = true -> Exists (fun d => 0 < d) dist.
Proof.
  intros Hlen Hn Hm. destruct (decide (Exists (fun d => 0 < d) dist)) as [?|Hno]; [done|exfalso].
  assert (E : dist = replicate kInterarrivalSamples 0).
  { rewrite <- Hlen. clear Hlen Hm. induction Hn as [|d l Hd _ IH]; [done|]. rewrite Exists_cons in Hno. cbn.
    f_equal; [lia|apply IH; tauto]. }
  unfold mean_ok in Hm. rewrite E, zeros_mean in Hm. apply andb_true_iff in Hm as [H1 H2].
  refine (ddiv_one_side (dmul (dlit 95 100) (dofZ (10 ^ 9))) (dmul (dlit 105 100) (dofZ (10 ^ 9))) _ _ H1 H2).
  vm_compute. reflexivity.
Qed.

Definition GetMaxRpcSizeBytes (stages : list WorkloadStage) : Z := foldl (fun m s => Z.max m (rpc_size_bytes s)) (-1) stages.
Definition GetMinRpcSizeBytes (stages : list WorkloadStage) : Z :=
  foldl (fun m s => Z.min m (rpc_size_bytes s)) (2 ^ 31 - 1) stages.

(** ** The workload *)

Inductive action :=
  | Issued (rpc_id hr_scheduled_time rpc_size_bytes : Z)
  | StepDone (step : Z)
  | RecorderClosed
  | RecordingStarted.

Record WorkloadController := mkWorkload {
  workload_stages_ : list WorkloadStage;
  hr_start_time_ : Z;
  hr_end_time_ : Z;
  hr_next_report_time_ : Z;
  hr_next_i_ : nat;
  cur_stage_index_ : nat;
  rpc_id_ : Z;
  log : list action }.

Definition hr_report_dur_ : Z := 10 ^ 9.

(** [None]: [back()] of no stages. *)
Definition new_WorkloadController (stages : list WorkloadStage) (hr_start_time : Z) : option WorkloadController :=
  s ← last stages;
  Some (mkWorkload stages hr_start_time (u64 (hr_start_time + hr_cum_run_dur s)) (u64 (hr_start_time + hr_report_dur_)) 0 0 0 []).

Definition cur_stage (w : WorkloadController) : option WorkloadStage := workload_stages_ w !! cur_stage_index_ w.

Definition log_action (a : action) (w : WorkloadController) : WorkloadController :=
  mkWorkload (workload_stages_ w) (hr_start_time_ w) (hr_end_time_ w) (hr_next_report_time_ w) (hr_next_i_ w)
    (cur_stage_index_ w) (rpc_id_ w) (log w ++ [a]).

(** [None]: [at] of no delays. *)
Definition NextDelay (w : WorkloadController) : option (WorkloadController * Z) :=
  match cur_stage w with
  | None => Some (w, uint64_max)
  | Some stage =>
      delay ← interarrival_ns stage !! (hr_next_i_ w mod length (interarrival_ns stage))%nat;
      Some (mkWorkload (workload_stages_ w) (hr_start_time_ w) (hr_end_time_ w) (hr_next_report_time_ w) (S (hr_next_i_ w))
              (cur_stage_index_ w) (rpc_id_ w) (log w), delay)
  end.

Inductive ReqStatus := kOk | kTearingDown.

Definition next_stage (w : WorkloadController) : WorkloadController :=
  mkWorkload (workload_stages_ w) (hr_start_time_ w) (hr_end_time_ w) (hr_next_report_time_ w) (hr_next_i_ w)
    (S (cur_stage_index_ w)) (rpc_id_ w) (log w).

Definition report (w : WorkloadController) : WorkloadController :=
  let step := i32 ((hr_next_report_time_ w - hr_start_time_ w) / hr_report_dur_) in
  mkWorkload (workload_stages_ w) (hr_start_time_ w) (hr_end_time_ w) (u64 (hr_next_report_time_ w + hr_report_dur_)) (hr_next_i_ w)
    (cur_stage_index_ w) (rpc_id_ w) (log w ++ [StepDone step]).

Definition issue (hr_now : Z) (stage : WorkloadStage) (w : WorkloadController) : WorkloadController :=
  let rpc_id := u64 (rpc_id_ w + 1) in
  mkWorkload (workload_stages_ w) (hr_start_time_ w) (hr_end_time_ w) (hr_next_report_time_ w) (hr_next_i_ w)
    (cur_stage_index_ w) rpc_id (log w ++ [Issued rpc_id hr_now (rpc_size_bytes stage)]).

(** The stage is looked up before the index moves on. *)
Definition TryIssueRequest (hr_now : Z) (w : WorkloadController) : WorkloadController * ReqStatus :=
  let stage := cur_stage w in
  let w := match stage with
           | Some s => if u64 (hr_start_time_ w + hr_cum_run_dur s) <? hr_now then next_stage w else w
           | None => w
           end in
  match stage with
  | None => (log_action RecorderClosed w, kTearingDown)
  | Some s =>
      if hr_end_time_ w <? hr_now then (log_action RecorderClosed w, kTearingDown)
      else
        let w := if hr_next_report_time_ w <? hr_now then report w else w in
        (issue hr_now s w, kOk)
  end.

(** A deadline that is less than half the precision of the timer away counts. *)
Definition DeadlineExpired (hr_now hr_deadline : Z) : bool :=
  let kTimerPrecision := 10000 in hr_deadline <=? u64 (hr_now + kTimerPrecision / 2).

(** ** The open generator *)

Inductive outcome (A : Type) := Ret (a : A) | AssertFailed | OutOfFuel.
Arguments Ret {A}.
Arguments AssertFailed {A}.
Arguments OutOfFuel {A}.

Record OpenLoadGenerator := mkOpen {
  hr_next_ : Z;
  issued_first_req_ : bool;
  tearing_down_ : bool;
  workload_controller_ : WorkloadController }.

(** [hr_next_] is not set by the constructor. *)
Definition new_Open (junk : Z) (w : WorkloadController) : OpenLoadGenerator := mkOpen junk false false w.

(** The request that is due, and the time of the next: [None] when the
    delays cannot be read. *)
Definition fire (g : OpenLoadGenerator) : option OpenLoadGenerator :=
  let '(w, st) := TryIssueRequest (hr_next_ g) (workload_controller_ g) in
  match st with
  | kOk =>
      '(w, delay) ← NextDelay w;
      Some (mkOpen (if delay =? uint64_max then delay else u64 (hr_next_ g + delay)) (issued_first_req_ g) false w)
  | kTearingDown => Some (mkOpen (hr_next_ g) (issued_first_req_ g) true w)
  end.

(** The loops of [OnNextReq] and [OnCheckNextReq] around
    [OpenLoadGenerator::TryIssueRequest]. *)
Fixpoint issue_due (fuel : nat) (hr_now : Z) (g : OpenLoadGenerator) : outcome OpenLoadGenerator :=
  match fuel with
  | O => OutOfFuel
  | S fuel =>
      if tearing_down_ g || negb (DeadlineExpired hr_now (hr_next_ g)) then Ret g
      else match fire g with Some g => issue_due fuel hr_now g | None => AssertFailed end
  end.

Definition start_first (hr_now : Z) (g : OpenLoadGenerator) : OpenLoadGenerator :=
  if issued_first_req_ g then g
  else mkOpen hr_now true (tearing_down_ g) (log_action RecordingStarted (workload_controller_ g)).

(** Milliseconds; [now] is the time of the event loop. *)
Definition UvTimeoutUntil (now hr_time : Z) : Z :=
  let ms := hr_time / 1000000 in if ms <=? now then 0 else u64 (ms - now).

(** The callback of the timer, with the time-out it is started with again;
    and, once it has run, the one of every turn of the event loop. *)
Definition OnNextReq (fuel : nat) (hr_now uv_now : Z) (g : OpenLoadGenerator) : outcome (OpenLoadGenerator * option Z) :=
  match issue_due fuel hr_now (start_first hr_now g) with
  | Ret g => Ret (g, if tearing_down_ g then None else Some (UvTimeoutUntil uv_now (hr_next_ g)))
  | AssertFailed => AssertFailed
  | OutOfFuel => OutOfFuel
  end.
Definition OnCheckNextReq (fuel : nat) (hr_now : Z) (g : OpenLoadGenerator) : outcome OpenLoadGenerator :=
  issue_due fuel hr_now g.

(** ** The loop ends *)

Definition stage_ok (s : WorkloadStage) : Prop :=
  Forall (fun d => 0 <= d < 2 ^ 62) (interarrival_ns s) /\ Exists (fun d => 0 < d) (interarrival_ns s).

(** The stages that [StagesFromConfig] accepts are such stages. *)
Lemma stages_from_ok cum config samples stages :
  Forall (fun dist => length dist = kInterarrivalSamples /\ Forall (fun d => 0 <= d < 2 ^ 62) dist) samples ->
  stages_from cum config samples = Some stages -> Forall stage_ok stages.
Proof.
  intros Hs. revert cum config stages. induction Hs as [|dist samples [Hlen Hd] _ IH]; intros cum [|p config] stages;
    cbn [stages_from]; [intros [= <-]; constructor|done|intros [= <-]; constructor|].
  destruct (mean_ok p dist) eqn:Hm; [|done]. cbv zeta. intros (rest & Hrest & [= <-])%bind_Some.
  constructor; [|by eapply IH]. split; [done|]. apply (mean_ok_positive p); [done| |done].
  eapply Forall_impl; [exact Hd|]. cbn. lia.
Qed.

Definition stages_ok (w : WorkloadController) : Prop := Forall stage_ok (workload_stages_ w).

Definition delay_at (s : WorkloadStage) (i : nat) : option Z := interarrival_ns s !! (i mod length (interarrival_ns s))%nat.

Lemma delay_at_some s i : stage_ok s -> exists d, delay_at s i = Some d /\ 0 <= d < 2 ^ 62.
Proof.
  intros [Hr Hp]. unfold delay_at. assert (Hlen : length (interarrival_ns s) <> 0%nat) by (destruct Hp; done).
  destruct (lookup_lt_is_Some_2 (interarrival_ns s) (i mod length (interarrival_ns s))) as [d Hd]; [by apply Nat.mod_upper_bound|].
  exists d. split; [done|]. by apply (Forall_lookup_1 _ _ _ _ Hr Hd).
Qed.

Lemma positive_ahead s i : stage_ok s -> exists k d, delay_at s (i + k) = Some d /\ 0 < d.
Proof.
  intros [_ (d & (j & Hj)%list_elem_of_lookup & Hd)%Exists_exists]. set (n := length (interarrival_ns s)).
  assert (Hlt : (j < n)%nat) by (by apply lookup_lt_Some in Hj).
  exists (n - i mod n + j)%nat, d. split; [|done]. unfold delay_at. fold n.
  pose proof (Nat.mod_upper_bound i n ltac:(lia)) as Hm. rewrite (Nat.div_mod i n) at 1 by lia.
  replace (n * (i / n) + i mod n + (n - i mod n + j))%nat with (j + (i / n + 1) * n)%nat by lia.
  by rewrite Nat.Div0.mod_add, Nat.mod_small.
Qed.

(** What a request that is not the last changes. *)
Record fire_step (g g' : OpenLoadGenerator) (s' : WorkloadStage) (d : Z) : Prop := {
  fs_stages : workload_stages_ (workload_controller_ g') = workload_stages_ (workload_controller_ g);
  fs_i : hr_next_i_ (workload_controller_ g') = S (hr_next_i_ (workload_controller_ g));
  fs_index : cur_stage_index_ (workload_controller_ g') = cur_stage_index_ (workload_controller_ g) \/
             cur_stage_index_ (workload_controller_ g') = S (cur_stage_index_ (workload_controller_ g));
  fs_stage : cur_stage (workload_controller_ g') = Some s';
  fs_delay : delay_at s' (hr_next_i_ (workload_controller_ g)) = Some d;
  fs_next : hr_next_ g' = if d =? uint64_max then d else u64 (hr_next_ g + d) }.

Lemma TryIssue_fields hr_now w w' : TryIssueRequest hr_now w = (w', kOk) ->
  workload_stages_ w' = workload_stages_ w /\ hr_next_i_ w' = hr_next_i_ w /\
  (cur_stage_index_ w' = cur_stage_index_ w \/ cur_stage_index_ w' = S (cur_stage_index_ w)).
Proof.
  unfold TryIssueRequest. destruct (cur_stage w) as [s|]; [|done].
  destruct (u64 _ <? hr_now); cbn [hr_end_time_ hr_next_report_time_ next_stage];
    destruct (hr_end_time_ w <? hr_now); try done; destruct (hr_next_report_time_ w <? hr_now); intros [= <-]; cbn; auto.
Qed.

Lemma fire_cases g : stages_ok (workload_controller_ g) ->
  exists g', fire g = Some g' /\
    (tearing_down_ g' = true \/ hr_next_ g' = uint64_max \/ exists s' d, stage_ok s' /\ fire_step g g' s' d).
Proof.
  intros Hok. unfold fire. destruct (TryIssueRequest _ _) as [w []] eqn:E; [|eexists; split; [done|by left]].
  apply TryIssue_fields in E as (Hs & Hi & Hx). unfold NextDelay. destruct (cur_stage w) as [s'|] eqn:Hc.
  - assert (Hs' : stage_ok s').
    { unfold cur_stage in Hc. rewrite Hs in Hc. unfold stages_ok in Hok. by apply (Forall_lookup_1 _ _ _ _ Hok Hc). }
    destruct (delay_at_some s' (hr_next_i_ w) Hs') as (d & Hd & Hr). fold (delay_at s' (hr_next_i_ w)). rewrite Hd.
    cbn [mbind option_bind]. eexists. split; [done|]. right; right. exists s', d. split; [done|].
    rewrite Hi in Hd. split; cbn; try done; congruence.
  - cbn [mbind option_bind]. change (uint64_max =? uint64_max) with true. eexists. split; [done|]. right; by left.
Qed.

Definition stages_left (g : OpenLoadGenerator) : nat :=
  (length (workload_stages_ (workload_controller_ g)) - cur_stage_index_ (workload_controller_ g))%nat.

Definition time_left (hr_now : Z) (g : OpenLoadGenerator) : nat := Z.to_nat (hr_now + 5001 - hr_next_ g).

Definition ends (hr_now : Z) (g : OpenLoadGenerator) : Prop :=
  exists n, forall fuel, (n <= fuel)%nat -> exists g', issue_due fuel hr_now g = Ret g'.

Lemma ends_now hr_now g : tearing_down_ g || negb (DeadlineExpired hr_now (hr_next_ g)) = true -> ends hr_now g.
Proof. intros H. exists 1%nat. intros [|fuel] Hf; [lia|]. exists g. cbn. by rewrite H. Qed.

Lemma ends_fire hr_now g g' : fire g = Some g' -> ends hr_now g' -> ends hr_now g.
Proof.
  intros Hf [n Hn]. exists (S n). intros [|fuel] Hle; [lia|]. cbn [issue_due]. destruct (_ || _); [by eexists|].
  rewrite Hf. apply Hn. lia.
Qed.

Lemma not_due_after hr_now t : 0 <= hr_now < 2 ^ 62 -> hr_now + 5000 < t -> DeadlineExpired hr_now t = false.
Proof. intros Hn Ht. unfold DeadlineExpired. cbv zeta. change (10000 / 2) with 5000. rewrite u64_id by (unfold in_u64; lia). apply Z.leb_gt. lia. Qed.

(** By the time and the stages that are left, then by the zero delays up to
    the next positive one. *)
Lemma ends_by hr_now : 0 <= hr_now < 2 ^ 62 -> forall n g, stages_ok (workload_controller_ g) -> 0 <= hr_next_ g ->
  (time_left hr_now g + stages_left g < n)%nat -> ends hr_now g.
Proof.
  intros Hnow. induction n as [|n IHn]; intros g Hok Hg Hn; [lia|].
  destruct (tearing_down_ g || negb (DeadlineExpired hr_now (hr_next_ g))) eqn:Estop; [by apply ends_now|].
  destruct (cur_stage (workload_controller_ g)) as [s|] eqn:Hc.
  2:{ eapply ends_fire; [unfold fire, TryIssueRequest; by rewrite Hc|]. by apply ends_now. }
  assert (Hs : stage_ok s) by (unfold stages_ok in Hok; by apply (Forall_lookup_1 _ _ _ _ Hok Hc)).
  destruct (positive_ahead s (hr_next_i_ (workload_controller_ g)) Hs) as (k & d & Hk & Hd).
  revert g Hok Hg Hn Estop Hc Hk. induction k as [|k IHk]; intros g Hok Hg Hn Estop Hc Hk.
  all: destruct (fire_cases g Hok) as (g' & Hf & Hcases); apply (ends_fire _ _ _ Hf).
  all: destruct Hcases as [Ht|[Hm|(s' & d' & Hs' & [F1 F2 F3 F4 F5 F6])]];
    [apply ends_now; by rewrite Ht|apply ends_now; rewrite Hm, not_due_after by (unfold uint64_max; lia); apply orb_true_r|].
  all: apply orb_false_iff in Estop as [_ Edue%negb_false_iff]; unfold DeadlineExpired in Edue; cbv zeta in Edue;
    change (10000 / 2) with 5000 in Edue; rewrite u64_id in Edue by (unfold in_u64; lia); apply Z.leb_le in Edue.
  all: destruct (delay_at_some s' (hr_next_i_ (workload_controller_ g)) Hs') as (d1 & Hd1 & Hr1);
    rewrite F5 in Hd1; injection Hd1 as <-.
  all: rewrite (proj2 (Z.eqb_neq _ _)), u64_id in F6 by (unfold in_u64, uint64_max; lia).
  all: assert (Hok' : stages_ok (workload_controller_ g')) by (unfold stages_ok in *; by rewrite F1).
  all: assert (Hidx : (cur_stage_index_ (workload_controller_ g) < length (workload_stages_ (workload_controller_ g)))%nat)
    by (by apply lookup_lt_Some in Hc).
  all: destruct (decide (0 < d')) as [Hpos|Hzero];
    [apply IHn; [done|lia|unfold time_left, stages_left in *; rewrite F1, F6; destruct F3 as [->| ->]; lia]|].
  all: assert (d' = 0) as -> by lia; destruct F3 as [Hsame|Hnext];
    [|apply IHn; [done|lia|unfold time_left, stages_left in *; rewrite F1, F6, Hnext; lia]].
  all: unfold cur_stage in F4, Hc; rewrite F1, Hsame, Hc in F4; injection F4 as ->.
  - rewrite Nat.add_0_r in Hk. rewrite Hk in F5. injection F5 as ->. lia.
  - destruct (tearing_down_ g' || negb (DeadlineExpired hr_now (hr_next_ g'))) eqn:Estop'; [by apply ends_now|].
    apply IHk; try done; [lia|unfold time_left, stages_left in *; rewrite F1, F6, Hsame; lia| |].
    + unfold cur_stage. by rewrite F1, Hsame.
    + rewrite F2. by rewrite Nat.add_succ_r in Hk.
Qed.

(** A callback of the open generator ends: with a positive delay among
    those of each stage there is a number of rounds after which no request is
    due, whatever the state, and the loop returns. *)
Theorem OpenLoadGenerator_ends hr_now uv_now g : 0 <= hr_now < 2 ^ 62 -> stages_ok (workload_controller_ g) -> 0 <= hr_next_ g ->
  exists n, forall fuel, (n <= fuel)%nat ->
    (exists r, OnNextReq fuel hr_now uv_now g = Ret r) /\ exists g', OnCheckNextReq fuel hr_now g = Ret g'.
Proof.
  intros Hnow Hok Hg.
  assert (Hstart : ends hr_now (start_first hr_now g)).
  { eapply ends_by; [done| | |apply Nat.lt_succ_diag_r]; unfold start_first; destruct (issued_first_req_ g); cbn; (done || lia). }
  destruct Hstart as [n1 H1]. destruct (ends_by hr_now Hnow _ g Hok Hg (Nat.lt_succ_diag_r _)) as [n2 H2].
  exists (n1 + n2)%nat. intros fuel Hf. split; [|apply H2; lia].
  unfold OnNextReq. destruct (H1 fuel ltac:(lia)) as [g' ->]. by eexists.
Qed.

(** ** The schedule of the open generator *)

Inductive open_callback := TimerTick (hr_now uv_now : Z) | LoopTurn (hr_now : Z).

Definition time_of (c : open_callback) : Z := match c with TimerTick t _ | LoopTurn t => t end.

Definition run_callback (fuel : nat) (c : open_callback) (g : OpenLoadGenerator) : outcome OpenLoadGenerator :=
  match c with
  | LoopTurn hr_now => OnCheckNextReq fuel hr_now g
  | TimerTick hr_now uv_now => match OnNextReq fuel hr_now uv_now g with
                               | Ret (g, _) => Ret g
                               | AssertFailed => AssertFailed
                               | OutOfFuel => OutOfFuel
                               end
  end.

Fixpoint run_callbacks (fuel : nat) (cs : list open_callback) (g : OpenLoadGenerator) : outcome OpenLoadGenerator :=
  match cs with
  | [] => Ret g
  | c :: cs => match run_callback fuel c g with Ret g => run_callbacks fuel cs g | o => o end
  end.

(** What is meant: the workload's first [n] requests, with what is done
    before and after them, each with the time it is due at.  The i-th delay
    of the run is added to the time of a request for that of the next; there
    are no callbacks here.  [report] is when the next step of the statistics
    ends, [id] the last request's. *)
Section Schedule.
Variables (stages : list WorkloadStage) (start_time end_time : Z).

Fixpoint schedule (n : nat) (idx i : nat) (report id t : Z) : list (Z * action) :=
  match n with
  | O => []
  | S n =>
      match stages !! idx with
      | None => [(t, RecorderClosed)]
      | Some s =>
          if end_time <? t then [(t, RecorderClosed)]
          else
            let idx := if start_time + hr_cum_run_dur s <? t then S idx else idx in
            let step := if report <? t then [(t, StepDone (i32 ((report - start_time) / 10 ^ 9)))] else [] in
            let report := if report <? t then report + 10 ^ 9 else report in
            step ++ (t, Issued (u64 (id + 1)) t (rpc_size_bytes s)) ::
            match stages !! idx ≫= fun s => delay_at s i with
            | Some d => schedule n idx (S i) report (u64 (id + 1)) (t + d)
            | None => []
            end
      end
  end.

Lemma schedule_later n : forall idx i report id t e, Forall stage_ok stages ->
  e ∈ schedule n idx i report id t -> t <= fst e.
Proof.
  induction n as [|n IH]; intros idx i report id t e Hok; cbn [schedule]; [by intros ?%not_elem_of_nil|].
  destruct (stages !! idx) as [s|]; [|intros ->%list_elem_of_singleton; cbn; lia].
  destruct (end_time <? t); [intros ->%list_elem_of_singleton; cbn; lia|]. cbv zeta.
  set (idx' := if _ <? t then S idx else idx). intros [He|He]%elem_of_app.
  { destruct (report <? t); [apply list_elem_of_singleton in He as ->; cbn; lia|by apply not_elem_of_nil in He]. }
  apply elem_of_cons in He as [->|He]; [cbn; lia|].
  destruct (stages !! idx') as [s'|] eqn:Es; cbn [mbind option_bind] in He; [|by apply not_elem_of_nil in He].
  destruct (delay_at_some s' i) as (d & Hd & Hr); [by apply (Forall_lookup_1 _ _ _ _ Hok Es)|]. rewrite Hd in He.
  apply IH in He; [lia|done].
Qed.

End Schedule.

(** A callback finds what is due up to half the timer's precision later. *)
Definition due_by (t : Z) (l : list (Z * action)) : list action := map snd (List.filter (fun e => fst e <=? t + 5000) l).

Lemma due_by_none t l : (forall e, e ∈ l -> t + 5000 < fst e) -> due_by t l = [].
Proof.
  unfold due_by. induction l as [|e l IH]; intros Hl; [done|]. cbn [List.filter].
  rewrite (proj2 (Z.leb_gt _ _)) by (apply Hl; by left). apply IH. intros e' He'. apply Hl. by right.
Qed.

(** The schedule that is left in a state. *)
Definition left_of (n : nat) (g : OpenLoadGenerator) : list (Z * action) :=
  let w := workload_controller_ g in
  if tearing_down_ g then []
  else schedule (workload_stages_ w) (hr_start_time_ w) (hr_end_time_ w) n (cur_stage_index_ w) (hr_next_i_ w)
         (hr_next_report_time_ w) (rpc_id_ w) (hr_next_ g).

(** What is logged, and what is still to be done by then. *)
Definition log_by (n : nat) (t : Z) (g : OpenLoadGenerator) : list action := log (workload_controller_ g) ++ due_by t (left_of n g).

Record workload_ok (w : WorkloadController) : Prop := {
  wo_stages : stages_ok w;
  wo_ends : Forall (fun s => 0 <= hr_start_time_ w + hr_cum_run_dur s < 2 ^ 64) (workload_stages_ w);
  wo_report : 0 <= hr_next_report_time_ w < 2 ^ 63 }.

Definition open_ok (g : OpenLoadGenerator) : Prop := workload_ok (workload_controller_ g) /\ 0 <= hr_next_ g.

(** Nothing is due any more at a time. *)
Definition past (t : Z) (g : OpenLoadGenerator) : Prop := tearing_down_ g = true \/ t + 5000 < hr_next_ g.

Lemma due_by_cons t u a l : u <= t + 5000 -> due_by t ((u, a) :: l) = a :: due_by t l.
Proof. intros Hu. unfold due_by. cbn [List.filter fst]. by rewrite (proj2 (Z.leb_le _ _) Hu). Qed.

Lemma TryIssue_closed t w : cur_stage w = None \/ hr_end_time_ w < t -> exists idx,
  TryIssueRequest t w = (mkWorkload (workload_stages_ w) (hr_start_time_ w) (hr_end_time_ w) (hr_next_report_time_ w)
    (hr_next_i_ w) idx (rpc_id_ w) (log w ++ [RecorderClosed]), kTearingDown).
Proof.
  unfold TryIssueRequest, next_stage, log_action. intros [-> |Ht]; [by eexists|].
  destruct (cur_stage w) as [s|]; [|by eexists]. destruct (u64 _ <? t); cbn; rewrite (proj2 (Z.ltb_lt _ _)) by done; by eexists.
Qed.

(** What a request changes, without the wrap-arounds. *)
Lemma TryIssue_open t w s : workload_ok w -> 0 <= t < 2 ^ 62 + 5001 -> cur_stage w = Some s -> t <= hr_end_time_ w ->
  TryIssueRequest t w = (mkWorkload (workload_stages_ w) (hr_start_time_ w) (hr_end_time_ w)
    (if hr_next_report_time_ w <? t then hr_next_report_time_ w + 10 ^ 9 else hr_next_report_time_ w) (hr_next_i_ w)
    (if hr_start_time_ w + hr_cum_run_dur s <? t then S (cur_stage_index_ w) else cur_stage_index_ w) (u64 (rpc_id_ w + 1))
    (log w ++ (if hr_next_report_time_ w <? t then [StepDone (i32 ((hr_next_report_time_ w - hr_start_time_ w) / 10 ^ 9))] else []) ++
      [Issued (u64 (rpc_id_ w + 1)) t (rpc_size_bytes s)]), kOk).
Proof.
  intros [_ Hends Hrep] Hb Hs Ht. unfold TryIssueRequest. rewrite Hs.
  rewrite (u64_id (hr_start_time_ w + _)) by (unfold in_u64; apply (Forall_lookup_1 _ _ _ _ Hends Hs)).
  unfold next_stage, report, issue. destruct (_ + _ <? t); cbn; rewrite (proj2 (Z.ltb_ge _ _)) by done.
  all: destruct (Z.ltb_spec (hr_next_report_time_ w) t); cbn; rewrite <- ?app_assoc; try done.
  all: by rewrite (u64_id (_ + hr_report_dur_)) by (unfold in_u64, hr_report_dur_; lia).
Qed.

(** A request moves the head of the schedule to the log. *)
Lemma fire_log g : open_ok g -> tearing_down_ g = false -> hr_next_ g < 2 ^ 62 + 5000 -> exists g', fire g = Some g' /\
  open_ok g' /\ issued_first_req_ g' = issued_first_req_ g /\ (tearing_down_ g' = true \/ hr_next_ g <= hr_next_ g') /\
  forall n t, 0 <= t < 2 ^ 62 -> hr_next_ g <= t + 5000 -> log_by n t g' = log_by (S n) t g.
Proof.
  intros [Hw H0] Ht Hb. pose proof Hw as [Hok Hends Hrep]. unfold fire.
  unfold log_by, left_of. rewrite Ht. cbn [schedule]. set (w := workload_controller_ g) in *. fold (cur_stage w).
  destruct (cur_stage w) as [s|] eqn:Es.
  2:{ destruct (TryIssue_closed (hr_next_ g) w (or_introl Es)) as [idx ->]. eexists. split; [done|]. split; [split; [by destruct Hw; split|done]|].
      split_and!; [done|by left|]. intros n t Hn Hd. rewrite due_by_cons by done. by rewrite app_nil_r. }
  destruct (Z.ltb_spec (hr_end_time_ w) (hr_next_ g)) as [He|He].
  { destruct (TryIssue_closed (hr_next_ g) w (or_intror He)) as [idx ->]. eexists. split; [done|]. split; [split; [by destruct Hw; split|done]|].
    split_and!; [done|by left|]. intros n t Hn Hd. rewrite due_by_cons by done. by rewrite app_nil_r. }
  rewrite (TryIssue_open _ _ s) by (done || lia). unfold NextDelay. cbv zeta. cbn [hr_next_i_].
  set (idx := if hr_start_time_ w + _ <? _ then S _ else _). set (w' := mkWorkload _ _ _ _ _ _ _ _).
  assert (Hw' : workload_ok w') by (split; cbn; [done..|destruct (Z.ltb_spec (hr_next_report_time_ w) (hr_next_ g)); lia]).
  unfold cur_stage. cbn [workload_stages_ cur_stage_index_ w'].
  assert (Hhead : forall t l rest, hr_next_ g <= t + 5000 ->
    due_by t ((if hr_next_report_time_ w <? hr_next_ g then [(hr_next_ g, l)] else []) ++ rest) =
    (if hr_next_report_time_ w <? hr_next_ g then [l] else []) ++ due_by t rest).
  { intros t l rest Hd. destruct (hr_next_report_time_ w <? hr_next_ g); [|done]. cbn [app]. by rewrite due_by_cons. }
  destruct (workload_stages_ w !! idx) as [s'|] eqn:Es'; cbn [mbind option_bind].
  - destruct (delay_at_some s' (hr_next_i_ w)) as (d & Hd & Hr); [by apply (Forall_lookup_1 _ _ _ _ Hok Es')|].
    unfold delay_at in Hd |- *. rewrite Hd. cbn [mbind option_bind].
    rewrite (proj2 (Z.eqb_neq d uint64_max)) by (unfold uint64_max; lia). rewrite (u64_id (hr_next_ g + d)) by (unfold in_u64; lia).
    eexists. split; [reflexivity|]. cbn -[schedule due_by].
    split; [split; [|cbn; lia]; by destruct Hw'|]. split_and!; [done|right; lia|].
    intros n t Hn Hd'. rewrite Hhead, due_by_cons by done. by rewrite <- !app_assoc.
  - change (uint64_max =? uint64_max) with true. cbn iota. eexists. split; [reflexivity|]. cbn -[schedule due_by].
    split; [split; [done|cbn; unfold uint64_max; lia]|]. split_and!; [done|right; unfold uint64_max; lia|].
    intros n t Hn Hd'. rewrite Hhead, due_by_cons by done. rewrite (due_by_none t (schedule _ _ _ _ _ _ _ _ _)); [by rewrite app_nil_r|].
    intros e He'. apply schedule_later in He'; [unfold uint64_max in He'; lia|done].
Qed.

Lemma due_past t x : 0 <= t < 2 ^ 62 -> DeadlineExpired t x = false <-> t + 5000 < x.
Proof.
  intros Ht. unfold DeadlineExpired. cbv zeta. change (10000 / 2) with 5000. rewrite u64_id by (unfold in_u64; lia). by rewrite Z.leb_gt.
Qed.

Lemma log_by_past n t g : workload_ok (workload_controller_ g) -> past t g -> log_by n t g = log (workload_controller_ g).
Proof.
  intros [Hok _ _] Hp. unfold log_by. rewrite due_by_none; [by rewrite app_nil_r|]. intros e He. unfold left_of in He.
  destruct Hp as [Hp|Hp]; [rewrite Hp in He; by apply not_elem_of_nil in He|]. destruct (tearing_down_ g); [by apply not_elem_of_nil in He|].
  apply schedule_later in He; [lia|done].
Qed.

(** What a callback does to a state: it goes [k] requests on in the
    schedule, as far as it is due. *)
Record goes_on (hr_now : Z) (k : nat) (g g' : OpenLoadGenerator) : Prop := {
  go_ok : open_ok g';
  go_started : issued_first_req_ g' = issued_first_req_ g;
  go_past : past hr_now g';
  go_later : forall t, past t g -> past t g';
  go_log : forall n t, hr_now <= t < 2 ^ 62 -> log_by n t g' = log_by (k + n) t g }.

Lemma issue_due_goes_on hr_now fuel : 0 <= hr_now < 2 ^ 62 -> forall g g', open_ok g -> issue_due fuel hr_now g = Ret g' ->
  (forall more, (fuel <= more)%nat -> issue_due more hr_now g = Ret g') /\ exists k, goes_on hr_now k g g'.
Proof.
  intros Hnow. induction fuel as [|fuel IH]; intros g g' Hok; [done|]. cbn [issue_due].
  destruct (tearing_down_ g || _) eqn:E.
  - intros [= <-]. split; [intros [|more] Hm; [lia|]; cbn [issue_due]; by rewrite E|]. exists 0%nat. split; try done.
    apply orb_true_iff in E as [?|E%negb_true_iff]; [by left|right]. by apply due_past in E.
  - apply orb_false_iff in E as [Et Ed%negb_false_iff].
    assert (Hd : hr_next_ g <= hr_now + 5000).
    { destruct (Z.le_gt_cases (hr_next_ g) (hr_now + 5000)) as [?|Hgt]; [done|]. apply due_past in Hgt; [congruence|done]. }
    destruct (fire_log g) as (g1 & Hf & Hok1 & Hs1 & Hl1 & Hg1); [done..|lia|]. rewrite Hf. intros Hrun.
    destruct (IH g1 g' Hok1 Hrun) as [Hmore (k & [H1 H2 H3 H4 H5])]. split.
    { intros [|more] Hm; [lia|]. cbn [issue_due]. rewrite Et, Ed, Hf. apply Hmore. lia. }
    exists (S k). split; [done|congruence|done| |].
    + intros t [?|Ht]; [congruence|]. apply H4. destruct Hl1; [by left|right; lia].
    + intros n t Ht. rewrite H5 by done. rewrite Hg1 by lia. done.
Qed.

(** With enough rounds it returns, and more of them change nothing. *)
Lemma issue_due_total hr_now g : 0 <= hr_now < 2 ^ 62 -> open_ok g -> exists m g' k,
  (forall fuel, (m <= fuel)%nat -> issue_due fuel hr_now g = Ret g') /\ goes_on hr_now k g g'.
Proof.
  intros Hnow Hok. pose proof Hok as [[Hst _ _] H0].
  destruct (ends_by hr_now Hnow _ g Hst H0 (Nat.lt_succ_diag_r _)) as [m Hm].
  destruct (Hm m ltac:(lia)) as [g' Hg']. destruct (issue_due_goes_on hr_now m Hnow g g' Hok Hg') as [Hmore (k & Hk)].
  by exists m, g', k.
Qed.

(** Once started, a callback only issues what is due. *)
Lemma run_callback_started fuel c g : issued_first_req_ g = true -> run_callback fuel c g = issue_due fuel (time_of c) g.
Proof.
  intros Hg. destruct c as [t u|t]; [|done]. cbn [run_callback time_of]. unfold OnNextReq, start_first. rewrite Hg.
  by destruct (issue_due _ _ _).
Qed.

Definition latest (t : Z) (cs : list open_callback) : Z := foldl (fun m c => Z.max m (time_of c)) t cs.

Lemma run_callbacks_log cs : forall t g, issued_first_req_ g = true -> open_ok g -> 0 <= t < 2 ^ 62 -> past t g ->
  Forall (fun c => 0 <= time_of c < 2 ^ 62) cs -> exists m k g',
    (forall fuel, (m <= fuel)%nat -> run_callbacks fuel cs g = Ret g') /\
    0 <= latest t cs < 2 ^ 62 /\ t <= latest t cs /\
    forall n, log (workload_controller_ g') = log_by (k + n) (latest t cs) g.
Proof.
  induction cs as [|c cs IH]; intros t g Hs Hok Ht Hp Hcs.
  { exists 0%nat, 0%nat, g. split_and!; [done|cbn; lia..|]. intros n. cbn. symmetry. apply log_by_past; [apply Hok|done]. }
  apply Forall_cons in Hcs as [Hc Hcs].
  destruct (issue_due_total (time_of c) g Hc Hok) as (m1 & g1 & k1 & Hm1 & [Hok1 Hs1 Hp1 Hl1 Hg1]).
  destruct (IH (Z.max t (time_of c)) g1) as (m2 & k2 & g' & Hm2 & Hr & Hle & Hg'); [congruence|done|lia| |done|].
  { destruct (Z.max_spec t (time_of c)) as [[_ ->]|[_ ->]]; [done|by apply Hl1]. }
  exists (m1 + m2)%nat, (k1 + k2)%nat, g'. cbn [latest foldl]. fold (latest (Z.max t (time_of c)) cs). split_and!; [|lia..|].
  - intros fuel Hf. cbn [run_callbacks]. rewrite run_callback_started, Hm1 by (done || lia). apply Hm2. lia.
  - intros n. rewrite (Hg' n), Hg1 by lia. f_equal. lia.
Qed.

(** C23: what the open generator does does not depend on when its callbacks
    run: however late and in whatever order they are, they all return, and
    what has then been sent and recorded is the part of the workload's
    schedule that is due at the latest of them, up to half the timer's
    precision, each request with the time at which it was to be sent: those
    of the schedule are the time of the first callback with the delays drawn
    for the workload added one by one, until the workload ends.  Times are
    below 2^62 nanoseconds, and the stages have delays such as
    [StagesFromConfig] accepts. *)
Theorem OpenLoadGenerator_schedule t0 u0 cs g0 : let w := workload_controller_ g0 in
  issued_first_req_ g0 = false -> tearing_down_ g0 = false -> workload_ok w ->
  0 <= t0 < 2 ^ 62 -> Forall (fun c => 0 <= time_of c < 2 ^ 62) cs ->
  exists m, forall n fuel, (m <= n)%nat -> (m <= fuel)%nat -> exists g, run_callbacks fuel (TimerTick t0 u0 :: cs) g0 = Ret g /\
    log (workload_controller_ g) = log w ++ RecordingStarted :: due_by (latest t0 cs)
      (schedule (workload_stages_ w) (hr_start_time_ w) (hr_end_time_ w) n (cur_stage_index_ w) (hr_next_i_ w)
        (hr_next_report_time_ w) (rpc_id_ w) t0).
Proof.
  intros w Hg Ht Hw H0 Hcs. set (g1 := start_first t0 g0).
  assert (Eg1 : g1 = mkOpen t0 true false (log_action RecordingStarted w)) by (unfold g1, start_first; by rewrite Hg, Ht).
  assert (Hok1 : open_ok g1) by (rewrite Eg1; split; [by destruct Hw|cbn; lia]).
  destruct (issue_due_total t0 g1 H0 Hok1) as (m1 & g2 & k1 & Hm1 & [Hok2 Hs2 Hp2 Hl2 Hg2]).
  destruct (run_callbacks_log cs t0 g2) as (m2 & k2 & g & Hm2 & Hr & Hle & Hlog); [by rewrite Hs2, Eg1|done..|].
  exists (m1 + m2 + k1 + k2)%nat. intros n fuel Hn Hf. exists g. split.
  - cbn [run_callbacks run_callback]. unfold OnNextReq. fold g1. rewrite Hm1 by lia. apply Hm2. lia.
  - rewrite (Hlog (n - k1 - k2)%nat), Hg2 by lia. replace (k1 + (k2 + (n - k1 - k2)))%nat with n by lia.
    rewrite Eg1. unfold log_by, left_of. cbn -[schedule due_by]. by rewrite <- app_assoc.
Qed.

(** ** The semi-open generator *)

Inductive IssueCaller := Recheck | OnWriteDone | OnCheckNextReq_caller | OnTimerTick.

Record SemiOpenLoadGenerator := mkSemi {
  hr_scheduled_time_ : Z;
  issued_first : bool;
  issued_scheduled_req_ : bool;
  timer_is_running_ : bool;
  tearing_down : bool;
  max_queued_writes_ : Z;
  num_wip_write_ : Z;
  workload : WorkloadController }.

(** An [int64_t] returned as an [int]; [None] is the division by 0. *)
Definition NumWritesIn (rpc_size queue_size : Z) : option Z :=
  if rpc_size =? 0 then None else Some (i32 (Z.max (Z.quot queue_size rpc_size) 1)).

Definition kMaxQueueLenPerConnBytes : Z := 4 * 1024.

Definition new_SemiOpen (junk num_conns : Z) (stages : list WorkloadStage) (w : WorkloadController)
    : option SemiOpenLoadGenerator :=
  writes ← NumWritesIn (GetMinRpcSizeBytes stages) kMaxQueueLenPerConnBytes;
  Some (mkSemi junk false false false false (i32 (writes * num_conns)) 0 w).

Definition set_schedule (t : Z) (w : WorkloadController) (g : SemiOpenLoadGenerator) : SemiOpenLoadGenerator :=
  mkSemi t (issued_first g) false (timer_is_running_ g) (tearing_down g) (max_queued_writes_ g) (num_wip_write_ g) w.
Definition set_timer (b : bool) (g : SemiOpenLoadGenerator) : SemiOpenLoadGenerator :=
  mkSemi (hr_scheduled_time_ g) (issued_first g) (issued_scheduled_req_ g) b (tearing_down g) (max_queued_writes_ g)
    (num_wip_write_ g) (workload g).
Definition start_semi (hr_now : Z) (g : SemiOpenLoadGenerator) : SemiOpenLoadGenerator :=
  mkSemi hr_now true (issued_scheduled_req_ g) (timer_is_running_ g) (tearing_down g) (max_queued_writes_ g) (num_wip_write_ g)
    (log_action RecordingStarted (workload g)).

(** The request itself. *)
Definition issue_scheduled (g : SemiOpenLoadGenerator) : SemiOpenLoadGenerator :=
  let '(w, st) := TryIssueRequest (hr_scheduled_time_ g) (workload g) in
  match st with
  | kOk => mkSemi (hr_scheduled_time_ g) (issued_first g) true (timer_is_running_ g) (tearing_down g) (max_queued_writes_ g)
             (num_wip_write_ g + 1) w
  | kTearingDown => mkSemi (hr_scheduled_time_ g) (issued_first g) true (timer_is_running_ g) true (max_queued_writes_ g)
                      (num_wip_write_ g) w
  end.

#[export] Instance IssueCaller_eq_dec : EqDecision IssueCaller.
Proof. solve_decision. Defined.

(** The assertions of [MaybeIssueScheduleRequest]: something was waited for. *)
Definition was_waiting (caller : IssueCaller) (g : SemiOpenLoadGenerator) : bool :=
  let waiting_on_wip_write := if bool_decide (caller = OnWriteDone) then max_queued_writes_ g - 1 <=? num_wip_write_ g
                              else num_wip_write_ g =? max_queued_writes_ g in
  let waiting_on_timer := timer_is_running_ g || bool_decide (caller = OnTimerTick) in
  waiting_on_timer || waiting_on_wip_write || bool_decide (caller = Recheck).

(** The end: the timer is stopped and the next request scheduled. *)
Definition schedule_next (hr_now : Z) (caller : IssueCaller) (g : SemiOpenLoadGenerator) : outcome (SemiOpenLoadGenerator * bool) :=
  let g := set_timer false g in
  if tearing_down g then Ret (g, false)
  else
    let base_time := if bool_decide (caller = OnWriteDone) then hr_now else hr_scheduled_time_ g in
    match NextDelay (workload g) with
    | None => AssertFailed
    | Some (w, delay) =>
        let g := set_schedule (if delay =? uint64_max then delay else u64 (base_time + delay)) w g in
        Ret (g, num_wip_write_ g <? max_queued_writes_ g)
    end.

Definition MaybeIssueScheduleRequest (hr_now : Z) (caller : IssueCaller) (g : SemiOpenLoadGenerator)
    : outcome (SemiOpenLoadGenerator * bool) :=
  if tearing_down g then Ret (g, false)
  else
    let waiting := was_waiting caller g in
    if issued_first g && negb waiting then AssertFailed
    else
      let g := if issued_first g then g else start_semi hr_now g in
      if negb (DeadlineExpired hr_now (hr_scheduled_time_ g)) then
        if negb waiting then AssertFailed
        else Ret (if negb (timer_is_running_ g) && (num_wip_write_ g <? max_queued_writes_ g) then set_timer true g else g, false)
      else if issued_scheduled_req_ g then schedule_next hr_now caller g
      else if num_wip_write_ g =? max_queued_writes_ g then Ret (g, false)
      else schedule_next hr_now caller (issue_scheduled g).

(** [while (MaybeIssueScheduleRequest(hr_now, Recheck))]. *)
Fixpoint recheck (fuel : nat) (hr_now : Z) (g : SemiOpenLoadGenerator) : outcome SemiOpenLoadGenerator :=
  match fuel with
  | O => OutOfFuel
  | S fuel =>
      match MaybeIssueScheduleRequest hr_now Recheck g with
      | Ret (g, true) => recheck fuel hr_now g
      | Ret (g, false) => Ret g
      | AssertFailed => AssertFailed
      | OutOfFuel => OutOfFuel
      end
  end.

Definition callback (hr_now : Z) (caller : IssueCaller) (g : SemiOpenLoadGenerator) : outcome SemiOpenLoadGenerator :=
  match MaybeIssueScheduleRequest hr_now caller g with
  | Ret (g, true) => recheck (S (Z.to_nat (max_queued_writes_ g))) hr_now g
  | Ret (g, false) => Ret g
  | AssertFailed => AssertFailed
  | OutOfFuel => OutOfFuel
  end.

Definition SemiOpen_OnWriteDone (hr_now : Z) (g : SemiOpenLoadGenerator) : outcome SemiOpenLoadGenerator :=
  callback hr_now OnWriteDone
    (mkSemi (hr_scheduled_time_ g) (issued_first g) (issued_scheduled_req_ g) (timer_is_running_ g) (tearing_down g)
       (max_queued_writes_ g) (num_wip_write_ g - 1) (workload g)).

Definition SemiOpen_OnCheckNextReq (hr_now : Z) (g : SemiOpenLoadGenerator) : outcome SemiOpenLoadGenerator :=
  callback hr_now OnCheckNextReq_caller g.

Definition SemiOpen_OnTimerTick (hr_now : Z) (g : SemiOpenLoadGenerator) : outcome SemiOpenLoadGenerator :=
  callback hr_now OnTimerTick (set_timer false g).

(** ** The semi-open generator and the event loop *)

Definition is_issued (a : action) : bool := if a is Issued _ _ _ then true else false.
Definition sent (w : WorkloadController) : Z := Z.of_nat (length (List.filter is_issued (log w))).

Lemma sent_log a w : sent (log_action a w) = sent w + (if is_issued a then 1 else 0).
Proof. unfold sent. cbn [log log_action]. rewrite List.filter_app, length_app. destruct a; cbn; lia. Qed.

(** The writes are in order when the generator enters and leaves. *)
Record gen_ok (g : SemiOpenLoadGenerator) : Prop := {
  go_stages : stages_ok (workload g);
  go_wip : 0 <= num_wip_write_ g <= max_queued_writes_ g;
  go_scheduled : tearing_down g = false -> issued_scheduled_req_ g = false }.

(** Something will call again: the timer or a write. *)
Definition waits (g : SemiOpenLoadGenerator) : Prop :=
  tearing_down g = true \/ timer_is_running_ g = true \/ num_wip_write_ g = max_queued_writes_ g.

Record moved (g g' : SemiOpenLoadGenerator) (again : bool) : Prop := {
  mo_ok : gen_ok g';
  mo_max : max_queued_writes_ g' = max_queued_writes_ g;
  mo_sent : num_wip_write_ g' - sent (workload g') = num_wip_write_ g - sent (workload g);
  mo_grows : num_wip_write_ g <= num_wip_write_ g';
  mo_first : tearing_down g = false -> issued_first g' = true;
  mo_again : if again then tearing_down g' = false /\ num_wip_write_ g < num_wip_write_ g' else waits g' }.

Lemma TryIssue_sent hr_now w w' st : TryIssueRequest hr_now w = (w', st) ->
  workload_stages_ w' = workload_stages_ w /\ sent w' = sent w + (match st with kOk => 1 | kTearingDown => 0 end).
Proof.
  unfold TryIssueRequest, sent. destruct (cur_stage w) as [s|].
  - destruct (u64 _ <? hr_now); cbn [hr_end_time_ hr_next_report_time_ next_stage];
      destruct (hr_end_time_ w <? hr_now); try destruct (hr_next_report_time_ w <? hr_now); intros [= <- <-]; cbn;
      rewrite ?List.filter_app, ?length_app; cbn; split; (done || lia).
  - intros [= <- <-]. cbn. rewrite List.filter_app, length_app. cbn. split; [done|lia].
Qed.

Lemma NextDelay_Some w : stages_ok w -> exists w' d, NextDelay w = Some (w', d) /\
  workload_stages_ w' = workload_stages_ w /\ sent w' = sent w.
Proof.
  intros Hok. unfold NextDelay. destruct (cur_stage w) as [s|] eqn:Hc; [|by exists w, uint64_max].
  destruct (delay_at_some s (hr_next_i_ w)) as (d & Hd & _); [by apply (Forall_lookup_1 _ _ _ _ Hok Hc)|].
  fold (delay_at s (hr_next_i_ w)). rewrite Hd. by eexists _, d.
Qed.

(** Scheduling never fails, and asks to be called again while the queue has
    room. *)
Lemma schedule_next_ok hr_now caller g : stages_ok (workload g) -> 0 <= num_wip_write_ g <= max_queued_writes_ g ->
  exists g' again, schedule_next hr_now caller g = Ret (g', again) /\ gen_ok g' /\
    max_queued_writes_ g' = max_queued_writes_ g /\ num_wip_write_ g' = num_wip_write_ g /\
    sent (workload g') = sent (workload g) /\ issued_first g' = issued_first g /\ tearing_down g' = tearing_down g /\
    (if again then tearing_down g' = false else waits g').
Proof.
  intros Hs Hw. unfold schedule_next. cbn [set_timer tearing_down workload]. destruct (tearing_down g) eqn:Et.
  - eexists _, false. split; [done|]. cbn. rewrite Et. split; [split; cbn; [done|done|by rewrite Et]|]. by repeat split; left.
  - destruct (NextDelay_Some (workload g) Hs) as (w & d & -> & Hst & Hse). eexists _, _. split; [done|].
    cbn. rewrite Et. split; [split; cbn; [unfold stages_ok in *; by rewrite Hst|done|done]|]. split_and!; try done.
    destruct (Z.ltb_spec (num_wip_write_ g) (max_queued_writes_ g)); [done|]. right; right. cbn. lia.
Qed.

Lemma issue_scheduled_ok g : gen_ok g -> num_wip_write_ g <> max_queued_writes_ g ->
  let g' := issue_scheduled g in
  stages_ok (workload g') /\ 0 <= num_wip_write_ g' <= max_queued_writes_ g' /\ max_queued_writes_ g' = max_queued_writes_ g /\
  num_wip_write_ g' - sent (workload g') = num_wip_write_ g - sent (workload g) /\ issued_first g' = issued_first g /\
  num_wip_write_ g <= num_wip_write_ g' /\ (tearing_down g' = true \/ tearing_down g' = tearing_down g /\ num_wip_write_ g' = num_wip_write_ g + 1).
Proof.
  intros [Hs Hw _] Hne. unfold issue_scheduled. destruct (TryIssueRequest _ _) as [w st] eqn:E.
  apply TryIssue_sent in E as [E1 E2]. destruct st; cbn; unfold stages_ok in *; rewrite E1, E2; split_and!; auto; lia.
Qed.

(** One call: what was waited for, or a first call, or a repetition. *)
Lemma Maybe_ok hr_now caller g : gen_ok g -> 0 <= hr_now < 2 ^ 62 ->
  (issued_first g = true -> tearing_down g = false -> was_waiting caller g = true) ->
  exists g' again, MaybeIssueScheduleRequest hr_now caller g = Ret (g', again) /\ moved g g' again.
Proof.
  intros Hok Hnow Hwait. unfold MaybeIssueScheduleRequest. destruct (tearing_down g) eqn:Et.
  { exists g, false. split; [done|]. split; [done|done|done|done|by rewrite Et|by left]. }
  assert (Hf : issued_first g && negb (was_waiting caller g) = false).
  { destruct (issued_first g) eqn:E; [|done]. by rewrite Hwait. }
  rewrite Hf. cbv zeta. set (g1 := if issued_first g then g else start_semi hr_now g).
  assert (H1 : gen_ok g1 /\ max_queued_writes_ g1 = max_queued_writes_ g /\ num_wip_write_ g1 = num_wip_write_ g /\
    sent (workload g1) = sent (workload g) /\ issued_first g1 = true /\ tearing_down g1 = false /\
    (issued_first g = false -> DeadlineExpired hr_now (hr_scheduled_time_ g1) = true)).
  { unfold g1. destruct (issued_first g) eqn:E; [split_and!; done|]. cbn [start_semi max_queued_writes_ num_wip_write_ workload
      issued_first tearing_down hr_scheduled_time_]. rewrite sent_log, Z.add_0_r. destruct Hok as [Hs Hw Hsch].
    split_and!; try done. intros _. unfold DeadlineExpired. cbv zeta.
    change (10000 / 2) with 5000. rewrite u64_id by (unfold in_u64; lia). apply Z.leb_le. lia. }
  destruct H1 as (Hok1 & Hmax & Hwip & Hse & Hfi & Htd & Hexp). destruct (DeadlineExpired _ _) eqn:Ed; cbn [negb].
  - rewrite (go_scheduled g1 Hok1 Htd). destruct (Z.eqb_spec (num_wip_write_ g1) (max_queued_writes_ g1)) as [Efull|Hroom].
    + exists g1, false. split; [done|]. split; [done|done|by rewrite Hse, Hwip|by rewrite Hwip|done|by right; right].
    + destruct (issue_scheduled_ok g1 Hok1 Hroom) as (Is & Iw & Im & Ise & Ifi & Ig & Ic).
      destruct (schedule_next_ok hr_now caller (issue_scheduled g1) Is Iw) as (g' & again & -> & N1 & N2 & N3 & N4 & N5 & N6 & N7).
      exists g', again. split; [done|]. split; [done|congruence|lia|lia|intros _; congruence|].
      destruct again; [|done]. split; [done|]. rewrite N3. destruct Ic as [Ic|[_ Ic]]; [by rewrite N6, Ic in N7|lia].
  - assert (Hw : was_waiting caller g = true).
    { destruct (issued_first g) eqn:E; [by apply Hwait|]. specialize (Hexp eq_refl). congruence. }
    rewrite Hw. cbn [negb]. eexists _, false. split; [done|].
    assert (Hg1 : forall b, gen_ok (set_timer b g1)) by (intros b; by destruct Hok1; split).
    destruct (timer_is_running_ g1) eqn:Etm; cbn [negb andb]; [split; [done|done|by rewrite Hse, Hwip|by rewrite Hwip|done|right; by left]|].
    destruct (Z.ltb_spec (num_wip_write_ g1) (max_queued_writes_ g1)).
    + split; [apply Hg1|done|cbn; by rewrite Hse, Hwip|cbn; by rewrite Hwip|done|right; by left].
    + split; [done|done|by rewrite Hse, Hwip|by rewrite Hwip|done|]. right; right. destruct (go_wip g1 Hok1). lia.
Qed.

Lemma moved_trans g g' g'' b again : moved g g' b -> moved g' g'' again -> tearing_down g' = false ->
  moved g g'' again.
Proof.
  intros [A1 A2 A3 Ag A4 A5] [B1 B2 B3 Bg B4 B5] Ht. split; [done|congruence|lia|lia|by intros _; apply B4|].
  destruct again; [|done]. destruct B5. split; [done|]. lia.
Qed.

(** Each repetition fills the queue further. *)
Lemma recheck_ok hr_now fuel : forall g, gen_ok g -> 0 <= hr_now < 2 ^ 62 -> tearing_down g = false ->
  (Z.to_nat (max_queued_writes_ g - num_wip_write_ g) < fuel)%nat ->
  exists g', recheck fuel hr_now g = Ret g' /\ moved g g' false.
Proof.
  induction fuel as [|fuel IH]; intros g Hok Hnow Ht Hf; [lia|]. cbn [recheck].
  destruct (Maybe_ok hr_now Recheck g Hok Hnow) as (g' & again & -> & Hm).
  { intros _ _. unfold was_waiting. by rewrite (bool_decide_eq_true_2 (Recheck = Recheck)), orb_true_r. }
  destruct again; [|by exists g']. destruct (mo_again _ _ _ Hm) as [Ht' Hlt].
  pose proof (mo_max _ _ _ Hm). destruct (go_wip g' (mo_ok _ _ _ Hm)).
  destruct (IH g') as (g'' & -> & Hm'); [by apply Hm|done|done|lia|]. exists g''. split; [done|]. by apply (moved_trans _ g' _ true).
Qed.

Lemma callback_ok hr_now caller g : gen_ok g -> 0 <= hr_now < 2 ^ 62 ->
  (issued_first g = true -> tearing_down g = false -> was_waiting caller g = true) ->
  exists g', callback hr_now caller g = Ret g' /\ moved g g' false.
Proof.
  intros Hok Hnow Hw. unfold callback. destruct (Maybe_ok hr_now caller g Hok Hnow Hw) as (g' & again & -> & Hm).
  destruct again; [|by exists g']. destruct (mo_again _ _ _ Hm) as [Ht' Hlt]. destruct (go_wip g' (mo_ok _ _ _ Hm)).
  destruct (recheck_ok hr_now (S (Z.to_nat (max_queued_writes_ g'))) g') as (g'' & -> & Hm'); [by apply Hm|done|done|lia|].
  exists g''. split; [done|]. by apply (moved_trans _ g' _ true).
Qed.

(** The generator in the event loop: whether the one-shot timer is armed, and
    how many writes have ended, with success or not.  A write that fails does
    not call [OnWriteDone]. *)
Record semi_world := mkSemiWorld { gen : SemiOpenLoadGenerator; armed : bool; written : Z; failed : Z }.

Definition in_flight (w : semi_world) : Z := sent (workload (gen w)) - written w - failed w.

Inductive event := TimerFires | WriteEnds | WriteFails | LoopTurns.

(** The check handle runs once the first request was due. *)
Definition enabled (e : event) (w : semi_world) : Prop :=
  match e with
  | TimerFires => armed w = true
  | WriteEnds | WriteFails => 0 < in_flight w
  | LoopTurns => issued_first (gen w) = true
  end.

Definition ret_world (o : outcome SemiOpenLoadGenerator) (written failed : Z) : outcome semi_world :=
  match o with
  | Ret g => Ret (mkSemiWorld g (timer_is_running_ g) written failed)
  | AssertFailed => AssertFailed
  | OutOfFuel => OutOfFuel
  end.

Definition handle (e : event) (hr_now : Z) (w : semi_world) : outcome semi_world :=
  match e with
  | TimerFires => ret_world (SemiOpen_OnTimerTick hr_now (gen w)) (written w) (failed w)
  | WriteEnds => ret_world (SemiOpen_OnWriteDone hr_now (gen w)) (written w + 1) (failed w)
  | WriteFails => Ret (mkSemiWorld (gen w) (armed w) (written w) (failed w + 1))
  | LoopTurns => ret_world (SemiOpen_OnCheckNextReq hr_now (gen w)) (written w) (failed w)
  end.

Inductive semi_step (w : semi_world) : semi_world -> Prop :=
  | semi_event e hr_now w' : 0 <= hr_now < 2 ^ 62 -> enabled e w -> handle e hr_now w = Ret w' -> semi_step w w'.

(** [StartRequestLoop] arms the timer. *)
Definition semi_start (g : SemiOpenLoadGenerator) : semi_world := mkSemiWorld g true 0 0.

Record world_ok (w : semi_world) : Prop := {
  wk_gen : gen_ok (gen w);
  wk_wip : num_wip_write_ (gen w) = sent (workload (gen w)) - written w;
  wk_counts : 0 <= failed w /\ 0 <= in_flight w;
  wk_max : 0 < max_queued_writes_ (gen w);
  wk_first : issued_first (gen w) = false -> armed w = true /\ num_wip_write_ (gen w) = 0;
  wk_armed : issued_first (gen w) = true -> tearing_down (gen w) = false -> armed w = timer_is_running_ (gen w) /\ waits (gen w);
  wk_down : tearing_down (gen w) = true -> issued_first (gen w) = true }.

Lemma callback_down hr_now caller g : tearing_down g = true -> callback hr_now caller g = Ret g.
Proof. intros H. unfold callback, MaybeIssueScheduleRequest. by rewrite H. Qed.

(** A callback that was waited for leaves the world in order. *)
Lemma callback_world hr_now caller w g written' : world_ok w -> 0 <= hr_now < 2 ^ 62 -> gen_ok g ->
  issued_first g = issued_first (gen w) -> tearing_down g = tearing_down (gen w) ->
  max_queued_writes_ g = max_queued_writes_ (gen w) -> sent (workload g) = sent (workload (gen w)) ->
  num_wip_write_ g = sent (workload g) - written' -> failed w <= num_wip_write_ g ->
  (issued_first g = true -> tearing_down g = false -> was_waiting caller g = true) ->
  exists w', ret_world (callback hr_now caller g) written' (failed w) = Ret w' /\ world_ok w'.
Proof.
  intros [W1 W2 W3 W4 W5 W6 W7] Hnow Hok Hf Ht Hmax Hse Hwip Hfail Hwait. destruct (tearing_down g) eqn:Etd.
  - rewrite callback_down by done. eexists. split; [done|]. symmetry in Ht. specialize (W7 Ht).
    split; cbn; try done; unfold in_flight; cbn; try lia; try congruence.
  - destruct (callback_ok hr_now caller g Hok Hnow (fun a _ => Hwait a eq_refl)) as (g' & -> & [M1 M2 M3 Mg M4 M5]). eexists. split; [done|].
    specialize (M4 Etd). split; cbn; try done; unfold in_flight; cbn; try lia; congruence.
Qed.

Lemma handle_ok e hr_now w : world_ok w -> 0 <= hr_now < 2 ^ 62 -> enabled e w ->
  exists w', handle e hr_now w = Ret w' /\ world_ok w'.
Proof.
  intros Hok Hnow He. pose proof Hok as [W1 W2 [W3 W3'] W4 W5 W6 W7]. pose proof W1 as [G1 G2 G3].
  unfold in_flight in W3'. destruct e; cbn in He; unfold handle; unfold in_flight in *.
  - apply callback_world with (hr_now := hr_now); try done; [cbn; lia].
  - apply callback_world with (hr_now := hr_now); try done; [split; cbn; [done|lia|done]|cbn; lia|cbn; lia|].
    cbn. intros Hf Ht. destruct (W6 Hf Ht) as [_ [?|[Htm|Hfull]]]; [congruence|unfold was_waiting; cbn; by rewrite Htm|].
    unfold was_waiting. cbn. rewrite (proj2 (Z.leb_le _ _)) by lia. by rewrite orb_true_r.
  - eexists. split; [done|]. split; cbn; try done; unfold in_flight; cbn; lia.
  - apply callback_world with (hr_now := hr_now); try done; [lia|].
    intros Hf Ht. destruct (W6 Hf Ht) as [_ [?|[Htm|Hfull]]]; [congruence|unfold was_waiting; cbn; by rewrite Htm|].
    unfold was_waiting. cbn. by rewrite (proj2 (Z.eqb_eq _ _) Hfull), orb_true_r.
Qed.

Lemma new_SemiOpen_max junk num_conns stages w g : new_SemiOpen junk num_conns stages w = Some g ->
  0 < num_conns < 2 ^ 19 -> Forall (fun s => 0 < rpc_size_bytes s) stages ->
  0 < max_queued_writes_ g <= 4096 * num_conns /\ issued_first g = false /\ tearing_down g = false /\ num_wip_write_ g = 0 /\
  issued_scheduled_req_ g = false /\ workload g = w.
Proof.
  unfold new_SemiOpen, NumWritesIn. intros Hg Hn Hpos.
  assert (Hmin : 0 < GetMinRpcSizeBytes stages).
  { clear Hg. unfold GetMinRpcSizeBytes. assert (H0 : 0 < 2 ^ 31 - 1) by lia. revert H0. generalize (2 ^ 31 - 1).
    induction Hpos as [|s l Hs _ IH]; intros m Hm; [done|]. cbn [foldl]. apply IH. lia. }
  rewrite (proj2 (Z.eqb_neq _ _)) in Hg by lia. cbn [mbind option_bind] in Hg. injection Hg as <-.
  cbn [max_queued_writes_ issued_first tearing_down num_wip_write_ issued_scheduled_req_ workload]. split; [|done].
  assert (Hq : 0 <= Z.quot kMaxQueueLenPerConnBytes (GetMinRpcSizeBytes stages) <= 4096).
  { unfold kMaxQueueLenPerConnBytes. rewrite Z.quot_div_nonneg by lia. split; [apply Z.div_pos; lia|].
    apply Z.div_le_upper_bound; [lia|]. nia. }
  assert (Hm : 1 <= Z.max (Z.quot kMaxQueueLenPerConnBytes (GetMinRpcSizeBytes stages)) 1 <= 4096) by lia.
  revert Hm. generalize (Z.max (Z.quot kMaxQueueLenPerConnBytes (GetMinRpcSizeBytes stages)) 1). intros m Hm.
  unfold i32. rewrite (Z.mod_small (m + 2 ^ 31)) by lia. replace (m + 2 ^ 31 - 2 ^ 31) with m by lia.
  rewrite (Z.mod_small (m * num_conns + 2 ^ 31)) by nia. nia.
Qed.

Section SemiOpen.
Context (junk num_conns start : Z) (stages : list WorkloadStage) (w0 : WorkloadController) (g0 : SemiOpenLoadGenerator).
Context (Hconns : 0 < num_conns < 2 ^ 19) (Hstages : Forall stage_ok stages)
  (Hsizes : Forall (fun s => 0 < rpc_size_bytes s) stages)
  (Hw : new_WorkloadController stages start = Some w0) (Hg : new_SemiOpen junk num_conns stages w0 = Some g0).

Notation reachable := (rtc semi_step (semi_start g0)).

Lemma start_world_ok : world_ok (semi_start g0).
Proof.
  destruct (new_SemiOpen_max _ _ _ _ _ Hg Hconns Hsizes) as (Hmax & Hf & Ht & Hwip & Hsch & Hwl).
  unfold new_WorkloadController in Hw. destruct (last stages) as [s|] eqn:El; [|done]. injection Hw as Hw0.
  assert (Hlog : sent w0 = 0 /\ workload_stages_ w0 = stages) by (by rewrite <- Hw0). destruct Hlog as [Hse Hst].
  split; cbn; unfold in_flight; cbn; rewrite ?Hwl, ?Hwip, ?Hse, ?Hf, ?Ht; try done; try lia.
  split; [unfold stages_ok; by rewrite Hwl, Hst|rewrite Hwip; lia|by intros _].
Qed.

Lemma reachable_world_ok w : reachable w -> world_ok w.
Proof.
  intros Hr. eapply (rtc_ind_r (R := semi_step) world_ok); [exact start_world_ok| |exact Hr].
  intros v v' _ [e hr_now v1 Hnow He Hh] Hv. destruct (handle_ok e hr_now v Hv Hnow He) as (v2 & Hh2 & Hok).
  rewrite Hh in Hh2. by injection Hh2 as ->.
Qed.

(** C15: whatever the order of time-outs, writes that end or fail and turns of
    the event loop, no assertion of the semi-open generator fails, every
    callback ends, and it never has more writes under way than its limit. *)
Theorem SemiOpen_never_asserts w : reachable w ->
  0 <= num_wip_write_ (gen w) <= max_queued_writes_ (gen w) /\ in_flight w <= num_wip_write_ (gen w) /\
  forall e hr_now, 0 <= hr_now < 2 ^ 62 -> enabled e w -> exists w', handle e hr_now w = Ret w'.
Proof.
  intros Hr%reachable_world_ok. split; [apply Hr|]. split; [pose proof (wk_wip _ Hr); pose proof (wk_counts _ Hr); unfold in_flight in *; lia|].
  intros e hr_now Hnow He. destruct (handle_ok e hr_now w Hr Hnow He) as (w' & H & _). by exists w'.
Qed.

(** It does not get stuck: until it tears down the timer is armed or a
    write is under way, as long as no write has failed. *)
Theorem SemiOpen_goes_on w : reachable w -> failed w = 0 ->
  tearing_down (gen w) = true \/ enabled TimerFires w \/ enabled WriteEnds w.
Proof.
  intros Hr%reachable_world_ok Hfail. pose proof Hr as [W1 W2 W3 W4 W5 W6 W7]. unfold enabled, in_flight.
  destruct (tearing_down (gen w)) eqn:Et; [by left|]. right. destruct (issued_first (gen w)) eqn:Ef.
  - destruct (W6 eq_refl eq_refl) as [-> [?|[Htm|Hfull]]]; [congruence|by left|right; lia].
  - left. by apply W5.
Qed.
End SemiOpen.

(** ** Runs *)

(** Two stages of 10 and 2 microseconds. *)
Definition example_stages : list WorkloadStage :=
  [mkStage 100 d1 [4000; 0; 3000] 10000; mkStage 4096 d1 [1000] 12000].

Definition example_workload : WorkloadController :=
  default (mkWorkload [] 0 0 0 0 0 0 []) (new_WorkloadController example_stages 50000).

Lemma example_stages_ok : Forall stage_ok example_stages.
Proof.
  repeat constructor; cbn; try lia; try (apply Exists_cons; by left).
Qed.

Definition example_open : OpenLoadGenerator := new_Open 77 example_workload.

Lemma example_workload_ok : workload_ok example_workload.
Proof. split; [exact example_stages_ok| |by vm_compute]. repeat (apply Forall_cons; split; [by vm_compute|]). by apply Forall_nil. Defined.

(** The callbacks are late; the times are those of the schedule. *)
Lemma OpenLoadGenerator_schedule_witness :
  let meant n := due_by 58000 (schedule example_stages 50000 (hr_end_time_ example_workload) n 0 0
    (hr_next_report_time_ example_workload) 0 50000) in
  (exists m, forall n fuel, (m <= n)%nat -> (m <= fuel)%nat -> exists g,
    run_callbacks fuel [TimerTick 50000 0; LoopTurn 51000; TimerTick 58000 0] example_open = Ret g /\
    log (workload_controller_ g) = RecordingStarted :: meant n) /\
  meant 50%nat = [Issued 1 50000 100; Issued 2 54000 100; Issued 3 54000 100; Issued 4 57000 100; Issued 5 61000 100;
    Issued 6 62000 4096; RecorderClosed].
Proof.
  intros meant. split; [|vm_compute; reflexivity].
  apply (OpenLoadGenerator_schedule 50000 0 [LoopTurn 51000; TimerTick 58000 0] example_open);
    [reflexivity|reflexivity|exact example_workload_ok|lia|].
  repeat (apply Forall_cons; split; [cbn; lia|]). by apply Forall_nil.
Defined.

(** A request past the end of its stage still has the stage's size. *)
Lemma stage_change_uses_old_size :
  hr_start_time_ example_workload + 10000 < 61000 /\
  match issue_due 50 58000 (start_first 50000 example_open) with
  | Ret g => log (workload_controller_ g) !! 5%nat = Some (Issued 5 61000 100)
  | _ => False
  end.
Proof. split; [reflexivity|vm_compute; reflexivity]. Qed.

Lemma OpenLoadGenerator_ends_witness :
  exists n, forall fuel, (n <= fuel)%nat ->
    (exists r, OnNextReq fuel 50000 0 example_open = Ret r) /\ exists g', OnCheckNextReq fuel 50000 example_open = Ret g'.
Proof. apply OpenLoadGenerator_ends; [lia|exact example_stages_ok|cbn; lia]. Defined.

Definition one_stage : list WorkloadStage := [mkStage 4096 d1 [1000] (10 ^ 9)].
Definition one_workload : WorkloadController := default example_workload (new_WorkloadController one_stage 0).
Definition one_semi : SemiOpenLoadGenerator :=
  default (mkSemi 0 false false false false 0 0 one_workload) (new_SemiOpen 3 1 one_stage one_workload).

Definition run_event (e : event) (hr_now : Z) (o : outcome semi_world) : outcome semi_world :=
  match o with Ret w => handle e hr_now w | o => o end.

(** One write at a time: the first is under way. *)
Definition one_write : semi_world :=
  match run_event TimerFires 5 (Ret (semi_start one_semi)) with Ret w => w | _ => semi_start one_semi end.

Lemma one_write_reachable : rtc semi_step (semi_start one_semi) one_write.
Proof. eapply rtc_l; [|apply rtc_refl]. apply (semi_event _ TimerFires 5); [lia|done|vm_compute; reflexivity]. Qed.

Lemma one_stage_ok : Forall stage_ok one_stage /\ Forall (fun s => 0 < rpc_size_bytes s) one_stage.
Proof. split; repeat constructor; cbn; lia. Qed.

Lemma SemiOpen_never_asserts_witness :
  in_flight one_write = 1 /\ exists w', handle WriteEnds 2000 one_write = Ret w'.
Proof.
  split; [reflexivity|].
  destruct (SemiOpen_never_asserts 3 1 0 one_stage one_workload one_semi ltac:(lia) (proj1 one_stage_ok) (proj2 one_stage_ok)
    ltac:(vm_compute; reflexivity) ltac:(vm_compute; reflexivity) one_write one_write_reachable) as (_ & _ & H).
  apply H; [lia|reflexivity].
Defined.

Lemma SemiOpen_goes_on_witness : enabled WriteEnds one_write.
Proof.
  destruct (SemiOpen_goes_on 3 1 0 one_stage one_workload one_semi ltac:(lia) (proj1 one_stage_ok) (proj2 one_stage_ok)
    ltac:(vm_compute; reflexivity) ltac:(vm_compute; reflexivity) one_write one_write_reachable ltac:(reflexivity))
    as [H|[H|H]]; [vm_compute in H; done|vm_compute in H; done|exact H].
Defined.

(** When the write fails its place in the queue is not given back: no event
    but the turns of the loop is left, and they change nothing. *)
Lemma failed_write_is_lost :
  exists w, rtc semi_step (semi_start one_semi) w /\ tearing_down (gen w) = false /\
    ~ enabled TimerFires w /\ ~ enabled WriteEnds w /\ ~ enabled WriteFails w /\
    forall hr_now, 0 <= hr_now -> hr_now < 2 ^ 62 -> handle LoopTurns hr_now w = Ret w.
Proof.
  set (w := mkSemiWorld (gen one_write) (armed one_write) 0 1).
  exists w. split.
  - eapply rtc_r; [exact one_write_reachable|]. apply (semi_event _ WriteFails 6); [lia|reflexivity|reflexivity].
  - split; [reflexivity|]. split; [vm_compute; discriminate|]. split; [vm_compute; discriminate|]. split; [vm_compute; discriminate|].
    intros hr_now H0 H1. unfold handle, SemiOpen_OnCheckNextReq, callback, MaybeIssueScheduleRequest.
    assert (Hw : exists g, gen w = g /\ tearing_down g = false /\ issued_first g = true /\ was_waiting OnCheckNextReq_caller g = true /\
      timer_is_running_ g = false /\ num_wip_write_ g = 1 /\ max_queued_writes_ g = 1 /\ issued_scheduled_req_ g = false /\ armed w = false /\
      written w = 0 /\ failed w = 1).
    { eexists. split; [vm_compute; reflexivity|]. vm_compute. repeat split. }
    destruct Hw as (g & Hg & A1 & A2 & A3 & A4 & A5 & A6 & A7 & A8 & A9 & A10). rewrite Hg, A1, A2, A3. cbn [andb negb].
    destruct (DeadlineExpired _ _); cbn [negb]; rewrite ?A7, ?A4, ?A5, ?A6;
      cbn [negb andb Z.ltb Z.eqb Z.compare Pos.compare Pos.compare_cont Pos.eqb ret_world]; rewrite A4, A9, A10, <- Hg, <- A8;
      reflexivity.
Qed.
