(* ===== verification/Files.v ===== *)
(** * Files: records, process ids and dumps that are written to files

    src/heyp/proto/fileio.cc (lines of JSON), proto/ndjson-logger.{h,cc},
    posix/pidfile.cc, io/look-path.cc and io/debug-output-logger.{h,cc}.  The
    answers of the system calls are arguments; a loop that has used up its
    answers is [None].  Messages and their JSON are a parameter, the texts of
    errors are left out. *)

From stdpp Require Import pretty.
From S2P Require Import Prelude Text.

#[local] Open Scope string_scope.
#[local] Open Scope list_scope.
#[local] Open Scope Z_scope.

(** ** Pieces of strings *)

Lemma substring_all s : String.substring 0 (String.length s) s = s.
Proof. induction s as [|c s IH]; [done|]. cbn. by rewrite IH. Qed.

Lemma substring_long s n : (String.length s <= n)%nat -> String.substring 0 n s = s.
Proof. revert n. induction s as [|c s IH]; intros [|n] Hn; cbn in *; try done; [lia|]. by rewrite IH by lia. Qed.

Lemma substring_0 w s : String.substring w 0 s = "".
Proof. revert w. induction s as [|c s IH]; intros [|w]; try done. apply IH. Qed.

Lemma append_empty_r s : s +:+ "" = s.
Proof. induction s as [|c s IH]; [done|]. exact (f_equal (String c) IH). Qed.

Lemma substring_next s w n m :
  String.substring w n s +:+ String.substring (w + n) m s = String.substring w (n + m) s.
Proof.
  revert w n. induction s as [|c s IH]; intros [|w] n.
  - by destruct n, m.
  - by destruct n.
  - destruct n as [|n]; [done|]. exact (f_equal (String c) (IH 0%nat n)).
  - apply IH.
Qed.

(** ** write *)

Inductive write_answer := Wrote (n : nat) | Interrupted | WriteError.

(** The loop of [WriteJsonLine]: whether it succeeds, what the file holds
    then, and the answers that are left.  The buffer is not advanced. *)
Fixpoint write_line (answers : list write_answer) (buf : string) (total : nat) (out : string)
    : option (bool * string * list write_answer) :=
  if (String.length buf <=? total)%nat then Some (true, out, answers)
  else match answers with
       | [] => None
       | Interrupted :: answers => write_line answers buf total out
       | WriteError :: answers => Some (false, out, answers)
       | Wrote n :: answers => write_line answers buf (total + n) (out +:+ String.substring 0 n buf)
       end.

(** The loop of [WritePidFile]. *)
Fixpoint write_rest (answers : list write_answer) (buf : string) (written : nat) (out : string)
    : option (bool * string) :=
  if (String.length buf =? written)%nat then Some (true, out)
  else match answers with
       | [] => None
       | (Interrupted | WriteError) :: _ => Some (false, out)
       | Wrote n :: answers =>
           write_rest answers buf (written + n) (out +:+ String.substring written n buf)
       end.

(** What [write] may answer when it is given [size] bytes. *)
Definition may_answer (size : nat) (a : write_answer) : Prop := match a with Wrote n => (n <= size)%nat | _ => True end.

(** The answers that [write_rest] gets are about what is left. *)
Fixpoint answers_fit (left : nat) (answers : list write_answer) : Prop :=
  match answers with
  | Wrote n :: answers => (n <= left)%nat /\ answers_fit (left - n) answers
  | _ => True
  end.

(** However the text is cut, it arrives once and in order. *)
Lemma write_rest_prefix answers buf : forall written out ok out', (written <= String.length buf)%nat ->
  answers_fit (String.length buf - written) answers -> write_rest answers buf written out = Some (ok, out') ->
  exists n, (ok = true -> (written + n)%nat = String.length buf) /\ out' = out +:+ String.substring written n buf.
Proof.
  induction answers as [|a answers IH]; intros written out ok out' Hw Hfit; cbn [write_rest];
    destruct (Nat.eqb_spec (String.length buf) written) as [E|E].
  1,3: intros [= <- <-]; exists 0%nat; rewrite substring_0, append_empty_r; split; [lia|done].
  { done. }
  destruct a as [n| |]; [|intros [= <- <-]; exists 0%nat; by rewrite substring_0, append_empty_r..].
  cbn [answers_fit] in Hfit. destruct Hfit as [Hn Hfit].
  intros Hr. destruct (IH (written + n)%nat (out +:+ String.substring written n buf) ok out') as (k & Hok & ->); [lia| |done|].
  { by rewrite Nat.sub_add_distr. }
  exists (n + k)%nat. split; [intros ?%Hok; lia|]. by rewrite append_assoc, substring_next.
Qed.

Definition progress (a : write_answer) : bool := if a is Wrote O then false else true.

(** Every answer with progress brings the end nearer. *)
Lemma write_rest_returns answers buf : forall written out, (written <= String.length buf)%nat ->
  answers_fit (String.length buf - written) answers ->
  (String.length buf - written <= length (List.filter progress answers))%nat ->
  is_Some (write_rest answers buf written out).
Proof.
  induction answers as [|a answers IH]; intros written out Hw Hfit Hlen; cbn [write_rest];
    destruct (Nat.eqb_spec (String.length buf) written); try (by eexists); [cbn in Hlen; lia|].
  destruct a as [k| |]; [|by eexists..]. cbn [answers_fit] in Hfit. destruct Hfit as [Hn Hfit].
  apply IH; [lia|by rewrite Nat.sub_add_distr|]. destruct k as [|k]; cbn [List.filter progress length] in Hlen; lia.
Qed.

(** *** The process id *)

(** The descriptors of the process. *)
Definition close_fd (fd : Z) (os : gset Z) : gset Z := os ∖ {[fd]}.

(** The status, the text in the file and the descriptors that stay open. *)
Definition WritePidFile (creat : option Z) (pid : Z) (answers : list write_answer) (close_ok : bool) (os : gset Z)
    : option (bool * string * gset Z) :=
  match creat with
  | None => Some (false, "", os)
  | Some fd =>
      let os := {[fd]} ∪ os in
      '(ok, out) ← write_rest answers (pretty pid +:+ newline) 0 "";
      Some (ok && close_ok, out, close_fd fd os)
  end.

(** *** Lines of JSON *)

Section Json.
Context {message : Type} (to_json : message -> option string).

Definition WriteJsonLine (m : message) (answers : list write_answer) (out : string)
    : option (bool * string * list write_answer) :=
  match to_json m with
  | None => Some (false, out, answers)
  | Some data => write_line answers (data +:+ newline) 0 out
  end.

(** The variant for a [FILE]: [fwrite] writes everything or fails. *)
Definition WriteJsonLine_FILE (m : message) (fwrite_ok : bool) (out : string) : bool * string :=
  match to_json m with
  | None => (false, out)
  | Some data => if fwrite_ok then (true, out +:+ data +:+ newline) else (false, out)
  end.

(** A file that takes what it is given in one piece. *)
Definition whole (a : write_answer) (size : nat) : bool :=
  match a with Wrote n => (n =? size)%nat | Interrupted => true | WriteError => false end.

Lemma write_line_whole answers buf out : buf <> "" -> forallb (fun a => whole a (String.length buf)) answers = true ->
  Exists (fun a => a <> Interrupted) answers ->
  exists rest, write_line answers buf 0 out = Some (true, out +:+ buf, rest).
Proof.
  intros Hne Hw Hex. assert (Hlen : (0 < String.length buf)%nat) by (destruct buf; cbn; [done|lia]).
  induction Hex as [a answers Ha|a answers _ IH]; cbn [forallb] in Hw; apply andb_true_iff in Hw as [Hwa Hw];
    cbn [write_line]; rewrite (proj2 (Nat.leb_gt _ _)) by done.
  - destruct a as [n| |]; try done. apply Nat.eqb_eq in Hwa as ->. cbn [Nat.add]. exists answers.
    rewrite substring_all. destruct answers; cbn [write_line]; by rewrite Nat.leb_refl.
  - destruct a as [n| |]; try done; [|by apply IH]. apply Nat.eqb_eq in Hwa as ->. cbn [Nat.add]. exists answers.
    rewrite substring_all. destruct answers; cbn [write_line]; by rewrite Nat.leb_refl.
Qed.

(** After a short write the text begins again, and its end is missing, but
    the status is good. *)
Lemma short_write_repeats buf n out : (0 < n < String.length buf)%nat ->
  let rest := (String.length buf - n)%nat in
  write_line [Wrote n; Wrote rest] buf 0 out =
    Some (true, (out +:+ String.substring 0 n buf) +:+ String.substring 0 rest buf, []).
Proof.
  intros Hn. cbn [write_line]. rewrite (proj2 (Nat.leb_gt _ _)) by lia. cbn [Nat.add].
  rewrite (proj2 (Nat.leb_gt _ _)) by lia. by rewrite (proj2 (Nat.leb_le _ _)) by lia.
Qed.

(** ** NdjsonLogger *)

Record NdjsonLogger := mkNdjsonLogger { fd_ : Z }.

(** A descriptor stands for a file. *)
Notation fds := (gmap Z string).

(** [close] and the loop around it: the descriptor is gone after the first
    attempt, even when it was interrupted. *)
Inductive close_answer := Closed | CloseInterrupted | CloseError.

Fixpoint close_loop (answers : list close_answer) (fd : Z) (os : fds) : option (bool * fds) :=
  match answers with
  | [] => None
  | a :: answers =>
      let os := delete fd os in
      match a with
      | Closed => Some (true, os)
      | CloseInterrupted => close_loop answers fd os
      | CloseError => Some (false, os)
      end
  end.

(** [answers]: the interrupted calls are answered with [None]. *)
Fixpoint Init (answers : list (option (option Z))) (path : string) (l : NdjsonLogger) (os : fds)
    : option (bool * NdjsonLogger * fds) :=
  match answers with
  | [] => None
  | None :: answers => Init answers path l os
  | Some None :: _ => Some (false, l, os)
  | Some (Some fd) :: _ => Some (true, mkNdjsonLogger fd, <[fd := path]> os)
  end.

Definition CreateNdjsonLogger (answers : list (option (option Z))) (path : string) (os : fds)
    : option (option NdjsonLogger * fds) :=
  '(ok, l, os) ← Init answers path (mkNdjsonLogger (-1)) os;
  Some (if (ok : bool) then Some l else None, os).

Definition should_log (l : NdjsonLogger) : bool := negb (fd_ l =? -1).

Definition Logger_Close (answers : list close_answer) (l : NdjsonLogger) (os : fds) : option (bool * fds) :=
  if fd_ l =? -1 then Some (true, os) else close_loop answers (fd_ l) os.

(** The destructor; a failure is only logged. *)
Definition Logger_destroy (answers : list close_answer) (l : NdjsonLogger) (os : fds) : option fds :=
  if fd_ l =? -1 then Some os else '(_, os) ← close_loop answers (fd_ l) os; Some os.

(** [files]: what the files hold; [None] is also a descriptor that is not
    open. *)
Definition Logger_Write (m : message) (answers : list write_answer) (l : NdjsonLogger) (os : fds) (files : gmap string string)
    : option (bool * gmap string string * list write_answer) :=
  if fd_ l =? -1 then Some (false, files, answers)
  else
    path ← os !! fd_ l;
    '(ok, out, answers) ← WriteJsonLine m answers (default "" (files !! path));
    Some (ok, <[path := out]> files, answers).

(** [Close] leaves the descriptor in place, so the destructor closes it a
    second time: a file that was opened in between and got the same number is
    lost. *)
Lemma closed_twice fd path other os : fd <> -1 -> os !! fd = Some path ->
  let l := mkNdjsonLogger fd in
  exists os', Logger_Close [Closed] l os = Some (true, os') /\
    Logger_destroy [Closed] l (<[fd := other]> os') = Some (delete fd os).
Proof.
  intros Hfd _. cbv zeta. unfold Logger_Close, Logger_destroy. cbn [fd_]. rewrite (proj2 (Z.eqb_neq _ _)) by done.
  eexists. split; [reflexivity|]. cbn [close_loop mbind option_bind]. by rewrite delete_insert_eq, delete_delete_eq.
Qed.

End Json.

(** ** The process id, written *)

(** [WritePidFile] leaves no descriptor open, whatever the calls answer;
    what it writes is a beginning of the process id on a line, and when it
    succeeds the whole of it, however the system cuts the text. *)
Theorem WritePidFile_writes creat pid answers close_ok os ok out os' :
  (forall fd, creat = Some fd -> fd ∉ os) -> answers_fit (String.length (pretty pid +:+ newline)) answers ->
  WritePidFile creat pid answers close_ok os = Some (ok, out, os') ->
  os' = os /\ (exists n, out = String.substring 0 n (pretty pid +:+ newline)) /\
  (ok = true -> out = pretty pid +:+ newline).
Proof.
  intros Hfd Hfit. unfold WritePidFile. destruct creat as [fd|].
  - destruct (write_rest _ _ _ _) as [[ok0 out0]|] eqn:E; [|done]. cbn [mbind option_bind]. intros [= <- <- <-].
    destruct (write_rest_prefix answers _ 0 "" ok0 out0 ltac:(lia) ltac:(by rewrite Nat.sub_0_r) E) as (n & Hn & ->).
    split; [|split; [by exists n|]].
    + unfold close_fd. specialize (Hfd fd eq_refl). set_solver.
    + intros [Hok _]%andb_true_iff. apply substring_long. by rewrite <- (Hn Hok).
  - intros [= <- <- <-]. split; [done|]. split; [by exists 0%nat; rewrite substring_0|done].
Qed.

(** The file is written when each answer brings progress. *)
Lemma WritePidFile_returns fd pid answers close_ok os : answers_fit (String.length (pretty pid +:+ newline)) answers ->
  (String.length (pretty pid +:+ newline) <= length (List.filter progress answers))%nat ->
  is_Some (WritePidFile (Some fd) pid answers close_ok os).
Proof.
  intros Hfit Hlen. unfold WritePidFile.
  destruct (write_rest_returns answers (pretty pid +:+ newline) 0 "") as [[ok out] ->]; [lia|by rewrite Nat.sub_0_r|lia|].
  by eexists.
Qed.

(** ** LookPath *)

Definition is_slash : Ascii.ascii -> bool := is_char 47.
Definition is_colon : Ascii.ascii -> bool := is_char 58.

Fixpoint has_char (c : Ascii.ascii -> bool) (s : string) : bool :=
  match s with EmptyString => false | String x s => c x || has_char c s end.

(** [stat]: whether there is such a file, and whether it is a directory. *)
Fixpoint first_hit (stat : string -> option bool) (path : string) (entries : list string) : option string :=
  match entries with
  | [] => None
  | e :: entries =>
      let abs_path := e +:+ "/" +:+ path in
      match stat abs_path with
      | Some false => Some abs_path
      | _ => first_hit stat path entries
      end
  end.

(** [None]: there is no variable PATH, and its null pointer is split. *)
Definition LookPath (cwd : string) (env_path : option string) (stat : string -> option bool) (path : string) : option string :=
  if has_char is_slash path then
    if (if path is String c _ then is_slash c else false) then Some path else Some (cwd +:+ "/" +:+ path)
  else
    env ← env_path;
    Some (default path (first_hit stat path (split_at is_colon env))).

Lemma first_hit_Some stat path entries p : first_hit stat path entries = Some p ->
  exists before e after, entries = before ++ e :: after /\ p = e +:+ "/" +:+ path /\ stat p = Some false /\
    Forall (fun e' => stat (e' +:+ "/" +:+ path) <> Some false) before.
Proof.
  induction entries as [|e entries IH]; [done|]. cbn [first_hit]. cbv zeta.
  destruct (stat (e +:+ "/" +:+ path)) as [[]|] eqn:E;
    try (intros (before & e' & after & -> & -> & Hs & Hb)%IH; exists (e :: before), e', after;
         repeat split; [done|constructor; [by rewrite E|done]]).
  intros [= <-]. by exists [], e, entries.
Qed.

(** A command without a slash is looked for in the entries of PATH in
    their order: the result is its file in the first entry that has one that
    is not a directory, and the command itself when there is none. *)
Theorem LookPath_first cwd env stat path p : has_char is_slash path = false ->
  LookPath cwd (Some env) stat path = Some p ->
  (exists before e after, split_at is_colon env = before ++ e :: after /\ p = e +:+ "/" +:+ path /\ stat p = Some false /\
     Forall (fun e' => stat (e' +:+ "/" +:+ path) <> Some false) before) \/
  (p = path /\ Forall (fun e' => stat (e' +:+ "/" +:+ path) <> Some false) (split_at is_colon env)).
Proof.
  intros Hs. unfold LookPath. rewrite Hs. cbn [mbind option_bind]. intros [= <-].
  destruct (first_hit _ _ _) as [q|] eqn:E; cbn [default from_option id].
  - left. by apply first_hit_Some.
  - right. split; [done|]. induction (split_at is_colon env) as [|e l IH]; [done|]. cbn [first_hit] in E. cbv zeta in E.
    destruct (stat (e +:+ "/" +:+ path)) as [[]|] eqn:Ee; [|done|]; constructor; try (by rewrite Ee); by apply IH.
Qed.

(** ** DebugOutputLogger *)

Record DebugOutputLogger := mkDebugOutputLogger { outdir_ : string; status_ : bool }.

(** [create_directories]: an error, or whether a directory was created. *)
Definition new_DebugOutputLogger (create_directories : string -> option bool) (outdir : string) : DebugOutputLogger :=
  mkDebugOutputLogger outdir (bool_decide (outdir = "") || bool_decide (create_directories outdir = Some true)).

Definition debug_should_log (l : DebugOutputLogger) : bool := negb (bool_decide (outdir_ l = "")).

(** [fwrite]: how much of each chunk is written; only nothing is an error. *)
Fixpoint write_chunks (fwrite : nat -> nat) (i : nat) (chunks : list string) (out : string) : bool * string :=
  match chunks with
  | [] => (true, out)
  | c :: chunks =>
      let out := out +:+ String.substring 0 (fwrite i) c in
      if (Nat.min (fwrite i) (String.length c) =? 0)%nat then (false, out) else write_chunks fwrite (S i) chunks out
  end.

(** [None]: the file was not opened, and the null pointer is closed. *)
Definition DebugOutputLogger_Write (data_kind : string) (data : list string) (time : string) (fopen_ok : bool)
    (fwrite : nat -> nat) (l : DebugOutputLogger) (files : gmap string string)
    : option (DebugOutputLogger * gmap string string) :=
  if debug_should_log l then
    if fopen_ok then
      let out_path := outdir_ l +:+ "/" +:+ time +:+ "-" +:+ data_kind in
      let '(ok, out) := write_chunks fwrite 0 data "" in
      Some (mkDebugOutputLogger (outdir_ l) (status_ l && ok), <[out_path := out]> files)
    else None
  else Some (l, files).

(** [std::filesystem::create_directories] answers that nothing was created
    when the directory exists. *)
Lemma existing_directory_is_an_error create_directories outdir : outdir <> "" ->
  create_directories outdir = Some false -> status_ (new_DebugOutputLogger create_directories outdir) = false.
Proof. intros Hne Hc. cbn. rewrite Hc. by rewrite !bool_decide_eq_false_2. Qed.

Lemma write_chunks_all fwrite chunks : (forall i c, chunks !! i = Some c -> c <> "" /\ fwrite i = String.length c) ->
  write_chunks fwrite 0 chunks "" = (true, foldr (fun c s => c +:+ s) "" chunks).
Proof.
  enough (H : forall i out, (forall k c, chunks !! k = Some c -> c <> "" /\ fwrite (i + k)%nat = String.length c) ->
    write_chunks fwrite i chunks out = (true, out +:+ foldr (fun c s => c +:+ s) "" chunks)).
  { intros Hc. by rewrite H. }
  induction chunks as [|c chunks IH]; intros i out Hc; [cbn; by rewrite append_empty_r|]. cbn [write_chunks foldr].
  destruct (Hc 0%nat c eq_refl) as [Hne Hf]. rewrite Nat.add_0_r in Hf. rewrite Hf, Nat.min_id, substring_all.
  destruct (Nat.eqb_spec (String.length c) 0) as [E|_]; [by destruct c|].
  rewrite IH; [by rewrite append_assoc|]. intros k d Hk. rewrite Nat.add_succ_comm. by apply Hc.
Qed.

(** ** Examples *)

Lemma WritePidFile_writes_witness :
  WritePidFile (Some 7) 4321 [Wrote 2; Wrote 0; Wrote 3] true {[1; 2]} = Some (true, "4321" +:+ newline, {[1; 2]}) /\
  (({[1; 2]} : gset Z) = {[1; 2]} /\ (exists n, "4321" +:+ newline = String.substring 0 n (pretty 4321 +:+ newline)) /\
   (true = true -> "4321" +:+ newline = pretty 4321 +:+ newline)).
Proof.
  assert (E : WritePidFile (Some 7) 4321 [Wrote 2; Wrote 0; Wrote 3] true {[1; 2]} = Some (true, "4321" +:+ newline, {[1; 2]}))
    by (vm_compute; reflexivity).
  split; [exact E|]. apply (WritePidFile_writes (Some 7) 4321 [Wrote 2; Wrote 0; Wrote 3] true {[1; 2]}); [|repeat split; vm_compute; lia|exact E].
  intros fd [= <-]. set_solver.
Defined.

Definition example_stat (p : string) : option bool :=
  if bool_decide (p = "/bin/tc") then Some false else if bool_decide (p = "/opt/tc") then Some true else None.

Lemma LookPath_first_witness :
  LookPath "/root" (Some "/usr:/opt:/bin") example_stat "tc" = Some "/bin/tc" /\
  ((exists before e after, split_at is_colon "/usr:/opt:/bin" = before ++ e :: after /\ "/bin/tc" = e +:+ "/" +:+ "tc" /\
      example_stat "/bin/tc" = Some false /\ Forall (fun e' => example_stat (e' +:+ "/" +:+ "tc") <> Some false) before) \/
   ("/bin/tc" = "tc" /\ Forall (fun e' => example_stat (e' +:+ "/" +:+ "tc") <> Some false) (split_at is_colon "/usr:/opt:/bin"))).
Proof.
  split; [reflexivity|]. apply (LookPath_first "/root"); reflexivity.
Defined.
