(* ===== verification/Histogram.v ===== *)
(** * Histogram: the wrapper of HdrHistogram

    src/heyp/stats/hdrhistogram.{h,cc}, cdf.h and hdrhist2csv.cc.  The C
    library is the class [HdrLib]; what is relied on is [HdrLaws]: a
    histogram has a count for each of the buckets of its configuration, and a
    value is counted in its bucket or, when there is none, not at all.
    Histograms with the same configuration and the same counts are
    equivalent ([≡]); the operations respect that.  The variants of the
    recording functions and the getters that only call the library are left
    out. *)

From Stdlib Require Import Sorting.Sorted.
From S2P Require Import Prelude Doubles.

(** ** The library *)

Record hdr_config := mkConfig {
  lowest_discernible_value : Z;
  highest_trackable_value : Z;
  significant_figures : Z }.

#[export] Instance hdr_config_eq_dec : EqDecision hdr_config.
Proof. solve_decision. Defined.

Definition DefaultConfig : hdr_config := mkConfig 1 30000000000 3.
Definition NetworkConfig : hdr_config := mkConfig 100 10000000000 2.

(** [hdr_iter_recorded]: the values and counts that the iterator visits. *)
Class HdrLib := {
  hdr : Type;
  hdr_init : Z -> Z -> Z -> option hdr;
  hdr_record_values : hdr -> Z -> Z -> hdr * bool;
  hdr_add : hdr -> hdr -> hdr * Z;
  hdr_reset : hdr -> hdr;
  hdr_iter_recorded : hdr -> list (Z * Z);
  hdr_value_at_percentile : hdr -> double -> Z }.

(** The count of a value in a list of values and counts. *)
Fixpoint count_in (l : list (Z * Z)) (k : Z) : Z :=
  match l with [] => 0 | (v, c) :: l => (if v =? k then c else 0) + count_in l k end.

Definition count `{HdrLib} (h : hdr) (k : Z) : Z := count_in (hdr_iter_recorded h) k.

(** Adding a histogram records what it has; what has no bucket is dropped. *)
Definition record_all `{HdrLib} (l : list (Z * Z)) (h : hdr) (dropped : Z) : hdr * Z :=
  foldl (fun '(h, dropped) '(v, c) => let '(h, ok) := hdr_record_values h v c in (h, if ok then dropped else dropped + c))
    (h, dropped) l.

Class HdrLaws `{HdrLib} := {
  config_of : hdr -> hdr_config;
  bucket : hdr_config -> Z -> option Z;
  hdr_init_empty low high sig h : hdr_init low high sig = Some h ->
    config_of h = mkConfig low high sig /\ hdr_iter_recorded h = [];
  hdr_sorted h : StronglySorted Z.lt (map fst (hdr_iter_recorded h));
  hdr_buckets h v c : (v, c) ∈ hdr_iter_recorded h -> bucket (config_of h) v = Some v /\ 0 < c;
  hdr_record h v c b : bucket (config_of h) v = Some b -> 0 <= c ->
    let '(h', ok) := hdr_record_values h v c in
    ok = true /\ config_of h' = config_of h /\ forall k, count h' k = count h k + (if b =? k then c else 0);
  hdr_record_none h v c : bucket (config_of h) v = None -> hdr_record_values h v c = (h, false);
  hdr_add_records h from : hdr_add h from = record_all (hdr_iter_recorded from) h 0;
  hdr_reset_empty h : config_of (hdr_reset h) = config_of h /\ hdr_iter_recorded (hdr_reset h) = [];
  hdr_percentile_counts h h' p : config_of h = config_of h' -> hdr_iter_recorded h = hdr_iter_recorded h' ->
    hdr_value_at_percentile h p = hdr_value_at_percentile h' p }.

(** ** The wrapper *)

Section Wrapper.
Context `{HdrLib}.

(** [None]: moved from. *)
Record HdrHistogram := mkHdrHistogram { config_ : hdr_config; h_ : option hdr }.

(** [None]: a failed assertion. *)
Definition new_HdrHistogram (config : hdr_config) : option HdrHistogram :=
  h ← hdr_init (lowest_discernible_value config) (highest_trackable_value config) (significant_figures config);
  Some (mkHdrHistogram config (Some h)).

(** The new object and what is left of the other. *)
Definition move_HdrHistogram (other : HdrHistogram) : HdrHistogram * HdrHistogram :=
  (mkHdrHistogram (config_ other) (h_ other), mkHdrHistogram (config_ other) None).

Definition Add (h from : HdrHistogram) : option (HdrHistogram * Z) :=
  x ← h_ h; y ← h_ from;
  let '(x, dropped) := hdr_add x y in Some (mkHdrHistogram (config_ h) (Some x), dropped).

(** The copy constructor. *)
Definition copy_HdrHistogram (other : HdrHistogram) : option HdrHistogram :=
  h ← new_HdrHistogram (config_ other); '(h, _) ← Add h other; Some h.

(** The assignment of one object to another, and of an object to itself: its
    histogram is replaced before it is read. *)
Definition assign (other : HdrHistogram) : option HdrHistogram := copy_HdrHistogram other.
Definition assign_itself (h : HdrHistogram) : option HdrHistogram :=
  h ← new_HdrHistogram (config_ h); '(h, _) ← Add h h; Some h.

Definition Reset (h : HdrHistogram) : option HdrHistogram :=
  x ← h_ h; Some (mkHdrHistogram (config_ h) (Some (hdr_reset x))).

Definition RecordValues (value n : Z) (h : HdrHistogram) : option (HdrHistogram * bool) :=
  x ← h_ h; let '(x, ok) := hdr_record_values x value n in Some (mkHdrHistogram (config_ h) (Some x), ok).

Definition RecordValue (value : Z) (h : HdrHistogram) : option (HdrHistogram * bool) := RecordValues value 1 h.

Definition ValueAtPercentile (percentile : double) (h : HdrHistogram) : option Z :=
  x ← h_ h; Some (hdr_value_at_percentile x percentile).

(** *** Messages *)

Record proto_hist := mkProto { p_config : hdr_config; p_buckets : list (Z * Z) }.

Definition ToProto (h : HdrHistogram) : option proto_hist := x ← h_ h; Some (mkProto (config_ h) (hdr_iter_recorded x)).

(** The loop of [FromProto]; whether a value was recorded is not looked at. *)
Fixpoint record_buckets (l : list (Z * Z)) (h : HdrHistogram) : option HdrHistogram :=
  match l with
  | [] => Some h
  | (v, c) :: l => '(h, _) ← RecordValues v c h; record_buckets l h
  end.

Definition FromProto (p : proto_hist) : option HdrHistogram := h ← new_HdrHistogram (p_config p); record_buckets (p_buckets p) h.

(** *** Distribution *)

Record PctValue := mkPctValue { percentile : double; value : double; num_samples : Z }.

Fixpoint cdf_from (total cumulative_count : Z) (l : list (Z * Z)) : list PctValue :=
  match l with
  | [] => []
  | (v, c) :: l =>
      let cumulative_count := cumulative_count + c in
      mkPctValue (ddiv (dofZ (i64 (100 * cumulative_count))) (dofZ total)) (dofZ v) c :: cdf_from total cumulative_count l
  end.

Definition ToCdf (h : HdrHistogram) : option (list PctValue) :=
  x ← h_ h; Some (cdf_from (zsum (map snd (hdr_iter_recorded x))) 0 (hdr_iter_recorded x)).

Definition Within (lhs rhs margin_frac : double) : bool :=
  let err := dmul margin_frac (dmax lhs rhs) in dle (dsub rhs err) lhs && dle lhs (dadd rhs err).

Definition ApproximatelyEqual (lhs rhs : Z * Z) (value_margin_frac : double) : bool :=
  Within (dofZ (fst lhs)) (dofZ (fst rhs)) value_margin_frac && (snd rhs =? snd lhs).

(** *** hdrhist2csv *)

Definition merge_config (a b : hdr_config) : hdr_config :=
  mkConfig (Z.min (lowest_discernible_value a) (lowest_discernible_value b))
    (Z.max (highest_trackable_value a) (highest_trackable_value b)) (Z.max (significant_figures a) (significant_figures b)).

Definition inputs_config (hists : list proto_hist) : hdr_config :=
  foldl (fun c p => merge_config c (p_config p)) (mkConfig int64_max 0 0) hists.

(** The names of the inputs: every argument is read as the first one. *)
Definition csv_inputs (argv : list string) : option (list string) :=
  if (length argv =? 1)%nat then Some ["/dev/stdin"%string]
  else first ← argv !! 1%nat; Some (replicate (length argv - 1) first).

Definition csv_hist (hists : list proto_hist) : option HdrHistogram :=
  h ← new_HdrHistogram (inputs_config hists);
  foldl (fun h p => h ← h; record_buckets (p_buckets p) h) (Some h) hists.

(** The exit code and the rows; [read]: the messages of the files. *)
Definition hdrhist2csv (read : string -> option proto_hist) (argv : list string) : option (Z * list PctValue) :=
  inputs ← csv_inputs argv;
  match mapM read inputs with
  | None => Some (1, [])
  | Some hists => h ← csv_hist hists; rows ← ToCdf h; Some (0, rows)
  end.

End Wrapper.

(** ** Counts *)

Lemma count_in_notin l k : k ∉ map fst l -> count_in l k = 0.
Proof.
  induction l as [|[v c] l IH]; [done|]. cbn [map fst count_in]. rewrite not_elem_of_cons. intros [Hne Hn].
  rewrite (proj2 (Z.eqb_neq v k)) by done. by rewrite IH.
Qed.

Lemma sorted_head_notin v l : StronglySorted Z.lt (v :: l) -> v ∉ l.
Proof. intros [_ Hf]%StronglySorted_inv Hv. rewrite List.Forall_forall in Hf. apply list_elem_of_In, Hf in Hv. lia. Qed.

Lemma count_in_elem l v c : StronglySorted Z.lt (map fst l) -> (v, c) ∈ l -> count_in l v = c.
Proof.
  induction l as [|[v' c'] l IH]; intros Hs Hin; [by apply not_elem_of_nil in Hin|]. cbn [map fst] in Hs. cbn [count_in].
  apply elem_of_cons in Hin as [[= <- <-]|Hin].
  - rewrite Z.eqb_refl, count_in_notin by (by apply sorted_head_notin). lia.
  - pose proof (sorted_head_notin _ _ Hs) as Hn. apply StronglySorted_inv in Hs as [Hs _].
    assert (v' <> v) by (intros ->; apply Hn; by apply (list_elem_of_fmap_2 fst _ (v, c))).
    rewrite (proj2 (Z.eqb_neq v' v)) by done. by rewrite IH.
Qed.

Lemma count_in_nonneg l k : Forall (fun p => 0 < snd p) l -> 0 <= count_in l k.
Proof. induction 1 as [|[v c] l Hc _ IH]; cbn in *; [lia|]. destruct (v =? k); lia. Qed.

(** Sorted lists of positive counts are equal when the counts are. *)
Lemma counts_determine l : forall l', StronglySorted Z.lt (map fst l) -> StronglySorted Z.lt (map fst l') ->
  Forall (fun p => 0 < snd p) l -> Forall (fun p => 0 < snd p) l' -> (forall k, count_in l k = count_in l' k) -> l = l'.
Proof.
  assert (Hne : forall v c (l : list (Z * Z)), Forall (fun p => 0 < snd p) ((v, c) :: l) -> 0 < count_in ((v, c) :: l) v).
  { intros v c l0 [Hc Hl]%Forall_cons. cbn in *. rewrite Z.eqb_refl. pose proof (count_in_nonneg l0 v Hl). lia. }
  assert (Hbelow : forall v v' c' (l' : list (Z * Z)), StronglySorted Z.lt (map fst ((v', c') :: l')) -> v < v' ->
    count_in ((v', c') :: l') v = 0).
  { intros v v' c' l' Hs Hlt. apply count_in_notin. cbn [map fst] in *. apply StronglySorted_inv in Hs as [_ Hf].
    rewrite List.Forall_forall in Hf. rewrite not_elem_of_cons. split; [lia|]. intros Hin%list_elem_of_In%Hf. lia. }
  induction l as [|[v c] l IH]; intros [|[v' c'] l'] Hs Hs' Hp Hp' Hc; [done|..].
  - specialize (Hc v'). pose proof (Hne v' c' l' Hp'). change (count_in [] v') with 0 in Hc. lia.
  - specialize (Hc v). pose proof (Hne v c l Hp). change (count_in [] v) with 0 in Hc. lia.
  - assert (v = v') as <-.
    { destruct (Z.lt_trichotomy v v') as [Hlt|[?|Hlt]]; [exfalso|done|exfalso].
      - pose proof (Hne v c l Hp). rewrite Hc, Hbelow in * by done. lia.
      - pose proof (Hne v' c' l' Hp'). rewrite <- Hc, Hbelow in * by done. lia. }
    assert (c = c') as <-.
    { rewrite <- (count_in_elem ((v, c) :: l) v c), <- (count_in_elem ((v, c') :: l') v c'); try done; by left. }
    apply StronglySorted_inv in Hs as [Hs _], Hs' as [Hs' _]. apply Forall_cons in Hp as [_ Hp], Hp' as [_ Hp'].
    f_equal. apply IH; try done. intros k. specialize (Hc k). cbn [count_in] in Hc. lia.
Qed.

(** ** Equivalent histograms *)

Section Laws.
Context `{HdrLaws}.

Lemma hdr_positive h : Forall (fun p => 0 < snd p) (hdr_iter_recorded h).
Proof. apply Forall_forall. intros [v c] Hin. by destruct (hdr_buckets _ _ _ Hin). Qed.

#[export] Instance hdr_equiv : Equiv hdr := fun h h' =>
  config_of h = config_of h' /\ hdr_iter_recorded h = hdr_iter_recorded h'.

#[export] Instance hdr_equivalence : Equivalence (≡@{hdr}).
Proof. split; [done|by intros ?? []|intros ??? [] []; split; congruence]. Qed.

Lemma hdr_equiv_counts h h' : config_of h = config_of h' -> (forall k, count h k = count h' k) -> h ≡ h'.
Proof. intros Hc Hk. split; [done|]. apply counts_determine; auto using hdr_sorted, hdr_positive. Qed.

#[export] Instance count_proper : Proper ((≡) ==> (=) ==> (=)) count.
Proof. intros h h' [_ E] k _ <-. unfold count. by rewrite E. Qed.

(** What is recorded in equivalent histograms leaves them equivalent. *)
Lemma record_proper h h' v c : h ≡ h' -> 0 <= c ->
  (hdr_record_values h v c).1 ≡ (hdr_record_values h' v c).1 /\
  (hdr_record_values h v c).2 = (hdr_record_values h' v c).2.
Proof.
  intros E Hc. pose proof E as [Ec _]. destruct (bucket (config_of h) v) as [b|] eqn:Hb.
  - pose proof (hdr_record h v c b Hb Hc) as R. pose proof (hdr_record h' v c b ltac:(by rewrite <- Ec) Hc) as R'.
    destruct (hdr_record_values h v c) as [x ok], (hdr_record_values h' v c) as [x' ok'].
    destruct R as (-> & Cx & Kx), R' as (-> & Cx' & Kx'). split; [|done].
    apply hdr_equiv_counts; [cbn; congruence|]. intros k. cbn. by rewrite Kx, Kx', E.
  - rewrite !hdr_record_none; [done|by rewrite <- Ec|done].
Qed.

(** Recording what a histogram of the same configuration has adds its counts. *)
Lemma record_all_counts l : forall h d, Forall (fun p => bucket (config_of h) p.1 = Some p.1 /\ 0 < p.2) l ->
  let '(h', d') := record_all l h d in
  d' = d /\ config_of h' = config_of h /\ forall k, count h' k = count h k + count_in l k.
Proof.
  unfold record_all. induction l as [|[v c] l IH]; intros h d Hl; cbn [foldl count_in].
  - repeat split; intros; lia.
  - apply Forall_cons in Hl as [[Hb Hc] Hl]. cbn [fst snd] in *.
    pose proof (hdr_record h v c v Hb ltac:(lia)) as R. destruct (hdr_record_values h v c) as [h1 ok] eqn:E.
    destruct R as (-> & C1 & K1). specialize (IH h1 d). rewrite C1 in IH. specialize (IH Hl).
    destruct (foldl _ _ _) as [h' d']. destruct IH as (-> & C & K). split; [done|]. split; [done|].
    intros k. rewrite K, K1. lia.
Qed.

Lemma recorded_ok h : Forall (fun p => bucket (config_of h) p.1 = Some p.1 /\ 0 < p.2) (hdr_iter_recorded h).
Proof. apply Forall_forall. intros [v c] Hin. by apply hdr_buckets. Qed.

Lemma hdr_add_counts h from : config_of h = config_of from ->
  let '(h', d) := hdr_add h from in
  d = 0 /\ config_of h' = config_of h /\ forall k, count h' k = count h k + count from k.
Proof. intros E. rewrite hdr_add_records. apply record_all_counts. rewrite E. apply recorded_ok. Qed.

(** *** The wrapper *)

(** An object that was not moved from. *)
Definition valid (h : HdrHistogram) : Prop := exists x, h_ h = Some x /\ config_of x = config_ h.

#[export] Instance hist_equiv : Equiv HdrHistogram := fun h h' =>
  config_ h = config_ h' /\ h_ h ≡ h_ h'.

#[export] Instance hist_equivalence : Equivalence (≡@{HdrHistogram}).
Proof. split; [done|by intros ?? []|intros h1 h2 h3 [E1 E2] [E3 E4]; split; [congruence|by etrans]]. Qed.

(** Messages and percentiles do not tell equivalent histograms apart. *)
#[export] Instance ToProto_proper : Proper ((≡) ==> (=)) ToProto.
Proof.
  intros h h' [Ec Ex]. unfold ToProto. destruct (h_ h), (h_ h'); inversion Ex as [?? [_ E]|]; subst; cbn; [|done].
  by rewrite Ec, E.
Qed.

#[export] Instance ValueAtPercentile_proper : Proper ((=) ==> (≡) ==> (=)) ValueAtPercentile.
Proof.
  intros p _ <- h h' [Ec Ex]. unfold ValueAtPercentile. destruct (h_ h), (h_ h'); inversion Ex as [?? [E1 E2]|]; subst; cbn; [|done].
  f_equal. by apply hdr_percentile_counts.
Qed.

Lemma new_valid c h : new_HdrHistogram c = Some h -> valid h /\ config_ h = c /\ ToProto h = Some (mkProto c []).
Proof.
  unfold new_HdrHistogram. intros (x & Hx & [= <-])%bind_Some. apply hdr_init_empty in Hx as [Hc Hr].
  split; [exists x; split; [done|]; rewrite Hc; by destruct c|]. split; [done|]. cbn. by rewrite Hr.
Qed.

Lemma record_buckets_counts l : forall h x, h_ h = Some x -> config_of x = config_ h ->
  Forall (fun p => bucket (config_ h) p.1 = Some p.1 /\ 0 < p.2) l ->
  exists h' x', record_buckets l h = Some h' /\ h_ h' = Some x' /\ config_ h' = config_ h /\ config_of x' = config_ h /\
    forall k, count x' k = count x k + count_in l k.
Proof.
  induction l as [|[v c] l IH]; intros h x Hx Hc Hl; cbn [record_buckets count_in].
  - exists h, x. repeat split; try done. intros; lia.
  - apply Forall_cons in Hl as [[Hb Hp] Hl]. cbn [fst snd] in *. unfold RecordValues. rewrite Hx. cbn [mbind option_bind].
    pose proof (hdr_record x v c v ltac:(by rewrite Hc) ltac:(lia)) as R. destruct (hdr_record_values x v c) as [x1 ok].
    destruct R as (-> & C1 & K1). cbn [mbind option_bind].
    destruct (IH (mkHdrHistogram (config_ h) (Some x1)) x1) as (h' & x' & -> & Hh' & Hc' & Hcx' & K); [done|by rewrite C1|done|].
    exists h', x'. repeat split; try done. intros k. rewrite K, K1. lia.
Qed.

(** A histogram that is sent as a message and read back is equivalent to
    the one that was sent: no value is dropped or moves to another bucket. *)
Theorem FromProto_ToProto h p h' : valid h -> ToProto h = Some p -> FromProto p = Some h' -> h' ≡ h.
Proof.
  intros (x & Hx & Hc). unfold ToProto, FromProto. rewrite Hx. cbn [mbind option_bind]. intros [= <-]. cbn [p_config p_buckets].
  intros (h0 & Hn & Hr)%bind_Some. apply new_valid in Hn as ((x0 & Hx0 & Hc0) & E0 & Hp0).
  destruct (record_buckets_counts (hdr_iter_recorded x) h0 x0 Hx0 Hc0) as (h1 & x1 & Hr1 & Hx1 & E1 & C1 & K).
  { rewrite E0, <- Hc. apply recorded_ok. }
  rewrite Hr in Hr1. injection Hr1 as <-. split; [congruence|]. rewrite Hx, Hx1. constructor.
  apply hdr_equiv_counts; [congruence|]. intros k. rewrite K. unfold ToProto in Hp0. rewrite Hx0 in Hp0. cbn in Hp0.
  injection Hp0 as _ Hp0. unfold count at 1. by rewrite Hp0.
Qed.

Lemma Add_counts h from h' d : valid h -> valid from -> config_ h = config_ from -> Add h from = Some (h', d) ->
  d = 0 /\ valid h' /\ config_ h' = config_ h /\
  forall x y x', h_ h = Some x -> h_ from = Some y -> h_ h' = Some x' -> forall k, count x' k = count x k + count y k.
Proof.
  intros (x & Hx & Cx) (y & Hy & Cy) E. unfold Add. rewrite Hx, Hy. cbn [mbind option_bind].
  pose proof (hdr_add_counts x y ltac:(congruence)) as R. destruct (hdr_add x y) as [x1 d1]. destruct R as (-> & C1 & K).
  intros [= <- <-]. split; [done|]. split; [exists x1; split; [done|cbn; congruence]|]. split; [done|].
  by intros ??? [= <-] [= <-] [= <-].
Qed.

(** A copy is equivalent to the original. *)
Lemma copy_same h h' : valid h -> copy_HdrHistogram h = Some h' -> valid h' /\ h' ≡ h.
Proof.
  intros Hv. unfold copy_HdrHistogram. intros (h0 & Hn & Hr)%bind_Some. apply new_valid in Hn as (V0 & E0 & P0).
  destruct (Add h0 h) as [[h1 d]|] eqn:Ha; [|done]. cbn [mbind option_bind] in Hr. injection Hr as ->.
  pose proof (Add_counts h0 h h' d V0 Hv E0 Ha) as (_ & V1 & E1 & K). split; [done|].
  destruct V0 as (x0 & Hx0 & C0), Hv as (x & Hx & C), V1 as (x1 & Hx1 & C1). split; [congruence|].
  rewrite Hx, Hx1. constructor. apply hdr_equiv_counts; [congruence|]. intros k. rewrite (K x0 x x1) by done.
  unfold ToProto in P0. rewrite Hx0 in P0. cbn in P0. injection P0 as _ P0. unfold count at 1. by rewrite P0.
Qed.

(** The object is emptied first. *)
Lemma assign_itself_empties h h' : assign_itself h = Some h' -> ToProto h' = Some (mkProto (config_ h) []).
Proof.
  unfold assign_itself. intros (h0 & Hn & Hr)%bind_Some. apply new_valid in Hn as ((x0 & Hx0 & C0) & E0 & P0).
  unfold ToProto in P0. rewrite Hx0 in P0. cbn in P0. injection P0 as _ P0.
  unfold Add in Hr. rewrite Hx0 in Hr. cbn [mbind option_bind] in Hr.
  rewrite hdr_add_records, P0 in Hr. cbn in Hr. injection Hr as <-. cbn. by rewrite P0, E0.
Qed.

Lemma Reset_empty h h' : valid h -> Reset h = Some h' -> valid h' /\ ToProto h' = Some (mkProto (config_ h) []).
Proof.
  intros (x & Hx & C). unfold Reset. rewrite Hx. cbn [mbind option_bind]. intros [= <-].
  destruct (hdr_reset_empty x) as [Ec Er]. split; [exists (hdr_reset x); split; [done|cbn; congruence]|]. cbn. by rewrite Er.
Qed.

(** *** The distribution *)

Lemma cdf_from_samples total l : forall c, map num_samples (cdf_from total c l) = map snd l /\ map value (cdf_from total c l) = map (fun p => dofZ p.1) l.
Proof. induction l as [|[v c] l IH]; intros k; [done|]. cbn [cdf_from map num_samples value fst snd]. destruct (IH (k + c)) as [-> ->]. done. Qed.

(** The command reads its first argument as often as it has arguments. *)
Lemma csv_reads_first_only a b : csv_inputs ["hdrhist2csv"; a; b]%string = Some [a; a].
Proof. done. Qed.

End Laws.

(** ** A library *)

(** Buckets as wide as the smallest value; what was recorded is kept and
    counted when it is asked for. *)
Record simple_hdr := mkSimple { s_config : hdr_config; s_log : list (Z * Z) }.

Definition simple_bucket (c : hdr_config) (v : Z) : option Z :=
  let low := lowest_discernible_value c in
  if (0 <=? v) && (v <=? highest_trackable_value c) && (0 <? low) then Some (v / low * low) else None.

Fixpoint insert_count (v c : Z) (l : list (Z * Z)) : list (Z * Z) :=
  match l with
  | [] => [(v, c)]
  | (v', c') :: l' => if v <? v' then (v, c) :: l else if v =? v' then (v', c' + c) :: l' else (v', c') :: insert_count v c l'
  end.

Definition count_up (c : hdr_config) (log : list (Z * Z)) : list (Z * Z) :=
  foldr (fun '(v, n) l => match simple_bucket c v with Some b => if 0 <? n then insert_count b n l else l | None => l end) [] log.

Fixpoint percentile_of (want : double) (cum : Z) (l : list (Z * Z)) : Z :=
  match l with
  | [] => 0
  | [(v, _)] => v
  | (v, c) :: l => if dle want (dofZ (100 * (cum + c))) then v else percentile_of want (cum + c) l
  end.

Definition simple_record (h : simple_hdr) (v n : Z) : simple_hdr * bool :=
  match simple_bucket (s_config h) v with
  | Some _ => (mkSimple (s_config h) ((v, n) :: s_log h), true)
  | None => (h, false)
  end.

Definition simple_recorded (h : simple_hdr) : list (Z * Z) := count_up (s_config h) (s_log h).

#[export] Instance simple_lib : HdrLib := {
  hdr := simple_hdr;
  hdr_init low high sig := if 0 <? low then Some (mkSimple (mkConfig low high sig) []) else None;
  hdr_record_values := simple_record;
  hdr_add h from := foldl (fun '(h, dropped) '(v, c) => let '(h, ok) := simple_record h v c in (h, if ok then dropped else dropped + c))
    (h, 0) (simple_recorded from);
  hdr_reset h := mkSimple (s_config h) [];
  hdr_iter_recorded := simple_recorded;
  hdr_value_at_percentile h p :=
    let l := simple_recorded h in percentile_of (dmul p (dofZ (zsum (map snd l)))) 0 l }.

Lemma insert_count_keys v c l : forall k, k ∈ map fst (insert_count v c l) <-> k = v \/ k ∈ map fst l.
Proof.
  induction l as [|[v' c'] l IH]; intros k; cbn [insert_count map fst]; [set_solver|].
  destruct (Z.ltb_spec v v'); [set_solver|]. destruct (Z.eqb_spec v v') as [->|]; cbn [map fst]; [set_solver|].
  rewrite !elem_of_cons, IH. tauto.
Qed.

Lemma insert_count_sorted v c l : StronglySorted Z.lt (map fst l) -> StronglySorted Z.lt (map fst (insert_count v c l)).
Proof.
  induction l as [|[v' c'] l IH]; cbn [insert_count map fst]; intros Hs; [repeat constructor|].
  pose proof Hs as [Hs' Hf]%StronglySorted_inv.
  destruct (Z.ltb_spec v v') as [Hlt|Hge].
  - constructor; [done|]. constructor; [done|]. eapply List.Forall_impl; [|exact Hf]. cbn. lia.
  - destruct (Z.eqb_spec v v') as [->|Hne]; cbn [map fst]; [done|]. constructor; [by apply IH|].
    rewrite List.Forall_forall in *. intros k [->|Hk]%list_elem_of_In%insert_count_keys; [lia|].
    by apply Hf, list_elem_of_In.
Qed.

Lemma insert_count_count v c l : forall k, count_in (insert_count v c l) k = count_in l k + (if v =? k then c else 0).
Proof.
  induction l as [|[v' c'] l IH]; intros k; cbn [insert_count count_in]; [lia|].
  destruct (v <? v'); [cbn [count_in]; lia|]. destruct (Z.eqb_spec v v') as [->|]; cbn [count_in].
  - destruct (v' =? k); lia.
  - rewrite IH. lia.
Qed.

Lemma insert_count_all (P : Z * Z -> Prop) v c l : P (v, c) -> (forall c', P (v, c') -> P (v, c' + c)) ->
  Forall P l -> Forall P (insert_count v c l).
Proof.
  intros Hv Hadd. induction 1 as [|[v' c'] l Hp Hl IH]; cbn [insert_count]; [by repeat constructor|].
  destruct (v <? v'); [by repeat constructor|]. destruct (Z.eqb_spec v v') as [->|]; constructor; auto.
Qed.

Lemma simple_bucket_idem c v b : simple_bucket c v = Some b -> simple_bucket c b = Some b.
Proof.
  unfold simple_bucket. destruct (Z.leb_spec 0 v), (Z.leb_spec v (highest_trackable_value c)), (Z.ltb_spec 0 (lowest_discernible_value c));
    try done. cbn [andb]. intros [= <-]. set (low := lowest_discernible_value c) in *.
  pose proof (Z.div_mod v low ltac:(lia)). pose proof (Z.mod_pos_bound v low ltac:(lia)). pose proof (Z.div_pos v low ltac:(lia) ltac:(lia)).
  rewrite Z.div_mul by lia. rewrite !(proj2 (Z.leb_le _ _)) by nia. done.
Qed.

Lemma count_up_ok c log : StronglySorted Z.lt (map fst (count_up c log)) /\
  Forall (fun p => simple_bucket c p.1 = Some p.1 /\ 0 < p.2) (count_up c log).
Proof.
  induction log as [|[v n] log [IHs IHb]]; [split; constructor|]. cbn [count_up foldr]. fold (count_up c log).
  destruct (simple_bucket c v) as [b|] eqn:Hb; [|done]. destruct (Z.ltb_spec 0 n); [|done].
  split; [by apply insert_count_sorted|]. apply insert_count_all; [|intros c' [? ?]; cbn in *; split; [done|lia]|done].
  split; [by apply (simple_bucket_idem c v)|done].
Qed.

#[export, refine] Instance simple_laws : HdrLaws := {
  config_of := s_config : hdr -> hdr_config;
  bucket := simple_bucket }.
Proof.
  - intros low high sig h. cbn. destruct (0 <? low); [|done]. by intros [= <-].
  - intros h. apply count_up_ok.
  - intros h v c Hin. destruct (count_up_ok (s_config h) (s_log h)) as [_ Hf]. rewrite Forall_forall in Hf. by apply (Hf (v, c)).
  - intros h v c b Hb Hc. cbn. unfold simple_record. rewrite Hb. split; [done|]. split; [done|]. intros k.
    unfold count. cbn. unfold simple_recorded. cbn [s_config s_log count_up foldr]. rewrite Hb.
    destruct (Z.ltb_spec 0 c); [apply insert_count_count|]. fold (count_up (s_config h) (s_log h)).
    replace c with 0 by lia. destruct (b =? k); lia.
  - intros h v c Hb. cbn. unfold simple_record. by rewrite Hb.
  - done.
  - done.
  - intros h h' p _. cbn. intros ->. done.
Defined.

Definition example_hist : HdrHistogram := mkHdrHistogram NetworkConfig
  (Some (mkSimple NetworkConfig [(250, 1); (99999, 2); (230, 1); (20000000000, 7)])).

Definition example_message : proto_hist := mkProto NetworkConfig [(200, 2); (99900, 2)].
Definition example_read : HdrHistogram := mkHdrHistogram NetworkConfig (Some (mkSimple NetworkConfig [(99900, 2); (200, 2)])).

Lemma FromProto_ToProto_witness : ToProto example_hist = Some example_message /\
  FromProto example_message = Some example_read /\ example_read ≡ example_hist.
Proof.
  assert (E1 : ToProto example_hist = Some example_message) by reflexivity.
  assert (E2 : FromProto example_message = Some example_read) by reflexivity.
  split; [exact E1|]. split; [exact E2|]. apply (FromProto_ToProto example_hist example_message example_read); [|exact E1|exact E2].
  exists (mkSimple NetworkConfig [(250, 1); (99999, 2); (230, 1); (20000000000, 7)]). split; reflexivity.
Defined.
