(* ===== verification/Recorder.v ===== *)
(** * Recorder: the statistics of a run, step by step

    src/heyp/stats/recorder.{h,cc}.  The record of a step is made at once and
    written by the worker of the recorder's executor ([Threads]); the next
    step waits for it.  [run] lets the worker write at any time, [spec_run]
    writes each record when it is made.  The formats of times and the
    numbers of bits before the first step, which the constructor does not
    set, are parameters. *)

From S2P Require Import Prelude Doubles Clock Histogram.

(** ** Sorted maps *)

(** [absl::btree_map] with strings as keys. *)
Notation btree A := (list (string * A)).

Fixpoint btree_find {A} (k : string) (m : btree A) : option A :=
  match m with [] => None | (k', v) :: m => if String.eqb k k' then Some v else btree_find k m end.

Fixpoint btree_set {A} (k : string) (v : A) (m : btree A) : btree A :=
  match m with
  | [] => [(k, v)]
  | (k', v') :: m' =>
      if String.eqb k k' then (k, v) :: m' else if String.ltb k k' then (k, v) :: m else (k', v') :: btree_set k v m'
  end.

Lemma btree_find_set {A} k (v : A) m k' : btree_find k' (btree_set k v m) = if String.eqb k' k then Some v else btree_find k' m.
Proof.
  induction m as [|[x w] m IH]; [done|]. cbn [btree_set]. destruct (String.eqb_spec k x) as [->|Hne].
  - cbn [btree_find]. by destruct (String.eqb k' x).
  - destruct (String.ltb k x); cbn [btree_find]; [done|]. destruct (String.eqb_spec k' x) as [->|]; [|done].
    by destruct (String.eqb_spec x k) as [->|].
Qed.

Section Recorder.
Context `{Clock} `{HdrLib}.
Variable FormatTime : Time -> string.
Variable ToInt64Nanoseconds : Duration -> Z.

Record LatencyStats := mkLatencyStats { kind : string; hist_ns : proto_hist; p50_ns : Z; p90_ns : Z; p95_ns : Z; p99_ns : Z }.

Record StatsRecord := mkStatsRecord {
  label : string;
  timestamp : string;
  dur_sec : double;
  cum_num_bits : Z;
  cum_num_rpcs : Z;
  mean_bits_per_sec : double;
  mean_rpcs_per_sec : double;
  latency : list LatencyStats }.

(** ** The numbers of the recorder *)

Record counters := mkCounters {
  started_ : bool;
  prev_time_ : Time;
  prev_cum_num_bits_ : Z;
  prev_cum_num_rpcs_ : Z;
  cum_num_bits_ : Z;
  cum_num_rpcs_ : Z;
  latency_hists_ : btree HdrHistogram }.

Record junk := mkJunk { j_prev_bits : Z; j_prev_rpcs : Z; j_bits : Z; j_rpcs : Z }.

(** The numbers are what the memory held. *)
Definition new_counters (j : junk) : counters :=
  mkCounters false UnixEpoch (j_prev_bits j) (j_prev_rpcs j) (j_bits j) (j_rpcs j) [].

Definition StartRecording (now : Time) (c : counters) : counters :=
  mkCounters true now (prev_cum_num_bits_ c) (prev_cum_num_rpcs_ c) (cum_num_bits_ c) (cum_num_rpcs_ c) (latency_hists_ c).

Definition RecordBufsize (bufsize_bytes : Z) (c : counters) : counters :=
  mkCounters (started_ c) (prev_time_ c) (prev_cum_num_bits_ c) (prev_cum_num_rpcs_ c)
    (i64 (cum_num_bits_ c + i32 (bufsize_bytes * 8))) (i64 (cum_num_rpcs_ c + 1)) (latency_hists_ c).

Definition set_hists (m : btree HdrHistogram) (c : counters) : counters :=
  mkCounters (started_ c) (prev_time_ c) (prev_cum_num_bits_ c) (prev_cum_num_rpcs_ c) (cum_num_bits_ c) (cum_num_rpcs_ c) m.

(** [None]: a histogram could not be made. *)
Definition RecordLatency (k : string) (dur : Duration) (c : counters) : option counters :=
  if started_ c then
    h ← (match btree_find k (latency_hists_ c) with Some h => Some h | None => new_HdrHistogram NetworkConfig end);
    '(h, _) ← RecordValue (ToInt64Nanoseconds dur) h;
    Some (set_hists (btree_set k h (latency_hists_ c)) c)
  else Some c.

Fixpoint RecordLatencies (pairs : list (string * Duration)) (c : counters) : option counters :=
  match pairs with [] => Some c | (k, dur) :: pairs => c ← RecordLatency k dur c; RecordLatencies pairs c end.

Definition RecordRpc (bufsize_bytes : Z) (pairs : list (string * Duration)) (c : counters) : option counters :=
  RecordLatencies pairs (RecordBufsize bufsize_bytes c).

(** The loop copies each histogram. *)
Definition latency_stats (p : string * HdrHistogram) : option LatencyStats :=
  h ← copy_HdrHistogram (snd p);
  hist ← ToProto h; p50 ← ValueAtPercentile (dofZ 50) h; p90 ← ValueAtPercentile (dofZ 90) h;
  p95 ← ValueAtPercentile (dofZ 95) h; p99 ← ValueAtPercentile (dofZ 99) h;
  Some (mkLatencyStats (fst p) hist p50 p90 p95 p99).

Definition ToProtoLatencyStats (m : btree HdrHistogram) : option (list LatencyStats) := mapM latency_stats m.

(** The loop at the end of [DoneStep] resets copies of the histograms. *)
Definition reset_copies (m : btree HdrHistogram) : option (list HdrHistogram) :=
  mapM (fun p => h ← copy_HdrHistogram (snd p); Reset h) m.

(** The record of a step and the numbers of the next; [None] when the
    recorder was not started. *)
Definition step_record (lbl : string) (now : Time) (c : counters) : option (counters * StatsRecord) :=
  if started_ c then
    let elapsed_sec := ToDoubleSeconds (time_diff now (prev_time_ c)) in
    let mean_bps := ddiv (dofZ (i64 (cum_num_bits_ c - prev_cum_num_bits_ c))) elapsed_sec in
    let mean_rpcps := double_to_i64 (ddiv (dofZ (i64 (cum_num_rpcs_ c - prev_cum_num_rpcs_ c))) elapsed_sec) in
    latency_data ← ToProtoLatencyStats (latency_hists_ c);
    _ ← reset_copies (latency_hists_ c);
    Some (mkCounters true now (cum_num_bits_ c) (cum_num_rpcs_ c) (cum_num_bits_ c) (cum_num_rpcs_ c) (latency_hists_ c),
          mkStatsRecord lbl (FormatTime now) elapsed_sec (cum_num_bits_ c) (cum_num_rpcs_ c) mean_bps (dofZ mean_rpcps) latency_data)
  else None.

(** ** Writing in the background *)

(** The task group of the last step: its task is still to run, or its status. *)
Inductive task := Queued (rec : StatsRecord) | Finished (ok : bool).

Record StatsRecorder := mkStatsRecorder {
  stats : counters;
  prev_tg_ : option task;
  write_status_ : bool }.

Definition new_StatsRecorder (j : junk) : StatsRecorder := mkStatsRecorder (new_counters j) None true.

Definition set_stats (c : counters) (r : StatsRecorder) : StatsRecorder := mkStatsRecorder c (prev_tg_ r) (write_status_ r).

(** [WaitAll]; [None]: it has to wait. *)
Definition wait_prev (r : StatsRecorder) : option StatsRecorder :=
  match prev_tg_ r with
  | None => Some r
  | Some (Queued _) => None
  | Some (Finished ok) => Some (mkStatsRecorder (stats r) (prev_tg_ r) (write_status_ r && ok))
  end.

Definition DoneStep (lbl : string) (now : Time) (r : StatsRecorder) : option StatsRecorder :=
  '(c, rec) ← step_record lbl now (stats r);
  r ← wait_prev r;
  Some (mkStatsRecorder c (Some (Queued rec)) (write_status_ r)).

(** [close_ok]: what closing the file answers. *)
Definition StatsRecorder_Close (close_ok : bool) (r : StatsRecorder) : option (StatsRecorder * bool) :=
  r ← wait_prev r;
  Some (mkStatsRecorder (stats r) None (write_status_ r), write_status_ r && close_ok).

(** The worker; [write_ok]: what writing the record answers. *)
Definition work (write_ok : bool) (r : StatsRecorder) (log : list (StatsRecord * bool))
    : option (StatsRecorder * list (StatsRecord * bool)) :=
  match prev_tg_ r with
  | Some (Queued rec) => Some (mkStatsRecorder (stats r) (Some (Finished write_ok)) (write_status_ r), log ++ [(rec, write_ok)])
  | _ => None
  end.

Inductive op :=
  | OStart (now : Time)
  | ORpc (bufsize_bytes : Z) (pairs : list (string * Duration))
  | OStep (lbl : string) (now : Time)
  | OClose (close_ok : bool)
  | OWork (write_ok : bool).

(** The recorder, what was written, and what [Close] returned. *)
Record world := mkWorld { rec : StatsRecorder; log : list (StatsRecord * bool); closed : list bool }.

Definition do_op (o : op) (w : world) : option world :=
  match o with
  | OStart now => Some (mkWorld (set_stats (StartRecording now (stats (rec w))) (rec w)) (log w) (closed w))
  | ORpc n pairs => c ← RecordRpc n pairs (stats (rec w)); Some (mkWorld (set_stats c (rec w)) (log w) (closed w))
  | OStep lbl now => r ← DoneStep lbl now (rec w); Some (mkWorld r (log w) (closed w))
  | OClose ok => '(r, st) ← StatsRecorder_Close ok (rec w); Some (mkWorld r (log w) (closed w ++ [st]))
  | OWork ok => '(r, l) ← work ok (rec w) (log w); Some (mkWorld r l (closed w))
  end.

Fixpoint run (ops : list op) (w : world) : option world :=
  match ops with [] => Some w | o :: ops => w ← do_op o w; run ops w end.

(** *** The same, one thing after the other *)

Fixpoint spec_run (ops : list op) (c : counters) (made : list StatsRecord) : option (counters * list StatsRecord) :=
  match ops with
  | [] => Some (c, made)
  | OStart now :: ops => spec_run ops (StartRecording now c) made
  | ORpc n pairs :: ops => c ← RecordRpc n pairs c; spec_run ops c made
  | OStep lbl now :: ops => '(c, r) ← step_record lbl now c; spec_run ops c (made ++ [r])
  | (OClose _ | OWork _) :: ops => spec_run ops c made
  end.

Definition pending (r : StatsRecorder) : list StatsRecord := match prev_tg_ r with Some (Queued x) => [x] | _ => [] end.

(** The statuses that have not been collected yet. *)
Definition statuses_ok (w : world) : bool :=
  write_status_ (rec w) && (match prev_tg_ (rec w) with Some (Finished ok) => ok | _ => true end).

Record refines (c : counters) (made : list StatsRecord) (w : world) : Prop := {
  rf_stats : stats (rec w) = c;
  rf_log : map fst (log w) ++ pending (rec w) = made;
  rf_status : statuses_ok w = forallb snd (log w) }.

Lemma wait_prev_Some r r' : wait_prev r = Some r' ->
  stats r' = stats r /\ pending r = [] /\ prev_tg_ r' = prev_tg_ r /\
  write_status_ r' = write_status_ r && (match prev_tg_ r with Some (Finished ok) => ok | _ => true end).
Proof.
  unfold wait_prev, pending. destruct (prev_tg_ r) as [[x|ok]|] eqn:E; [done|..]; intros [= <-]; cbn; rewrite ?E, ?andb_true_r; done.
Qed.

Lemma do_op_refines o ops c made w w' : refines c made w -> do_op o w = Some w' ->
  exists c' made', refines c' made' w' /\ spec_run (o :: ops) c made = spec_run ops c' made'.
Proof.
  intros [Hc Hl Hs] Hdo. destruct o as [now|n pairs|lbl now|ok|ok]; cbn [do_op] in Hdo; cbn [spec_run].
  - injection Hdo as <-. eexists _, _. split; [|done]. by split; [cbn; by rewrite Hc| |].
  - rewrite Hc in Hdo. destruct (RecordRpc n pairs c) as [c'|]; [|done]. injection Hdo as <-. exists c', made. by split.
  - apply bind_Some in Hdo as (r & Hr & [= <-]). unfold DoneStep in Hr. rewrite Hc in Hr.
    destruct (step_record lbl now c) as [[c' x]|]; [|done]. cbn [mbind option_bind] in *.
    destruct (wait_prev (rec w)) as [r'|] eqn:Hw; [|done]. injection Hr as <-. apply wait_prev_Some in Hw as (_ & Hp & _ & Hst).
    exists c', (made ++ [x]). split; [|done]. split; cbn; [done|rewrite <- Hl, Hp; by rewrite app_nil_r|].
    rewrite <- Hs. unfold statuses_ok. cbn. by rewrite andb_true_r.
  - apply bind_Some in Hdo as ([r st] & Hr & [= <-]). unfold StatsRecorder_Close in Hr.
    destruct (wait_prev (rec w)) as [r'|] eqn:Hw; [|done]. injection Hr as <- <-. apply wait_prev_Some in Hw as (Hst & Hp & _ & Hws).
    exists c, made. split; [|done]. split; cbn; [congruence|rewrite <- Hl, Hp; done|].
    rewrite <- Hs. unfold statuses_ok. cbn. by rewrite andb_true_r.
  - apply bind_Some in Hdo as ([r l] & Hr & [= <-]). unfold work in Hr.
    destruct (prev_tg_ (rec w)) as [[x|]|] eqn:E; try done. injection Hr as <- <-. exists c, made. split; [|done].
    unfold pending, statuses_ok in *. rewrite E in *. split; cbn; [done|rewrite map_app; rewrite <- Hl; by rewrite app_nil_r|].
    rewrite forallb_app, <- Hs. cbn. by rewrite !andb_true_r.
Qed.

Lemma run_refines ops : forall c made w w', refines c made w -> run ops w = Some w' ->
  exists c' made', refines c' made' w' /\ spec_run ops c made = Some (c', made').
Proof.
  induction ops as [|o ops IH]; intros c made w w' Hr; cbn [run]; [intros [= <-]; by eexists _, _|].
  intros (w1 & Hdo & Hrun)%bind_Some. destruct (do_op_refines o ops _ _ _ _ Hr Hdo) as (c1 & made1 & Hr1 & ->). by eapply IH.
Qed.

Definition new_world (j : junk) : world := mkWorld (new_StatsRecorder j) [] [].

(** C18: whenever the worker writes, the file holds the records of the steps in
    their order, all but the last perhaps, and with the same contents as if
    each were written when its step ends; and [Close] waits for the last,
    and reports a failure exactly when one of them, or closing, failed. *)
Theorem StatsRecorder_logs_steps j ops close_ok w w' : run ops (new_world j) = Some w -> do_op (OClose close_ok) w = Some w' ->
  exists c made, spec_run ops (new_counters j) [] = Some (c, made) /\ map fst (log w') = made /\
    map fst (log w) ++ pending (rec w) = made /\
    last (closed w') = Some (forallb snd (log w') && close_ok).
Proof.
  intros Hrun Hcl. destruct (run_refines ops (new_counters j) [] (new_world j) w) as (c & made & Hr & Hs); [by split|done|].
  exists c, made. split; [done|]. destruct Hr as [_ Hl Hst]. cbn [do_op] in Hcl.
  apply bind_Some in Hcl as ([r st] & Hcl & [= <-]). unfold StatsRecorder_Close in Hcl.
  destruct (wait_prev (rec w)) as [r'|] eqn:Hw; [|done]. injection Hcl as <- <-. apply wait_prev_Some in Hw as (_ & Hp & _ & Hws).
  cbn. rewrite Hp, app_nil_r in Hl. split; [done|]. split; [by rewrite Hp, app_nil_r|].
  rewrite last_snoc, Hws. unfold statuses_ok in Hst. by rewrite Hst.
Qed.

(** *** Rates *)

Fixpoint record_rpcs (rpcs : list (Z * list (string * Duration))) (c : counters) : option counters :=
  match rpcs with [] => Some c | (n, pairs) :: rpcs => c ← RecordRpc n pairs c; record_rpcs rpcs c end.

Lemma RecordLatencies_numbers pairs : forall c c', RecordLatencies pairs c = Some c' ->
  started_ c' = started_ c /\ prev_time_ c' = prev_time_ c /\ prev_cum_num_bits_ c' = prev_cum_num_bits_ c /\
  prev_cum_num_rpcs_ c' = prev_cum_num_rpcs_ c /\ cum_num_bits_ c' = cum_num_bits_ c /\ cum_num_rpcs_ c' = cum_num_rpcs_ c.
Proof.
  induction pairs as [|[k d] pairs IH]; intros c c'; cbn [RecordLatencies]; [by intros [= <-]|].
  intros (c1 & H1 & Hr)%bind_Some. apply IH in Hr as (-> & -> & -> & -> & -> & ->). unfold RecordLatency in H1.
  destruct (started_ c) eqn:E; [|by injection H1 as <-]. apply bind_Some in H1 as (h & _ & H1).
  apply bind_Some in H1 as ([h' ok] & _ & [= <-]). done.
Qed.

Lemma record_rpcs_numbers rpcs : forall c c', record_rpcs rpcs c = Some c' ->
  started_ c' = started_ c /\ prev_time_ c' = prev_time_ c /\ prev_cum_num_bits_ c' = prev_cum_num_bits_ c /\
  prev_cum_num_rpcs_ c' = prev_cum_num_rpcs_ c /\
  i64 (cum_num_bits_ c') = i64 (cum_num_bits_ c + zsum (map (fun r => i32 (fst r * 8)) rpcs)) /\
  i64 (cum_num_rpcs_ c') = i64 (cum_num_rpcs_ c + Z.of_nat (length rpcs)).
Proof.
  induction rpcs as [|[n pairs] rpcs IH]; intros c c'; cbn [record_rpcs].
  - intros [= <-]. cbn. by rewrite !Z.add_0_r.
  - intros (c1 & H1 & Hr)%bind_Some. apply IH in Hr as (-> & -> & -> & -> & -> & ->).
    apply RecordLatencies_numbers in H1 as (-> & -> & -> & -> & -> & ->). cbn [RecordBufsize started_ prev_time_
      prev_cum_num_bits_ prev_cum_num_rpcs_ cum_num_bits_ cum_num_rpcs_ map fst length]. rewrite zsum_cons, !i64_add_l.
    split_and!; try done; f_equal; lia.
Qed.

(** The rates of a step are those of the requests since the step before,
    and its totals those of all requests. *)
Theorem DoneStep_rates lbl0 now0 c0 c1 r0 rpcs c2 lbl now c3 r :
  step_record lbl0 now0 c0 = Some (c1, r0) -> record_rpcs rpcs c1 = Some c2 -> step_record lbl now c2 = Some (c3, r) ->
  let bits := zsum (map (fun q => i32 (fst q * 8)) rpcs) in
  let elapsed := ToDoubleSeconds (time_diff now now0) in
  dur_sec r = elapsed /\
  mean_bits_per_sec r = ddiv (dofZ (i64 bits)) elapsed /\
  mean_rpcs_per_sec r = dofZ (double_to_i64 (ddiv (dofZ (i64 (Z.of_nat (length rpcs)))) elapsed)) /\
  i64 (cum_num_bits r) = i64 (cum_num_bits r0 + bits) /\ i64 (cum_num_rpcs r) = i64 (cum_num_rpcs r0 + Z.of_nat (length rpcs)).
Proof.
  unfold step_record. destruct (started_ c0); [|done]. intros (l0 & _ & H1)%bind_Some. apply bind_Some in H1 as (x0 & _ & [= <- <-]).
  intros Hr%record_rpcs_numbers. cbn [started_ prev_time_ prev_cum_num_bits_ prev_cum_num_rpcs_ cum_num_bits_ cum_num_rpcs_] in Hr.
  destruct Hr as (-> & -> & -> & -> & Hb & Hn). intros (l & _ & H2)%bind_Some. apply bind_Some in H2 as (x & _ & [= _ <-]).
  assert (Hd : forall a b d, i64 a = i64 (b + d) -> i64 (a - b) = i64 d).
  { intros a b d E. replace (a - b) with (a + - b) by lia. rewrite <- i64_add_l, E, i64_add_l. f_equal. lia. }
  cbn. rewrite (Hd _ _ _ Hb), (Hd _ _ _ Hn). done.
Qed.

(** *** Latencies *)

(** The histograms are not reset, so the latencies of a step are those of all
    steps so far. *)
Lemma latencies_are_not_reset lbl now c c' r : step_record lbl now c = Some (c', r) -> latency_hists_ c' = latency_hists_ c.
Proof.
  unfold step_record. destruct (started_ c); [|done]. intros (l & _ & H1)%bind_Some. by apply bind_Some in H1 as (x & _ & [= <- _]).
Qed.

(** The first step's rate begins at a number that was never set. *)
Lemma first_rate_is_arbitrary j now0 lbl now c r : step_record lbl now (StartRecording now0 (new_counters j)) = Some (c, r) ->
  mean_bits_per_sec r = ddiv (dofZ (i64 (j_bits j - j_prev_bits j))) (ToDoubleSeconds (time_diff now now0)).
Proof. cbn. by intros [= _ <-]. Qed.

End Recorder.

(** ** Examples *)

Section Example.
#[local] Existing Instance ZClock.
#[local] Open Scope string_scope.
#[local] Open Scope list_scope.
#[local] Open Scope Z_scope.

Definition ex_FormatTime (t : Time) : string := "t".
Definition ex_ns (d : Duration) : Z := d.
Definition ex_junk : junk := mkJunk 5 6 7 8.

Definition ex_ops : list op :=
  [OStart (ZAt 0); ORpc 1000 [("net", 2000); ("full", 2500)]; OStep "step=1" (ZAt 1000000000); ORpc 50 [("full", 700)]; OWork true;
   OStep "step=2" (ZAt 3000000000); OWork false].

Definition ex_labels (p : option (world * world)) : option (list string) := option_map (fun p => map label (map fst (log p.2))) p.

Lemma StatsRecorder_logs_steps_witness : exists w w',
  run ex_FormatTime ex_ns ex_ops (new_world ex_junk) = Some w /\ do_op ex_FormatTime ex_ns (OClose true) w = Some w' /\
  (exists c made, spec_run ex_FormatTime ex_ns ex_ops (new_counters ex_junk) [] = Some (c, made) /\
     map fst (log w') = made /\ map fst (log w) ++ pending (rec w) = made /\
     last (closed w') = Some (forallb snd (log w') && true)) /\
  map label (map fst (log w')) = ["step=1"; "step=2"].
Proof.
  assert (E : ex_labels (w ← run ex_FormatTime ex_ns ex_ops (new_world ex_junk);
    w' ← do_op ex_FormatTime ex_ns (OClose true) w; Some (w, w')) = Some ["step=1"; "step=2"]) by (vm_compute; reflexivity).
  destruct (run ex_FormatTime ex_ns ex_ops (new_world ex_junk)) as [w|] eqn:E1; [|discriminate E].
  cbn [mbind option_bind] in E. destruct (do_op ex_FormatTime ex_ns (OClose true) w) as [w'|] eqn:E2; [|discriminate E].
  injection E as E. exists w, w'. split; [done|]. split; [done|]. split; [|exact E].
  exact (StatsRecorder_logs_steps ex_FormatTime ex_ns ex_junk ex_ops true w w' E1 E2).
Defined.

Definition ex_c0 : counters := default (new_counters ex_junk)
  (RecordRpc ex_ns 1000 [("full", 2500)] (StartRecording (ZAt 0) (new_counters ex_junk))).
Definition ex_step (lbl : string) (now : Time) (c : counters) : counters * StatsRecord :=
  default (c, mkStatsRecord "" "" d0 0 0 d0 d0 []) (step_record ex_FormatTime lbl now c).
Definition ex_s1 : counters * StatsRecord := ex_step "step=1" (ZAt 1000000000) ex_c0.
Definition ex_rpcs : list (Z * list (string * Duration)) := [(50, [("full", 700)]); (75, [])].
Definition ex_c2 : counters := default ex_c0 (record_rpcs ex_ns ex_rpcs (fst ex_s1)).
Definition ex_s2 : counters * StatsRecord := ex_step "step=2" (ZAt 3000000000) ex_c2.

Lemma DoneStep_rates_witness :
  dur_sec (snd ex_s2) = ToDoubleSeconds (time_diff (ZAt 3000000000) (ZAt 1000000000)) /\
  mean_bits_per_sec (snd ex_s2) = ddiv (dofZ (i64 1000)) (ToDoubleSeconds (time_diff (ZAt 3000000000) (ZAt 1000000000))).
Proof.
  destruct (DoneStep_rates ex_FormatTime ex_ns "step=1" (ZAt 1000000000) ex_c0 (fst ex_s1) (snd ex_s1) ex_rpcs ex_c2 "step=2" (ZAt 3000000000)
    (fst ex_s2) (snd ex_s2)) as (H1 & H2 & _).
  - rewrite <- surjective_pairing. apply returned_default. vm_compute. reflexivity.
  - apply returned_default. vm_compute. reflexivity.
  - rewrite <- surjective_pairing. apply returned_default. vm_compute. reflexivity.
  - split; [exact H1|exact H2].
Defined.

End Example.
