(* ===== verification/MergeLogs.v ===== *)
(** * MergeLogs: the statistics of several clients in one log

    src/heyp/app/testlopri/merge-logs.cc: a line of every file at a time, the
    records of the lines are merged, as [Recorder] writes them.  JSON, the
    formats of times and Abseil's StripAsciiWhitespace are parameters; the law
    is that JSON is read back as it was written.  The loop of [MergeTo] has fuel for one round for each
    character, and [MergeTo_merges] shows that it is enough. *)

From S2P Require Import Prelude Text Files Doubles Clock Histogram Recorder.

#[local] Open Scope string_scope.
#[local] Open Scope list_scope.
#[local] Open Scope Z_scope.

(** ** Files that are read *)

(** [ended]: the end was reached, with an error or not. *)
Record in_file := mkInFile { rest : string; fails : bool; ended : bool }.

Definition ferror (f : in_file) : bool := ended f && fails f.
Definition feof (f : in_file) : bool := ended f && negb (fails f).

(** The line, and what follows the newline if there was one. *)
Fixpoint take_line (s : string) : string * option string :=
  match s with
  | EmptyString => ("", None)
  | String c s => if is_newline c then ("", Some s) else let '(l, r) := take_line s in (String c l, r)
  end.

Definition ReadLine (f : in_file) : string * bool * in_file :=
  match take_line (rest f) with
  | (line, Some r) => (line, negb (ended f), mkInFile r (fails f) (ended f))
  | (line, None) => (line, false, mkInFile "" (fails f) true)
  end.

Section Merge.
Context `{Clock} `{HdrLib}.
Variable FormatTime : Time -> string.
Variable ParseTime : string -> option Time.
Variable to_json : StatsRecord -> option string.
Variable from_json : string -> option StatsRecord.
(** [absl::StripAsciiWhitespace]. *)
Variable StripAsciiWhitespace : string -> string.

Inductive merge_status := MOk | MDataLoss | MInternal | MWrite.

#[export] Instance merge_status_eq_dec : EqDecision merge_status.
Proof. solve_decision. Defined.

(** ** One row *)

(** The records of a round, [None] for a file that is done, and how many are
    done; [inr]: a line is not a record. *)
Fixpoint read_row (files : list in_file) : (list in_file * list StatsRecord * nat) + list in_file :=
  match files with
  | [] => inl ([], [], O)
  | f :: files =>
      let '(line, ok, f) := ReadLine f in
      let line := StripAsciiWhitespace line in
      if negb ok || bool_decide (line = "") then
        match read_row files with
        | inl (files, recs, num_done) => inl (f :: files, recs, S num_done)
        | inr files => inr (f :: files)
        end
      else match from_json line with
           | None => inr (f :: files)
           | Some r =>
               match read_row files with
               | inl (files, recs, num_done) => inl (f :: files, r :: recs, num_done)
               | inr files => inr (f :: files)
               end
           end
  end.

(** [hists\[k\]]: a histogram of the default configuration is made first. *)
Definition hist_at (k : string) (m : btree HdrHistogram) : option HdrHistogram :=
  match btree_find k m with Some h => Some h | None => new_HdrHistogram DefaultConfig end.

Fixpoint init_hists (l : list LatencyStats) (m : btree HdrHistogram) : option (btree HdrHistogram) :=
  match l with
  | [] => Some m
  | x :: l =>
      _ ← hist_at (kind x) m;
      h ← new_HdrHistogram (p_config (hist_ns x)); init_hists l (btree_set (kind x) h m)
  end.

Fixpoint add_hists (l : list LatencyStats) (m : btree HdrHistogram) : option (btree HdrHistogram) :=
  match l with
  | [] => Some m
  | x :: l =>
      h ← hist_at (kind x) m; from ← FromProto (hist_ns x);
      '(h, _) ← Add h from; add_hists l (btree_set (kind x) h m)
  end.

(** The sums so far. *)
Record sums := mkSums {
  earliest_time : Time;
  m_dur_sec : double;
  m_bits : Z;
  m_rpcs : Z;
  m_mean_bits : double;
  m_mean_rpcs : double;
  hists : btree HdrHistogram }.

Definition time_min (a b : Time) : Time := if time_ltb b a then b else a.

Definition add_record (cur_label : string) (r : StatsRecord) (s : sums) : option (merge_status + sums) :=
  if negb (bool_decide (label r = cur_label)) then Some (inl MDataLoss)
  else match ParseTime (timestamp r) with
       | None => Some (inl MDataLoss)
       | Some time =>
           m ← add_hists (latency r) (hists s);
           Some (inr (mkSums (time_min (earliest_time s) time) (dmax (m_dur_sec s) (dur_sec r))
             (i64 (m_bits s + cum_num_bits r)) (i64 (m_rpcs s + cum_num_rpcs r))
             (dadd (m_mean_bits s) (mean_bits_per_sec r)) (dadd (m_mean_rpcs s) (mean_rpcs_per_sec r)) m))
       end.

Fixpoint add_records (cur_label : string) (recs : list StatsRecord) (s : sums) : option (merge_status + sums) :=
  match recs with
  | [] => Some (inr s)
  | r :: recs => x ← add_record cur_label r s;
                 match x with inl e => Some (inl e) | inr s => add_records cur_label recs s end
  end.

(** [None]: a histogram could not be made, which ends the program. *)
Definition merge_row (recs : list StatsRecord) : option (merge_status + StatsRecord) :=
  first ← head recs;
  m ← init_hists (latency first) [];
  x ← add_records (label first) recs (mkSums InfiniteFuture d0 0 0 d0 d0 m);
  match x with
  | inl e => Some (inl e)
  | inr s =>
      l ← ToProtoLatencyStats (hists s);
      Some (inr (mkStatsRecord (label first) (FormatTime (earliest_time s)) (m_dur_sec s) (m_bits s) (m_rpcs s)
        (m_mean_bits s) (m_mean_rpcs s) l))
  end.

(** ** The loop *)

(** The checks after it. *)
Definition merge_end (files : list in_file) (num_done : nat) : merge_status :=
  if (num_done <? length files)%nat then MDataLoss
  else if existsb ferror files then MDataLoss
  else if negb (forallb feof files) then MInternal else MOk.

(** [write_ok]: whether the [n]th line can be written.  [None]: out of fuel,
    or the program ended. *)
Fixpoint merge_loop (fuel : nat) (write_ok : nat -> bool) (n : nat) (files : list in_file) (out : string)
    : option (merge_status * string) :=
  match fuel with
  | O => None
  | S fuel =>
      match read_row files with
      | inr _ => Some (MDataLoss, out)
      | inl (files, recs, O) =>
          x ← merge_row recs;
          match x with
          | inl e => Some (e, out)
          | inr merged =>
              let '(ok, out) := WriteJsonLine_FILE to_json merged (write_ok n) out in
              if ok : bool then merge_loop fuel write_ok (S n) files out else Some (MWrite, out)
          end
      | inl (files, _, num_done) => Some (merge_end files num_done, out)
      end
  end.

Definition content_length (files : list in_file) : nat := foldr (fun f n => (String.length (rest f) + n)%nat) O files.

Definition MergeTo (write_ok : nat -> bool) (files : list in_file) : option (merge_status * string) :=
  match files with
  | [] => Some (MOk, "")
  | _ => merge_loop (S (content_length files)) write_ok 0 files ""
  end.

(** ** Merging what recorders wrote *)

(** JSON is read back, on one line and without white space around it. *)
Class JsonLaws := {
  json_back r d : to_json r = Some d -> from_json d = Some r;
  json_line r d : to_json r = Some d -> no_newline d = true /\ StripAsciiWhitespace d = d /\ d <> "" }.

(** The text of a log. *)
Fixpoint log_text (recs : list StatsRecord) : option string :=
  match recs with
  | [] => Some ""
  | r :: recs => d ← to_json r; t ← log_text recs; Some (d +:+ newline +:+ t)
  end.

(** A file that holds a log and has been read so far without error. *)
Definition holds (recs : list StatsRecord) (f : in_file) : Prop :=
  log_text recs = Some (rest f) /\ fails f = false /\ ended f = false.

Lemma take_line_newline d t : no_newline d = true -> take_line (d +:+ newline +:+ t) = (d, Some t).
Proof.
  induction d as [|c d IH]; [done|]. cbn [no_newline]. intros [Hc%negb_true_iff Hd]%andb_true_iff.
  change (String c d +:+ ?s) with (String c (d +:+ s)). cbn [take_line]. by rewrite Hc, IH.
Qed.

Lemma log_text_app l : forall k t u, log_text l = Some t -> log_text k = Some u -> log_text (l ++ k) = Some (t +:+ u).
Proof.
  induction l as [|r l IH]; intros k t u; cbn [log_text app]; [by intros [= <-]|].
  intros (d & Hd & (t' & Ht & [= <-])%bind_Some)%bind_Some Hu. rewrite Hd, (IH k t' u) by done. cbn.
  by rewrite !append_assoc.
Qed.

Lemma log_text_length l : forall t, log_text l = Some t -> (length l <= String.length t)%nat.
Proof.
  induction l as [|r l IH]; intros t; cbn [log_text]; [cbn; lia|]. intros (d & Hd & (t' & Ht & [= <-])%bind_Some)%bind_Some.
  apply IH in Ht. rewrite !length_append. cbn. lia.
Qed.

Lemma holds_cons `{JsonLaws} r recs f : holds (r :: recs) f ->
  exists d f', ReadLine f = (d, true, f') /\ StripAsciiWhitespace d = d /\ d <> "" /\ from_json d = Some r /\ holds recs f'.
Proof.
  intros (Ht & Hf & He). cbn [log_text] in Ht. apply bind_Some in Ht as (d & Hd & (t & Ht & [= Hr])%bind_Some).
  pose proof (json_line r d Hd) as (Hl & Hst & Hne). exists d, (mkInFile t false false). unfold ReadLine.
  rewrite <- Hr, take_line_newline by done. rewrite He, Hf. cbn [negb]. pose proof (json_back r d Hd). done.
Qed.

Lemma holds_nil f : holds [] f -> ReadLine f = ("", false, mkInFile "" false true).
Proof. intros (Ht & Hf & He). cbn in Ht. injection Ht as Ht. unfold ReadLine. rewrite <- Ht, Hf. done. Qed.

(** A round reads the first record of every log that has one. *)
Lemma read_row_holds `{JsonLaws} logs files : Forall2 holds logs files -> exists files',
  read_row files = inl (files', omap head logs, length (List.filter (fun l => bool_decide (l = [])) logs)) /\
  Forall2 (fun recs f => if recs is [] then f = mkInFile "" false true else holds (tail recs) f) logs files'.
Proof.
  induction 1 as [|recs f logs files Hh _ IH]; [by exists []|]. destruct IH as (files' & Hr & Hf).
  destruct recs as [|r recs].
  - cbn [read_row]. apply holds_nil in Hh. rewrite Hh. cbn [negb orb]. rewrite Hr. eexists. split; [done|]. by constructor.
  - apply holds_cons in Hh as (d & f' & Hl & Hst & Hne & Hj & Hh). cbn [read_row]. rewrite Hl. cbv zeta. rewrite Hst.
    rewrite bool_decide_eq_false_2 by done. cbn [negb orb]. rewrite Hj, Hr. exists (f' :: files'). split; [done|]. by constructor.
Qed.

(** The first [n] rounds. *)
Fixpoint rows (n : nat) (logs : list (list StatsRecord)) : list (list StatsRecord) :=
  match n with O => [] | S n => omap head logs :: rows n (map tail logs) end.

Definition merges (row : list StatsRecord) (m : StatsRecord) : Prop :=
  merge_row row = Some (inr m).

(** How many rounds there are. *)
Definition shortest (logs : list (list StatsRecord)) : nat :=
  match logs with [] => O | l :: logs => foldr (fun l n => Nat.min (length l) n) (length l) logs end.

Lemma shortest_le logs l : l ∈ logs -> (shortest logs <= length l)%nat.
Proof.
  destruct logs as [|x logs]; [by intros ?%not_elem_of_nil|]. cbn [shortest]. intros [->|Hl]%elem_of_cons.
  - induction logs; cbn; lia.
  - induction logs as [|y logs IH]; [by apply not_elem_of_nil in Hl|]. cbn. apply elem_of_cons in Hl as [->|Hl]; [lia|].
    specialize (IH Hl). lia.
Qed.

Lemma shortest_attained logs : logs <> [] -> exists l, l ∈ logs /\ length l = shortest logs.
Proof.
  destruct logs as [|x logs]; [done|]. intros _. cbn [shortest]. induction logs as [|y logs IH]; [exists x; split; [by left|done]|].
  cbn [foldr]. destruct IH as (l & Hl & E). destruct (Nat.le_gt_cases (length y) (foldr (fun l n => Nat.min (length l) n) (length x) logs)).
  - exists y. split; [right; by left|lia].
  - exists l. split; [set_solver|lia].
Qed.

Lemma shortest_tails logs : logs <> [] -> (forall l, l ∈ logs -> l <> []) -> shortest logs = S (shortest (map tail logs)).
Proof.
  intros Hne Hl. assert (Ht : map tail logs <> []) by (by destruct logs).
  destruct (shortest_attained logs Hne) as (l & Hin & E). destruct (shortest_attained _ Ht) as (t & Htin & Et).
  apply list_elem_of_fmap in Htin as (l' & -> & Hin').
  pose proof (shortest_le logs l' Hin'). pose proof (shortest_le (map tail logs) (tail l) ltac:(by apply list_elem_of_fmap_2)).
  destruct l as [|a l]; [by destruct (Hl [] Hin)|]. destruct l' as [|b l']; [by destruct (Hl [] Hin')|]. cbn in *. lia.
Qed.

Lemma no_empty_filter (logs : list (list StatsRecord)) :
  length (List.filter (fun l => bool_decide (l = [])) logs) = O <-> forall l, l ∈ logs -> l <> [].
Proof.
  induction logs as [|l logs IH]; cbn [List.filter]; [split; [|done]; by intros _ ? ?%not_elem_of_nil|].
  case_bool_decide as E; cbn [length].
  - split; [done|]. intros Hl. by destruct (Hl l ltac:(by left)).
  - rewrite IH. split; [intros Hl x [->|Hx]%elem_of_cons; [done|by apply Hl]|intros Hl x Hx; apply Hl; by right].
Qed.

Lemma all_empty_filter (logs : list (list StatsRecord)) :
  (length (List.filter (fun l => bool_decide (l = [])) logs) <= length logs)%nat /\
  (length (List.filter (fun l => bool_decide (l = [])) logs) = length logs <-> forall l, l ∈ logs -> l = []).
Proof.
  induction logs as [|l logs [IHle IH]]; cbn [List.filter]; [split; [done|]; split; [|done]; by intros _ ? ?%not_elem_of_nil|].
  case_bool_decide as E; cbn [length].
  - split; [lia|]. rewrite Nat.succ_inj_wd, IH. split; [intros Hl x [->|Hx]%elem_of_cons; auto|intros Hl x Hx; apply Hl; by right].
  - split; [lia|]. split; [lia|]. intros Hl. by destruct E; apply Hl; left.
Qed.

(** The logs are all as long as the shortest. *)
Definition same_length (logs : list (list StatsRecord)) : bool := forallb (fun l => (length l =? shortest logs)%nat) logs.

Lemma merge_end_holds logs files k : logs <> [] ->
  Forall2 (fun recs f => if recs is [] then f = mkInFile "" false true else holds (tail recs) f) logs files ->
  k = length (List.filter (fun l => bool_decide (l = [])) logs) -> k <> O ->
  merge_end files k = if same_length logs then MOk else MDataLoss.
Proof.
  intros Hne Hf Hk Hk0. destruct (all_empty_filter logs) as [Hle Hall]. rewrite <- Hk in *.
  assert (Hz : shortest logs = O).
  { destruct (decide (shortest logs = O)); [done|exfalso]. apply Hk0. rewrite Hk. apply no_empty_filter.
    intros l Hl ->. apply shortest_le in Hl. cbn in Hl. lia. }
  unfold merge_end. rewrite <- (Forall2_length _ _ _ Hf). destruct (Nat.ltb_spec k (length logs)) as [Hlt|Hge].
  - replace (same_length logs) with false; [done|]. symmetry. apply not_true_is_false. unfold same_length. rewrite forallb_forall.
    intros Hs. assert (k = length logs); [|lia]. apply Hall. intros l Hl%list_elem_of_In. apply Hs, Nat.eqb_eq in Hl. rewrite Hz in Hl.
    by destruct l.
  - assert (Hnil : forall l, l ∈ logs -> l = []) by (apply Hall; lia).
    replace (same_length logs) with true.
    2:{ symmetry. unfold same_length. rewrite forallb_forall. intros l Hl%list_elem_of_In. by rewrite Hz, (Hnil l Hl). }
    clear Hne Hk Hk0 Hle Hall Hz Hge. induction Hf as [|l f logs files Hlf _ IH]; [done|].
    rewrite (Hnil l ltac:(by left)) in Hlf. subst f. cbn. apply IH. intros x Hx. apply Hnil. by right.
Qed.

(** Round after round. *)
Lemma merge_loop_holds `{JsonLaws} fuel : forall n logs files merged text out, (shortest logs < fuel)%nat -> logs <> [] ->
  Forall2 holds logs files -> Forall2 merges (rows (shortest logs) logs) merged -> log_text merged = Some text ->
  merge_loop fuel (fun _ => true) n files out =
    Some (if same_length logs then MOk else MDataLoss, out +:+ text).
Proof.
  induction fuel as [|fuel IH]; intros n logs files merged text out Hfuel Hne Hh Hm Ht; [lia|]. cbn [merge_loop].
  destruct (read_row_holds logs files Hh) as (files' & -> & Hf).
  destruct (length (List.filter _ logs)) as [|k] eqn:Hk.
  - pose proof (proj1 (no_empty_filter logs) Hk) as Hl. rewrite shortest_tails in Hm, Hfuel by done. cbn [rows] in Hm.
    inversion Hm as [|row m rs ms Hrow Hrest]; subst. unfold merges in Hrow. rewrite Hrow. cbn [mbind option_bind].
    cbn [log_text] in Ht. apply bind_Some in Ht as (d & Hd & (t & Ht & [= <-])%bind_Some).
    unfold WriteJsonLine_FILE. rewrite Hd.
    rewrite (IH (S n) (map tail logs) files' ms t); [|lia|by destruct logs| |done|done].
    + rewrite !append_assoc. replace (same_length (map tail logs)) with (same_length logs); [done|].
      unfold same_length. rewrite shortest_tails by done. generalize (shortest (map tail logs)) as z. clear -Hl. intros z.
      induction logs as [|l logs IHl]; [done|]. cbn [map forallb]. rewrite IHl by (intros x Hx; apply Hl; by right).
      f_equal. destruct l as [|a l]; [by destruct (Hl [] ltac:(by left))|done].
    + clear -Hf Hl. induction Hf as [|l f logs files Hlf _ IHf]; [constructor|]. constructor; [|apply IHf; intros x Hx; apply Hl; by right].
      destruct l; [by destruct (Hl [] ltac:(by left))|done].
  - assert (Hz : shortest logs = O).
    { destruct (decide (shortest logs = O)); [done|exfalso]. assert (length (List.filter (fun l => bool_decide (l = [])) logs) = O); [|lia].
      apply no_empty_filter. intros l Hl ->. apply shortest_le in Hl. cbn in Hl. lia. }
    rewrite Hz in Hm. inversion Hm; subst. injection Ht as <-. rewrite append_empty_r. do 2 f_equal.
    by apply merge_end_holds.
Qed.

(** C17: from logs as the recorders write them, with a merged record for each
    round, the command writes the merged records in order up to the end of
    the shortest log, and succeeds exactly when the logs have the same number
    of records; it always comes to an end. *)
Theorem MergeTo_merges `{JsonLaws} logs files merged text : logs <> [] -> Forall2 holds logs files ->
  Forall2 merges (rows (shortest logs) logs) merged -> log_text merged = Some text ->
  MergeTo (fun _ => true) files =
    Some (if same_length logs then MOk else MDataLoss, text).
Proof.
  intros Hne Hh Hm Ht. unfold MergeTo. destruct files as [|f files]; [inversion Hh; by subst|].
  rewrite (merge_loop_holds _ 0 logs (f :: files) merged text ""); try done.
  inversion Hh as [|l ? logs' ? Hl _]; subst. destruct Hl as [Hl _]. apply log_text_length in Hl.
  pose proof (shortest_le (l :: logs') l ltac:(by left)). cbn [content_length foldr]. lia.
Qed.

(** ** What a merged record holds *)

Section Sums.
Context `{!HdrLaws} (cfg : hdr_config).

(** Messages of histograms of one configuration. *)
Definition stats_ok (x : LatencyStats) : Prop :=
  p_config (hist_ns x) = cfg /\ Forall (fun p => bucket cfg p.1 = Some p.1 /\ 0 < p.2) (p_buckets (hist_ns x)).

(** How often a value was recorded for a kind. *)
Definition kind_count (k : string) (v : Z) (l : list LatencyStats) : Z :=
  zsum (map (fun x => if String.eqb (kind x) k then count_in (p_buckets (hist_ns x)) v else 0) l).

Definition hist_count (h : HdrHistogram) (v : Z) : Z := match h_ h with Some x => count x v | None => 0 end.

(** A histogram with these counts. *)
Definition counts_are (h : HdrHistogram) (tot : Z -> Z) : Prop :=
  valid h /\ config_ h = cfg /\ forall v, hist_count h v = tot v.

Definition known (m : btree HdrHistogram) (k : string) : Prop := is_Some (btree_find k m).

Lemma FromProto_counts x h : stats_ok x -> FromProto (hist_ns x) = Some h -> counts_are h (count_in (p_buckets (hist_ns x))).
Proof.
  intros [Hc Hb]. unfold FromProto. rewrite Hc. intros (h0 & Hn & Hr)%bind_Some. apply new_valid in Hn as ((x0 & Hx0 & C0) & E0 & P0).
  destruct (record_buckets_counts (p_buckets (hist_ns x)) h0 x0 Hx0 C0) as (h1 & x1 & Hr1 & Hx1 & E1 & C1 & K); [by rewrite E0|].
  rewrite Hr in Hr1. injection Hr1 as <-. split; [exists x1; split; [done|congruence]|]. split; [congruence|]. intros v. unfold hist_count.
  rewrite Hx1, K. unfold ToProto in P0. rewrite Hx0 in P0. cbn in P0. injection P0 as _ P0. unfold count. by rewrite P0.
Qed.

Lemma Add_counts_are h from h' d f g : counts_are h f -> counts_are from g -> Add h from = Some (h', d) ->
  counts_are h' (fun v => f v + g v).
Proof.
  intros (V1 & C1 & K1) (V2 & C2 & K2) Ha. destruct (Add_counts h from h' d V1 V2 ltac:(congruence) Ha) as (_ & V & C & K).
  split; [done|]. split; [congruence|]. intros v. unfold hist_count in *. destruct V1 as (x & Hx & _), V2 as (y & Hy & _), V as (x' & Hx' & _).
  specialize (K1 v). specialize (K2 v). rewrite Hx in K1. rewrite Hy in K2. rewrite Hx', (K x y x') by done. by rewrite K1, K2.
Qed.

(** All histograms have the counts so far. *)
Definition hists_are (m : btree HdrHistogram) (tot : string -> Z -> Z) : Prop :=
  forall k h, btree_find k m = Some h -> counts_are h (tot k).

Lemma add_hists_are l : forall m m' tot, Forall stats_ok l -> Forall (fun x => known m (kind x)) l -> hists_are m tot ->
  add_hists l m = Some m' ->
  hists_are m' (fun k v => tot k v + kind_count k v l) /\ forall k, known m k -> known m' k.
Proof.
  induction l as [|x l IH]; intros m m' tot Hl Hk Hm; cbn [add_hists].
  - intros [= <-]. split; [|done]. intros k h Hh. destruct (Hm k h Hh) as (V & C & K). split; [done|]. split; [done|].
    intros v. rewrite K. unfold kind_count. cbn. lia.
  - apply Forall_cons in Hl as [Hx Hl], Hk as [[h Hh] Hk]. unfold hist_at. rewrite Hh. cbn [mbind option_bind].
    intros (from & Hf & Hr)%bind_Some. apply bind_Some in Hr as ([h' d] & Ha & Hr).
    apply FromProto_counts in Hf; [|done]. pose proof (Add_counts_are _ _ _ _ _ _ (Hm _ _ Hh) Hf Ha) as Hh'.
    destruct (IH (btree_set (kind x) h' m) m' (fun k v => tot k v + kind_count k v [x])) as [Hm' Hkn]; try done.
    + eapply Forall_impl; [exact Hk|]. intros y [hy Hy]. unfold known. rewrite btree_find_set. destruct (String.eqb _ _); [by eexists|by exists hy].
    + intros k g. rewrite btree_find_set. destruct (String.eqb_spec k (kind x)) as [->|Hne].
      * intros [= <-]. destruct Hh' as (V & C & K). split; [done|]. split; [done|]. intros v. rewrite K. unfold kind_count. cbn.
        rewrite String.eqb_refl. lia.
      * intros Hg. destruct (Hm _ _ Hg) as (V & C & K). split; [done|]. split; [done|]. intros v. rewrite K. unfold kind_count. cbn.
        destruct (String.eqb_spec (kind x) k); [congruence|lia].
    + split.
      * intros k g Hg. destruct (Hm' k g Hg) as (V & C & K). split; [done|]. split; [done|]. intros v. rewrite K.
        unfold kind_count. cbn [map]. rewrite !zsum_cons, zsum_nil. lia.
      * intros k [g Hg]. apply Hkn. unfold known. rewrite btree_find_set. destruct (String.eqb _ _); [by eexists|by exists g].
Qed.

Lemma init_hists_are l : forall m m', Forall stats_ok l -> hists_are m (fun _ _ => 0) -> init_hists l m = Some m' ->
  hists_are m' (fun _ _ => 0) /\ (forall x, x ∈ l -> known m' (kind x)) /\ forall k, known m k -> known m' k.
Proof.
  induction l as [|x l IH]; intros m m' Hl Hm; cbn [init_hists].
  - intros [= <-]. split; [done|]. split; [by intros ? ?%not_elem_of_nil|done].
  - apply Forall_cons in Hl as [[Hc _] Hl]. intros (h0 & _ & Hr)%bind_Some. apply bind_Some in Hr as (h & Hn & Hr).
    rewrite Hc in Hn. apply new_valid in Hn as (V & C & P).
    destruct (IH (btree_set (kind x) h m) m' Hl) as (Hm' & Hin & Hkn); [|done|].
    + intros k g. rewrite btree_find_set. destruct (String.eqb k (kind x)); [|by apply Hm]. intros [= <-].
      split; [done|]. split; [done|]. intros v. unfold ToProto in P. unfold hist_count. destruct (h_ h) as [y|]; [|done]. cbn in P.
      injection P as _ P. unfold count. by rewrite P.
    + split; [done|]. assert (Hself : forall k, known m k \/ k = kind x -> known m' k).
      { intros k Hk. apply Hkn. unfold known. rewrite btree_find_set. destruct (String.eqb_spec k (kind x)); [by eexists|]. by destruct Hk. }
      split; [|intros k Hk; apply Hself; by left]. intros y [->|Hy]%elem_of_cons; [apply Hself; by right|by apply Hin].
Qed.

(** The sums over the records. *)
Record sums_are (recs : list StatsRecord) (s s' : sums) : Prop := {
  su_bits : m_bits s' = foldl (fun a r => i64 (a + cum_num_bits r)) (m_bits s) recs;
  su_rpcs : m_rpcs s' = foldl (fun a r => i64 (a + cum_num_rpcs r)) (m_rpcs s) recs;
  su_dur : m_dur_sec s' = foldl (fun a r => dmax a (dur_sec r)) (m_dur_sec s) recs;
  su_mean : m_mean_bits s' = foldl (fun a r => dadd a (mean_bits_per_sec r)) (m_mean_bits s) recs }.

Lemma add_records_are lbl recs : forall s s' tot,
  Forall (fun r => Forall stats_ok (latency r) /\ Forall (fun x => known (hists s) (kind x)) (latency r)) recs ->
  hists_are (hists s) tot -> add_records lbl recs s = Some (inr s') ->
  Forall (fun r => label r = lbl) recs /\ sums_are recs s s' /\
  hists_are (hists s') (fun k v => tot k v + zsum (map (fun r => kind_count k v (latency r)) recs)) /\
  forall k, known (hists s) k -> known (hists s') k.
Proof.
  induction recs as [|r recs IH]; intros s s' tot Hr Hm; cbn [add_records].
  - intros [= <-]. split; [done|]. split; [done|]. split; [|done]. intros k h Hh. destruct (Hm k h Hh) as (V & C & K).
    split; [done|]. split; [done|]. intros v. rewrite K. cbn. lia.
  - apply Forall_cons in Hr as [[Hok Hkn] Hr]. unfold add_record. case_bool_decide as Elbl; cbn [negb]; [|done].
    destruct (ParseTime (timestamp r)) as [t|]; [|done]. intros (x & Hx & Hrest)%bind_Some. apply bind_Some in Hx as (m & Ha & [= <-]).
    destruct (add_hists_are _ _ _ _ Hok Hkn Hm Ha) as [Hm1 Hk1].
    apply IH with (tot := fun k v => tot k v + kind_count k v (latency r)) in Hrest as (Hls & [S1 S2 S3 S4] & Hm2 & Hk2);
      [|eapply Forall_impl; [exact Hr|]; intros q [Hq1 Hq2]; split; [done|]; eapply Forall_impl; [exact Hq2|]; intros y Hy; by apply Hk1|done].
    split; [by constructor|]. split; [by split|]. split; [|intros k Hk; by apply Hk2, Hk1].
    intros k h Hh. destruct (Hm2 k h Hh) as (V & C & K). split; [done|]. split; [done|]. intros v. rewrite K. cbn [map]. rewrite zsum_cons. lia.
Qed.

Definition find_kind (k : string) (l : list LatencyStats) : option LatencyStats := List.find (fun x => String.eqb k (kind x)) l.

Lemma ToProtoLatencyStats_find m : forall l k h, ToProtoLatencyStats m = Some l -> btree_find k m = Some h -> valid h ->
  exists x, find_kind k l = Some x /\ forall v, count_in (p_buckets (hist_ns x)) v = hist_count h v.
Proof.
  unfold ToProtoLatencyStats, find_kind. induction m as [|[k' h'] m IH]; intros l k h; [done|]. cbn [btree_find mapM].
  intros (x & Hx & (l' & Hl & [= <-])%bind_Some)%bind_Some. unfold latency_stats in Hx. cbn [fst snd] in Hx.
  apply bind_Some in Hx as (c & Hc & Hx). apply bind_Some in Hx as (p & Hp & Hx).
  repeat (apply bind_Some in Hx as (? & _ & Hx)). injection Hx as <-. cbn [List.find kind].
  destruct (String.eqb k k'); [|by apply IH]. intros [= ->] Hv. eexists. split; [reflexivity|]. intros v. cbn [hist_ns].
  destruct (copy_same h c Hv Hc) as [_ E]. rewrite E in Hp. destruct Hv as (y & Hy & _). unfold ToProto in Hp. unfold hist_count.
  rewrite Hy in *. cbn in Hp. by injection Hp as <-.
Qed.

Lemma i64_sum {A} (f : A -> Z) l : forall a, in_i64 a -> foldl (fun a r => i64 (a + f r)) a l = i64 (a + zsum (map f l)).
Proof.
  induction l as [|x l IH]; intros a Ha; cbn [foldl map]; [cbn; by rewrite Z.add_0_r, i64_id|].
  rewrite IH by apply i64_in_range. rewrite i64_add_l, zsum_cons. f_equal. lia.
Qed.

(** A merged record has the sums of the totals and of the rates of its
    records, the longest duration, and for each kind of latency of the first
    one the histogram that counts what all of them counted. *)
Theorem merge_row_sums recs m : Forall (fun r => Forall stats_ok (latency r) /\
    Forall (fun x => exists f y, head recs = Some f /\ y ∈ latency f /\ kind y = kind x) (latency r)) recs ->
  merge_row recs = Some (inr m) ->
  Forall (fun r => label r = label m) recs /\
  cum_num_bits m = i64 (zsum (map cum_num_bits recs)) /\ cum_num_rpcs m = i64 (zsum (map cum_num_rpcs recs)) /\
  dur_sec m = foldl (fun a r => dmax a (dur_sec r)) d0 recs /\
  mean_bits_per_sec m = foldl (fun a r => dadd a (mean_bits_per_sec r)) d0 recs /\
  forall f y, head recs = Some f -> y ∈ latency f -> exists x, find_kind (kind y) (latency m) = Some x /\
    forall v, count_in (p_buckets (hist_ns x)) v = zsum (map (fun r => kind_count (kind y) v (latency r)) recs).
Proof.
  intros Hr Hm. unfold merge_row in Hm. apply bind_Some in Hm as (f & Hf & Hm). apply bind_Some in Hm as (m0 & Hi & Hm).
  apply bind_Some in Hm as ([e|s] & Ha & Hm); [done|]. apply bind_Some in Hm as (l & Hl & [= <-]).
  assert (Hfok : Forall stats_ok (latency f)).
  { destruct recs as [|r recs]; [done|]. injection Hf as ->. by apply Forall_cons in Hr as [[? _] _]. }
  destruct (init_hists_are (latency f) [] m0 Hfok ltac:(done) Hi) as (Hm0 & Hkn & _).
  assert (Hrecs : Forall (fun r => Forall stats_ok (latency r) /\ Forall (fun x => known m0 (kind x)) (latency r)) recs).
  { eapply Forall_impl; [exact Hr|]. intros r [A1 A2]. split; [done|]. eapply Forall_impl; [exact A2|].
    intros x (f' & y & Hf' & Hy & <-). rewrite Hf in Hf'. injection Hf' as <-. by apply Hkn. }
  destruct (add_records_are (label f) recs (mkSums InfiniteFuture d0 0 0 d0 d0 m0) s (fun _ _ => 0) Hrecs Hm0 Ha)
    as (Hlb & [S1 S2 S3 S4] & Hs & Hkn').
  cbn [m_bits m_rpcs m_dur_sec m_mean_bits hists] in *. cbn. rewrite S1, S2, !i64_sum by done. split_and!; try done.
  intros f' y Hf' Hy. rewrite Hf in Hf'. injection Hf' as <-. destruct (Hkn' (kind y) (Hkn y Hy)) as [h Hh].
  destruct (Hs _ _ Hh) as (V & C & K). destruct (ToProtoLatencyStats_find _ _ _ _ Hl Hh V) as (x & Hx & Hc). exists x.
  split; [done|]. intros v. by rewrite Hc, K.
Qed.

End Sums.

End Merge.

(** ** Examples *)

#[export] Instance double_eq_dec : EqDecision double.
Proof. unfold double. solve_decision. Defined.
#[export] Instance proto_hist_eq_dec : EqDecision proto_hist.
Proof. solve_decision. Defined.
#[export] Instance LatencyStats_eq_dec : EqDecision LatencyStats.
Proof. solve_decision. Defined.
#[export] Instance StatsRecord_eq_dec : EqDecision StatsRecord.
Proof. solve_decision. Defined.

(** White space taken off both ends. *)
Fixpoint skip_space (s : string) : string :=
  match s with String c s' => if Ascii.is_space c then skip_space s' else s | EmptyString => "" end.

(** Without trailing white space. *)
Fixpoint strip_end (s : string) : string :=
  match s with
  | EmptyString => ""
  | String c s => match strip_end s with
                  | EmptyString => if Ascii.is_space c then "" else String c ""
                  | s => String c s
                  end
  end.

Definition ex_strip (s : string) : string := strip_end (skip_space s).

Section Example.
#[local] Existing Instance ZClock.

Definition ex_stats (buckets : list (Z * Z)) : LatencyStats := mkLatencyStats "net" (mkProto NetworkConfig buckets) 0 0 0 0.
Definition ex_rec (bits : Z) (buckets : list (Z * Z)) : StatsRecord :=
  mkStatsRecord "step=1" "5" d1 bits 1 d1 d1 [ex_stats buckets].
Definition ex_r1 : StatsRecord := ex_rec 100 [(200, 1)].
Definition ex_r2 : StatsRecord := ex_rec 250 [(200, 2); (300, 1)].

Definition merge_format (t : Time) : string := "5".
Definition merge_parse (s : string) : option Time := if bool_decide (s = "5") then Some (ZAt 5) else None.

(** JSON of the three records that the example writes. *)
Definition ex_table (m : StatsRecord) : list (StatsRecord * string) := [(m, "{m}"); (ex_r1, "{1}"); (ex_r2, "{2}")].
Definition ex_to_json (m r : StatsRecord) : option string := snd <$> List.find (fun p => bool_decide (fst p = r)) (ex_table m).
Definition ex_from_json (m : StatsRecord) (d : string) : option StatsRecord :=
  fst <$> List.find (fun p => String.eqb (snd p) d) (ex_table m).

Lemma ex_json_laws m : JsonLaws (ex_to_json m) (ex_from_json m) ex_strip.
Proof.
  assert (Ht : forall r d, ex_to_json m r = Some d -> (r, d) ∈ ex_table m).
  { intros r d. unfold ex_to_json. destruct (List.find _ _) as [[r' d']|] eqn:E; [|done]. cbn. intros [= <-].
    apply List.find_some in E as [Hin E]. apply bool_decide_eq_true in E. cbn in E. subst r'. by apply list_elem_of_In. }
  split; intros r d Hd%Ht; unfold ex_table in Hd; rewrite !elem_of_cons in Hd;
    destruct Hd as [[= -> ->]|[[= -> ->]|[[= -> ->]|?%not_elem_of_nil]]]; done.
Qed.

Definition ex_file (text : string) : in_file := mkInFile (text +:+ newline) false false.

Lemma ex_merged : exists m, merge_row merge_format merge_parse [ex_r1; ex_r2] = Some (inr m) /\ cum_num_bits m = 350.
Proof.
  assert (E : match merge_row merge_format merge_parse [ex_r1; ex_r2] with Some (inr m) => cum_num_bits m | _ => 0 end = 350)
    by (vm_compute; reflexivity).
  destruct (merge_row merge_format merge_parse [ex_r1; ex_r2]) as [[e|m]|]; try discriminate E. by exists m.
Qed.

Lemma MergeTo_merges_witness : exists m, cum_num_bits m = 350 /\
  MergeTo merge_format merge_parse (ex_to_json m) (ex_from_json m) ex_strip (fun _ => true) [ex_file "{1}"; ex_file "{2}"] =
    Some (MOk, "{m}" +:+ newline).
Proof.
  destruct ex_merged as (m & Hm & Hb). exists m. split; [exact Hb|].
  assert (N1 : m <> ex_r1) by (intros ->; discriminate Hb). assert (N2 : m <> ex_r2) by (intros ->; discriminate Hb).
  refine (MergeTo_merges merge_format merge_parse (ex_to_json m) (ex_from_json m) ex_strip (H1 := ex_json_laws m)
    [[ex_r1]; [ex_r2]] [ex_file "{1}"; ex_file "{2}"] [m] ("{m}" +:+ newline) _ _ _ _).
  - discriminate.
  - repeat constructor; unfold holds, log_text, ex_to_json, ex_table; cbn [List.find fst];
      rewrite (bool_decide_eq_false_2 (m = _)) by done; vm_compute; done.
  - constructor; [exact Hm|constructor].
  - unfold log_text, ex_to_json, ex_table. cbn [List.find fst]. by rewrite (bool_decide_eq_true_2 (m = m)).
Defined.

Lemma merge_row_sums_witness : exists m, merge_row merge_format merge_parse [ex_r1; ex_r2] = Some (inr m) /\
  cum_num_bits m = 350 /\ exists x, find_kind "net" (latency m) = Some x /\
    count_in (p_buckets (hist_ns x)) 200 = 3 /\ count_in (p_buckets (hist_ns x)) 300 = 1.
Proof.
  destruct ex_merged as (m & Hm & Hb). exists m. split; [exact Hm|]. split; [exact Hb|].
  destruct (merge_row_sums merge_format merge_parse NetworkConfig [ex_r1; ex_r2] m) as (_ & _ & _ & _ & _ & Hk); [|exact Hm|].
  - repeat constructor; cbn; try lia; try (exists ex_r1, (ex_stats [(200, 1)]); split_and!; [done|by left|done]).
  - destruct (Hk ex_r1 (ex_stats [(200, 1)])) as (x & Hx & Hc); [done|by left|]. exists x. split; [exact Hx|].
    by rewrite !Hc.
Defined.

End Example.
