(* ===== verification/MaxMinDist.v ===== *)
(** * MaxMinDist: water-filling for demands with expected counts

    src/heyp/alg/fairness/max-min-fairness-dist.{h,cc}.  The code computes
    with doubles; its definitions are over the interface [Arith] of the
    operations it uses, of which [double_arith] is the code's own and [Q_arith]
    the exact one.  What does not depend on rounding is shown for every
    arithmetic (the loop of the partial sort ends) or for the exact one (the
    level of the full sort is fair); the flaws are shown with doubles.  The
    checks of invariants in builds with assertions are left out. *)

From Stdlib Require Import QArith Qminmax Lqa.
From S2P Require Import Prelude Doubles NthElement MaxMin.

#[local] Open Scope Z_scope.

(** ** Arithmetic *)

Class Arith := {
  num : Type;
  a_add : num -> num -> num;
  a_sub : num -> num -> num;
  a_mul : num -> num -> num;
  a_div : num -> num -> num;
  a_le : num -> num -> bool;
  a_lt : num -> num -> bool;
  a_ofZ : Z -> num }.

Definition a_max `{Arith} (a b : num) : num := if a_lt a b then b else a.

#[export] Instance double_arith : Arith := {
  num := double; a_add := dadd; a_sub := dsub; a_mul := dmul; a_div := ddiv; a_le := dle; a_lt := dlt; a_ofZ := dofZ }.

#[export] Instance Q_arith : Arith := {
  num := Q; a_add := Qplus; a_sub := Qminus; a_mul := Qmult; a_div := Qdiv; a_le := Qle_bool;
  a_lt := fun x y => negb (Qle_bool y x); a_ofZ := inject_Z }.

(** ** The code *)

Section Code.
Context `{Arith}.

Record VC := mkVC { vc_val : num; vc_count : num }.

#[export] Instance VC_inhabited : Inhabited VC := populate (mkVC (a_ofZ 0) (a_ofZ 0)).

Definition ValCountComparator (lhs rhs : VC) : bool := a_lt (vc_val lhs) (vc_val rhs).

Definition val_le (x y : VC) : Prop := ValCountComparator y x = false.
#[export] Instance val_le_dec x y : Decision (val_le x y).
Proof. unfold val_le. apply _. Defined.

(** [expected_ge_count] beside the demands. *)
Fixpoint with_ge_count (l : list VC) : list (VC * num) * num :=
  match l with
  | [] => ([], a_ofZ 0)
  | x :: l => let '(r, cum_count) := with_ge_count l in
              let cum_count := a_add cum_count (vc_count x) in ((x, cum_count) :: r, cum_count)
  end.

Fixpoint full_sort_loop (l : list (VC * num)) (capacity waterlevel : num) : num :=
  match l with
  | [] => waterlevel
  | (next_demand, num_unsatisfied) :: l =>
      let delta := a_sub (vc_val next_demand) waterlevel in
      let ask := a_mul delta num_unsatisfied in
      if a_le ask capacity then full_sort_loop l (a_sub capacity ask) (a_add waterlevel delta)
      else a_add waterlevel (a_div capacity num_unsatisfied)
  end.

Definition SolveFullSort (capacity waterlevel : num) (sorted_demands : list VC) : num :=
  full_sort_loop (with_ge_count (merge_sort val_le sorted_demands)).1 capacity waterlevel.

Definition SumCounts (data : list VC) : num := foldl (fun s x => a_add s (vc_count x)) (a_ofZ 0) data.

(** [absl::Span::subspan]: up to [len] elements from [pos] on. *)
Definition subspan (l : list VC) (pos len : Z) : list VC := take (Z.to_nat len) (drop (Z.to_nat pos) l).

Record PSA := mkPSA {
  sorted_demands_ : list VC;
  residual_capacity_ : num;
  lower_limit_ : Z;
  upper_limit_ : Z;
  count_above_upper_limit_ : num;
  waterlevel_ : num }.

Definition new_PSA (capacity waterlevel : num) (sorted_demands : list VC) : PSA :=
  mkPSA sorted_demands capacity 0 (Z.of_nat (length sorted_demands) - 1) (a_ofZ 0) waterlevel.

Definition NthElement_range (sd : list VC) (lower partition upper : Z) : list VC :=
  let lo := Z.to_nat lower in
  let hi := Z.to_nat (upper + 1) in
  take lo sd ++ NthElement ValCountComparator (drop lo (take hi sd)) (Z.to_nat (partition - lower)) ++ drop hi sd.

(** [ask] over A, and its last value. *)
Definition sum_ask (waterlevel : num) (A : list VC) : num * num :=
  foldl (fun '(ask, _) vc => (a_add ask (a_sub (a_mul (vc_val vc) (vc_count vc)) waterlevel), vc_val vc)) (a_ofZ 0, a_ofZ 0) A.

(** One round of the loop. *)
Definition PSA_step (s : PSA) : PSA :=
  let partition_idx := lower_limit_ s + Z.quot (upper_limit_ s - lower_limit_ s) 2 in
  let sd := NthElement_range (sorted_demands_ s) (lower_limit_ s) partition_idx (upper_limit_ s) in
  let '(ask, max_demand_A) := sum_ask (waterlevel_ s) (subspan sd (lower_limit_ s) (partition_idx + 1 - lower_limit_ s)) in
  let expected_count_B := SumCounts (subspan sd (partition_idx + 1) (upper_limit_ s)) in
  let ask := a_add ask (a_mul (a_sub max_demand_A (waterlevel_ s)) (a_add expected_count_B (count_above_upper_limit_ s))) in
  if a_le ask (residual_capacity_ s) then
    mkPSA sd (a_sub (residual_capacity_ s) ask) (partition_idx + 1) (upper_limit_ s) (count_above_upper_limit_ s) max_demand_A
  else if lower_limit_ s =? upper_limit_ s then
    mkPSA sd (residual_capacity_ s) (lower_limit_ s) (lower_limit_ s - 1)
      (a_add (count_above_upper_limit_ s) (SumCounts (subspan sd (lower_limit_ s) (upper_limit_ s)))) (waterlevel_ s)
  else
    mkPSA sd (residual_capacity_ s) (lower_limit_ s) partition_idx (a_add (count_above_upper_limit_ s) expected_count_B) (waterlevel_ s).

(** [None]: out of fuel. *)
Fixpoint PSA_loop (fuel : nat) (s : PSA) : option PSA :=
  match fuel with
  | O => None
  | S fuel => if lower_limit_ s <=? upper_limit_ s then PSA_loop fuel (PSA_step s) else Some s
  end.

Definition PSA_finish (s : PSA) : num :=
  let n := Z.of_nat (length (sorted_demands_ s)) in
  let next_unsatisfied := Z.max (lower_limit_ s) (upper_limit_ s) in
  if next_unsatisfied <? n then
    a_add (waterlevel_ s) (a_div (residual_capacity_ s) (SumCounts (subspan (sorted_demands_ s) next_unsatisfied n)))
  else waterlevel_ s.

Definition SolvePartialSort (capacity waterlevel : num) (sorted_demands : list VC) : option num :=
  if bool_decide (length sorted_demands = O) then Some waterlevel
  else PSA_finish <$> PSA_loop (S (length sorted_demands)) (new_PSA capacity waterlevel sorted_demands).

Fixpoint filter_tiny (thresh : num) (demands buf : list VC) (capacity waterlevel : num) : list VC * num * num :=
  match demands with
  | [] => (buf, capacity, waterlevel)
  | d :: demands =>
      if a_le (vc_val d) thresh then
        filter_tiny thresh demands buf (a_sub capacity (a_mul (vc_val d) (vc_count d))) (a_max waterlevel (vc_val d))
      else filter_tiny thresh demands (buf ++ [d]) capacity waterlevel
  end.

Definition ComputeWaterlevel (o : Options) (capacity : num) (demands : list VC) : option num :=
  let num_demands := Z.of_nat (length demands) in
  let tiny_demand_thresh :=
    if enable_tiny_flow_opt o then a_div capacity (a_max (a_ofZ num_demands) (a_ofZ 1)) else a_ofZ (-1) in
  let '(buf, capacity, waterlevel) := filter_tiny tiny_demand_thresh demands [] capacity (a_ofZ 0) in
  let capacity := a_sub capacity (a_mul waterlevel (a_ofZ (Z.of_nat (length buf)))) in
  match solve_method o with
  | kFullSort => Some (SolveFullSort capacity waterlevel buf)
  | kPartialSort => SolvePartialSort capacity waterlevel buf
  end.

(** ** The loop ends *)

(** Each round leaves fewer demands to look at. *)
Lemma PSA_step_shrinks s : lower_limit_ s <= upper_limit_ s ->
  upper_limit_ (PSA_step s) - lower_limit_ (PSA_step s) < upper_limit_ s - lower_limit_ s.
Proof.
  intros Hle. unfold PSA_step. pose proof (Z.quot_pos (upper_limit_ s - lower_limit_ s) 2 ltac:(lia) ltac:(lia)).
  destruct (sum_ask _ _) as [ask max_A]. destruct (a_le _ _); cbn [upper_limit_ lower_limit_]; [lia|].
  destruct (Z.eqb_spec (lower_limit_ s) (upper_limit_ s)) as [E|E]; cbn [upper_limit_ lower_limit_]; [lia|].
  pose proof (Z.quot_lt (upper_limit_ s - lower_limit_ s) 2 ltac:(lia) ltac:(lia)). lia.
Qed.

Lemma PSA_loop_ends fuel : forall s, (Z.to_nat (upper_limit_ s - lower_limit_ s + 1) < fuel)%nat -> is_Some (PSA_loop fuel s).
Proof.
  induction fuel as [|fuel IH]; intros s Hf; [lia|]. cbn [PSA_loop]. destruct (Z.leb_spec (lower_limit_ s) (upper_limit_ s)); [|by eexists].
  apply IH. pose proof (PSA_step_shrinks s ltac:(done)). lia.
Qed.

(** The water level is computed in at most as many rounds as there are
    demands, with either method, and whatever the arithmetic answers: also
    with rounding, infinities and NaNs. *)
Theorem ComputeWaterlevel_dist_ends o capacity demands : is_Some (ComputeWaterlevel o capacity demands).
Proof.
  unfold ComputeWaterlevel. cbv zeta. destruct (filter_tiny _ _ _ _ _) as [[buf cap] wl]. destruct (solve_method o); [by eexists|].
  unfold SolvePartialSort. case_bool_decide as E; [by eexists|].
  destruct (PSA_loop_ends (S (length buf)) (new_PSA (a_sub cap (a_mul wl (a_ofZ (Z.of_nat (length buf))))) wl buf)) as [s ->].
  - cbn. lia.
  - by eexists.
Qed.

End Code.

(** ** The exact level *)

Section Exact.
#[local] Existing Instance Q_arith.
#[local] Open Scope Q_scope.

Definition qsum {A} (f : A -> Q) (l : list A) : Q := foldr (fun x s => f x + s) 0 l.

Lemma qsum_cons {A} (f : A -> Q) x l : qsum f (x :: l) = f x + qsum f l.
Proof. done. Qed.

Lemma qsum_nil {A} (f : A -> Q) : qsum f [] = 0.
Proof. done. Qed.

#[local] Hint Rewrite @qsum_cons @qsum_nil : qsum.
#[local] Arguments qsum : simpl never.

(** Induction on the list, with the equations of the sum. *)
Ltac by_qsum l :=
  induction l as [|?x l ?IH]; autorewrite with qsum; [try ring; try lra|];
  try (repeat match goal with E : qsum _ _ == _ |- _ => rewrite E end; ring).

Lemma qsum_ext {A} (f g : A -> Q) l : (forall x, x ∈ l -> f x == g x) -> qsum f l == qsum g l.
Proof.
  induction l as [|x l IH]; intros Hfg; [reflexivity|]. rewrite !qsum_cons, (Hfg x) by (by left).
  rewrite IH; [reflexivity|]. intros y Hy. apply Hfg. by right.
Qed.

Lemma qsum_perm {A} (f : A -> Q) l k : l ≡ₚ k -> qsum f l == qsum f k.
Proof.
  induction 1 as [|x l k _ IH|x y l|l k m _ IH1 _ IH2]; rewrite ?qsum_cons; [reflexivity|by rewrite IH|ring|by rewrite IH1].
Qed.

Lemma qsum_app {A} (f : A -> Q) l k : qsum f (l ++ k) == qsum f l + qsum f k.
Proof. induction l as [|x l IH]; cbn [app]; autorewrite with qsum; [ring|]. rewrite IH. ring. Qed.

Lemma qsum_le {A} (f g : A -> Q) l : (forall x, x ∈ l -> f x <= g x) -> qsum f l <= qsum g l.
Proof.
  induction l as [|x l IH]; intros Hfg; autorewrite with qsum; [lra|]. specialize (IH (fun y Hy => Hfg y (ltac:(by right)))).
  specialize (Hfg x ltac:(by left)). lra.
Qed.

(** How much the demands get at a level, and in all. *)
Definition given (level : Q) (l : list VC) : Q := qsum (fun x => vc_count x * Qmin (vc_val x) level) l.
Definition wanted (l : list VC) : Q := qsum (fun x => vc_count x * vc_val x) l.

(** What is given above a level that all demands reach. *)
Definition given_above (wl level : Q) (l : list VC) : Q := qsum (fun x => vc_count x * (Qmin (vc_val x) level - wl)) l.
Definition wanted_above (wl : Q) (l : list VC) : Q := qsum (fun x => vc_count x * (vc_val x - wl)) l.

Definition counts (l : list VC) : Q := qsum vc_count l.

Lemma given_above_shift wl wl' level l : given_above wl level l == given_above wl' level l + (wl' - wl) * counts l.
Proof. unfold given_above, counts. by_qsum l. Qed.

Lemma wanted_above_shift wl wl' l : wanted_above wl l == wanted_above wl' l + (wl' - wl) * counts l.
Proof. unfold wanted_above, counts. by_qsum l. Qed.

Lemma given_shift wl level l : given level l == given_above wl level l + wl * counts l.
Proof. unfold given, given_above, counts. by_qsum l. Qed.

Lemma wanted_shift wl l : wanted l == wanted_above wl l + wl * counts l.
Proof. unfold wanted, wanted_above, counts. by_qsum l. Qed.

Lemma with_ge_count_cons (x : VC) l : exists G, (with_ge_count (x :: l)).1 = (x, G) :: (with_ge_count l).1 /\ G == counts (x :: l).
Proof.
  assert (Hc : forall l, (with_ge_count l).2 == counts l).
  { clear. unfold counts. induction l as [|x l IH]; [reflexivity|]. cbn [with_ge_count]. destruct (with_ge_count l) as [r c].
    rewrite qsum_cons, <- IH. cbn. ring. }
  specialize (Hc l). cbn [with_ge_count]. destruct (with_ge_count l) as [r c] eqn:E. exists (c + vc_count x). split; [done|].
  unfold counts. rewrite qsum_cons. fold (counts l). rewrite <- Hc. cbn. ring.
Qed.

Lemma Qmin_left a b : a <= b -> Qmin a b == a.
Proof. intros H. by rewrite Q.min_l. Qed.
Lemma Qmin_right a b : b <= a -> Qmin a b == b.
Proof. intros H. by rewrite Q.min_r. Qed.

Definition positive (l : list VC) : Prop := forall x : VC, x ∈ l -> 0 < vc_count x.

Lemma positive_cons x l : positive (x :: l) -> 0 < vc_count x /\ positive l.
Proof. intros Hp. split; [apply Hp; by left|intros y Hy; apply Hp; by right]. Qed.

Lemma counts_nonneg l : positive l -> 0 <= counts l.
Proof.
  unfold counts. induction l as [|x l IH]; intros Hp; autorewrite with qsum; [lra|]. apply positive_cons in Hp as [Hx Hl].
  specialize (IH Hl). lra.
Qed.

(** All that is wanted above a level is at least what is wanted up to another. *)
Lemma wanted_above_le wl wl' l : positive l -> (forall x : VC, x ∈ l -> wl' <= vc_val x) -> (wl' - wl) * counts l <= wanted_above wl l.
Proof.
  unfold counts, wanted_above. induction l as [|x l IH]; intros Hp Hl; autorewrite with qsum; [lra|].
  apply positive_cons in Hp as [Hx Hp]. specialize (IH Hp (fun y Hy => Hl y ltac:(by right))). specialize (Hl x ltac:(by left)).
  assert (vc_count x * (wl' - wl) <= vc_count x * (vc_val x - wl)) by nra. lra.
Qed.

(** The loop gives out what is left, or all that is wanted. *)
Lemma full_sort_loop_exact l : forall cap wl : Q, Sorted_leq ValCountComparator l -> positive l ->
  (forall x : VC, x ∈ l -> wl <= vc_val x) -> 0 <= cap ->
  let level := full_sort_loop (with_ge_count l).1 cap wl in
  wl <= level /\ given_above wl level l == Qmin cap (wanted_above wl l).
Proof.
  induction l as [|x l IH]; intros cap wl Hs Hp Hwl Hcap.
  - cbn. split; [lra|]. unfold given_above, wanted_above. rewrite !qsum_nil, Q.min_r; [reflexivity|done].
  - destruct (with_ge_count_cons x l) as (G & -> & HG). apply positive_cons in Hp as [Hx Hp]. pose proof (counts_nonneg l Hp) as Hc.
    pose proof (Hwl x ltac:(by left)) as Hwx. unfold counts in HG. rewrite qsum_cons in HG. fold (counts l) in HG.
    cbn [full_sort_loop]. apply StronglySorted_inv in Hs as [Hs Hxl].
    assert (Hge : forall y : VC, y ∈ l -> vc_val x <= vc_val y).
    { intros y Hy. rewrite List.Forall_forall in Hxl. apply list_elem_of_In, Hxl in Hy. unfold leq, ValCountComparator in Hy. cbn in Hy.
      apply negb_false_iff, Qle_bool_iff in Hy. exact Hy. }
    cbn [a_sub a_mul a_le a_add a_div Q_arith]. destruct (Qle_bool _ cap) eqn:Eask.
    + apply Qle_bool_iff in Eask.
      specialize (IH (cap - (vc_val x - wl) * G) (wl + (vc_val x - wl)) Hs Hp). destruct IH as [Hlev Hg]; [intros y Hy; specialize (Hge y Hy); lra|lra|].
      set (level := full_sort_loop _ _ _) in *. split; [lra|].
      unfold given_above, wanted_above. rewrite !qsum_cons. fold (given_above wl level l) (wanted_above wl l).
      rewrite (given_above_shift wl (wl + (vc_val x - wl))), (wanted_above_shift wl (wl + (vc_val x - wl))), Hg, Qmin_left by lra.
      set (W := wanted_above _ l). set (d := vc_val x - wl) in *. set (C := counts l) in *.
      assert (HdG : d * G == vc_count x * d + d * C) by (rewrite HG; ring). fold d.
      destruct (Qlt_le_dec (cap - d * G) W) as [Hlt|Hle].
      * rewrite !Qmin_left by lra. rewrite HdG. unfold d. ring.
      * rewrite !Qmin_right by lra. unfold d. ring.
    + assert (Hask : cap < (vc_val x - wl) * G).
      { apply Qnot_le_lt. intros Hle. apply Qle_bool_iff in Hle. by rewrite Hle in Eask. }
      assert (HG0 : 0 < G) by (rewrite HG; lra). set (q := cap / G).
      assert (Hq : q * G == cap) by (unfold q; field; lra). assert (0 <= q) by (unfold q; apply Qle_shift_div_l; lra).
      assert (Hqx : q < vc_val x - wl) by (unfold q; apply Qlt_shift_div_r; lra).
      split; [lra|]. assert (Hgiven : given_above wl (wl + q) (x :: l) == cap).
      { rewrite <- Hq, HG. unfold given_above, counts. rewrite (qsum_ext _ (fun y : @VC Q_arith => @vc_count Q_arith y * q)).
        - clear. rewrite qsum_cons. assert (E : qsum (fun y : VC => vc_count y * q) l == q * qsum vc_count l) by (by_qsum l). rewrite E. ring.
        - intros y Hy. rewrite Qmin_right; [ring|]. apply elem_of_cons in Hy as [->|Hy]; [lra|]. specialize (Hge y Hy). lra. }
      rewrite Hgiven, Qmin_left; [reflexivity|]. apply Qle_trans with ((vc_val x - wl) * counts (x :: l)); [|apply wanted_above_le].
      * unfold counts. rewrite qsum_cons. fold (counts l). rewrite <- HG. lra.
      * intros y [->|Hy]%elem_of_cons; [done|by apply Hp].
      * intros y [->|Hy]%elem_of_cons; [lra|by apply Hge].
Qed.

(** The comparison by value is a strict weak order. *)
#[local] Instance val_le_total : Total val_le.
Proof.
  intros x y. unfold val_le, ValCountComparator. cbn. rewrite !negb_false_iff, !Qle_bool_iff.
  destruct (Qlt_le_dec (vc_val x) (vc_val y)) as [?|?]; [left; lra|by right].
Qed.

#[local] Instance val_le_trans : Transitive val_le.
Proof. intros x y z. unfold val_le, ValCountComparator. cbn. rewrite !negb_false_iff, !Qle_bool_iff. lra. Qed.

Lemma SolveFullSort_exact cap wl (l : list VC) : positive l -> (forall x : VC, x ∈ l -> wl <= vc_val x) -> 0 <= cap ->
  wl <= SolveFullSort cap wl l /\ given_above wl (SolveFullSort cap wl l) l == Qmin cap (wanted_above wl l).
Proof.
  intros Hp Hl Hcap. pose proof (merge_sort_Permutation val_le l) as Hperm.
  destruct (full_sort_loop_exact (merge_sort val_le l) cap wl) as [Hle Hg]; [| | |done|].
  - apply (StronglySorted_merge_sort val_le).
  - intros x Hx. apply Hp. by rewrite <- Hperm.
  - intros x Hx. apply Hl. by rewrite <- Hperm.
  - unfold SolveFullSort. split; [exact Hle|]. unfold given_above, wanted_above in *.
    rewrite <- (qsum_perm _ _ _ Hperm) at 1. rewrite Hg. by rewrite (qsum_perm _ _ _ Hperm).
Qed.

(** The tiny demands, those that are kept, and what is left for them. *)
Record filtered (thresh : Q) (ds tiny kept : list VC) (cap wl cap' wl' : Q) : Prop := {
  fl_perm : ds ≡ₚ tiny ++ kept;
  fl_tiny : forall x : VC, x ∈ tiny -> vc_val x <= thresh /\ vc_val x <= wl';
  fl_kept : forall x : VC, x ∈ kept -> thresh < vc_val x;
  fl_cap : cap' == cap - wanted tiny;
  fl_le : wl <= wl';
  fl_wl : wl' == wl \/ wl' <= thresh }.

Definition qmax : Q -> Q -> Q := @a_max Q_arith.

Lemma filter_tiny_filtered (thresh : Q) ds : forall buf (cap wl : Q), exists tiny kept (cap' wl' : Q),
  filter_tiny thresh ds buf cap wl = (buf ++ kept, cap', wl') /\ filtered thresh ds tiny kept cap wl cap' wl'.
Proof.
  induction ds as [|d ds IH]; intros buf cap wl; cbn [filter_tiny].
  - exists [], [], cap, wl. rewrite app_nil_r. split; [done|]. split; try done; try (by intros ? ?%not_elem_of_nil); [|lra|by left].
    unfold wanted. rewrite qsum_nil. ring.
  - cbn [a_le a_sub a_mul Q_arith]. destruct (Qle_bool (vc_val d) thresh) eqn:E.
    + apply Qle_bool_iff in E. change (@a_max Q_arith wl (vc_val d)) with (qmax wl (vc_val d)). destruct (IH buf (cap - vc_val d * vc_count d) (qmax wl (vc_val d))) as (tiny & kept & cap' & wl' & -> & F).
      assert (Hmax : wl <= qmax wl (vc_val d) /\ vc_val d <= qmax wl (vc_val d) /\ (qmax wl (vc_val d) == wl \/ qmax wl (vc_val d) == vc_val d)).
      { unfold qmax, a_max. cbn. destruct (Qle_bool (vc_val d) wl) eqn:Ed; cbn.
        - apply Qle_bool_iff in Ed. split; [lra|]. split; [done|]. by left.
        - assert (wl < vc_val d) by (apply Qnot_le_lt; intros Hle; apply Qle_bool_iff in Hle; by rewrite Hle in Ed). split; [lra|]. split; [lra|]. by right. }
      destruct F as [F1 F2 F3 F4 F5 F6]. exists (d :: tiny), kept, cap', wl'. split; [done|]. split.
      * by rewrite F1.
      * intros x [->|Hx]%elem_of_cons; [split; [done|lra]|by apply F2].
      * done.
      * rewrite F4. unfold wanted. rewrite qsum_cons. ring.
      * lra.
      * destruct Hmax as (Hm1 & Hm2 & [Hm3|Hm3]), F6 as [F6|F6]; [left|right|right|right]; lra.
    + assert (thresh < vc_val d) by (apply Qnot_le_lt; intros Hle; apply Qle_bool_iff in Hle; by rewrite Hle in E).
      destruct (IH (buf ++ [d]) cap wl) as (tiny & kept & cap' & wl' & -> & F). destruct F as [F1 F2 F3 F4 F5 F6].
      exists tiny, (d :: kept), cap', wl'. rewrite <- app_assoc. split; [done|]. split; try done.
      * rewrite F1. by rewrite Permutation_middle.
      * intros x [->|Hx]%elem_of_cons; [done|by apply F3].
Qed.

(** One demand for each count. *)
Definition unit_counts (l : list VC) : Prop := forall x : VC, x ∈ l -> vc_count x == 1.

Lemma unit_counts_length l : unit_counts l -> counts l == inject_Z (Z.of_nat (length l)).
Proof.
  unfold counts. induction l as [|x l IH]; intros Hu; [reflexivity|]. rewrite qsum_cons, (Hu x) by (by left).
  rewrite IH by (intros y Hy; apply Hu; by right). cbn [length]. rewrite Nat2Z.inj_succ. unfold Z.succ. rewrite inject_Z_plus. cbn. ring.
Qed.

(** Below the threshold the unit demands get no more than the capacity. *)
Lemma tiny_room thresh tiny kept : unit_counts (tiny ++ kept) -> 0 <= thresh ->
  (forall x : VC, x ∈ tiny -> vc_val x <= thresh) ->
  wanted tiny + thresh * counts kept <= thresh * inject_Z (Z.of_nat (length (tiny ++ kept))).
Proof.
  intros Hu Ht Hv. rewrite <- (unit_counts_length _ Hu). unfold counts. rewrite qsum_app.
  assert (wanted tiny <= thresh * qsum vc_count tiny); [|lra].
  assert (Hut : unit_counts tiny) by (intros x Hx; apply Hu, elem_of_app; by left). clear Hu kept.
  unfold wanted. induction tiny as [|x l IH]; [rewrite !qsum_nil; lra|]. rewrite !qsum_cons.
  specialize (IH (fun y Hy => Hv y ltac:(by right)) (fun y Hy => Hut y ltac:(by right))).
  specialize (Hv x ltac:(by left)). specialize (Hut x ltac:(by left)). rewrite Hut in *. lra.
Qed.

(** C19: with exact arithmetic the full sort's level is max-min fair: at that
    level the demands, each as often as it is expected, get the whole
    capacity or all that they want.  With the shortcut for tiny demands that
    needs every count to be 1. *)
Theorem ComputeWaterlevel_dist_fair o (capacity : Q) (demands : list VC) (level : Q) : solve_method o = kFullSort -> 0 <= capacity ->
  positive demands -> (forall x : VC, x ∈ demands -> 0 <= vc_val x) ->
  enable_tiny_flow_opt o = false \/ unit_counts demands ->
  ComputeWaterlevel o capacity demands = Some level ->
  given level demands == Qmin capacity (wanted demands).
Proof.
  intros Ho Hc Hp Hv Hopt. unfold ComputeWaterlevel. rewrite Ho. cbv zeta.
  set (n := inject_Z (Z.of_nat (length demands))).
  match goal with |- context [filter_tiny ?t] => set (thresh := t) end.
  destruct (filter_tiny_filtered thresh demands [] capacity (@a_ofZ Q_arith 0)) as (tiny & kept & cap' & wl & -> & [F1 F2 F3 F4 F5 F6]).
  cbn [app a_ofZ Q_arith a_sub a_mul] in *. change (inject_Z 0) with 0 in *. intros [= <-].
  assert (Hpk : positive kept) by (intros x Hx; apply Hp; rewrite F1; apply elem_of_app; by right).
  assert (Hroom : wl * inject_Z (Z.of_nat (length kept)) == wl * counts kept /\ 0 <= cap' - wl * counts kept /\
                  (forall x : VC, x ∈ kept -> wl <= vc_val x)).
  { destruct (enable_tiny_flow_opt o) eqn:Eopt.
    - destruct Hopt as [|Hu]; [done|].
      assert (Hut : unit_counts (tiny ++ kept)) by (intros x Hx; apply Hu; by rewrite F1).
      assert (Hn : 0 <= thresh /\ thresh * n <= capacity).
      { unfold thresh. cbn [a_div a_max a_lt a_ofZ Q_arith]. fold n. unfold a_max. cbn [a_lt Q_arith].
        assert (Hn : n < 1 -> n == 0). { unfold n. destruct (length demands) as [|k]; [done|]. unfold inject_Z, Qlt. cbn. lia. }
        assert (0 <= n) by (unfold n, inject_Z, Qle; cbn; lia).
        destruct (Qle_bool (inject_Z 1) n) eqn:En; cbn [negb].
        - apply Qle_bool_iff in En. change (inject_Z 1) with 1 in En. split; [apply Qle_shift_div_l; lra|].
          rewrite Qmult_comm, Qmult_div_r by lra. lra.
        - assert (n < 1) by (apply Qnot_le_lt; intros Hle; change 1 with (inject_Z 1) in Hle; apply Qle_bool_iff in Hle; by rewrite Hle in En).
          rewrite Hn by done. change (inject_Z 1) with 1. split; [apply Qle_shift_div_l; lra|lra]. }
      destruct Hn as [Ht0 Htn].
      pose proof (tiny_room thresh tiny kept Hut Ht0 (fun x Hx => proj1 (F2 x Hx))) as Hr.
      rewrite <- (Permutation_length F1) in Hr. fold n in Hr.
      assert (Hwl : wl <= thresh) by (destruct F6; lra). pose proof (counts_nonneg kept Hpk).
      assert (wl * counts kept <= thresh * counts kept) by (apply Qmult_le_compat_r; done).
      split; [by rewrite (unit_counts_length kept) by (intros x Hx; apply Hut, elem_of_app; by right)|]. split; [lra|].
      intros x Hx. specialize (F3 x Hx). lra.
    - assert (tiny = []) as ->.
      { destruct tiny as [|x tiny]; [done|]. destruct (F2 x ltac:(by left)) as [Hx _].
        assert (0 <= vc_val x) by (apply Hv; rewrite F1; by left). unfold thresh in Hx. cbn in Hx. change (inject_Z (-1)) with (-(1)) in Hx. lra. }
      assert (Hwl : wl == 0). { destruct F6 as [F6|F6]; [done|]. unfold thresh in F6. cbn in F6. change (inject_Z (-1)) with (-(1)) in F6. lra. }
      unfold wanted in F4. rewrite qsum_nil in F4. rewrite Hwl, F4. split; [ring|]. split; [lra|].
      intros x Hx. rewrite Hwl. apply Hv. rewrite F1. apply elem_of_app. by right. }
  destruct Hroom as (Hlen & Hcap & Hkept).
  destruct (SolveFullSort_exact (cap' - wl * inject_Z (Z.of_nat (length kept))) wl kept Hpk Hkept) as [Hlev Hg]; [by rewrite Hlen|].
  set (L := SolveFullSort _ _ _) in *. rewrite Hlen in Hg.
  assert (Htiny : given L tiny == wanted tiny).
  { unfold given, wanted. apply qsum_ext. intros x Hx. rewrite Qmin_left; [reflexivity|]. destruct (F2 x Hx). lra. }
  unfold given, wanted. rewrite !(qsum_perm _ _ _ F1), !qsum_app. fold (given L tiny) (given L kept) (wanted tiny) (wanted kept).
  rewrite Htiny, (given_shift wl L kept), (wanted_shift wl kept), Hg, F4.
  destruct (Qlt_le_dec (capacity - wanted tiny - wl * counts kept) (wanted_above wl kept)).
  - rewrite !Qmin_left by lra. ring.
  - rewrite !Qmin_right by lra. ring.
Qed.

Definition example_demands : list VC := [mkVC 10 (3 # 2); mkVC 40 2; mkVC 20 1].

Lemma ComputeWaterlevel_dist_fair_witness : exists level : Q,
  @ComputeWaterlevel Q_arith (mkOptions kFullSort false) 77 example_demands = Some level /\ level == 21 /\
  given level example_demands == Qmin 77 (wanted example_demands).
Proof.
  destruct (@ComputeWaterlevel Q_arith (mkOptions kFullSort false) 77 example_demands) as [level|] eqn:E; [|vm_compute in E; discriminate E].
  exists level. split; [reflexivity|]. split; [vm_compute in E; injection E as <-; reflexivity|].
  refine (ComputeWaterlevel_dist_fair (mkOptions kFullSort false) 77 example_demands level eq_refl _ _ _ (or_introl eq_refl) E).
  - lra.
  - intros x Hx. unfold example_demands in Hx. rewrite !elem_of_cons in Hx.
    destruct Hx as [->|[->|[->|?%not_elem_of_nil]]]; done.
  - intros x Hx. unfold example_demands in Hx. rewrite !elem_of_cons in Hx.
    destruct Hx as [->|[->|[->|?%not_elem_of_nil]]]; done.
Defined.

End Exact.

(** ** Flaws *)

Section Doubles.
#[local] Existing Instance double_arith.

Definition dvc (v n : Z) : VC := mkVC (dofZ v) (dofZ n).

(** The shortcut counts a demand once, whatever its expected count: two
    demands of 10 get 20 of a capacity of 10, where 5 each are fair. *)
Lemma tiny_shortcut_overcommits :
  ComputeWaterlevel (mkOptions kFullSort true) (dofZ 10) [dvc 10 2] = Some (dofZ 10) /\
  ComputeWaterlevel (mkOptions kFullSort false) (dofZ 10) [dvc 10 2] = Some (dofZ 5).
Proof. split; vm_compute; reflexivity. Qed.

(** The partial sort counts the demands above its range twice, as [subspan]
    takes a length and not an end: of a capacity of 70 it gives out 60, where
    the full sort finds the level 12. *)
Lemma partial_sort_underuses :
  let demands := [dvc 10 1; dvc 20 1; dvc 30 1; dvc 40 1; dvc 50 1; dvc 60 1] in
  ComputeWaterlevel (mkOptions kPartialSort false) (dofZ 70) demands = Some (dofZ 10) /\
  ComputeWaterlevel (mkOptions kFullSort false) (dofZ 70) demands = Some (dofZ 12).
Proof. split; vm_compute; reflexivity. Qed.

End Doubles.
