(* ===== verification/StepWorker.v ===== *)
(** * StepWorker: the hosts of the integration test

    src/heyp/integration/step-worker.{h,cc}: how a flow announces its name on
    the connection, what the counters measure in each step, and the threads
    of a worker while it is shut down.  The kernel cuts the data of a
    connection as it likes: [read_cut].  The steps of the threads are those
    between which another thread can run; the holder of [mu_] that matters is
    [Finish].  [accept], [read] and [send] block unless the kernel answers
    them by itself ([answers], [traffic]) or [Finish] has shut their socket
    down.  That [listen] fails, or is called after [Finish] began, and that a
    closed descriptor's number is used again, are left out. *)

From stdpp Require Import relations.
From S2P Require Import Prelude Doubles Clock.

#[local] Open Scope string_scope.
#[local] Open Scope list_scope.
#[local] Open Scope Z_scope.

(** ** The name of a flow *)

Definition kBufSize : Z := 8096.

(** A [char] is signed. *)
Definition to_schar (b : Z) : Z := if b <? 128 then b else b - 256.

(** [SendFlow]: what is sent first; [None]: [memmove] leaves the buffer. *)
Definition flow_header (name : list Z) : option (list Z) :=
  let n := Z.of_nat (length name) in
  if n + 2 <=? kBufSize
  then Some (n mod 256 :: Z.shiftr n 8 mod 256 :: name) else None.

(** What a [read] does: it fails, finds the end, or takes up to a number of
    bytes, at least one. *)
Inductive read_cut := CFail | CEof | CSome (more : nat).

Record socket := mkSocket { sdata : list Z; cuts : list read_cut }.

(** [None]: still waiting; [Some None]: the connection ended. *)
Fixpoint ReadFull (cs : list read_cut) (n : Z) (data acc : list Z) : option (option (list Z) * socket) :=
  if n <=? 0 then Some (Some acc, mkSocket data cs)
  else match cs with
       | [] => None
       | CFail :: cs => ReadFull cs n data acc
       | CEof :: cs => Some (None, mkSocket data cs)
       | CSome more :: cs =>
           match data with
           | [] => None
           | _ => let ret := Nat.min (S more) (Nat.min (Z.to_nat n) (length data)) in
                  ReadFull cs (n - Z.of_nat ret) (drop ret data) (acc ++ take ret data)
           end
       end.

(** The beginning of [RecvFlow].  [Overrun]: the name does not fit in the
    buffer, and the read writes past its end. *)
Inductive recv_start := Named (name : list Z) (s : socket) | ConnEnded | LengthError | Overrun.

Definition RecvFlow_name (s : socket) : option recv_start :=
  '(r, s) ← ReadFull (cuts s) 2 (sdata s) [];
  match r with
  | None => Some ConnEnded
  | Some buf =>
      b0 ← buf !! 0%nat; b1 ← buf !! 1%nat;
      let name_size := to_schar b0 + to_schar b1 * 256 in
      if kBufSize <? name_size then Some Overrun
      else '(r, s) ← ReadFull (cuts s) name_size (sdata s) [];
           match r with
           | None => Some ConnEnded
           | Some name => if name_size <? 0 then Some LengthError else Some (Named name s)
           end
  end.

(** Reads that fail now and then, and go on. *)
Definition no_eof (c : read_cut) : bool := match c with CEof => false | _ => true end.

Lemma ReadFull_take cs : forall n data acc r s, forallb no_eof cs = true -> (Z.to_nat n <= length data)%nat ->
  ReadFull cs n data acc = Some (r, s) ->
  r = Some (acc ++ take (Z.to_nat n) data) /\ sdata s = drop (Z.to_nat n) data /\ forallb no_eof (cuts s) = true.
Proof.
  induction cs as [|c cs IH]; intros n data acc r s Hc Hn; cbn [ReadFull]; destruct (Z.leb_spec n 0).
  1,3: intros [= <- <-]; replace (Z.to_nat n) with 0%nat by lia; cbn [take drop sdata cuts]; by rewrite app_nil_r.
  { done. }
  cbn [forallb] in Hc. apply andb_true_iff in Hc as [Hc Hcs]. destruct c as [| |more]; [by apply IH|done|].
  destruct data as [|d data]; [done|]. set (ret := Nat.min _ _). intros Hr.
  apply IH in Hr as (-> & -> & ?); [|done|rewrite length_drop; lia].
  rewrite drop_drop. replace (ret + Z.to_nat (n - Z.of_nat ret))%nat with (Z.to_nat n) by lia.
  split; [|done]. rewrite <- app_assoc. do 2 f_equal.
  rewrite <- (take_drop ret (take (Z.to_nat n) (d :: data))). f_equal.
  - rewrite take_take. f_equal. lia.
  - rewrite skipn_firstn_comm. f_equal. lia.
Qed.

(** Enough successful reads bring everything. *)
Definition is_some (c : read_cut) : bool := if c is CSome _ then true else false.

Lemma ReadFull_returns cs : forall n data acc, forallb no_eof cs = true -> (Z.to_nat n <= length data)%nat ->
  (Z.to_nat n <= length (List.filter is_some cs))%nat ->
  exists r s, ReadFull cs n data acc = Some (r, s) /\
    (length (List.filter is_some cs) - Z.to_nat n <= length (List.filter is_some (cuts s)))%nat.
Proof.
  induction cs as [|c cs IH]; intros n data acc Hc Hn Hlen; cbn [ReadFull]; destruct (Z.leb_spec n 0);
    try (eexists _, _; split; [reflexivity|]; cbn; lia).
  - cbn in Hlen. lia.
  - cbn [forallb] in Hc. apply andb_true_iff in Hc as [Hc Hcs]. destruct c as [| |more]; [by apply IH|done|].
    destruct data as [|d data]; [cbn in Hn; lia|]. set (ret := Nat.min _ _).
    assert (Hret : (1 <= ret <= Z.to_nat n)%nat) by (unfold ret; cbn [length]; lia).
    assert (Hret' : (ret <= length (d :: data))%nat) by (unfold ret; lia). clearbody ret.
    destruct (IH (n - Z.of_nat ret) (drop ret (d :: data)) (acc ++ take ret (d :: data))) as (r & s & -> & Hs);
      [done|rewrite length_drop; lia|cbn [List.filter is_some length] in Hlen; lia|].
    exists r, s. split; [done|]. cbn [List.filter is_some length] in *. lia.
Qed.

(** A flow's name arrives as it was sent, with what follows it left on the
    connection, however the kernel cuts the data and however often a read
    fails, provided that the low byte of its length is below 128. *)
Theorem flow_name_roundtrip name hdr rest cs : flow_header name = Some hdr -> Z.of_nat (length name) mod 256 < 128 ->
  forallb no_eof cs = true -> (length hdr <= length (List.filter is_some cs))%nat ->
  exists cs', RecvFlow_name (mkSocket (hdr ++ rest) cs) = Some (Named name (mkSocket rest cs')).
Proof.
  unfold flow_header. cbv zeta. destruct (Z.leb_spec (Z.of_nat (length name) + 2) kBufSize) as [Hfit|]; [|done]. intros [= <-] Hlow Hcs Hlen.
  assert (Hsize : to_schar (Z.of_nat (length name) mod 256) + to_schar (Z.shiftr (Z.of_nat (length name)) 8 mod 256) * 256 =
    Z.of_nat (length name)).
  { unfold kBufSize in Hfit. rewrite Z.shiftr_div_pow2 by lia. change (2 ^ 8) with 256.
    assert (Z.of_nat (length name) / 256 < 32) by (apply Z.div_lt_upper_bound; lia).
    pose proof (Z.div_pos (Z.of_nat (length name)) 256 ltac:(lia) ltac:(lia)). unfold to_schar.
    rewrite (Z.mod_small (_ / 256)) by lia. destruct (Z.ltb_spec (Z.of_nat (length name) mod 256) 128); [|lia].
    destruct (Z.ltb_spec (Z.of_nat (length name) / 256) 128); [|lia].
    pose proof (Z.div_mod (Z.of_nat (length name)) 256). lia. }
  unfold RecvFlow_name. cbn [cuts sdata app].
  set (b0 := Z.of_nat (length name) mod 256) in *. set (b1 := Z.shiftr (Z.of_nat (length name)) 8 mod 256) in *.
  cbn [length] in Hlen.
  destruct (ReadFull_returns cs 2 (b0 :: b1 :: name ++ rest) []) as (r & s & E & Hs);
    [done|change (Z.to_nat 2) with 2%nat; cbn [length]; lia|change (Z.to_nat 2) with 2%nat; lia|].
  change (Z.to_nat 2) with 2%nat in Hs.
  rewrite E. apply ReadFull_take in E as (-> & Hd & Hcs'); [|done|cbn; lia].
  change (Z.to_nat 2) with 2%nat in *. cbn [app firstn skipn] in *. cbn [mbind option_bind lookup list_lookup]. rewrite Hsize. rewrite drop_0 in Hd.
  rewrite (proj2 (Z.ltb_ge kBufSize _)) by lia.
  destruct (ReadFull_returns (cuts s) (Z.of_nat (length name)) (sdata s) []) as (r & s' & E' & _);
    [done|rewrite Nat2Z.id, Hd, length_app; lia|rewrite Nat2Z.id; lia|].
  rewrite E'. apply ReadFull_take in E' as (-> & Hd' & _); [|done|rewrite Nat2Z.id, Hd, length_app; lia].
  cbn [mbind option_bind]. rewrite (proj2 (Z.ltb_ge _ _)) by lia. rewrite Nat2Z.id, Hd in *.
  rewrite drop_app_length' in Hd' by done. rewrite take_app_length' by done.
  exists (cuts s'). by destruct s' as [d c]; cbn in *; subst.
Qed.

Lemma flow_name_roundtrip_witness :
  exists cs', RecvFlow_name (mkSocket ([3; 0; 102; 103; 49] ++ [7; 7; 7]) [CSome 0; CFail; CSome 9; CSome 0; CFail; CSome 0; CSome 0]) =
    Some (Named [102; 103; 49] (mkSocket [7; 7; 7] cs')).
Proof. apply (flow_name_roundtrip [102; 103; 49] [3; 0; 102; 103; 49]); [reflexivity..|cbn; lia]. Defined.

(** The length 128 is read as -128, and no string can be made of it. *)
Lemma long_name_fails : exists hdr, flow_header (replicate 128 120) = Some hdr /\
  RecvFlow_name (mkSocket hdr (replicate 4 (CSome 200))) = Some LengthError.
Proof. exists (128 :: 0 :: replicate 128 120). split; vm_compute; reflexivity. Qed.

(** ** The counters *)

Section Measure.
Context `{Clock}.

(** A flow's name and whether it is received. *)
Notation key := (string * bool)%type.

Record CounterAndBps := mkCounterAndBps { cum_bytes : Z; step_bps : list (string * double) }.

Record HostWorker := mkHostWorker {
  counters_ : gmap key Z;
  measurements_ : gmap key CounterAndBps;
  last_step_time_ : Time;
  got_metrics_ : bool }.

(** [Go]. *)
Definition started_worker (now : Time) : HostWorker := mkHostWorker ∅ ∅ now false.

Definition GetCounter (k : key) (w : HostWorker) : HostWorker :=
  match counters_ w !! k with
  | None => mkHostWorker (<[k := 0]> (counters_ w)) (measurements_ w) (last_step_time_ w) (got_metrics_ w)
  | Some _ => w
  end.

(** After each read and each send. *)
Definition add_bytes (k : key) (ret : Z) (w : HostWorker) : HostWorker :=
  if 0 <? ret
  then mkHostWorker (alter (fun c => i64 (c + ret)) k (counters_ w)) (measurements_ w) (last_step_time_ w) (got_metrics_ w)
  else w.

Definition collect_one (label : string) (elapsed_sec : double) (ms : gmap key CounterAndBps) (kc : key * Z) : gmap key CounterAndBps :=
  let measured := default (mkCounterAndBps 0 []) (ms !! fst kc) in
  let bps := ddiv (dofZ (i64 (8 * i64 (snd kc - cum_bytes measured)))) elapsed_sec in
  <[fst kc := mkCounterAndBps (snd kc) (step_bps measured ++ [(label, bps)])]> ms.

Definition CollectStep (label : string) (now : Time) (w : HostWorker) : HostWorker :=
  let elapsed_sec := ToDoubleSeconds (time_diff now (last_step_time_ w)) in
  mkHostWorker (counters_ w) (foldl (collect_one label elapsed_sec) (measurements_ w) (map_to_list (counters_ w))) now (got_metrics_ w).

Record Metric := mkMetric { m_name : string; m_value : double }.

Definition metric (k : key) (lb : string * double) : Metric :=
  mkMetric (fst k +:+ "/" +:+ fst lb +:+ (if snd k then "/recv" else "/send")) (snd lb).

(** What [Finish] returns. *)
Definition Finish_metrics (w : HostWorker) : list Metric :=
  concat (map (fun km => map (metric (fst km)) (step_bps (snd km))) (map_to_list (measurements_ w))).

(** What the threads and the owner do, in any order. *)
Inductive worker_event := NewFlow (k : key) | Moved (k : key) (ret : Z) | Step (label : string) (now : Time).

Definition do_event (w : HostWorker) (e : worker_event) : HostWorker :=
  match e with NewFlow k => GetCounter k w | Moved k ret => add_bytes k ret w | Step label now => CollectStep label now w end.

Definition run_worker (t0 : Time) (es : list worker_event) : HostWorker := foldl do_event (started_worker t0) es.

(** What is meant: the bytes of a step divided by its time, in each step in
    which the flow is there. *)
Fixpoint step_rates (k : key) (present : bool) (bytes : Z) (t : Time) (es : list worker_event) : list (string * double) :=
  match es with
  | [] => []
  | NewFlow k' :: es => step_rates k (present || bool_decide (k = k')) bytes t es
  | Moved k' ret :: es =>
      step_rates k present (if present && bool_decide (k = k') && (0 <? ret) then bytes + ret else bytes) t es
  | Step label now :: es =>
      (if present then [(label, ddiv (dofZ (8 * bytes)) (ToDoubleSeconds (time_diff now t)))] else []) ++
      step_rates k present 0 now es
  end.

Fixpoint moved_bytes (es : list worker_event) : Z :=
  match es with [] => 0 | Moved _ ret :: es => Z.max 0 ret + moved_bytes es | _ :: es => moved_bytes es end.

Lemma moved_bytes_nonneg es : 0 <= moved_bytes es.
Proof. induction es as [|[] es IH]; cbn [moved_bytes]; lia. Qed.

Lemma collect_lookup label elapsed k : forall l ms, NoDup l.*1 ->
  foldl (collect_one label elapsed) ms l !! k =
  match (list_to_map l : gmap key Z) !! k with
  | None => ms !! k
  | Some cur => let m := default (mkCounterAndBps 0 []) (ms !! k) in
      Some (mkCounterAndBps cur (step_bps m ++ [(label, ddiv (dofZ (i64 (8 * i64 (cur - cum_bytes m)))) elapsed)]))
  end.
Proof.
  induction l as [|[k' c] l IH]; intros ms Hnd; cbn [foldl list_to_map foldr fst snd]; [done|].
  cbn [fmap list_fmap fst] in Hnd. apply NoDup_cons in Hnd as [Hk' Hnd]. rewrite (IH _ Hnd). unfold collect_one at 1 2. cbn [fst snd].
  destruct (decide (k = k')) as [->|Hne].
  - rewrite (not_elem_of_list_to_map_1 l k') by done. rewrite lookup_insert_eq.
    change (list_to_map ((k', c) :: l) : gmap key Z) with (<[k' := c]> (list_to_map l : gmap key Z)).
    by rewrite !lookup_insert_eq.
  - change (list_to_map ((k', c) :: l) : gmap key Z) with (<[k' := c]> (list_to_map l : gmap key Z)).
    by rewrite !lookup_insert_ne by done.
Qed.

Lemma CollectStep_lookup label now w k :
  measurements_ (CollectStep label now w) !! k =
  match counters_ w !! k with
  | None => measurements_ w !! k
  | Some cur => let m := default (mkCounterAndBps 0 []) (measurements_ w !! k) in
      Some (mkCounterAndBps cur (step_bps m ++
        [(label, ddiv (dofZ (i64 (8 * i64 (cur - cum_bytes m)))) (ToDoubleSeconds (time_diff now (last_step_time_ w))))]))
  end.
Proof. cbn [CollectStep measurements_]. rewrite collect_lookup by apply NoDup_fst_map_to_list. by rewrite list_to_map_to_list. Qed.

(** A flow's part of the state: it is measured after it has a counter, which
    is the bytes at the last step and those since. *)
Definition measured_ok (w : HostWorker) (k : key) (present : bool) (bytes total : Z) : Prop :=
  let m := default (mkCounterAndBps 0 []) (measurements_ w !! k) in
  0 <= cum_bytes m /\ 0 <= bytes /\ cum_bytes m + bytes <= total /\
  if present then counters_ w !! k = Some (cum_bytes m + bytes)
  else counters_ w !! k = None /\ measurements_ w !! k = None /\ bytes = 0.

Lemma steps_measured k : forall es w present bytes total, measured_ok w k present bytes total -> 8 * (total + moved_bytes es) < 2 ^ 63 ->
  from_option step_bps [] (measurements_ (foldl do_event w es) !! k) =
  from_option step_bps [] (measurements_ w !! k) ++ step_rates k present bytes (last_step_time_ w) es.
Proof.
  induction es as [|e es IH]; intros w present bytes total (Hc & Hb & Ht & Hw) Hbound; cbn [foldl step_rates]; [by rewrite app_nil_r|].
  pose proof (moved_bytes_nonneg es) as Hes. set (m := default _ _) in *.
  destruct e as [k'|k' ret|label now]; cbn [do_event moved_bytes] in *.
  - assert (Hsame : measurements_ (GetCounter k' w) = measurements_ w /\ last_step_time_ (GetCounter k' w) = last_step_time_ w)
      by (unfold GetCounter; by destruct (counters_ w !! k')). destruct Hsame as [Hm Hl].
    rewrite (IH _ (present || bool_decide (k = k')) bytes total), Hm, Hl; [done| |done].
    unfold measured_ok. rewrite Hm. fold m. split_and!; [lia..|]. unfold GetCounter.
    destruct present; cbn [orb].
    + destruct (counters_ w !! k') eqn:Ek; [done|]. cbn [counters_]. rewrite lookup_insert_ne by congruence. done.
    + destruct Hw as (Hn & Hmn & ->). case_bool_decide as Hk.
      * subst k'. rewrite Hn. cbn [counters_]. rewrite lookup_insert_eq. unfold m. by rewrite Hmn.
      * destruct (counters_ w !! k'); [done|]. cbn [counters_]. by rewrite lookup_insert_ne by congruence.
  - assert (Hsame : measurements_ (add_bytes k' ret w) = measurements_ w /\ last_step_time_ (add_bytes k' ret w) = last_step_time_ w)
      by (unfold add_bytes; by destruct (0 <? ret)). destruct Hsame as [Hm Hl].
    erewrite (IH _ present _ (total + Z.max 0 ret)), Hm, Hl; [done| |lia].
    unfold measured_ok. rewrite Hm. fold m. unfold add_bytes. destruct (Z.ltb_spec 0 ret) as [Hr|Hr]; cbn [counters_].
    + destruct present; cbn [andb].
      * case_bool_decide as Hk; cbn [andb]; (split_and!; [lia..|]).
        -- subst k'. rewrite lookup_alter_eq, Hw. cbn. f_equal. rewrite i64_id by (unfold in_i64; lia). lia.
        -- by rewrite lookup_alter_ne by congruence.
      * destruct Hw as (Hn & Hmn & ->). split_and!; [lia..| |done|done].
        destruct (decide (k' = k)) as [->|]; [by rewrite lookup_alter_eq, Hn|by rewrite lookup_alter_ne].
    + rewrite andb_false_r. split_and!; [lia..|done].
  - fold (moved_bytes es) in Hbound.
    rewrite (IH _ present 0 total); [| |done].
    + cbn [CollectStep last_step_time_]. rewrite CollectStep_lookup. destruct present.
      * rewrite Hw. cbn [from_option step_bps]. fold m. rewrite <- app_assoc. f_equal; [unfold m; by destruct (measurements_ w !! k)|].
        cbn [app]. do 4 f_equal. replace (cum_bytes m + bytes - cum_bytes m) with bytes by lia. by rewrite (i64_id bytes), i64_id by (unfold in_i64; lia).
      * destruct Hw as (-> & -> & _). done.
    + unfold measured_ok. rewrite CollectStep_lookup. cbn [CollectStep counters_]. destruct present.
      * rewrite Hw. cbn [from_option id cum_bytes]. fold m. split_and!; [lia..|]. f_equal. lia.
      * destruct Hw as (-> & Hmn & ->). unfold m in *. rewrite Hmn in *. done.
Qed.


End Measure.


(** ** Ending a worker *)

(** The thread of [Serve], once [listen] has succeeded. *)
Inductive serve_pc :=
  | Accepting    (* in [accept] *)
  | Accepted     (* about to lock [mu_] *)
  | ServeDone.

(** A thread of [RecvFlow] or [SendFlow]. *)
Inductive flow_pc :=
  | Naming       (* in a [read] of [ReadFull] *)
  | HasName      (* about to lock [mu_] for its counter *)
  | Sending      (* in the [send] of the name *)
  | WaitGo       (* in [WaitForNotification] *)
  | Checking     (* about to look at [shutting_down_] *)
  | Moving       (* in the [read] or [send] of the loop *)
  | Spinning     (* in [ReadFull], whose reads fail *)
  | Exited.

#[export] Instance flow_pc_eq_dec : EqDecision flow_pc.
Proof. solve_decision. Defined.

(** The owner in [Finish]: [Closing i] holds [mu_] and closes the descriptor
    of the flow of index i, [Joining i] joins its thread. *)
Inductive owner_pc := NotYet | Stored | NotServing | Closing (i : nat) | JoinServe | Joining (i : nat) | Finished.

(** What the kernel still gives by itself: [answers] of [accept] (a
    connection, or an error) and [traffic], a number of calls of [read] and
    [send] that return.  Every other call blocks until its socket is shut
    down.  [closed]: the flows below this index are. *)
Record threads := mkThreads {
  owner : owner_pc; serving : serve_pc; flows : list flow_pc;
  shutting_down : bool; listening : bool; closed : nat; go : bool; answers : list bool; traffic : nat }.

(** The mutex is free, but for the critical sections that are one step. *)
Definition mu_free (s : threads) : bool := match owner s with Closing _ | JoinServe | Joining _ => false | _ => true end.

Definition set_serving (p : serve_pc) (s : threads) : threads :=
  mkThreads (owner s) p (flows s) (shutting_down s) (listening s) (closed s) (go s) (answers s) (traffic s).
Definition set_flow (i : nat) (p : flow_pc) (s : threads) : threads :=
  mkThreads (owner s) (serving s) (<[i := p]> (flows s)) (shutting_down s) (listening s) (closed s) (go s) (answers s) (traffic s).
Definition push_flow (p : flow_pc) (s : threads) : threads :=
  mkThreads (owner s) (serving s) (flows s ++ [p]) (shutting_down s) (listening s) (closed s) (go s) (answers s) (traffic s).
Definition set_owner (p : owner_pc) (s : threads) : threads :=
  mkThreads p (serving s) (flows s) (shutting_down s) (listening s) (closed s) (go s) (answers s) (traffic s).
Definition set_answers (l : list bool) (s : threads) : threads :=
  mkThreads (owner s) (serving s) (flows s) (shutting_down s) (listening s) (closed s) (go s) l (traffic s).
Definition set_traffic (n : nat) (s : threads) : threads :=
  mkThreads (owner s) (serving s) (flows s) (shutting_down s) (listening s) (closed s) (go s) (answers s) n.

(** A flow's blocking call returns because its peer, or the kernel, did
    something: part of the name came or a read failed, the name is there, the
    connection ended, the name was sent or was not, bytes were moved. *)
Inductive call_returns : flow_pc -> flow_pc -> Prop :=
  | name_part : call_returns Naming Naming
  | name_read : call_returns Naming HasName
  | name_ends : call_returns Naming Exited
  | name_sent : call_returns Sending WaitGo
  | name_not_sent : call_returns Sending Exited
  | bytes_moved : call_returns Moving Checking.

(** It returns because the flow's descriptor was shut down and closed: a read
    finds the end, or fails. *)
Inductive closed_returns : flow_pc -> flow_pc -> Prop :=
  | name_shut : closed_returns Naming Exited
  | name_fails : closed_returns Naming Spinning
  | name_send_fails : closed_returns Sending Exited
  | move_fails : closed_returns Moving Checking.

(** What a flow's thread does without blocking in a call on its descriptor. *)
Inductive flow_step (s : threads) : flow_pc -> flow_pc -> Prop :=
  | counter_found : mu_free s = true -> flow_step s HasName Checking
  | go_seen : go s = true -> flow_step s WaitGo Checking
  | loop_on : shutting_down s = false -> flow_step s Checking Moving
  | loop_ends : shutting_down s = true -> flow_step s Checking Exited.

Inductive step (s : threads) : threads -> Prop :=
  | accept l : serving s = Accepting -> listening s = true -> answers s = true :: l ->
      step s (set_answers l (set_serving Accepted s))
  | accept_error l : serving s = Accepting -> answers s = false :: l ->
      step s (set_answers l (set_serving ServeDone s))
  | accept_shut : serving s = Accepting -> listening s = false -> step s (set_serving ServeDone s)
  | serve_flow : serving s = Accepted -> mu_free s = true -> step s (push_flow Naming (set_serving Accepting s))
  | flow_moves i p q : flows s !! i = Some p -> flow_step s p q -> step s (set_flow i q s)
  | flow_returns i p q n : flows s !! i = Some p -> traffic s = S n -> call_returns p q ->
      step s (set_traffic n (set_flow i q s))
  | flow_closed i p q : flows s !! i = Some p -> (i < closed s)%nat -> closed_returns p q -> step s (set_flow i q s)
  | init_flow : owner s = NotYet -> step s (push_flow Sending s)
  | notify_go : owner s = NotYet -> go s = false ->
      step s (mkThreads (owner s) (serving s) (flows s) (shutting_down s) (listening s) (closed s) true (answers s) (traffic s))
  | finish_store : owner s = NotYet ->
      step s (mkThreads Stored (serving s) (flows s) true (listening s) (closed s) (go s) (answers s) (traffic s))
  | finish_unlisten : owner s = Stored ->
      step s (mkThreads NotServing (serving s) (flows s) (shutting_down s) false (closed s) (go s) (answers s) (traffic s))
  | finish_lock : owner s = NotServing -> step s (set_owner (Closing 0) s)
  | finish_close i : owner s = Closing i -> (i < length (flows s))%nat ->
      step s (mkThreads (Closing (S i)) (serving s) (flows s) (shutting_down s) (listening s) (S i) (go s) (answers s) (traffic s))
  | finish_closed i : owner s = Closing i -> i = length (flows s) -> step s (set_owner JoinServe s)
  | finish_joined_serve : owner s = JoinServe -> serving s = ServeDone -> step s (set_owner (Joining 0) s)
  | finish_joined i : owner s = Joining i -> flows s !! i = Some Exited -> step s (set_owner (Joining (S i)) s)
  | finish_returns i : owner s = Joining i -> i = length (flows s) -> step s (set_owner Finished s).

(** [Create], with what [accept] will answer and the calls that will return. *)
Definition new_worker (l : list bool) (n : nat) : threads := mkThreads NotYet Accepting [] false true 0 false l n.

(** In the loop of [RecvFlow] or [SendFlow], or after it. *)
Definition in_loop (p : flow_pc) : bool := match p with Checking | Moving | Exited => true | _ => false end.

(** [Finish] was just entered, every flow is past its start, and nobody
    connects any more; a flow may be blocked in its call for good. *)
Definition settled (s : threads) : Prop :=
  owner s = Stored /\ shutting_down s = true /\ closed s = 0%nat /\ true ∉ answers s /\ serving s <> Accepted /\
  forallb in_loop (flows s) = true.

(** How far [Finish] has come, and what it has shut down on the way. *)
Definition owner_ok (s : threads) : Prop :=
  let n := length (flows s) in
  match owner s with
  | NotYet => False
  | Stored => closed s = 0%nat
  | NotServing => listening s = false /\ closed s = 0%nat
  | Closing i => listening s = false /\ closed s = i /\ (i <= n)%nat
  | JoinServe => listening s = false /\ closed s = n
  | Joining i => closed s = n /\ (i <= n)%nat
  | Finished => True
  end.

(** Kept by every step from there. *)
Definition ending (s : threads) : Prop :=
  shutting_down s = true /\ true ∉ answers s /\ serving s <> Accepted /\ forallb in_loop (flows s) = true /\ owner_ok s.

Definition owner_left (s : threads) : nat :=
  let n := length (flows s) in
  match owner s with
  | NotYet => 0 | Stored => 5 + 2 * n | NotServing => 4 + 2 * n | Closing i => 3 + n + (n - i)
  | JoinServe => 2 + n | Joining i => 1 + n - i | Finished => 0
  end.

Definition flow_left (p : flow_pc) : nat := match p with Moving => 2 | Checking => 1 | _ => 0 end.

Fixpoint flows_left (l : list flow_pc) : nat := match l with [] => 0 | p :: l => flow_left p + flows_left l end.

Definition steps_left (s : threads) : nat :=
  owner_left s + (match serving s with Accepting => 1 | _ => 0 end) + flows_left (flows s).

Lemma flows_left_bound l : (flows_left l <= 2 * length l)%nat.
Proof. induction l as [|[] l IH]; cbn [flows_left flow_left length]; lia. Qed.

Lemma flow_left_insert l : forall i p q, l !! i = Some p -> 
  (flows_left (<[i := q]> l) + flow_left p = flows_left l + flow_left q)%nat.
Proof.
  induction l as [|x l IH]; intros [|i] p q Hi; [done..| |]; simpl in Hi.
  - injection Hi as ->. cbn. lia.
  - specialize (IH i p q Hi). change (<[S i := q]> (x :: l)) with (x :: <[i := q]> l). cbn [flows_left]. lia.
Qed.

Lemma in_loop_insert l i q : forallb in_loop l = true -> in_loop q = true -> forallb in_loop (<[i := q]> l) = true.
Proof.
  revert i. induction l as [|x l IH]; intros [|i] Hl Hq; [done..| |]; cbn in *; apply andb_true_iff in Hl as [Hx Hl].
  - by rewrite Hq, Hl.
  - rewrite Hx. by apply IH.
Qed.

Lemma in_loop_lookup l i p : forallb in_loop l = true -> l !! i = Some p -> in_loop p = true.
Proof. intros Hl Hi. apply (proj1 (forallb_forall _ _) Hl), list_elem_of_In. by eapply list_elem_of_lookup_2. Qed.

(** What moves a flow that is in its loop brings it closer to its end. *)
Lemma ending_flow s i p q : ending s -> flows s !! i = Some p -> flow_step s p q \/ call_returns p q \/ closed_returns p q ->
  ending (set_flow i q s) /\ (steps_left (set_flow i q s) < steps_left s)%nat.
Proof.
  intros (Hsh & Ha & Hs & Hf & Ho) Hi Hpq. pose proof (in_loop_lookup _ _ _ Hf Hi) as Hp.
  assert (Hq : in_loop q = true /\ (flow_left q < flow_left p)%nat).
  { destruct Hpq as [Hpq|[Hpq|Hpq]]; destruct Hpq; try done; try congruence; cbn; (split; [done|lia]). }
  destruct Hq as [Hq Hlt]. pose proof (flow_left_insert _ _ _ q Hi) as Hsum. split.
  - unfold ending, owner_ok in *. cbn. rewrite length_insert. split_and!; try done. by apply in_loop_insert.
  - unfold steps_left, owner_left. cbn. rewrite length_insert. destruct (owner s), (serving s); lia.
Qed.

Lemma ending_step s s' : ending s -> step s s' -> ending s' /\ (steps_left s' < steps_left s)%nat.
Proof.
  intros He Hst. assert (He' := He). destruct He' as (Hsh & Ha & Hs & Hf & Ho).
  destruct Hst as [l Hc _ Hl|l Hc Hl|Hc _|Hc|i p q Hi Hq|i p q n Hi Ht Hq|i p q Hi _ Hq|Hc|Hc|Hc|Hc|Hc|i Hc Hi|i Hc Hi|Hc _|i Hc Hi|i Hc _].
  1: rewrite Hl in Ha; by destruct Ha; left.
  all: unfold ending, owner_ok in Ho.
  all: try congruence; try (rewrite Hc in Ho; done).
  3: by apply (ending_flow s i p q); auto.
  3: by apply (ending_flow s i p q) in Hi; auto.
  3: by apply (ending_flow s i p q); auto.
  all: unfold ending, owner_ok, steps_left, owner_left; cbn; rewrite ?Hc in *.
  1,2: rewrite ?Hl in Ha; split; [split_and!; try done; by intros ?; apply Ha; right|destruct (owner s); lia].
  all: try (apply lookup_lt_Some in Hi).
  all: split; [split_and!; try done; naive_solver lia|lia].
Qed.

Lemma ending_moves s : ending s -> owner s = Finished \/ exists s', step s s'.
Proof.
  intros (Hsh & Ha & Hs & Hf & Ho). unfold owner_ok in Ho. destruct (owner s) as [| | |i| |i|] eqn:E; [done| | | | | |by left]; right.
  - eexists. by apply finish_unlisten.
  - eexists. by apply finish_lock.
  - destruct (decide (i = length (flows s))); eexists; [by apply (finish_closed _ i)|apply (finish_close _ i); [done|lia]].
  - destruct (serving s) eqn:Es; [|done|].
    + eexists. apply accept_shut; [done|apply Ho].
    + eexists. by apply finish_joined_serve.
  - destruct (flows s !! i) as [p|] eqn:Ei.
    + pose proof (in_loop_lookup _ _ _ Hf Ei) as Hp. pose proof (lookup_lt_Some _ _ _ Ei). destruct p; try done.
      * eexists. eapply flow_moves; [exact Ei|by apply loop_ends].
      * eexists. eapply flow_closed; [exact Ei|lia|apply move_fails].
      * eexists. by apply (finish_joined _ i).
    + apply lookup_ge_None in Ei. eexists. apply (finish_returns _ i); [done|lia].
Qed.

(** C20: once every flow is past its start and no peer connects any more,
    [Finish] returns, also where [accept] and the reads and sends of the
    flows block until their sockets are shut down: in no order of the steps
    of the threads do they take more than four times as many steps as there
    are flows, and six, and where no thread can move [Finish] has returned. *)
Theorem Finish_returns s n s' : settled s -> nsteps step n s s' ->
  (n <= 6 + 4 * length (flows s))%nat /\ (owner s' = Finished \/ exists s'', step s' s'').
Proof.
  intros (Ho & Hsh & Hc & Ha & Hs & Hf) Hn.
  assert (He : ending s) by (unfold ending, owner_ok; rewrite Ho; by split_and!).
  assert (Hall : ending s' /\ (n + steps_left s' <= steps_left s)%nat).
  { clear - He Hn. induction Hn as [s|n s s1 s' H1 _ IH]; [split; [done|lia]|].
    destruct (ending_step _ _ He H1) as [He1 Hl]. destruct (IH He1). split; [done|lia]. }
  destruct Hall as [He' Hl]. split; [|by apply ending_moves].
  pose proof (flows_left_bound (flows s)). unfold steps_left, owner_left in Hl. rewrite Ho in Hl. destruct (serving s); lia.
Qed.

(** A worker with one flow that is blocked in its call, and one whose
    connection ended before its name came; nothing comes from the kernel any
    more. *)
Definition blocked_worker : threads := mkThreads Stored Accepting [Moving; Exited] true true 0 true [] 0.

Lemma Finish_returns_witness :
  (1 <= 6 + 4 * length (flows blocked_worker))%nat /\
  exists s'', step (mkThreads NotServing Accepting [Moving; Exited] true false 0 true [] 0) s''.
Proof.
  destruct (Finish_returns blocked_worker 1 (mkThreads NotServing Accepting [Moving; Exited] true false 0 true [] 0)) as [Hn Hs].
  - split_and!; try done. by apply not_elem_of_nil.
  - eapply nsteps_l; [by apply finish_unlisten|apply nsteps_O].
  - split; [exact Hn|]. destruct Hs as [Hs|Hs]; [discriminate Hs|exact Hs].
Defined.

Ltac next_step H := eapply rtc_l; [by eapply H|cbn].
Ltac next_move H i := eapply rtc_l; [by eapply (H _ i); [done|constructor]|cbn].
Ltac next_return H i := eapply rtc_l; [by eapply (flow_returns _ i); [done|done|apply H]|cbn].

Lemma blocked_worker_reached : rtc step (new_worker [true] 2) blocked_worker.
Proof.
  unfold new_worker. next_step init_flow. next_return name_sent 0%nat. next_step accept. next_step serve_flow.
  next_return name_ends 1%nat. next_step notify_go. next_move flow_moves 0%nat. next_move flow_moves 0%nat.
  next_step finish_store. apply rtc_refl.
Qed.

(** Before the sockets are shut down nothing but [Finish] moves there. *)
Lemma blocked_worker_waits s : step blocked_worker s -> owner s = NotServing.
Proof.
  intros H. destruct H as [l|l|Hc Hl|Hc|i p q Hi Hq|i p q n Hi Ht Hq|i p q Hi Hc Hq|Hc|Hc|Hc|Hc|Hc|i Hc|i Hc|Hc|i Hc|i Hc]; try done.
  - destruct i as [|[|i]]; cbn in Hi; simplify_eq; by inversion Hq.
  - cbn in Hc. lia.
Qed.

(** ** Where it does not return *)

(** [Finish] joins the other threads while it holds [mu_]: what waits for the
    lock then waits forever. *)
Definition stuck_flow (s : threads) (p : flow_pc) : Prop :=
  match p with
  | HasName => mu_free s = false
  | WaitGo => go s = false /\ owner s <> NotYet
  | Spinning => True
  | _ => False
  end.

(** What [Finish] is past in these states it does not go back to. *)
Definition stuck_serve (s : threads) : Prop := serving s = Accepted /\ mu_free s = false /\ forall i, owner s <> Joining i.

Definition hopeless (s : threads) : Prop :=
  owner s <> Finished /\
  (stuck_serve s \/ exists i p, flows s !! i = Some p /\ stuck_flow s p /\
    match owner s with Joining j => (j <= i)%nat | _ => True end).

Lemma stuck_flow_stays s p q : stuck_flow s p -> ~ (flow_step s p q \/ call_returns p q \/ closed_returns p q).
Proof. intros Hp [Hq|[Hq|Hq]]; destruct Hq; cbn in Hp; try done; [congruence|destruct Hp; congruence]. Qed.

Lemma hopeless_flow s i p q : hopeless s -> flows s !! i = Some p -> flow_step s p q \/ call_returns p q \/ closed_returns p q ->
  hopeless (set_flow i q s).
Proof.
  intros [Ho [Hs|(j & p' & Hj & Hp & Hw)]] Hi Hq; (split; [done|]); [by left|right].
  exists j, p'. split_and!; [|by destruct p'|done]. cbn. rewrite list_lookup_insert_ne; [done|]. intros ->.
  rewrite Hj in Hi. injection Hi as <-. by eapply stuck_flow_stays.
Qed.

Lemma stuck_flow_kept s s' p : (mu_free s = false -> mu_free s' = false) ->
  (owner s <> NotYet -> owner s' <> NotYet /\ go s' = go s) -> stuck_flow s p -> stuck_flow s' p.
Proof. intros Hm Hg. destruct p; cbn; try done. intros [Hgo Ho]. destruct (Hg Ho) as [? ->]. done. Qed.

Lemma hopeless_step s s' : hopeless s -> step s s' -> hopeless s'.
Proof.
  intros Hh Hst. assert (Hh' := Hh). destruct Hh' as [Ho Hh'].
  destruct Hst as [l Hc|l Hc|Hc|Hc Hm|i p q Hi Hq|i p q n Hi Ht Hq|i p q Hi _ Hq|Hc|Hc Hg|Hc|Hc|Hc|i Hc Hi|i Hc Hi|Hc Hd|i Hc Hi|i Hc Hi].
  5,7: apply (hopeless_flow s i p q); auto.
  5: by apply (hopeless_flow s i p q) in Hi; auto.
  all: destruct Hh' as [(Hs & Hf & Hj)|(k & p & Hk & Hp & Hw)].
  all: unfold mu_free in *; rewrite ?Hc in *; try done; try (by destruct (Hj i)); try congruence.
  all: try (pose proof (lookup_lt_Some _ _ _ Hk)).
  all: try (split; [cbn; congruence|left; split_and!; unfold mu_free; cbn; rewrite ?Hc; done]).
  all: split; [cbn; try congruence; try lia|right; exists k, p; split_and!].
  all: try (eapply stuck_flow_kept, Hp; unfold mu_free; cbn; rewrite ?Hc; done).
  all: cbn; try done; try (by apply lookup_app_l_Some); rewrite ?Hc; try done; try lia.
  assert (i <> k) by (intros ->; rewrite Hi in Hk; by injection Hk as <-). lia.
Qed.

(** Whatever the threads do then, [Finish] does not return. *)
Lemma hopeless_forever s s' : hopeless s -> rtc step s s' -> owner s' <> Finished.
Proof. intros Hs H. induction H as [s|s s1 s' H1 _ IH]; [by destruct Hs|]. by apply IH, (hopeless_step s). Qed.

(** A peer connects while [Finish] takes the lock: the thread of [Serve]
    waits for [mu_], and [Finish], which holds it, for that thread. *)
Lemma Finish_deadlocks_with_Serve : exists s, rtc step (new_worker [true] 0) s /\ hopeless s.
Proof.
  exists (mkThreads JoinServe Accepted [] true false 0 false [] 0). split; [|by split; [|left]].
  unfold new_worker. next_step accept. next_step finish_store. next_step finish_unlisten. next_step finish_lock.
  next_step finish_closed. apply rtc_refl.
Qed.

(** So does a flow that has read its name and looks for its counter. *)
Lemma Finish_deadlocks_with_RecvFlow : exists s, rtc step (new_worker [true] 1) s /\ hopeless s /\ serving s = ServeDone.
Proof.
  exists (mkThreads JoinServe ServeDone [HasName] true false 1 false [] 0). split; [|split; [|done]].
  - unfold new_worker. next_step accept. next_step serve_flow. next_return name_read 0%nat.
    next_step finish_store. next_step finish_unlisten. next_step accept_shut. next_step finish_lock.
    eapply rtc_l; [eapply (finish_close _ 0); [done|cbn; lia]|cbn]. next_step finish_closed. apply rtc_refl.
  - split; [done|right]. by exists 0%nat, HasName.
Qed.

(** [InitFlows] without [Go], as after an error: the sender waits. *)
Lemma Finish_without_Go : exists s, rtc step (new_worker [] 1) s /\ hopeless s /\ flows s = [WaitGo].
Proof.
  exists (mkThreads Stored Accepting [WaitGo] true true 0 false [] 0). split; [|split; [|done]].
  - unfold new_worker. next_step init_flow. next_return name_sent 0%nat. next_step finish_store. apply rtc_refl.
  - split; [done|right]. by exists 0%nat, WaitGo.
Qed.

(** A flow whose name has not come when its descriptor is closed reads from
    it forever. *)
Lemma ReadFull_of_closed_spins : exists s, rtc step (new_worker [true] 0) s /\ hopeless s /\ flows s = [Spinning].
Proof.
  exists (mkThreads JoinServe ServeDone [Spinning] true false 1 false [] 0). split; [|split; [|done]].
  - unfold new_worker. next_step accept. next_step serve_flow.
    next_step finish_store. next_step finish_unlisten. next_step accept_shut. next_step finish_lock.
    eapply rtc_l; [eapply (finish_close _ 0); [done|cbn; lia]|cbn]. next_step finish_closed.
    eapply rtc_l; [eapply (flow_closed _ 0); [done|cbn; lia|apply name_fails]|cbn]. apply rtc_refl.
  - split; [done|right]. by exists 0%nat, Spinning.
Qed.
