(* ===== verification/WantVsHave.v ===== *)
(** * WantVsHave: the table of a test's metrics

    src/heyp/integration/mk-want-vs-have-csv.cc.  The metrics of the
    integration test ([StepWorker], [OsTest]) are sorted by name and grouped
    into one row for each flow and step.  The reader of the input file and
    the format of numbers are parameters; Abseil's string functions are the
    interface [AbslStrings]. *)

From S2P Require Import Prelude Doubles Text SsLines StepWorker.

#[local] Open Scope string_scope.
#[local] Open Scope list_scope.
#[local] Open Scope Z_scope.

(** ** Names *)

Definition slash : Ascii.ascii := Ascii.ascii_of_nat 47.

Section Csv.
Context `{AbslStrings}.

(** [absl::ConsumePrefix]. *)
Definition ConsumePrefix (prefix s : string) : option string := if StartsWith s prefix then Some (StripPrefix s prefix) else None.

Definition ExtractFlowAndStep (name : string) : option (string * string) :=
  match split_at (is_char 47) name with
  | [flow; step_view] => step ← ConsumePrefix "step = " step_view; Some (flow, step)
  | _ => None
  end.

(** ** Rows *)

Definition dnan : double := SpecFloat.S754_nan.

Record row_record := mkRow {
  r_name : string; want : double; send : double; recv : double; ss_usage : double; ss_demand : double }.

Definition blank (name : string) : row_record := mkRow name dnan dnan dnan dnan dnan.

Definition AnyNaN (r : row_record) : bool :=
  dis_nan (want r) || dis_nan (send r) || dis_nan (recv r) || dis_nan (ss_usage r) || dis_nan (ss_demand r).

Definition set_name (name : string) (r : row_record) : row_record :=
  mkRow name (want r) (send r) (recv r) (ss_usage r) (ss_demand r).

(** The chain of [EndsWith]. *)
Definition set_value (m : Metric) (r : row_record) : row_record :=
  let v := m_value m in
  if EndsWith (m_name m) "/want" then mkRow (r_name r) v (send r) (recv r) (ss_usage r) (ss_demand r)
  else if EndsWith (m_name m) "/send" then mkRow (r_name r) (want r) v (recv r) (ss_usage r) (ss_demand r)
  else if EndsWith (m_name m) "/recv" then mkRow (r_name r) (want r) (send r) v (ss_usage r) (ss_demand r)
  else if EndsWith (m_name m) "/ss-usage" then mkRow (r_name r) (want r) (send r) (recv r) v (ss_demand r)
  else if EndsWith (m_name m) "/ss-demand" then mkRow (r_name r) (want r) (send r) (recv r) (ss_usage r) v
  else r.

Definition record_name (name : string) : string :=
  StripSuffix (StripSuffix (StripSuffix (StripSuffix (StripSuffix name "/want") "/send") "/recv") "/ss-usage") "/ss-demand".

(** A printed row: flow, step and the record; [None]: data is missing. *)
Definition csv_row := (string * string * row_record)%type.

Definition flush (ignore_bad : bool) (r : row_record) : option csv_row :=
  if AnyNaN r && negb ignore_bad then None
  else let '(flow, step) := default ("", "") (ExtractFlowAndStep (r_name r)) in Some (flow, step, r).

(** The loop: whether it went on to the end, the record at the end and the
    rows printed. *)
Fixpoint csv_loop (ignore_bad : bool) (ms : list Metric) (r : row_record) (out : list csv_row)
    : bool * row_record * list csv_row :=
  match ms with
  | [] => (true, r, out)
  | m :: ms =>
      let name := record_name (m_name m) in
      if negb (String.eqb (r_name r) "") && negb (String.eqb name (r_name r))
      then match flush ignore_bad r with
           | None => (false, r, out)
           | Some x => csv_loop ignore_bad ms (set_value m (blank name)) (out ++ [x])
           end
      else csv_loop ignore_bad ms (set_value m (set_name name r)) out
  end.

(** After the loop. *)
Definition csv_end (ignore_bad : bool) (x : bool * row_record * list csv_row) : bool * list csv_row :=
  let '(ok, r, out) := x in
  if negb ok then (false, out)
  else if String.eqb (r_name r) "" then (true, out)
  else match flush ignore_bad r with None => (false, out) | Some x => (true, out ++ [x]) end.

(** Whether all went well, and the rows. *)
Definition csv_rows (ignore_bad : bool) (ms : list Metric) : bool * list csv_row :=
  csv_end ignore_bad (csv_loop ignore_bad ms (blank "") []).

(** The comparator of [std::sort]. *)
Definition metric_lt (lhs rhs : Metric) : bool :=
  if String.eqb (m_name lhs) (m_name rhs) then dlt (m_value lhs) (m_value rhs) else String.ltb (m_name lhs) (m_name rhs).

Definition metric_le (x y : Metric) : Prop := metric_lt y x = false.

#[export] Instance metric_le_dec : RelDecision metric_le.
Proof. intros x y. unfold metric_le. apply _. Defined.

Definition sort_metrics (ms : list Metric) : list Metric := merge_sort metric_le ms.

Inductive csv_status := CsvOk | InvalidInput | CsvDataLoss.

Variable show_g : double -> string.

Definition show_row (x : csv_row) : string :=
  let '(flow, step, r) := x in
  flow +:+ "," +:+ step +:+ "," +:+ show_g (want r) +:+ "," +:+ show_g (send r) +:+ "," +:+ show_g (recv r) +:+ "," +:+
  show_g (ss_usage r) +:+ "," +:+ show_g (ss_demand r) +:+ newline.

(** What is written to the standard output; [input]: the metrics of the
    file, if it can be read. *)
Definition ToCsv (input : option (list Metric)) (print_header ignore_bad : bool) : csv_status * string :=
  match input with
  | None => (InvalidInput, "")
  | Some metrics =>
      let '(ok, rows) := csv_rows ignore_bad (sort_metrics metrics) in
      (if ok : bool then CsvOk else CsvDataLoss,
       (if print_header then "Flow,Step,Want,Send,Recv,SSUsage,SSDemand" +:+ newline else "") +:+ foldr (fun x s => show_row x +:+ s) "" rows)
  end.

End Csv.

Section Laws.
Context `{AbslStringsLaws}.

(** ** The names of the test *)

Inductive metric_kind := KWant | KSend | KRecv | KUsage | KDemand.

#[export] Instance metric_kind_eq_dec : EqDecision metric_kind.
Proof. solve_decision. Defined.

Definition kind_word (k : metric_kind) : string :=
  match k with KWant => "want" | KSend => "send" | KRecv => "recv" | KUsage => "ss-usage" | KDemand => "ss-demand" end.

Definition row_name (k : string * string) : string := fst k +:+ String slash ("step = " +:+ snd k).
Definition metric_name (k : string * string) (kd : metric_kind) : string := row_name k +:+ String slash (kind_word kd).

Definition field (kd : metric_kind) (r : row_record) : double :=
  match kd with KWant => want r | KSend => send r | KRecv => recv r | KUsage => ss_usage r | KDemand => ss_demand r end.

Fixpoint no_slash (s : string) : bool :=
  match s with EmptyString => true | String c s => negb (Ascii.eqb c slash) && no_slash s end.

Definition key_ok (k : string * string) : Prop := no_slash (fst k) = true /\ no_slash (snd k) = true.

Lemma no_slash_app a b : no_slash (a +:+ b) = no_slash a && no_slash b.
Proof. induction a as [|c a IH]; [done|]. change (String c a +:+ b) with (String c (a +:+ b)). cbn. by rewrite IH, andb_assoc. Qed.

Lemma last_part p v : forall r w, no_slash v = true -> no_slash w = true -> p +:+ String slash v = r +:+ String slash w -> v = w.
Proof.
  induction p as [|c p IH]; intros [|c' r] w Hv Hw E.
  - by injection E.
  - change (String slash v = String c' (r +:+ String slash w)) in E. injection E as <- ->. rewrite no_slash_app in Hv.
    cbn in Hv. by rewrite andb_false_r in Hv.
  - change (String c (p +:+ String slash v) = String slash w) in E. injection E as -> <-. rewrite no_slash_app in Hw.
    cbn in Hw. by rewrite andb_false_r in Hw.
  - change (String c (p +:+ String slash v) = String c' (r +:+ String slash w)) in E. injection E as _ E. by apply (IH r).
Qed.

Lemma EndsWith_last w v p : no_slash w = true -> no_slash v = true ->
  EndsWith (p +:+ String slash v) (String slash w) = String.eqb v w.
Proof.
  intros Hw Hv. apply eq_true_iff_eq. rewrite EndsWith_true, String.eqb_eq. split; [|intros ->; by exists p].
  intros [r E]. by apply (last_part p v r w).
Qed.

Lemma StripSuffix_last w v p : no_slash w = true -> no_slash v = true ->
  StripSuffix (p +:+ String slash v) (String slash w) = if String.eqb v w then p else p +:+ String slash v.
Proof.
  intros Hw Hv. destruct (String.eqb_spec v w) as [->|Hne]; [apply StripSuffix_app|].
  apply StripSuffix_other. rewrite EndsWith_last by done. by apply String.eqb_neq.
Qed.

Lemma kind_word_no_slash kd : no_slash (kind_word kd) = true.
Proof. by destruct kd. Qed.

Lemma step_no_slash s : no_slash s = true -> no_slash ("step = " +:+ s) = true.
Proof. intros Hs. by rewrite no_slash_app, Hs. Qed.

(** The last part of a row's name is none of the five words. *)
Lemma strip_row_name kd k : key_ok k -> StripSuffix (row_name k) (String slash (kind_word kd)) = row_name k.
Proof.
  intros [_ Hs]. unfold row_name. rewrite StripSuffix_last by (apply kind_word_no_slash || by apply step_no_slash). by destruct kd.
Qed.

Lemma strip_same kd k : StripSuffix (metric_name k kd) (String slash (kind_word kd)) = row_name k.
Proof. unfold metric_name. rewrite StripSuffix_last by apply kind_word_no_slash. by destruct kd. Qed.

Lemma strip_other kd kd' k : kd <> kd' -> StripSuffix (metric_name k kd') (String slash (kind_word kd)) = metric_name k kd'.
Proof. intros Hne. unfold metric_name. rewrite StripSuffix_last by apply kind_word_no_slash. by destruct kd, kd'. Qed.

Lemma record_name_metric k kd : key_ok k -> record_name (metric_name k kd) = row_name k.
Proof.
  intros Hk. unfold record_name.
  change "/want" with (String slash (kind_word KWant)). change "/send" with (String slash (kind_word KSend)).
  change "/recv" with (String slash (kind_word KRecv)). change "/ss-usage" with (String slash (kind_word KUsage)).
  change "/ss-demand" with (String slash (kind_word KDemand)).
  destruct kd; repeat first [rewrite strip_same | rewrite strip_other by done | rewrite strip_row_name by done]; done.
Qed.

Lemma set_value_field k kd v r kd' : field kd' (set_value (mkMetric (metric_name k kd) v) r) = if decide (kd' = kd) then v else field kd' r.
Proof.
  unfold set_value. cbn [m_name m_value]. unfold metric_name.
  change "/want" with (String slash (kind_word KWant)). change "/send" with (String slash (kind_word KSend)).
  change "/recv" with (String slash (kind_word KRecv)). change "/ss-usage" with (String slash (kind_word KUsage)).
  change "/ss-demand" with (String slash (kind_word KDemand)).
  rewrite !EndsWith_last by apply kind_word_no_slash. by destruct kd, kd'.
Qed.

Lemma set_value_name m r : r_name (set_value m r) = r_name r.
Proof. unfold set_value. by repeat case_if. Qed.

(** ** The order of the names *)

Lemma split_at_no_slash s : no_slash s = true -> split_at (is_char 47) s = [s].
Proof.
  induction s as [|c s IH]; [done|]. cbn [no_slash]. intros [Hc Hs]%andb_true_iff. cbn [split_at].
  apply negb_true_iff, Ascii.eqb_neq in Hc. unfold is_char at 1. rewrite bool_decide_eq_false_2 by done. by rewrite IH.
Qed.

Lemma split_at_slash p s : no_slash p = true -> split_at (is_char 47) (p +:+ String slash s) = p :: split_at (is_char 47) s.
Proof.
  induction p as [|c p IH]; [done|]. cbn [no_slash]. intros [Hc Hp]%andb_true_iff.
  change (String c p +:+ ?s) with (String c (p +:+ s)). cbn [split_at].
  apply negb_true_iff, Ascii.eqb_neq in Hc. unfold is_char at 1. rewrite bool_decide_eq_false_2 by done. by rewrite IH.
Qed.

Lemma Extract_row_name k : key_ok k -> ExtractFlowAndStep (row_name k) = Some k.
Proof.
  intros [Hf Hs]. unfold ExtractFlowAndStep, row_name. rewrite split_at_slash, split_at_no_slash by (done || by apply step_no_slash).
  unfold ConsumePrefix. rewrite (proj2 (StartsWith_true _ _)) by by exists (snd k).
  rewrite StripPrefix_app. by destruct k.
Qed.

Lemma row_name_inj k k' : key_ok k -> key_ok k' -> row_name k = row_name k' -> k = k'.
Proof. intros Hk Hk' E. apply Extract_row_name in Hk, Hk'. rewrite E, Hk' in Hk. by injection Hk. Qed.

Lemma row_name_not_empty k : row_name k <> "".
Proof. unfold row_name. by destruct (fst k). Qed.

Fixpoint slashes (s : string) : nat :=
  match s with EmptyString => 0 | String c s => (if Ascii.eqb c slash then 1 else 0) + slashes s end.

Lemma slashes_no_slash s : no_slash s = true -> slashes s = 0%nat.
Proof. induction s as [|c s IH]; [done|]. cbn. intros [Hc%negb_true_iff Hs]%andb_true_iff. by rewrite Hc, IH. Qed.

Lemma slashes_app a b : slashes (a +:+ b) = (slashes a + slashes b)%nat.
Proof. induction a as [|c a IH]; [done|]. change (String c a +:+ b) with (String c (a +:+ b)). cbn. rewrite IH. lia. Qed.

Lemma slashes_row_name k : key_ok k -> slashes (row_name k) = 1%nat.
Proof.
  intros [Hf Hs]. unfold row_name. rewrite slashes_app, slashes_no_slash by done. cbn [slashes]. rewrite Ascii.eqb_refl.
  by rewrite slashes_no_slash by by apply step_no_slash.
Qed.

(** Different names with as many slashes are ordered alike whatever part is
    appended to them. *)
Lemma compare_by_row p : forall q, slashes p = slashes q -> p <> q ->
  exists c, c <> Eq /\ forall a b, String.compare (p +:+ String slash a) (q +:+ String slash b) = c.
Proof.
  induction p as [|x p IH]; intros [|y q] Hs Hne; [done| | |].
  - cbn [slashes] in Hs. destruct (Ascii.eqb_spec y slash) as [|Hy]; [done|].
    exists (Ascii.compare slash y). split; [by intros ?%Ascii.compare_eq_iff|]. intros a b.
    change ("" +:+ ?s) with s. change (String y q +:+ ?s) with (String y (q +:+ s)). cbn [String.compare].
    destruct (Ascii.compare slash y) eqn:E; [by apply Ascii.compare_eq_iff in E|done..].
  - cbn [slashes] in Hs. destruct (Ascii.eqb_spec x slash) as [|Hx]; [done|].
    exists (Ascii.compare x slash). split; [by intros ?%Ascii.compare_eq_iff|]. intros a b.
    change ("" +:+ ?s) with s. change (String x p +:+ ?s) with (String x (p +:+ s)). cbn [String.compare].
    destruct (Ascii.compare x slash) eqn:E; [by apply Ascii.compare_eq_iff in E|done..].
  - cbn [slashes] in Hs. destruct (Ascii.compare x y) eqn:E.
    + apply Ascii.compare_eq_iff in E as ->. destruct (IH q) as (c & Hc & Hcmp); [lia|congruence|]. exists c. split; [done|].
      intros a b. change (String y p +:+ ?s) with (String y (p +:+ s)). change (String y q +:+ ?s) with (String y (q +:+ s)).
      cbn [String.compare]. assert (Ascii.compare y y = Eq) as -> by apply N.compare_refl. apply Hcmp.
    + exists Lt. split; [done|]. intros a b. change (String x p +:+ ?s) with (String x (p +:+ s)).
      change (String y q +:+ ?s) with (String y (q +:+ s)). cbn [String.compare]. by rewrite E.
    + exists Gt. split; [done|]. intros a b. change (String x p +:+ ?s) with (String x (p +:+ s)).
      change (String y q +:+ ?s) with (String y (q +:+ s)). cbn [String.compare]. by rewrite E.
Qed.

Lemma leb_compare a b : String.leb a b = true <-> String.compare a b <> Gt.
Proof. unfold String.leb. by destruct (String.compare a b). Qed.

(** So the metrics of a row are next to each other. *)
Lemma rows_apart k k' a b c d : key_ok k -> key_ok k' ->
  String.leb (metric_name k a) (metric_name k' b) = true -> String.leb (metric_name k' c) (metric_name k d) = true -> k = k'.
Proof.
  intros Hk Hk' H1 H2. destruct (decide (k = k')) as [|Hne]; [done|]. exfalso.
  destruct (compare_by_row (row_name k) (row_name k')) as (x & Hx & Hc);
    [by rewrite !slashes_row_name|by intros ?%row_name_inj|].
  rewrite leb_compare in H1, H2. unfold metric_name in H1, H2. rewrite Hc in H1.
  rewrite String.compare_antisym, Hc in H2. by destruct x.
Qed.

Definition well_named (m : Metric) : Prop := exists k kd, key_ok k /\ m_name m = metric_name k kd.

(** The metrics of a flow and a step. *)
Definition group := ((string * string) * list (metric_kind * double))%type.
Definition flat (g : group) : list Metric := map (fun kv => mkMetric (metric_name (fst g) (fst kv)) (snd kv)) (snd g).

Definition name_le (x y : Metric) : Prop := String.leb (m_name x) (m_name y) = true.

Lemma sorted_groups l : StronglySorted name_le l -> Forall well_named l ->
  exists gs, l = concat (map flat gs) /\ NoDup (map fst gs) /\ Forall (fun g => key_ok (fst g) /\ snd g <> []) gs.
Proof.
  induction l as [|x l IH]; intros Hs Hw; [exists []; split_and!; [done|constructor|constructor]|].
  apply Forall_cons in Hw as [(k & kd & Hk & Hx) Hw]. inversion Hs as [|? ? Hs' Hle]; subst.
  destruct (IH Hs' Hw) as (gs & -> & Hnd & Hg). destruct x as [n v]. cbn in Hx. subst n.
  destruct (decide (k ∈ map fst gs)) as [Hin|Hout].
  2:{ exists ((k, [(kd, v)]) :: gs). split_and!; [done|by constructor|by constructor]. }
  destruct gs as [|[k0 [|[kd0 v0] kvs]] gs]; [by apply not_elem_of_nil in Hin|by apply Forall_cons in Hg as [[_ ?] _]|].
  apply Forall_cons in Hg as [[Hk0 _] Hg]. cbn [fst] in Hk0.
  assert (k = k0) as <-.
  { cbn [map fst] in Hin. apply elem_of_cons in Hin as [|Hin]; [done|].
    apply list_elem_of_fmap in Hin as ([k' [|[kd1 v1] kvs1]] & E & Hin); cbn in E; subst k';
      pose proof (proj1 (Forall_forall _ _) Hg _ Hin) as [_ Hne]; [done|].
    assert (Hlater : mkMetric (metric_name k kd1) v1 ∈ concat (map flat gs)).
    { apply list_elem_of_In, in_concat. exists (flat (k, (kd1, v1) :: kvs1)). split; [by apply in_map, list_elem_of_In|by left]. }
    apply Forall_cons in Hle as [Hle _]. cbn in Hs'.
    inversion Hs' as [|? ? _ Hle']; subst. assert (Hz : mkMetric (metric_name k kd1) v1 ∈ map (fun kv => mkMetric (metric_name k0 kv.1) kv.2) kvs ++ concat (map flat gs))
      by (apply elem_of_app; by right).
    pose proof (proj1 (Forall_forall _ _) Hle' _ Hz) as Hle2. by apply (rows_apart k k0 kd kd0 kd0 kd1). }
  exists ((k, (kd, v) :: (kd0, v0) :: kvs) :: gs). split_and!; [done|done|by constructor].
Qed.

(** ** The rows of the groups *)

Definition fill (k : string * string) (kvs : list (metric_kind * double)) (r : row_record) : row_record :=
  foldl (fun r kv => set_value (mkMetric (metric_name k (fst kv)) (snd kv)) r) r kvs.

Definition group_record (g : group) : row_record := fill (fst g) (snd g) (blank (row_name (fst g))).
Definition group_row (g : group) : csv_row := (fst (fst g), snd (fst g), group_record g).

Lemma fill_name k kvs : forall r, r_name (fill k kvs r) = r_name r.
Proof. unfold fill. induction kvs as [|kv kvs IH]; intros r; [done|]. cbn [foldl]. by rewrite IH, set_value_name. Qed.

Lemma loop_group ib k kvs ms out : forall r, key_ok k -> r_name r = row_name k ->
  csv_loop ib (flat (k, kvs) ++ ms) r out = csv_loop ib ms (fill k kvs r) out.
Proof.
  induction kvs as [|[kd v] kvs IH]; intros r Hk Hr; [done|]. cbn [flat map app fst snd csv_loop m_name].
  rewrite record_name_metric, Hr, String.eqb_refl, andb_false_r by done.
  assert (set_name (row_name k) r = r) as -> by (rewrite <- Hr; by destruct r).
  apply IH; [done|by rewrite set_value_name].
Qed.

Lemma loop_next_group ib g ms out r : key_ok (fst g) -> snd g <> [] -> r_name r <> "" -> r_name r <> row_name (fst g) ->
  csv_loop ib (flat g ++ ms) r out =
  match flush ib r with None => (false, r, out) | Some x => csv_loop ib ms (group_record g) (out ++ [x]) end.
Proof.
  destruct g as [k [|[kd v] kvs]]; [done|]. intros Hk _ Hne Hr. cbn [fst snd] in *. cbn [flat map app fst snd csv_loop m_name].
  rewrite record_name_metric by done. rewrite (proj2 (String.eqb_neq _ _) Hne), (proj2 (String.eqb_neq _ _)) by congruence. cbn [negb andb].
  destruct (flush ib r); [|done]. by rewrite (loop_group ib k kvs) by (done || by rewrite set_value_name).
Qed.

Fixpoint emit (ib : bool) (gs : list group) (out : list csv_row) : bool * list csv_row :=
  match gs with
  | [] => (true, out)
  | g :: gs => match flush ib (group_record g) with None => (false, out) | Some x => emit ib gs (out ++ [x]) end
  end.

Lemma loop_groups ib gs : forall g out, NoDup (fst g :: map fst gs) -> key_ok (fst g) ->
  Forall (fun g => key_ok (fst g) /\ snd g <> []) gs ->
  csv_end ib (csv_loop ib (concat (map flat gs)) (group_record g) out) = emit ib (g :: gs) out.
Proof.
  assert (Hn : forall g, r_name (group_record g) = row_name (fst g)) by (intros g; unfold group_record; by rewrite fill_name).
  induction gs as [|g' gs IH]; intros g out Hnd Hk Hg.
  - cbn. rewrite Hn. rewrite (proj2 (String.eqb_neq _ _) (row_name_not_empty _)). by destruct (flush ib _).
  - apply Forall_cons in Hg as [[Hk' Hne] Hg]. cbn [map concat]. rewrite loop_next_group; [|done|done| |].
    + cbn [emit]. destruct (flush ib (group_record g)); [|done]. apply NoDup_cons in Hnd as [_ Hnd]. by rewrite (IH g').
    + rewrite Hn. apply row_name_not_empty.
    + rewrite Hn. intros E%row_name_inj; [|done..]. apply NoDup_cons in Hnd as [Hnd _]. apply Hnd. rewrite E. left.
Qed.

Lemma csv_rows_groups ib gs : NoDup (map fst gs) -> Forall (fun g => key_ok (fst g) /\ snd g <> []) gs ->
  csv_rows ib (concat (map flat gs)) = emit ib gs [].
Proof.
  intros Hnd Hg. destruct gs as [|[k [|[kd v] kvs]] gs]; [done|by apply Forall_cons in Hg as [[_ ?] _]|].
  apply Forall_cons in Hg as [[Hk _] Hg]. cbn [fst] in Hk. unfold csv_rows. cbn [map concat flat app fst snd csv_loop m_name].
  rewrite record_name_metric by done. cbn [String.eqb r_name blank negb andb].
  change (set_name (row_name k) (blank "")) with (blank (row_name k)).
  change (map (fun kv => mkMetric (metric_name k kv.1) kv.2) kvs) with (flat (k, kvs)).
  rewrite (loop_group ib k kvs) by (done || by rewrite set_value_name).
  change (fill k kvs (set_value (mkMetric (metric_name k kd) v) (blank (row_name k)))) with (group_record (k, (kd, v) :: kvs)).
  by apply loop_groups.
Qed.

Lemma flush_group ib g : key_ok (fst g) ->
  flush ib (group_record g) = if AnyNaN (group_record g) && negb ib then None else Some (group_row g).
Proof.
  intros Hk. unfold flush. assert (r_name (group_record g) = row_name (fst g)) as -> by (unfold group_record; by rewrite fill_name).
  rewrite Extract_row_name by done. unfold group_row. by destruct (fst g).
Qed.

Lemma emit_ignoring gs : forall out, Forall (fun g => key_ok (fst g)) gs -> emit true gs out = (true, out ++ map group_row gs).
Proof.
  induction gs as [|g gs IH]; intros out Hg; [cbn; by rewrite app_nil_r|]. apply Forall_cons in Hg as [Hk Hg].
  cbn [emit map]. rewrite flush_group, andb_false_r, IH by done. by rewrite <- app_assoc.
Qed.

Definition complete (x : csv_row) : bool := negb (AnyNaN (snd x)).

Lemma emit_strict gs : forall out, Forall (fun g => key_ok (fst g)) gs ->
  fst (emit false gs out) = forallb complete (map group_row gs) /\
  (forallb complete (map group_row gs) = true -> emit false gs out = (true, out ++ map group_row gs)).
Proof.
  induction gs as [|g gs IH]; intros out Hg; [cbn; by rewrite app_nil_r|]. apply Forall_cons in Hg as [Hk Hg].
  cbn [emit map forallb]. rewrite flush_group, andb_true_r by done. unfold complete at 1 3. cbn [snd group_row].
  destruct (AnyNaN (group_record g)); [done|]. cbn [negb andb]. destruct (IH (out ++ [group_row g]) Hg) as [H1 H2].
  split; [done|]. intros Hc. rewrite H2 by done. by rewrite <- app_assoc.
Qed.

Lemma field_fill k kvs kd v : forall r, NoDup (map fst kvs) -> (kd, v) ∈ kvs -> field kd (fill k kvs r) = v.
Proof.
  unfold fill. assert (Hother : forall kvs r, kd ∉ map fst kvs ->
    field kd (foldl (fun r kv => set_value (mkMetric (metric_name k (fst kv)) (snd kv)) r) r kvs) = field kd r).
  { intros l. induction l as [|[kd' v'] l IH]; intros r Hn; [done|]. cbn [map fst] in Hn. apply not_elem_of_cons in Hn as [Hn Hn'].
    cbn [foldl fst snd]. rewrite IH, set_value_field by done. by rewrite decide_False. }
  induction kvs as [|[kd' v'] kvs IH]; intros r Hnd Hin; [by apply not_elem_of_nil in Hin|].
  cbn [map fst] in Hnd. apply NoDup_cons in Hnd as [Hn Hnd]. cbn [foldl fst snd].
  apply elem_of_cons in Hin as [[= <- <-]|Hin]; [|by apply IH]. rewrite Hother, set_value_field by done. by rewrite decide_True.
Qed.

Lemma field_fill_none k kvs kd : forall r, kd ∉ map fst kvs -> field kd (fill k kvs r) = field kd r.
Proof.
  unfold fill. induction kvs as [|[kd' v'] l IH]; intros r Hn; [done|]. cbn [map fst] in Hn. apply not_elem_of_cons in Hn as [Hn Hn'].
  cbn [foldl fst snd]. rewrite IH, set_value_field by done. by rewrite decide_False.
Qed.

(** Sorting. *)

Lemma metric_lt_asym x y : metric_lt x y = true -> metric_lt y x = false.
Proof.
  unfold metric_lt. rewrite (String.eqb_sym (m_name y)). destruct (String.eqb (m_name x) (m_name y)).
  - unfold dlt, SpecFloat.SFltb. rewrite (dcompare_swap (m_value y)). by destruct (SpecFloat.SFcompare _ _) as [[]|].
  - unfold String.ltb. rewrite (String.compare_antisym (m_name y)). by destruct (String.compare _ _).
Qed.

#[local] Instance metric_le_total : Total metric_le.
Proof. intros x y. unfold metric_le. destruct (metric_lt y x) eqn:E; [right; by apply metric_lt_asym|by left]. Qed.

Lemma metric_le_name x y : metric_le x y -> name_le x y.
Proof.
  unfold metric_le, metric_lt, name_le. destruct (String.eqb_spec (m_name y) (m_name x)) as [->|Hne]; intros Hlt.
  - destruct (String.leb_total (m_name x) (m_name x)); done.
  - unfold String.ltb in Hlt. unfold String.leb. rewrite String.compare_antisym. by destruct (String.compare (m_name y) (m_name x)).
Qed.

#[local] Instance name_le_trans : Transitive name_le.
Proof.
  intros x y z. unfold name_le. intros Hxy Hyz. apply Is_true_true. apply Is_true_true in Hxy, Hyz.
  by apply (transitivity (R := String.le) (y := m_name y)).
Qed.

Lemma sort_metrics_sorted ms : StronglySorted name_le (sort_metrics ms).
Proof.
  apply Sorted_StronglySorted; [apply _|]. unfold sort_metrics.
  pose proof (Sorted_merge_sort metric_le ms) as Hs. induction Hs as [|x l _ IH Hd]; [constructor|].
  constructor; [done|]. destruct Hd; constructor. by apply metric_le_name.
Qed.

Lemma metric_name_inj k kd k' kd' : key_ok k -> key_ok k' -> metric_name k kd = metric_name k' kd' -> k = k' /\ kd = kd'.
Proof.
  intros Hk Hk' E. split.
  - apply row_name_inj; [done..|]. by rewrite <- (record_name_metric k kd), <- (record_name_metric k' kd'), E.
  - pose proof (EndsWith_last (kind_word kd) (kind_word kd) (row_name k) (kind_word_no_slash _) (kind_word_no_slash _)) as Hk2.
    change (row_name k +:+ String slash (kind_word kd)) with (metric_name k kd) in Hk2. rewrite E in Hk2. unfold metric_name in Hk2.
    rewrite EndsWith_last, String.eqb_refl in Hk2 by apply kind_word_no_slash. by destruct kd, kd'.
Qed.

Lemma in_groups gs k kd v : key_ok k -> Forall (fun g => key_ok (fst g)) gs ->
  mkMetric (metric_name k kd) v ∈ concat (map flat gs) <-> exists kvs, (k, kvs) ∈ gs /\ (kd, v) ∈ kvs.
Proof.
  intros Hk Hg. rewrite list_elem_of_In, in_concat. split.
  - intros (l & Hl & Hin). apply in_map_iff in Hl as ([k' kvs] & <- & Hl%list_elem_of_In).
    apply in_map_iff in Hin as ([kd' v'] & E & Hin%list_elem_of_In). cbn [fst snd] in E. injection E as E <-.
    apply metric_name_inj in E as [-> ->]; [by exists kvs|by apply (proj1 (Forall_forall _ _) Hg _ Hl)|done].
  - intros (kvs & Hl & Hin). exists (flat (k, kvs)). split; [by apply in_map, list_elem_of_In|].
    apply in_map_iff. exists (kd, v). split; [done|]. by apply list_elem_of_In.
Qed.

Lemma group_kinds_once gs k kvs : NoDup (map m_name (concat (map flat gs))) -> (k, kvs) ∈ gs -> NoDup (map fst kvs).
Proof.
  intros Hnd Hin. apply list_elem_of_split in Hin as (l1 & l2 & ->). rewrite map_app, concat_app, map_app in Hnd.
  apply NoDup_app in Hnd as (_ & _ & Hnd). cbn [map concat] in Hnd. rewrite map_app in Hnd. apply NoDup_app in Hnd as (Hnd & _ & _).
  unfold flat in Hnd. cbn [fst snd] in Hnd. rewrite map_map in Hnd. cbn [m_name] in Hnd.
  rewrite <- (map_map fst (metric_name k)) in Hnd. by apply NoDup_fmap_1 in Hnd.
Qed.

Lemma same_group (gs : list group) k kvs kvs' : NoDup (map fst gs) -> (k, kvs) ∈ gs -> (k, kvs') ∈ gs -> kvs = kvs'.
Proof.
  intros Hnd [i Hi]%list_elem_of_lookup [j Hj]%list_elem_of_lookup.
  assert (i = j) as -> by (apply (proj1 (NoDup_alt _) Hnd i j k); rewrite list_lookup_fmap; [by rewrite Hi|by rewrite Hj]).
  rewrite Hi in Hj. by injection Hj.
Qed.

(** C22: when every metric of the test is there at most once and the names are
    of the form the test gives them ([well_named]), the table has
    exactly one row for each flow and step that has a metric, with the values
    of its metrics in their columns and NaN where there is none; without
    -ignore_bad the command succeeds exactly when no row misses a value, and
    prints the same table then. *)
Theorem ToCsv_one_row_per_step ms : Forall well_named ms -> NoDup (map m_name ms) ->
  exists rows : list csv_row, csv_rows true (sort_metrics ms) = (true, rows) /\ NoDup (map fst rows) /\
    (forall k, key_ok k -> k ∈ map fst rows <-> exists kd v, mkMetric (metric_name k kd) v ∈ ms) /\
    (forall k r kd, (k, r) ∈ rows -> forall v, mkMetric (metric_name k kd) v ∈ ms -> field kd r = v) /\
    (forall k r kd, (k, r) ∈ rows -> (forall v, mkMetric (metric_name k kd) v ∉ ms) -> field kd r = dnan) /\
    fst (csv_rows false (sort_metrics ms)) = forallb complete rows /\
    (forallb complete rows = true -> csv_rows false (sort_metrics ms) = (true, rows)).
Proof.
  intros Hw Hnd. pose proof (merge_sort_Permutation metric_le ms) as Hp. fold (sort_metrics ms) in Hp.
  destruct (sorted_groups (sort_metrics ms)) as (gs & E & Hgs & Hok); [apply sort_metrics_sorted|by rewrite Hp|].
  rewrite E in *. assert (Hkeys : Forall (fun g => key_ok (fst g)) gs) by (eapply Forall_impl; [exact Hok|by intros ? []]).
  assert (Hfst : map fst (map group_row gs) = map fst gs).
  { rewrite map_map. apply map_ext. intros [[] ?]. done. }
  assert (Hin : forall k kd v, key_ok k -> mkMetric (metric_name k kd) v ∈ ms <-> exists kvs, (k, kvs) ∈ gs /\ (kd, v) ∈ kvs)
    by (intros k kd v Hk; rewrite <- Hp; by apply in_groups).
  assert (Hrow : forall k r, (k, r) ∈ map group_row gs -> key_ok k /\ exists kvs, (k, kvs) ∈ gs /\ r = fill k kvs (blank (row_name k))).
  { intros k r Hr. apply list_elem_of_In, in_map_iff in Hr as ([[f s] kvs] & [= <- <-] & Hr%list_elem_of_In).
    split; [by apply (proj1 (Forall_forall _ _) Hkeys _ Hr)|]. by exists kvs. }
  exists (map group_row gs). rewrite !csv_rows_groups by done. destruct (emit_strict gs [] Hkeys) as [Hs1 Hs2].
  split_and!; [by apply emit_ignoring|by rewrite Hfst| | | |done|done].
  - intros k Hk. rewrite Hfst. split.
    + intros ([k' kvs] & -> & Hg)%list_elem_of_fmap. pose proof (proj1 (Forall_forall _ _) Hok _ Hg) as [_ Hne].
      destruct kvs as [|[kd v] kvs]; [done|]. exists kd, v. apply Hin; [done|]. exists ((kd, v) :: kvs). split; [done|by left].
    + intros (kd & v & Hm). apply Hin in Hm as (kvs & Hg & _); [|done]. apply list_elem_of_fmap. by exists (k, kvs).
  - intros k r kd (Hk & kvs & Hg & ->)%Hrow v Hm. apply Hin in Hm as (kvs' & Hg' & Hv); [|done].
    rewrite (same_group gs k kvs kvs') by done. apply field_fill; [|done]. eapply group_kinds_once; [by rewrite Hp|done].
  - intros k r kd (Hk & kvs & Hg & ->)%Hrow Hno. rewrite field_fill_none; [by destruct kd|].
    intros ([kd' v] & -> & Hv)%list_elem_of_fmap. apply (Hno v). apply Hin; [done|]. by exists kvs.
Qed.

End Laws.

Definition example_metrics : list Metric :=
  map (fun x => mkMetric ("0->1/step = 0/" +:+ fst x) (dofZ (snd x)))
    [("want", 5); ("send", 4); ("recv", 3); ("ss-usage", 2); ("ss-demand", 6)].

Lemma ToCsv_one_row_per_step_witness :
  exists rows, csv_rows true (sort_metrics example_metrics) = (true, rows) /\ NoDup (map fst rows) /\
    ("0->1", "0") ∈ map fst rows /\ csv_rows false (sort_metrics example_metrics) = (true, rows).
Proof.
  destruct (ToCsv_one_row_per_step example_metrics) as (rows & H1 & H2 & H3 & _ & _ & H4 & H5).
  - assert (H : forall kd v, well_named (mkMetric (metric_name ("0->1", "0") kd) v)) by (intros kd v; by exists ("0->1", "0"), kd).
    repeat apply Forall_cons_2; [apply (H KWant)|apply (H KSend)|apply (H KRecv)|apply (H KUsage)|apply (H KDemand)|constructor].
  - apply (bool_decide_unpack _). by vm_compute.
  - exists rows. split_and!; [done|done| |].
    + apply (H3 ("0->1", "0")); [done|]. exists KWant, (dofZ 5). by left.
    + apply H5. rewrite <- H4. by vm_compute.
Defined.
