(* ===== verification/OsTest.v ===== *)
(** * OsTest: the integration test of the host agent

    src/heyp/integration/flow-state-collector.{h,cc} and
    host-agent-os-tester.{h,cc}: hosts that send to each other over the
    loopback device ([StepWorker]), limits that change with every step, and
    the metrics that are collected.  What the system and the random numbers
    answer, what the flow tracker reports at the end of each step and the
    workers' final states are the fields of [os_inputs]; the clock decides
    how many steps there are. *)

From stdpp Require Import pretty.
From S2P Require Import Prelude Doubles FlowMarker Clock SsLines StepWorker WantVsHave.

#[local] Open Scope string_scope.
#[local] Open Scope list_scope.
#[local] Open Scope Z_scope.

(** [HostWorker::Flow]. *)
Record Flow := mkFlow { f_name : string; f_src_port : Z; f_dst_port : Z }.

(** ** The collector *)

Record FlowStateCollector := mkCollector { src_dst_port_to_name_ : gmap (Z * Z) string; collected : list Metric }.

(** [Create]: of two flows with the same ports the later one counts. *)
Definition new_FlowStateCollector (all_flows : list Flow) : FlowStateCollector :=
  mkCollector (foldl (fun m f => <[(f_src_port f, f_dst_port f) := f_name f]> m) ∅ all_flows) [].

(** The callback; looking up a flow that is not known adds it with an empty
    name. *)
Definition collect_info (label : string) (c : FlowStateCollector) (flow_info : FlowInfo) : FlowStateCollector :=
  let ports := (src_port (flow flow_info), dst_port (flow flow_info)) in
  let name := default "" (src_dst_port_to_name_ c !! ports) in
  let m := <[ports := name]> (src_dst_port_to_name_ c) in
  if String.eqb name "" then mkCollector m (collected c)
  else mkCollector m (collected c ++
    [mkMetric (name +:+ "/" +:+ label +:+ "/ss-usage") (dofZ (ewma_usage_bps flow_info));
     mkMetric (name +:+ "/" +:+ label +:+ "/ss-demand") (dofZ (predicted_demand_bps flow_info))]).

(** [CollectStep] over the active flows of the tracker. *)
Definition Collector_CollectStep (label : string) (active : list FlowInfo) (c : FlowStateCollector) : FlowStateCollector :=
  foldl (collect_info label) c active.

(** ** Limits *)

Definition MarkerOf (f : Flow) : FlowMarker :=
  mkFlowMarker "" "" "" 1 "127.0.0.1" "127.0.0.1" TCP (f_src_port f) (f_dst_port f) 1.

Definition kMaxBps : Z := 10000000000.

(** [InfiniteDemandProvider]. *)
Definition infinite_demand (all_flows : list Flow) : list FlowInfo :=
  map (fun f => mkFlowInfo (MarkerOf f) kMaxBps kMaxBps 0 0 0 0 0 false None) all_flows.

(** [WithFlowPriority]: the high-priority and the low-priority flows. *)
Definition WithFlowPriority (use_hipri : bool) (a : FlowAlloc) : list FlowMarker * list FlowMarker :=
  if use_hipri then ([alloc_flow a], []) else ([], [alloc_flow a]).

(** The least power of ten that is not below [z]: [ceil(log10(z))], for
    limits below 10 ^ 15, where [log10] does not round down to a power. *)
Fixpoint ceil_log10 (fuel : nat) (z : Z) : Z :=
  match fuel with
  | O => 0
  | S fuel => if z <=? 1 then 0 else 1 + ceil_log10 fuel ((z + 9) / 10)
  end.

(** [RateLimitPicker]: a power of ten below 1 becomes 0; [None]: the
    assertion fails. *)
Definition new_RateLimitPicker (max_bps : Z) : option Z :=
  if 0 <? max_bps
  then let e := ceil_log10 19 max_bps - 3 in Some (if e <? 0 then 0 else 10 ^ e) else None.

(** [None]: division by zero. *)
Definition RoundVal (factor_ val : Z) : option Z :=
  if val =? 0 then Some 0 else if factor_ =? 0 then None else Some (Z.quot val factor_ * factor_).

(** The draws are in [max_bps / 100, max_bps). *)
Definition Pick (factor_ : Z) (draws : nat -> Z) (flows : list Flow) : option (list (Flow * Z)) :=
  mapM (fun x => v ← RoundVal factor_ (draws (fst x)); Some (snd x, v)) (imap pair flows).

Definition limits_bundle (limits : list (Flow * Z)) : AllocBundle :=
  mkAllocBundle (map (fun p => mkFlowAlloc (MarkerOf (fst p)) (snd p) 0) limits) 0.

Definition want_metrics (limits : list (Flow * Z)) (label : string) : list Metric :=
  map (fun p => mkMetric (f_name (fst p) +:+ "/" +:+ label +:+ "/want") (dofZ (snd p))) limits.

(** ** The run *)

Definition step_label (step : nat) : string := "step = " +:+ pretty step.

Record os_inputs `{Clock} := {
  num_hosts : nat;
  create_ok : bool;
  init_ok : nat -> bool;
  serve_port : nat -> Z;
  src_port_of : nat -> nat -> Z;
  max_rate_limit_bps : Z;
  draws : nat -> nat -> Z;
  collector_ok : bool;
  num_steps : nat;
  active : nat -> list FlowInfo;
  worker_at_end : nat -> HostWorker }.

Section Run.
Context `{Clock}.

Definition out_flows (x : os_inputs) (i : nat) : list Flow :=
  map (fun j => mkFlow (pretty i +:+ "->" +:+ pretty j) (src_port_of x i j) (serve_port x j))
    (List.filter (fun j => negb (i =? j)%nat) (seq 0 (num_hosts x))).

Definition all_flows (x : os_inputs) : list Flow := concat (map (out_flows x) (seq 0 (num_hosts x))).

(** The limits of every step, that after the last one included. *)
Definition all_limits (x : os_inputs) : option (list (list (Flow * Z))) :=
  factor_ ← new_RateLimitPicker (max_rate_limit_bps x);
  mapM (fun step => Pick factor_ (draws x step) (all_flows x)) (seq 0 (S (num_steps x))).

Definition collect_all (x : os_inputs) : FlowStateCollector :=
  foldl (fun c step => Collector_CollectStep (step_label step) (active x step) c)
    (new_FlowStateCollector (all_flows x)) (seq 0 (num_steps x)).

(** [OsExit]: the program ends. *)
Inductive os_result := OsError | OsExit | OsMetrics (bundles : list AllocBundle) (ms : list Metric).

Definition Run (x : os_inputs) : os_result :=
  if negb (create_ok x) then OsError
  else if negb (forallb (init_ok x) (seq 0 (num_hosts x))) then OsExit
  else match all_limits x with
       | None => OsExit
       | Some limits =>
           let wants := concat (imap (fun step l => want_metrics l (step_label step)) limits) in
           let moved := concat (map (fun i => Finish_metrics (worker_at_end x i)) (seq 0 (num_hosts x))) in
           if collector_ok x
           then OsMetrics (map limits_bundle limits) (sort_metrics (wants ++ moved ++ collected (collect_all x)))
           else OsError
       end.

End Run.

(** ** Limits *)

Lemma RoundVal_bounds factor_ val : 0 < factor_ -> 0 <= val ->
  exists r, RoundVal factor_ val = Some r /\ r <= val < r + factor_ /\ (factor_ | r).
Proof.
  intros Hf Hv. unfold RoundVal. destruct (Z.eqb_spec val 0) as [->|].
  - exists 0. split_and!; [done|lia|lia|apply Z.divide_0_r].
  - rewrite (proj2 (Z.eqb_neq _ _)) by lia. eexists. split; [done|]. rewrite Z.quot_div_nonneg by lia.
    pose proof (Z.div_mod val factor_ ltac:(lia)). pose proof (Z.mod_pos_bound val factor_ Hf).
    split_and!; [lia|lia|apply Z.divide_factor_r].
Qed.

Lemma ceil_log10_ge fuel : forall z, 10 ^ Z.of_nat fuel >= z -> z <= 10 ^ ceil_log10 fuel z /\ 0 <= ceil_log10 fuel z.
Proof.
  induction fuel as [|fuel IH]; intros z Hz; [change (10 ^ Z.of_nat 0) with 1 in Hz; change (ceil_log10 0 z) with 0; lia|]. cbn [ceil_log10].
  destruct (Z.leb_spec z 1); [cbn; lia|]. rewrite Nat2Z.inj_succ, Z.pow_succ_r in Hz by lia.
  destruct (IH ((z + 9) / 10)) as [Hle H0]; [enough ((z + 9) / 10 < 10 ^ Z.of_nat fuel + 1) by lia; apply Z.div_lt_upper_bound; lia|].
  rewrite Z.pow_add_r by lia. change (10 ^ 1) with 10. pose proof (Z.div_mod (z + 9) 10 ltac:(lia)).
  pose proof (Z.mod_pos_bound (z + 9) 10 ltac:(lia)). lia.
Qed.

(** A limit that is at most 100 bits per second ends the test. *)
Lemma small_limit_divides_by_zero max_bps val : 0 < max_bps <= 100 -> val <> 0 ->
  exists factor_, new_RateLimitPicker max_bps = Some factor_ /\ RoundVal factor_ val = None.
Proof.
  intros Hm Hv. exists 0. split; [|unfold RoundVal; by rewrite (proj2 (Z.eqb_neq _ _))].
  unfold new_RateLimitPicker. rewrite (proj2 (Z.ltb_lt _ _)) by lia. do 2 f_equal.
  assert (Hc : ceil_log10 19 max_bps <= 2).
  { cbn [ceil_log10]. destruct (Z.leb_spec max_bps 1); [lia|]. destruct (Z.leb_spec ((max_bps + 9) / 10) 1); [lia|].
    assert (((max_bps + 9) / 10 + 9) / 10 <= 1); [|by rewrite (proj2 (Z.leb_le _ 1)) by done].
    assert ((max_bps + 9) / 10 < 11) by (apply Z.div_lt_upper_bound; lia).
    enough (((max_bps + 9) / 10 + 9) / 10 < 2) by lia. apply Z.div_lt_upper_bound; lia. }
  cbv zeta. by rewrite (proj2 (Z.ltb_lt _ 0)) by lia.
Qed.

(** ** The collector *)

Definition info_metrics (names : gmap (Z * Z) string) (label : string) (i : FlowInfo) : list Metric :=
  match names !! (src_port (flow i), dst_port (flow i)) with
  | None => []
  | Some name =>
      if String.eqb name "" then []
      else [mkMetric (name +:+ "/" +:+ label +:+ "/ss-usage") (dofZ (ewma_usage_bps i));
            mkMetric (name +:+ "/" +:+ label +:+ "/ss-demand") (dofZ (predicted_demand_bps i))]
  end.

(** The names that were added when they were looked up do not matter. *)
Definition same_names (a b : gmap (Z * Z) string) : Prop := forall p, default "" (a !! p) = default "" (b !! p).

Lemma CollectStep_metrics label l : forall c names, same_names (src_dst_port_to_name_ c) names ->
  collected (Collector_CollectStep label l c) = collected c ++ concat (map (info_metrics names label) l) /\
  same_names (src_dst_port_to_name_ (Collector_CollectStep label l c)) names.
Proof.
  unfold Collector_CollectStep. induction l as [|i l IH]; intros c names Hs; [cbn; by rewrite app_nil_r|]. cbn [foldl map concat].
  pose proof (Hs (src_port (flow i), dst_port (flow i))) as Hi.
  destruct (IH (collect_info label c i) names) as [-> ?].
  { intros p. specialize (Hs p). unfold collect_info. rewrite Hi. destruct (decide (p = (src_port (flow i), dst_port (flow i)))) as [->|Hne];
      case_if; cbn [src_dst_port_to_name_]; by rewrite ?lookup_insert_eq, ?lookup_insert_ne by congruence. }
  split; [|done]. unfold collect_info, info_metrics. rewrite Hi.
  destruct (names !! _) as [name|]; cbn [default from_option id]; [|done].
  destruct (String.eqb name ""); cbn [collected]; [done|]. by rewrite <- app_assoc.
Qed.

Lemma collect_all_metrics `{Clock} (x : os_inputs) :
  collected (collect_all x) =
  concat (map (fun step => concat (map (info_metrics (src_dst_port_to_name_ (new_FlowStateCollector (all_flows x))) (step_label step)) (active x step)))
    (seq 0 (num_steps x))).
Proof.
  unfold collect_all. set (c0 := new_FlowStateCollector (all_flows x)).
  enough (Hall : forall l c, same_names (src_dst_port_to_name_ c) (src_dst_port_to_name_ c0) ->
    collected (foldl (fun c step => Collector_CollectStep (step_label step) (active x step) c) c l) =
    collected c ++ concat (map (fun step => concat (map (info_metrics (src_dst_port_to_name_ c0) (step_label step)) (active x step))) l)) by by apply Hall.
  induction l as [|step l IH]; intros c Hs; cbn [foldl map concat]; [by rewrite app_nil_r|].
  destruct (CollectStep_metrics (step_label step) (active x step) c _ Hs) as [Hm Hs']. rewrite IH, Hm by done. by rewrite app_assoc.
Qed.

(** ** What the test reports *)

Lemma Pick_lookup factor_ ds flows l : Pick factor_ ds flows = Some l ->
  forall i f, flows !! i = Some f -> exists v, RoundVal factor_ (ds i) = Some v /\ l !! i = Some (f, v).
Proof.
  unfold Pick. intros H%mapM_Some i f Hf.
  assert (Hi : imap pair flows !! i = Some (i, f)) by (rewrite list_lookup_imap, Hf; done).
  destruct (Forall2_lookup_l _ _ _ _ _ H Hi) as ([f' v] & Hl & Hv). cbn [fst snd] in Hv.
  apply bind_Some in Hv as (v' & Hv & [= <- <-]). by exists v'.
Qed.

(** The wanted rate that the test reports for a flow and a step is the
    limit that the enforcer is given for its connection in that step, and
    it is the random rate rounded down to a multiple of the factor. *)
Theorem Run_reports_limits `{Clock} (x : os_inputs) bundles ms : Run x = OsMetrics bundles ms ->
  exists factor_, new_RateLimitPicker (max_rate_limit_bps x) = Some factor_ /\
  forall step i f, (step <= num_steps x)%nat -> all_flows x !! i = Some f ->
  exists v b, RoundVal factor_ (draws x step i) = Some v /\ bundles !! step = Some b /\
    flow_allocs b !! i = Some (mkFlowAlloc (MarkerOf f) v 0) /\
    mkMetric (f_name f +:+ "/" +:+ step_label step +:+ "/want") (dofZ v) ∈ ms.
Proof.
  unfold Run. destruct (create_ok x); [cbn [negb]|done]. destruct (forallb _ _); [cbn [negb]|done].
  destruct (all_limits x) as [limits|] eqn:El; [|done]. destruct (collector_ok x); [|done]. intros [= <- <-].
  unfold all_limits in El. apply bind_Some in El as (factor_ & Hf & Hl). exists factor_. split; [done|]. intros step i f Hstep Hi.
  apply mapM_Some in Hl. assert (Hs : seq 0 (S (num_steps x)) !! step = Some step) by (apply lookup_seq; lia).
  destruct (Forall2_lookup_l _ _ _ _ _ Hl Hs) as (l & Hlk & Hp). destruct (Pick_lookup _ _ _ _ Hp i f Hi) as (v & Hv & Hli).
  exists v, (limits_bundle l). split_and!; [done|by rewrite list_lookup_fmap, Hlk| |].
  - cbn [limits_bundle flow_allocs]. by rewrite list_lookup_fmap, Hli.
  - unfold sort_metrics. rewrite merge_sort_Permutation, elem_of_app. left.
    apply list_elem_of_In, in_concat. exists (want_metrics l (step_label step)). split.
    + apply list_elem_of_In, list_elem_of_lookup. exists step. by rewrite list_lookup_imap, Hlk.
    + apply list_elem_of_In, list_elem_of_lookup. exists i. unfold want_metrics. by rewrite list_lookup_fmap, Hli.
Qed.

(** ** An example *)

Definition example_info : FlowInfo := mkFlowInfo (mkFlowMarker "" "" "" 1 "127.0.0.1" "127.0.0.1" TCP 40001 8001 1) 900 700 0 0 0 0 0 false None.

(** Two hosts, one step. *)
Definition example_inputs : @os_inputs ZClock := {|
  num_hosts := 2; create_ok := true; init_ok := fun _ => true; serve_port := fun j => 8000 + Z.of_nat j;
  src_port_of := fun i j => 40000 + Z.of_nat j; max_rate_limit_bps := 5000; draws := fun step i => 1234 + 100 * Z.of_nat step + Z.of_nat i;
  collector_ok := true; num_steps := 1; active := fun _ => [example_info];
  worker_at_end := fun i =>
    let out := pretty i +:+ "->" +:+ pretty (1 - i)%nat in let into := pretty (1 - i)%nat +:+ "->" +:+ pretty i in
    run_worker (at_seconds 1) [NewFlow (out, false); NewFlow (into, true); Moved (out, false) 100; Moved (into, true) 90; Step "step = 0" (at_seconds 3)] |}.

Definition example_run : list AllocBundle * list Metric :=
  match Run example_inputs with OsMetrics b m => (b, m) | _ => ([], []) end.

Lemma Run_reports_limits_witness : exists v b, RoundVal 10 1334 = Some v /\ fst example_run !! 1%nat = Some b /\
  flow_allocs b !! 0%nat = Some (mkFlowAlloc (MarkerOf (mkFlow "0->1" 40001 8001)) v 0) /\
  mkMetric ("0->1" +:+ "/" +:+ step_label 1 +:+ "/want") (dofZ v) ∈ snd example_run.
Proof.
  destruct (Run_reports_limits example_inputs (fst example_run) (snd example_run)) as (factor_ & Hf & H); [reflexivity|].
  assert (factor_ = 10) as -> by (vm_compute in Hf; by injection Hf).
  apply (H 1%nat 0%nat (mkFlow "0->1" 40001 8001)); [cbn; lia|reflexivity].
Defined.

(** The limits that are set after the last step are reported too, and
    nothing is measured for them: the table of a test is never complete. *)
Lemma last_step_is_incomplete :
  fst (csv_rows false (snd example_run)) = false /\
  map fst (snd (csv_rows true (snd example_run))) = [("0->1", "0"); ("0->1", "1"); ("1->0", "0"); ("1->0", "1")] /\
  map (fun x => AnyNaN (snd x)) (snd (csv_rows true (snd example_run))) = [false; true; true; true].
Proof. split_and!; by vm_compute. Qed.
