(* ===== verification/ExpectedLoad.v ===== *)
(** * ExpectedLoad: what a workload should look like

    src/heyp/app/testlopri/mk-expected-tput.cc and
    mk-expected-interarrival-dist.cc draw the requests of a workload and
    print how many fall into each millisecond, and the distribution of the
    delays between them.  A duration is a number of quarter nanoseconds, the
    resolution of [absl::Duration]; its conversions and the values that the
    random distributions return are parameters. *)

From S2P Require Import Prelude Doubles LoadGen.

#[local] Open Scope list_scope.
#[local] Open Scope Z_scope.

Inductive Distribution := DIST_UNSET | DIST_CONSTANT | DIST_UNIFORM | DIST_EXPONENTIAL.

(** [s_run_dur]: [None] when the duration cannot be parsed. *)
Record Stage := mkExpStage { s_config : stage_config; s_dist : Distribution; s_run_dur : option Z }.

(** [None]: the distribution is not supported, and the program exits. *)
Definition dist_param (s : Stage) : option double :=
  match s_dist s with
  | DIST_CONSTANT | DIST_UNIFORM => Some (ddiv d1 (rpcs_per_sec (s_config s)))
  | DIST_EXPONENTIAL => Some (rpcs_per_sec (s_config s))
  | DIST_UNSET => None
  end.

Section ExpectedLoad.
Variable Nanoseconds : double -> Z.
Variable ToDoubleSeconds : Z -> double.

(** ** Requests per millisecond *)

Definition ms : Z := 4000000.

(** One more request; the last pair of the vector comes first. *)
Fixpoint fill (fuel : nat) (now : Z) (time_and_count : list (Z * Z)) : option (list (Z * Z)) :=
  match fuel, time_and_count with
  | O, _ => None
  | _, [] => None
  | S fuel, (first, count) :: _ =>
      if first + ms <? now then fill fuel now ((first + ms, 0) :: time_and_count) else Some time_and_count
  end.

Definition fill_fuel (now : Z) (time_and_count : list (Z * Z)) : nat :=
  match time_and_count with [] => 0 | (first, _) :: _ => S (Z.to_nat ((now - first) / ms)) end.

Definition count_request (now : Z) (time_and_count : list (Z * Z)) : option (list (Z * Z)) :=
  l ← fill (fill_fuel now time_and_count) now time_and_count;
  match l with [] => None | (first, count) :: l => Some ((first, u64 (count + 1)) :: l) end.

(** The delay before the next request; [draw]: what the distribution of the
    stage returns for it, if it is random. *)
Definition next_delay (s : Stage) (param draw : double) : Z :=
  match s_dist s with
  | DIST_CONSTANT => Nanoseconds (dmul param (dofZ (10 ^ 9)))
  | _ => Nanoseconds (dmul draw (dofZ (10 ^ 9)))
  end.

Variable draw : nat -> double.

(** A stage up to its end; [n]: the requests so far. *)
Fixpoint stage_loop (fuel : nat) (s : Stage) (param : double) (stage_end_time now : Z) (n : nat) (time_and_count : list (Z * Z))
    : option (Z * nat * list (Z * Z)) :=
  if now <? stage_end_time
  then match fuel with
       | O => None
       | S fuel =>
           let now := now + next_delay s param (draw n) in
           l ← count_request now time_and_count; stage_loop fuel s param stage_end_time now (S n) l
       end
  else Some (now, n, time_and_count).

Inductive tput_result := TputExit | TputOut (time_and_count : list (Z * Z)).

(** [None]: out of fuel. *)
Fixpoint tput_stages (fuel : nat) (stages : list Stage) (stage_end_time now : Z) (n : nat) (time_and_count : list (Z * Z))
    : option tput_result :=
  match stages with
  | [] => Some (TputOut (rev time_and_count))
  | s :: stages =>
      match s_run_dur s, dist_param s with
      | Some d, Some param =>
          let stage_end_time := stage_end_time + d in
          '(now, n, l) ← stage_loop fuel s param stage_end_time now n time_and_count;
          tput_stages fuel stages stage_end_time now n l
      | _, _ => Some TputExit
      end
  end.

Definition tput_Run (fuel : nat) (stages : list Stage) : option tput_result := tput_stages fuel stages 0 0 0 [(0, 0)].

(** The lines that are printed: nanoseconds and a count. *)
Definition tput_lines (l : list (Z * Z)) : list (Z * Z) := map (fun p => (fst p / 4, snd p)) l.

(** *** What is meant *)

(** When the requests of a stage are sent, and the time at its end. *)
Fixpoint stage_times (fuel : nat) (s : Stage) (param : double) (stage_end_time now : Z) (n : nat) : list Z :=
  if now <? stage_end_time
  then match fuel with
       | O => []
       | S fuel => let now := now + next_delay s param (draw n) in now :: stage_times fuel s param stage_end_time now (S n)
       end
  else [].

Fixpoint request_times (fuel : nat) (stages : list Stage) (stage_end_time now : Z) (n : nat) : list Z :=
  match stages with
  | [] => []
  | s :: stages =>
      match s_run_dur s, dist_param s with
      | Some d, Some param =>
          let stage_end_time := stage_end_time + d in
          let l := stage_times fuel s param stage_end_time now n in
          l ++ request_times fuel stages stage_end_time (List.last l now) (n + length l)
      | _, _ => []
      end
  end.

(** The millisecond of a time; a full millisecond belongs to the one it ends. *)
Definition bin_of (t : Z) : Z := Z.max 0 ((t - 1) / ms).

Definition in_bin (k : Z) (times : list Z) : Z := Z.of_nat (length (List.filter (fun t => bin_of t =? k) times)).

(** The counts of the milliseconds 0 to n, the last first. *)
Fixpoint bins (n : nat) (times : list Z) : list (Z * Z) :=
  match n with
  | O => [(0, in_bin 0 times)]
  | S m => (Z.of_nat n * ms, in_bin (Z.of_nat n) times) :: bins m times
  end.

Definition last_bin (times : list Z) : nat := Z.to_nat (bin_of (List.last times 0)).

Definition delays_ok : Prop := forall s param n, 0 <= next_delay s param (draw n).

Lemma bin_of_le t n : 0 <= n -> bin_of t <= n <-> t <= (n + 1) * ms.
Proof.
  intros Hn. unfold bin_of, ms. pose proof (Z.div_mod (t - 1) 4000000 ltac:(lia)).
  pose proof (Z.mod_pos_bound (t - 1) 4000000 ltac:(lia)). lia.
Qed.

Lemma bin_of_mono t t' : t <= t' -> bin_of t <= bin_of t'.
Proof. intros H. unfold bin_of. pose proof (Z.div_le_mono (t - 1) (t' - 1) ms ltac:(unfold ms; lia) ltac:(lia)). lia. Qed.

Lemma bins_app n times t : Z.of_nat n < bin_of t -> bins n (times ++ [t]) = bins n times.
Proof.
  intros Ht. assert (Hk : forall k, (k <= Z.of_nat n) -> in_bin k (times ++ [t]) = in_bin k times).
  { intros k Hk. unfold in_bin. rewrite List.filter_app. cbn [List.filter]. rewrite (proj2 (Z.eqb_neq _ _)) by lia. by rewrite app_nil_r. }
  induction n as [|n IH]; cbn [bins]; [by rewrite Hk|]. rewrite Hk, IH by (done || lia || (intros; apply Hk; lia)). done.
Qed.

Lemma bins_hd n times : bins n times = (Z.of_nat n * ms, in_bin (Z.of_nat n) times) :: (match n with O => [] | S m => bins m times end).
Proof. by destruct n. Qed.

Lemma in_bin_none k times : Forall (fun t => bin_of t <> k) times -> in_bin k times = 0.
Proof.
  unfold in_bin. induction 1 as [|t times Ht _ IH]; [done|]. cbn [List.filter]. by rewrite (proj2 (Z.eqb_neq _ _)).
Qed.

Lemma bin_of_nonneg t : 0 <= bin_of t.
Proof. apply Z.le_max_l. Qed.

Lemma fill_bins m : forall n fuel now times, Forall (fun t => bin_of t <= Z.of_nat n) times ->
  Z.to_nat (bin_of now) = (n + m)%nat -> (m < fuel)%nat ->
  fill fuel now (bins n times) = Some (bins (n + m) times).
Proof.
  induction m as [|m IH]; intros n fuel now times Hall Hb Hf; (destruct fuel as [|fuel]; [lia|]); rewrite bins_hd; cbn [fill];
    rewrite <- bins_hd; pose proof (bin_of_nonneg now) as H0.
  - rewrite Nat.add_0_r in *. pose proof (proj1 (bin_of_le now (Z.of_nat n) ltac:(lia)) ltac:(lia)).
    rewrite (proj2 (Z.ltb_ge _ _)) by lia. done.
  - destruct (Z.ltb_spec (Z.of_nat n * ms + ms) now) as [|Hle].
    2:{ pose proof (proj2 (bin_of_le now (Z.of_nat n) ltac:(lia)) ltac:(lia)). lia. }
    assert (Hz : in_bin (Z.of_nat (S n)) times = 0).
    { apply in_bin_none. eapply Forall_impl; [exact Hall|]. cbn. lia. }
    replace ((Z.of_nat n * ms + ms, 0) :: bins n times) with (bins (S n) times)
      by (cbn [bins]; rewrite Hz; do 2 f_equal; lia).
    rewrite (IH (S n)); [by replace (S n + m)%nat with (n + S m)%nat by lia| |lia|lia].
    eapply Forall_impl; [exact Hall|]. cbn. lia.
Qed.

Lemma count_request_bins now times : Forall (fun t => t <= List.last times 0) times -> List.last times 0 <= now ->
  Z.of_nat (length times) + 1 < 2 ^ 64 ->
  count_request now (bins (last_bin times) times) = Some (bins (last_bin (times ++ [now])) (times ++ [now])).
Proof.
  intros Hall Hnow Hlen. pose proof (bin_of_nonneg (List.last times 0)) as H0. pose proof (bin_of_mono _ _ Hnow) as Hmono.
  assert (Hn : Forall (fun t => bin_of t <= Z.of_nat (last_bin times)) times).
  { eapply Forall_impl; [exact Hall|]. intros t Ht. cbn. unfold last_bin. rewrite Z2Nat.id by done. by apply bin_of_mono. }
  assert (Hlast : last_bin (times ++ [now]) = Z.to_nat (bin_of now)) by (unfold last_bin; by rewrite last_last).
  unfold count_request. rewrite (fill_bins (Z.to_nat (bin_of now) - last_bin times)); [|done|unfold last_bin; lia|].
  2:{ rewrite bins_hd. cbn [fill_fuel]. unfold last_bin. rewrite Z2Nat.id by done.
      destruct (Z.eq_dec (bin_of now) (bin_of (List.last times 0))) as [->|]; [lia|].
      assert (~ now <= (bin_of now - 1 + 1) * ms) by (rewrite <- bin_of_le by lia; lia).
      assert (bin_of now - bin_of (List.last times 0) <= (now - bin_of (List.last times 0) * ms) / ms)
        by (apply Z.div_le_lower_bound; unfold ms in *; lia). lia. }
  replace (last_bin times + (Z.to_nat (bin_of now) - last_bin times))%nat with (Z.to_nat (bin_of now)) by (unfold last_bin; lia).
  rewrite Hlast. cbn [mbind option_bind]. rewrite (bins_hd _ times), (bins_hd _ (times ++ [now])). do 2 f_equal.
  - f_equal. unfold in_bin. rewrite List.filter_app, length_app. cbn [List.filter]. rewrite Z2Nat.id, Z.eqb_refl by apply bin_of_nonneg.
    pose proof (filter_length_le (fun t => bin_of t =? bin_of now) times). rewrite u64_id by (unfold in_u64; lia). cbn [length]. lia.
  - destruct (Z.to_nat (bin_of now)) as [|k] eqn:Ek; [done|]. symmetry. apply bins_app. lia.
Qed.

Definition good (times : list Z) (now : Z) : Prop := Forall (fun t => t <= List.last times 0) times /\ List.last times 0 <= now.

Lemma good_snoc times now now' : good times now -> now <= now' -> good (times ++ [now']) now'.
Proof.
  intros [Hall Hl] Hn. unfold good. rewrite last_last. split; [|lia]. apply Forall_app. split; [|by constructor].
  eapply Forall_impl; [exact Hall|]. cbn. lia.
Qed.

Lemma last_cons_default (x d : Z) l : List.last (x :: l) d = List.last l x.
Proof. revert x d. induction l as [|y l IH]; intros x d; [done|]. change (List.last (x :: y :: l) d) with (List.last (y :: l) d). by rewrite !IH. Qed.

Lemma stage_loop_bins s param end_time : delays_ok -> forall fuel now n times r, good times now ->
  Z.of_nat (length times + fuel) < 2 ^ 64 ->
  stage_loop fuel s param end_time now n (bins (last_bin times) times) = Some r ->
  let ts := stage_times fuel s param end_time now n in
  r = (List.last ts now, n + length ts, bins (last_bin (times ++ ts)) (times ++ ts))%nat /\
  good (times ++ ts) (List.last ts now) /\ (length ts <= fuel)%nat.
Proof.
  intros Hd. induction fuel as [|fuel IH]; intros now n times r Hg Hlen; cbn [stage_loop stage_times]; destruct (now <? end_time);
    try done; try (intros [= <-]; cbn [length List.last]; rewrite app_nil_r, Nat.add_0_r; split_and!; (done || apply Hg || lia)).
  specialize (Hd s param n). cbv zeta. set (now' := now + next_delay s param (draw n)) in *.
  rewrite count_request_bins; [|apply Hg|destruct Hg; lia|lia]. cbn [mbind option_bind]. intros Hr.
  apply IH in Hr as (-> & Hg' & Hl); [|by apply (good_snoc times now); [|lia]|rewrite length_app; cbn; lia].
  set (ts := stage_times fuel s param end_time now' (S n)) in *. cbn [length].
  rewrite last_cons_default. rewrite <- app_assoc in *. cbn [app] in *. split_and!; [do 2 f_equal; lia|done|lia].
Qed.

(** The lines that are printed are the milliseconds from 0 to that of the
    last request, each with the number of the requests in it. *)
Theorem tput_Run_counts fuel stages out : delays_ok -> Z.of_nat (fuel * length stages) < 2 ^ 64 ->
  tput_Run fuel stages = Some (TputOut out) ->
  let times := request_times fuel stages 0 0 0 in out = rev (bins (last_bin times) times).
Proof.
  intros Hd Hlen. unfold tput_Run.
  enough (Hall : forall stages end_time now n times, good times now -> Z.of_nat (length times + fuel * length stages) < 2 ^ 64 ->
    tput_stages fuel stages end_time now n (bins (last_bin times) times) = Some (TputOut out) ->
    out = rev (bins (last_bin (times ++ request_times fuel stages end_time now n)) (times ++ request_times fuel stages end_time now n))).
  { intros H. by apply (Hall stages 0 0 0%nat []) in H. }
  clear stages Hlen. induction stages as [|s stages IH]; intros end_time now n times Hg Hlen; cbn [tput_stages request_times].
  - intros [= <-]. by rewrite app_nil_r.
  - destruct (s_run_dur s) as [d|]; [|done]. destruct (dist_param s) as [param|]; [|done]. cbv zeta.
    destruct (stage_loop _ _ _ _ _ _ _) as [r|] eqn:Er; [|done].
    apply stage_loop_bins in Er as (-> & Hg' & Hl); [|done|done|cbn [length] in Hlen; lia]. cbn [mbind option_bind]. intros H.
    apply IH in H; [|done|rewrite length_app; cbn [length] in Hlen; lia]. by rewrite app_assoc.
Qed.

(** With delays of at least a quarter of a nanosecond each stage ends. *)
Lemma stage_loop_ends s param end_time : (forall n, 1 <= next_delay s param (draw n)) -> forall fuel now n times, good times now ->
  Z.of_nat (length times + fuel) < 2 ^ 64 -> end_time - now <= Z.of_nat fuel ->
  exists r, stage_loop fuel s param end_time now n (bins (last_bin times) times) = Some r.
Proof.
  intros Hd. induction fuel as [|fuel IH]; intros now n times Hg Hlen Hf; cbn [stage_loop]; destruct (Z.ltb_spec now end_time);
    try (by eexists); [lia|]. specialize (Hd n). cbv zeta. rewrite count_request_bins; [|apply Hg|destruct Hg; lia|lia].
  cbn [mbind option_bind]. apply IH; [apply (good_snoc times now); [done|lia]|rewrite length_app; cbn; lia|lia].
Qed.

(** ** The delays *)

(** [accum], and the last one set to 1; [None]: there is no last one. *)
Fixpoint accum_fracs (accum : double) (total_dur : Z) (durs : list Z) : list double :=
  match durs with
  | [] => []
  | d :: durs => let accum := dadd accum (ddiv (ToDoubleSeconds d) (ToDoubleSeconds total_dur)) in accum :: accum_fracs accum total_dur durs
  end.

Inductive fracs_result := FracsExit | Fracs (fracs : list double).

Definition FracTimeInEachStage (config : list Stage) : option fracs_result :=
  match mapM s_run_dur config with
  | None => Some FracsExit
  | Some durs =>
      let fracs := accum_fracs d0 (foldl Z.add 0 durs) durs in
      match fracs with [] => None | _ => Some (Fracs (removelast fracs ++ [d1])) end
  end.

(** [std::lower_bound]. *)
Fixpoint lower_bound_index (fracs : list double) (x : double) : nat :=
  match fracs with [] => 0 | f :: fracs => if dlt f x then S (lower_bound_index fracs x) else 0 end.

(** [uniform]: what [absl::Uniform(rng, 0, 1)] returns, an [int]; [draw]: the
    value of the stage's distribution.  [None]: no such stage, or the
    program exits. *)
Definition PickRandomInterarrival (config : list Stage) (fracs : list double) (uniform : Z) (draw : double) : option Z :=
  stage ← config !! lower_bound_index fracs (dofZ uniform);
  param ← dist_param stage;
  let wait_sec := match s_dist stage with DIST_CONSTANT => param | _ => draw end in
  Some (double_to_i64 (dmul wait_sec (dofZ (10 ^ 9)))).

Definition kNumSamples : nat := 1000.

(** The lines: percentile and nanoseconds. *)
Definition interarrival_Run (config : list Stage) (uniform : nat -> Z) : option (list (double * Z)) :=
  r ← FracTimeInEachStage config;
  match r with
  | FracsExit => None
  | Fracs fracs =>
      data ← mapM (fun i => PickRandomInterarrival config fracs (uniform i) (draw i)) (seq 0 kNumSamples);
      Some (imap (fun i d => (ddiv (dofZ (100 * (Z.of_nat i + 1))) (dofZ (Z.of_nat kNumSamples)), d)) (merge_sort Z.le data))
  end.

(** An integer in [0, 1) is 0, so every delay is drawn from the first stage. *)
Lemma only_first_stage config fracs uniform x : 0 <= uniform < 1 ->
  match fracs with f :: _ => dlt f d0 = false | [] => True end ->
  PickRandomInterarrival config fracs uniform x = PickRandomInterarrival (take 1 config) fracs uniform x.
Proof.
  intros Hu Hf. assert (uniform = 0) as -> by lia. unfold PickRandomInterarrival. change (dofZ 0) with d0.
  assert (lower_bound_index fracs d0 = 0%nat) as -> by (destruct fracs as [|f l]; cbn; [done|]; by rewrite Hf). by destruct config.
Qed.

End ExpectedLoad.

(** Two requests a millisecond in a stage of four. *)
Definition example_stage : Stage := mkExpStage (mkStageConfig 1000 (dofZ 16000000) 0) DIST_CONSTANT (Some (4 * ms)).
Definition example_nanoseconds (x : double) : Z := Z.max 0 (4 * double_to_i64 x).

Lemma tput_Run_counts_witness : exists out, tput_Run example_nanoseconds (fun _ => d0) 20 [example_stage] = Some (TputOut out) /\
  let times := request_times example_nanoseconds (fun _ => d0) 20 [example_stage] 0 0 0 in out = rev (bins (last_bin times) times).
Proof.
  exists [(0, 2); (ms, 2); (2 * ms, 2); (3 * ms, 2)]. split; [by vm_compute|].
  apply (tput_Run_counts example_nanoseconds (fun _ => d0) 20 [example_stage]).
  - intros s param n. unfold next_delay, example_nanoseconds. destruct (s_dist s); lia.
  - cbn. lia.
  - by vm_compute.
Defined.

(** A workload with a slow second stage, and what is drawn from it. *)
Lemma second_stage_is_ignored :
  let slow := mkExpStage (mkStageConfig 1000 (dofZ 1600) 0) DIST_CONSTANT (Some (400 * ms)) in
  PickRandomInterarrival [example_stage; slow] [dlit 1 100; d1] 0 d0 = Some 500000.
Proof. by vm_compute. Qed.
